(** * nip.dataset: parsing, validation, construction and filtering of
    BIDS-like dataset trees (shallow embedding of [nip/dataset.py]). *)

From Stdlib Require Import ZArith String Ascii List Permutation Lia Bool.
From stdpp Require Import base list strings pretty.

Set Warnings "-register-all".

Local Open Scope Z_scope.
Local Open Scope string_scope.
Local Open Scope list_scope.

(* ===================================================================== *)
(** * Python values and primitives used by the module *)
(* ===================================================================== *)

Module Py.

(** Exceptions the code can raise. [UnpackError] is the [ValueError]
    Python raises when a tuple assignment has the wrong number of values. *)
Inductive exn :=
| ValueError (msg : string)
| UnpackError (expected got : nat)
| KeyError (key : Z)
| KeyErrorStr (key : string)
| IndexError
| AttributeError (name : string)
| ReError (regex : string)
| TypeError (what : string).

Inductive result (A : Type) :=
| Ok (a : A)
| Raise (e : exn).
Arguments Ok {A} a.
Arguments Raise {A} e.

Definition rbind {A B} (r : result A) (k : A -> result B) : result B :=
  match r with
  | Ok a => k a
  | Raise e => Raise e
  end.

Definition is_ok {A} (r : result A) : bool :=
  match r with Ok _ => true | Raise _ => false end.

(** An attribute of an instance: never assigned, or holding a value. *)
Inductive attr (A : Type) :=
| Unset
| Value (a : A).
Arguments Unset {A}.
Arguments Value {A} a.

(** ** dict: insertion ordered, keys unique *)
Definition dict (K V : Type) := list (K * V).

Section Dict.
Context {K V : Type} `{EqDecision K}.

Fixpoint dict_get (k : K) (d : dict K V) : option V :=
  match d with
  | [] => None
  | (k', v) :: d' => if decide (k = k') then Some v else dict_get k d'
  end.

(** [d[k] = v]: replaces in place, or appends a new key at the end. *)
Fixpoint dict_set (k : K) (v : V) (d : dict K V) : dict K V :=
  match d with
  | [] => [(k, v)]
  | (k', v') :: d' =>
      if decide (k = k') then (k, v) :: d' else (k', v') :: dict_set k v d'
  end.

Definition dict_has (k : K) (d : dict K V) : bool :=
  match dict_get k d with Some _ => true | None => false end.

Definition dict_items (d : dict K V) : list (K * V) := d.
Definition dict_values (d : dict K V) : list V := map snd d.
Definition dict_keys (d : dict K V) : list K := map fst d.
End Dict.

(** ** str *)

(** [s.split(sep)] for a one-character separator. *)
Fixpoint str_split (sep : ascii) (s : string) : list string :=
  match s with
  | EmptyString => [EmptyString]
  | String c s' =>
      if Ascii.eqb c sep then EmptyString :: str_split sep s'
      else match str_split sep s' with
           | h :: t => String c h :: t
           | [] => [String c EmptyString]
           end
  end.

(** [s.split(sep, 1)]: at most one split, at the first separator. *)
Fixpoint str_split1 (sep : ascii) (s : string) : list string :=
  match s with
  | EmptyString => [EmptyString]
  | String c s' =>
      if Ascii.eqb c sep then [EmptyString; s']
      else match str_split1 sep s' with
           | h :: t => String c h :: t
           | [] => [String c EmptyString]
           end
  end.

(** [sep.join(l)] *)
Definition str_join (sep : string) (l : list string) : string :=
  String.concat sep l.

Fixpoint str_contains (c : ascii) (s : string) : bool :=
  match s with
  | EmptyString => false
  | String c' s' => Ascii.eqb c' c || str_contains c s'
  end.

Definition str_startswith (p s : string) : bool := String.prefix p s.

Fixpoint str_last (s : string) : option ascii :=
  match s with
  | EmptyString => None
  | String c EmptyString => Some c
  | String _ s' => str_last s'
  end.

Definition str_truthy (s : string) : bool :=
  match s with EmptyString => false | _ => true end.

(** [x in l] for a list of strings. *)
Definition str_in (x : string) (l : list string) : bool :=
  existsb (String.eqb x) l.

(** [x in l] where [x] may be [None]: [None] is never equal to a str. *)
Definition opt_in (x : option string) (l : list string) : bool :=
  match x with
  | Some s => str_in s l
  | None => false
  end.

(** ** sorted: a stable sort on the strict order [lt] of the keys *)
Section Sorted.
Context {A : Type} (lt : A -> A -> bool).

Fixpoint insert_sorted (x : A) (l : list A) : list A :=
  match l with
  | [] => [x]
  | y :: l' => if lt y x then y :: insert_sorted x l' else x :: y :: l'
  end.

Definition sorted (l : list A) : list A := foldr insert_sorted [] l.
End Sorted.

(** Orders on the keys: str by code units, tuples lexicographically.
    [None] only ever meets [None] in one run of the code (a field is a str
    for every record of a dataset or [None] for every record). *)
Definition cmp_opt (a b : option string) : comparison :=
  match a, b with
  | None, None => Eq
  | None, Some _ => Lt
  | Some _, None => Gt
  | Some x, Some y => String.compare x y
  end.

Definition cmp_then (c : comparison) (d : comparison) : comparison :=
  match c with Eq => d | _ => c end.

Definition is_lt (c : comparison) : bool :=
  match c with Lt => true | _ => false end.

(** [sorted(set(l))] *)
Definition sorted_set (l : list string) : list string :=
  sorted String.ltb (remove_dups l).

(** ** os.path.join on POSIX, two arguments *)
Definition os_path_join (a b : string) : string :=
  if str_startswith "/" b then b
  else if negb (str_truthy a) || match str_last a with
                                 | Some c => Ascii.eqb c "/"%char
                                 | None => false
                                 end
       then a +:+ b
       else a +:+ "/" +:+ b.

(** [all(l)] *)
Definition all (l : list bool) : bool := forallb id l.

End Py.
Import Py.

(* ===================================================================== *)
(** * nip.helper *)
(* ===================================================================== *)

(** Modelled from the spec: [nip/helper.py] is not among the sources. The
    helper drops the empty strings of a list ("strip empty str in list"). *)
Definition strip_empty_str_in_list (l : list string) : list string :=
  List.filter str_truthy l.

(** Modelled from the spec: [nip/helper.py] is not among the sources. A
    path is decomposed "by splitting on path separators" into its
    segments; depth is "the number of path segments below the scan root". *)
Definition str_to_list (path : string) : list string :=
  strip_empty_str_in_list (str_split "/"%char path).

(* ===================================================================== *)
(** * The environment: regular expressions and path resolution *)
(* ===================================================================== *)

(** The standard library functions the module calls with arguments chosen by
    the caller: [re.compile] (which raises on a malformed expression),
    [Pattern.match] (anchored at the start of the string) and
    [os.path.abspath]. *)
Class Env := {
  re_pattern : Type;
  re_compile : string -> option re_pattern;
  re_match : re_pattern -> string -> bool;
  os_path_abspath : string -> string;
}.

(** The three expressions compiled by [_validator] are fixed, and a match
    is only tested for presence, so each is modelled by what it accepts at
    the start of the string. *)
Definition is_alnum (c : ascii) : bool :=
  let n := nat_of_ascii c in
  ((48 <=? n) && (n <=? 57) || (65 <=? n) && (n <=? 90)
   || (97 <=? n) && (n <=? 122))%nat.

(** [prefix + "[a-zA-Z0-9]+"] matched at the start of [s]. *)
Definition match_tag (tag s : string) : bool :=
  str_startswith tag s &&
  match String.get (String.length tag) s with
  | Some c => is_alnum c
  | None => false
  end.

(** [re.compile(r'sub-[a-zA-Z0-9]+').match(s) != None] *)
Definition subj_pattern_match (s : string) : bool := match_tag "sub-" s.
(** [re.compile(r'ses-[a-zA-Z0-9]+').match(s) != None] *)
Definition sess_pattern_match (s : string) : bool := match_tag "ses-" s.
(** [re.compile(r'sub-[a-zA-Z0-9]+(_ses-[a-zA-Z0-9]+)?.*').match(s) != None]:
    the optional group and the trailing [.*] may both match nothing. *)
Definition file_pattern_match (s : string) : bool := match_tag "sub-" s.

(* ===================================================================== *)
(** * Data classes *)
(* ===================================================================== *)

(** [DataItem.by_depth : Dict[int, Dict[str, List[str]]]] *)
Definition DataItem := dict Z (dict string (list string)).

Module FileItem.
Record t := mk {
  subject : string;
  session : option string;
  modal : option string;
  annotation : option string;
  absdir : string;
  filename : string;
  fileext : string;
}.

Definition basename (f : t) : string := filename f +:+ "." +:+ fileext f.
Definition abspath (f : t) : string := os_path_join (absdir f) (basename f).

Definition has_ext (f : t) (ext : string) : bool :=
  let this_ext := strip_empty_str_in_list (str_split "."%char (fileext f)) in
  let quer_ext := strip_empty_str_in_list (str_split "."%char ext) in
  bool_decide (this_ext = quer_ext).

Definition is_match `{Env} (f : t) (regex : string) : result bool :=
  match re_compile regex with
  | Some groups => Ok (re_match groups (filename f))
  | None => Raise (ReError regex)
  end.

#[global] Instance eq_dec : EqDecision t.
Proof. solve_decision. Defined.
End FileItem.

(** [SessionItem.files : Union[List[FileItem], Dict[str, List[FileItem]]]] *)
Inductive files_t (F : Type) :=
| FList (l : list F)
| FDict (d : dict string (list F)).
Arguments FList {F} l.
Arguments FDict {F} d.

Module SessionItem.
Record t := mk {
  subject : string;
  session : option string;
  files : files_t FileItem.t;
}.
End SessionItem.

Module MaxDepthRef.
Record t := mk {
  single_session : Z;
  multi_session : Z;
}.
Definition list (r : t) : list Z := [single_session r; multi_session r].
End MaxDepthRef.

(* ===================================================================== *)
(** * The world: file system, object store, warnings *)
(* ===================================================================== *)

(** A directory as [os.scandir] lists it: sub-directories and plain files,
    in listing order. [Closed] is a directory that [os.walk] does not
    enter: found among the sub-directories, a link to a directory or a
    directory that cannot be read; at the top, a directory that cannot be
    read. *)
Inductive tree :=
| Dir (dirs : list (string * tree)) (files : list string)
| Closed.

(** [os.walk(top)], top-down, with [followlinks=False] and [onerror=None]:
    one triple [(dirpath, dirnames, filenames)] per directory entered. A
    link to a directory and a directory that cannot be read are listed in
    the [dirnames] of their parent, and no triple is yielded for them. *)
Fixpoint os_walk_tree (top : string) (t : tree)
  : list (string * list string * list string) :=
  match t with
  | Dir ds fs =>
      (top, map fst ds, fs)
        :: flat_map (fun '(name, sub) => os_walk_tree (os_path_join top name) sub) ds
  | Closed => []
  end.

(** References into the store are addresses. *)
Abbreviation loc := nat (only parsing).

Module Dataset.
Inductive kind := Raw | Step.

(** The instance attributes of a [BaseParser]. The private attributes are
    assigned by [parse] before anything else can fail. *)
Record t := mk {
  cls : kind;
  path : string;
  dir_only : bool;
  _abs_path : string;
  _abs_path_list : list string;
  _abs_path_depth : nat;
  _files_by_depth : DataItem;
  _dirs_by_depth : DataItem;
  max_depth : Z;
  subjects : attr (option (list string));
  sessions : attr (option (list string));
  modals : attr (option (list string));
  file_list : attr loc;
  session_list : attr loc;
}.
End Dataset.

(** Objects of the store. Lists and dicts hold references, so a
    [FileItem] listed twice is one object, and a copied [SessionItem]
    shares its [files] with the original. *)
Inductive obj :=
| OFile (f : FileItem.t)
| OList (xs : list loc)
| ODict (kvs : dict string loc)
| OSession (subject : string) (session : option string) (files : loc)
| ODataset (d : Dataset.t).

Record world := World {
  heap : list obj;
  warnings : list string;
  fs : string -> option tree;
  io_log : list string;
}.

(** Computations: state passing over the world, with exceptions. A raised
    exception keeps the effects that happened before it. *)
Definition M (A : Type) : Type := world -> world * result A.

#[global] Instance M_ret : MRet M := fun A a w => (w, Ok a).
#[global] Instance M_bind : MBind M := fun A B k m w =>
  match m w with
  | (w', Ok a) => k a w'
  | (w', Raise e) => (w', Raise e)
  end.
#[global] Instance result_ret : MRet result := fun A a => Ok a.
#[global] Instance result_bind : MBind result := fun A B k r => rbind r k.

Definition raise {A} (e : exn) : M A := fun w => (w, Raise e).
Definition lift {A} (r : result A) : M A := fun w => (w, r).

(** [warnings.warn(msg, UserWarning)] *)
Definition warn (msg : string) : M unit := fun w =>
  (World (heap w) (warnings w ++ [msg]) (fs w) (io_log w), Ok tt).

(** [os.walk(top)]: a missing or unreadable [top] yields nothing. *)
Definition os_walk (top : string) : M (list (string * list string * list string)) :=
  fun w =>
    (World (heap w) (warnings w) (fs w) (io_log w ++ [top]),
     Ok match fs w top with
        | Some t => os_walk_tree top t
        | None => []
        end).

(** Allocation of a new object; its reference is the next free address. *)
Definition alloc (o : obj) : M loc := fun w =>
  (World (heap w ++ [o]) (warnings w) (fs w) (io_log w), Ok (length (heap w))).

Definition load (l : loc) : M obj := fun w =>
  match heap w !! l with
  | Some o => (w, Ok o)
  | None => (w, Raise (TypeError "dangling reference"))
  end.

(** Assignment to an attribute of, or an item in, the object at [l]. *)
Definition store (l : loc) (o : obj) : M unit := fun w =>
  (World (<[l := o]> (heap w)) (warnings w) (fs w) (io_log w), Ok tt).

Definition load_list (l : loc) : M (list loc) :=
  o ← load l;
  match o with
  | OList xs => mret xs
  | _ => raise (TypeError "not a list")
  end.

Definition load_file (l : loc) : M FileItem.t :=
  o ← load l;
  match o with
  | OFile f => mret f
  | _ => raise (AttributeError "FileItem")
  end.

Definition load_session (l : loc) : M (string * option string * loc) :=
  o ← load l;
  match o with
  | OSession subj sess fl => mret (subj, sess, fl)
  | _ => raise (AttributeError "SessionItem")
  end.

Definition load_dataset (l : loc) : M Dataset.t :=
  o ← load l;
  match o with
  | ODataset d => mret d
  | _ => raise (AttributeError "BaseParser")
  end.

(** [for x in xs: body(x)] *)
Fixpoint for_each {A} (xs : list A) (body : A -> M unit) : M unit :=
  match xs with
  | [] => mret tt
  | x :: xs' => body x ;; for_each xs' body
  end.

(** [[f(x) for x in xs]] *)
Fixpoint map_M {A B} (f : A -> M B) (xs : list A) : M (list B) :=
  match xs with
  | [] => mret []
  | x :: xs' => y ← f x; ys ← map_M f xs'; mret (y :: ys)
  end.

(** [[x for x in xs if p(x)]] *)
Fixpoint filter_M {A} (p : A -> M bool) (xs : list A) : M (list A) :=
  match xs with
  | [] => mret []
  | x :: xs' =>
      b ← p x; ys ← filter_M p xs'; mret (if b : bool then x :: ys else ys)
  end.

(* ===================================================================== *)
(** * BaseParser *)
(* ===================================================================== *)

(** ** [_init_process] and [_parse_all] *)

Definition _init_process `{Env} (path : string) : string * list string * nat :=
  let abs_path := os_path_abspath path in
  let abs_path_list := strip_empty_str_in_list (str_split "/"%char abs_path) in
  let abs_path_depth := length abs_path_list in
  (abs_path, abs_path_list, abs_path_depth).

(** [if depth not in d.keys(): d[depth] = dict()] then [d[depth][key] = v] *)
Definition by_depth_set (depth : Z) (key : string) (v : list string)
    (d : DataItem) : DataItem :=
  let inner := match dict_get depth d with Some i => i | None => [] end in
  dict_set depth (dict_set key v inner) d.

(** One iteration of the loop over [os.walk]; the state is
    [(max_depth, files_by_depth, dirs_by_depth)]. *)
Definition parse_step (abs_path_depth : nat) (dir_only : bool)
    (st : Z * DataItem * DataItem)
    (entry : string * list string * list string) : Z * DataItem * DataItem :=
  let '(max_depth, files_by_depth, dirs_by_depth) := st in
  let '(dirpath, dirnames, filenames) := entry in
  let dirpath := str_to_list dirpath in
  let relpath := drop abs_path_depth dirpath in
  let depth_step := Z.of_nat (length relpath) in
  let '(max_depth, dirs_by_depth) :=
    if (length dirnames =? 0)%nat
    then ((if (max_depth <? depth_step)%Z then depth_step else max_depth),
          dirs_by_depth)
    else (max_depth,
          by_depth_set depth_step (str_join "/" relpath)
            (sorted String.ltb dirnames) dirs_by_depth) in
  let files_by_depth :=
    if negb dir_only && negb (length filenames =? 0)%nat
    then by_depth_set depth_step (str_join "/" relpath)
           (sorted String.ltb filenames) files_by_depth
    else files_by_depth in
  (max_depth, files_by_depth, dirs_by_depth).

Definition _parse_all (abs_path : string) (abs_path_depth : nat)
    (dir_only : bool) : M (DataItem * DataItem * Z) :=
  entries ← os_walk abs_path;
  let '(max_depth, files_by_depth, dirs_by_depth) :=
    fold_left (parse_step abs_path_depth dir_only) entries (0, [], []) in
  mret (files_by_depth, dirs_by_depth, max_depth).

(** ** [_validator] *)

Definition depth_error (max_depth : Z) (ref : MaxDepthRef.t) : exn :=
  ValueError
    ("Invalid dataset depth: " +:+ pretty max_depth
     +:+ ". Expected depth is " +:+ pretty (MaxDepthRef.single_session ref)
     +:+ " for single session or " +:+ pretty (MaxDepthRef.multi_session ref)
     +:+ " for multi session dataset.").

(** [d[k]] on the depth index, raising [KeyError] *)
Definition by_depth_get (k : Z) (d : DataItem) : result (dict string (list string)) :=
  match dict_get k d with
  | Some v => Ok v
  | None => Raise (KeyError k)
  end.

(** [[s for i, s in enumerate(l) if flags[i]]]; the code only applies it
    to lists no longer than [flags]. *)
Fixpoint keep_flagged (flags : list bool) (l : list string) : list string :=
  match flags, l with
  | b :: flags', s :: l' =>
      if b then s :: keep_flagged flags' l' else keep_flagged flags' l'
  | _, _ => []
  end.

Definition excluded_msg (name tag : string) : string :=
  "The folder '" +:+ name +:+ "' is excluded because it does not match the expected '"
  +:+ tag +:+ "-*' format.".

(** The loop [for i, name in enumerate(names)] of the subject and session
    checks. It runs over the list as it was when the loop started, while
    its body rebinds [names] to the narrowed list. *)
Fixpoint exclude_loop (tag : string) (flags : list bool)
    (iter : list (bool * string)) (names : list string) : M (list string) :=
  match iter with
  | [] => mret names
  | (flag, name) :: iter' =>
      (if flag : bool then warn (excluded_msg name tag) else mret tt) ;;
      exclude_loop tag flags iter' (keep_flagged flags names)
  end.

Definition validate_names (tag : string) (pattern : string -> bool)
    (names : list string) : M (list string) :=
  let flags := map pattern names in
  if negb (all flags)
  then exclude_loop tag flags (zip flags names) names
  else mret names.

Definition file_warning (relpath filename : string) : string :=
  "'" +:+ os_path_join relpath filename
  +:+ "' does not match the expected BIDS file format.".

Definition _validator (dirs files : DataItem) (max_depth : Z)
    (ref : MaxDepthRef.t) (modal dir_only : bool)
  : M (list string * option (list string) * option (list string)) :=
  if negb (bool_decide (max_depth ∈ MaxDepthRef.list ref))
  then raise (depth_error max_depth ref)
  else
    (* validate subject names *)
    top ← lift (by_depth_get 0 dirs);
    root ← lift (match dict_get "" top with
                 | Some v => Ok v
                 | None => Raise (KeyErrorStr "")
                 end);
    subjects ← validate_names "sub" subj_pattern_match (sorted String.ltb root);
    (* if multi session dataset, validate session names *)
    sessions ←
      (if bool_decide (max_depth = MaxDepthRef.multi_session ref)
       then
         level ← lift (by_depth_get (MaxDepthRef.multi_session ref) dirs);
         s ← validate_names "ses" sess_pattern_match
               (sorted_set (concat (dict_values level)));
         mret (Some s)
       else mret None);
    (* if files are included in parsing, validate file names *)
    (if negb dir_only
     then
       level ← lift (by_depth_get max_depth files);
       let filenames := sorted String.ltb (concat (dict_values level)) in
       let is_not_bidsfiles :=
         List.filter (fun f => negb (file_pattern_match f)) filenames in
       if negb (length is_not_bidsfiles =? 0)%nat
       then for_each (dict_items level) (fun '(relpath, sess) =>
              for_each sess (fun filename => warn (file_warning relpath filename)))
       else mret tt
     else mret tt) ;;
    (* returns validated subjects and sessions *)
    modals ←
      (if modal
       then
         level ← lift (by_depth_get (max_depth - 1) dirs);
         mret (Some (sorted_set (concat (dict_values level))))
       else mret None);
    mret (subjects, sessions, modals).

(** ** [_constructor] *)

(** The local variable [modal] of [_constructor]: the flag the caller passed
    until the first path is parsed, afterwards a modality name or [None]. *)
Inductive modal_var :=
| ModalFlag (b : bool)
| ModalName (o : option string).

Definition opt_truthy (o : option string) : bool :=
  match o with
  | Some s => str_truthy s
  | None => false
  end.

Definition modal_truthy (m : modal_var) : bool :=
  match m with
  | ModalFlag b => b
  | ModalName o => opt_truthy o
  end.

(** [f"{subj}-{sess}"] *)
Definition task_id (subj : string) (sess : option string) : string :=
  subj +:+ "-" +:+ match sess with Some s => s | None => "None" end.

(** The positional decomposition of a relative path into
    [(subj, sess, modal)]. *)
Definition parse_meta (max_depth : Z) (ref : MaxDepthRef.t) (modal : modal_var)
    (sess_path : string) : result (string * option string * option string) :=
  let parts := str_to_list sess_path in
  if bool_decide (max_depth = MaxDepthRef.single_session ref) then
    if modal_truthy modal then
      match parts with
      | [subj; m] => Ok (subj, None, Some m)
      | _ => Raise (UnpackError 2 (length parts))
      end
    else
      match parts with
      | subj :: _ => Ok (subj, None, None)
      | [] => Raise IndexError
      end
  else if bool_decide (max_depth = MaxDepthRef.multi_session ref) then
    if modal_truthy modal then
      match parts with
      | [subj; sess; m] => Ok (subj, Some sess, Some m)
      | _ => Raise (UnpackError 3 (length parts))
      end
    else
      match parts with
      | [subj; sess] => Ok (subj, Some sess, None)
      | _ => Raise (UnpackError 2 (length parts))
      end
  else Raise (depth_error max_depth ref).

(** [filename, fileext = f.split('.', 1)] and the [FileItem] built from it. *)
Definition new_file_item (abs_path : string) (abs_path_list : list string)
    (subj : string) (sess modal : option string) (sess_path f : string)
  : result FileItem.t :=
  match str_split1 "."%char f with
  | [filename; fileext] =>
      match last abs_path_list with
      | Some root =>
          Ok (FileItem.mk subj sess modal (Some root)
                (os_path_join abs_path sess_path) filename fileext)
      | None => Raise IndexError
      end
  | parts => Raise (UnpackError 2 (length parts))
  end.

(** Appending [finfo] to [sinfo.files], under its modality if there is one. *)
Definition session_add (modal : option string) (finfo : FileItem.t)
    (files : files_t FileItem.t) : result (files_t FileItem.t) :=
  if opt_truthy modal then
    match files with
    | FDict d =>
        let m := default "" modal in
        let bucket := default [] (dict_get m d) in
        Ok (FDict (dict_set m (bucket ++ [finfo]) d))
    | FList _ => Raise (AttributeError "keys")
    end
  else
    match files with
    | FList l => Ok (FList (l ++ [finfo]))
    | FDict _ => Raise (AttributeError "append")
    end.

Definition name_lt (a b : FileItem.t) : bool :=
  is_lt (cmp_then (String.compare (FileItem.filename a) (FileItem.filename b))
                  (String.compare (FileItem.fileext a) (FileItem.fileext b))).

Definition modal_name_lt (a b : FileItem.t) : bool :=
  is_lt (cmp_then (cmp_opt (FileItem.modal a) (FileItem.modal b))
        (cmp_then (String.compare (FileItem.filename a) (FileItem.filename b))
                  (String.compare (FileItem.fileext a) (FileItem.fileext b)))).

Definition file_lt (a b : FileItem.t) : bool :=
  is_lt (cmp_then (String.compare (FileItem.subject a) (FileItem.subject b))
        (cmp_then (cmp_opt (FileItem.session a) (FileItem.session b))
        (cmp_then (cmp_opt (FileItem.modal a) (FileItem.modal b))
        (cmp_then (String.compare (FileItem.filename a) (FileItem.filename b))
                  (String.compare (FileItem.fileext a) (FileItem.fileext b)))))).

Definition session_lt (a b : SessionItem.t) : bool :=
  is_lt (cmp_then (String.compare (SessionItem.subject a) (SessionItem.subject b))
                  (cmp_opt (SessionItem.session a) (SessionItem.session b))).

(** The sort that ends the processing of one path. *)
Definition session_sort (modal : option string) (files : files_t FileItem.t)
  : result (files_t FileItem.t) :=
  if opt_truthy modal then
    match files with
    | FDict d =>
        let m := default "" modal in
        match dict_get m d with
        | Some bucket => Ok (FDict (dict_set m (sorted name_lt bucket) d))
        | None => Raise (KeyErrorStr m)
        end
    | FList _ => Raise (TypeError "list indices must be integers")
    end
  else
    match files with
    | FList l => Ok (FList (sorted modal_name_lt l))
    | FDict [] => Ok (FList [])
    | FDict _ => Raise (AttributeError "modal")
    end.

(** The loop [for f in filenames]; [sinfo.files] and [file_list] are the
    state. *)
Fixpoint construct_files (abs_path : string) (abs_path_list : list string)
    (subj : string) (sess modal : option string) (sess_path : string)
    (filenames : list string)
    (st : files_t FileItem.t * list FileItem.t)
  : result (files_t FileItem.t * list FileItem.t) :=
  match filenames with
  | [] => Ok st
  | f :: filenames' =>
      finfo ← new_file_item abs_path abs_path_list subj sess modal sess_path f;
      files ← session_add modal finfo (fst st);
      construct_files abs_path abs_path_list subj sess modal sess_path
        filenames' (files, snd st ++ [finfo])
  end.

Record cstate := CState {
  c_modal : modal_var;
  c_processed : list string;
  c_session_list : list SessionItem.t;
  c_file_list : list FileItem.t;
}.

(** The session the path belongs to: its index in [session_list], and the
    list and the processed keys after a new session was appended. *)
Definition lookup_session (subj : string) (sess modal : option string)
    (processed : list string) (session_list : list SessionItem.t)
  : result (nat * list string * list SessionItem.t) :=
  if str_in (task_id subj sess) processed then
    match list_find (fun si => SessionItem.subject si = subj
                               ∧ SessionItem.session si = sess) session_list with
    | Some (i, _) => Ok (i, processed, session_list)
    | None => Raise IndexError
    end
  else
    let sinfo := SessionItem.mk subj sess
                   (if opt_truthy modal then FDict [] else FList []) in
    Ok (length session_list, processed ++ [task_id subj sess],
        session_list ++ [sinfo]).

(** One iteration of the loop over the paths at max depth. *)
Definition construct_path (self : Dataset.t) (ref : MaxDepthRef.t)
    (st : cstate) (item : string * list string) : result cstate :=
  let '(sess_path, filenames) := item in
  '(subj, sess, modal) ← parse_meta (Dataset.max_depth self) ref (c_modal st) sess_path;
  '(i, processed, session_list) ←
     lookup_session subj sess modal (c_processed st) (c_session_list st);
  match session_list !! i with
  | None => Raise IndexError
  | Some sinfo =>
      '(files, file_list) ←
         construct_files (Dataset._abs_path self) (Dataset._abs_path_list self)
           subj sess modal sess_path filenames
           (SessionItem.files sinfo, c_file_list st);
      files ← session_sort modal files;
      let sinfo := SessionItem.mk (SessionItem.subject sinfo)
                     (SessionItem.session sinfo) files in
      Ok (CState (ModalName modal) processed (<[i := sinfo]> session_list) file_list)
  end.

Fixpoint construct_paths (self : Dataset.t) (ref : MaxDepthRef.t)
    (items : list (string * list string)) (st : cstate) : result cstate :=
  match items with
  | [] => Ok st
  | item :: items' =>
      st' ← construct_path self ref st item;
      construct_paths self ref items' st'
  end.

Definition _constructor (self : Dataset.t) (files : DataItem)
    (ref : MaxDepthRef.t) (modal : bool)
  : result (list SessionItem.t * list FileItem.t) :=
  level ← by_depth_get (Dataset.max_depth self) files;
  st ← construct_paths self ref (dict_items level) (CState (ModalFlag modal) [] [] []);
  Ok (sorted session_lt (c_session_list st), sorted file_lt (c_file_list st)).

(** ** [_filter] and [_session_filter] *)

(** An argument of type [Union[List[str], str, None]]. *)
Inductive strs :=
| SNone
| SStr (s : string)
| SList (l : list string).

Definition strs_truthy (x : strs) : bool :=
  match x with
  | SNone => false
  | SStr s => str_truthy s
  | SList l => negb (length l =? 0)%nat
  end.

(** [if isinstance(x, str): x = [x]] *)
Definition strs_list (x : strs) : list string :=
  match x with
  | SNone => []
  | SStr s => [s]
  | SList l => l
  end.

Module Filter.
Record t := mk {
  subject : strs;
  session : strs;
  modal : strs;
  annotation : strs;
  regex : option string;
  regex_ignore : option string;
  ext : option string;
}.
(** [filter()] with every argument left at its default *)
Definition none : t := mk SNone SNone SNone SNone None None None.
End Filter.

(** [copy(l)] of a list *)
Definition copy_list (l : loc) : M loc :=
  xs ← load_list l; alloc (OList xs).

(** [copy(s)] of a [SessionItem]: a new object with the same fields *)
Definition copy_session (s : loc) : M loc :=
  '(subj, sess, fl) ← load_session s; alloc (OSession subj sess fl).

(** [[finfo for finfo in l if p(finfo)]]; the test only reads the record,
    and may raise. *)
Definition select_files (p : FileItem.t -> result bool) (l : loc) : M loc :=
  xs ← load_list l;
  ys ← filter_M (fun x => f ← load_file x; lift (p f)) xs;
  alloc (OList ys).

(** [[sinfo for sinfo in l if p(sinfo)]] *)
Definition select_sessions (p : string * option string * loc -> bool) (l : loc)
  : M loc :=
  xs ← load_list l;
  ys ← filter_M (fun x => s ← load_session x; mret (p s)) xs;
  alloc (OList ys).

(** The assignment [sess.files = ...] of one filtering step: a dict
    comprehension over the buckets, or a list comprehension. *)
Definition session_select (p : FileItem.t -> result bool) (sess : loc) : M unit :=
  '(subj, se, fl) ← load_session sess;
  o ← load fl;
  match o with
  | ODict kvs =>
      kvs' ← map_M (fun '(m, fs) => fs' ← select_files p fs; mret (m, fs')) kvs;
      d ← alloc (ODict kvs');
      store sess (OSession subj se d)
  | _ =>
      l ← select_files p fl;
      store sess (OSession subj se l)
  end.

(** [if isinstance(sess.files, dict):
       sess.files = {k: v for k, v in sess.files.items() if len(v)}] *)
Definition session_prune (sess : loc) : M unit :=
  '(subj, se, fl) ← load_session sess;
  o ← load fl;
  match o with
  | ODict kvs =>
      kvs' ← filter_M (fun '(_, v) =>
                xs ← load_list v; mret (negb (length xs =? 0)%nat)) kvs;
      d ← alloc (ODict kvs');
      store sess (OSession subj se d)
  | _ => mret tt
  end.

(** The per-record tests of the predicates. *)
Definition by_subject (subject : list string) (f : FileItem.t) : result bool :=
  Ok (str_in (FileItem.subject f) subject).
Definition by_session (session : list string) (f : FileItem.t) : result bool :=
  Ok (opt_in (FileItem.session f) session).
Definition by_modal (modal : list string) (f : FileItem.t) : result bool :=
  Ok (opt_in (FileItem.modal f) modal).
Definition by_annotation (annotation : list string) (f : FileItem.t) : result bool :=
  Ok (opt_in (FileItem.annotation f) annotation).
Definition by_regex `{Env} (regex : string) (f : FileItem.t) : result bool :=
  FileItem.is_match f regex.
Definition by_regex_ignore `{Env} (regex : string) (f : FileItem.t) : result bool :=
  b ← FileItem.is_match f regex; Ok (negb b).
Definition by_ext (ext : string) (f : FileItem.t) : result bool :=
  Ok (FileItem.has_ext f ext).

Definition when (b : bool) (m : M unit) : M unit :=
  if b then m else mret tt.

Definition _session_filter `{Env} (session_list : loc)
    (modal annotation : strs) (regex regex_ignore ext : option string) : M loc :=
  xs ← load_list session_list;
  copies ← map_M copy_session xs;
  session_list ← alloc (OList copies);
  for_each copies (fun sess =>
    when (strs_truthy modal)
      (session_select (by_modal (strs_list modal)) sess) ;;
    when (strs_truthy annotation)
      (session_select (by_annotation (strs_list annotation)) sess) ;;
    when (opt_truthy regex)
      (session_select (by_regex (default "" regex)) sess) ;;
    when (opt_truthy regex_ignore)
      (session_select (by_regex_ignore (default "" regex_ignore)) sess) ;;
    when (opt_truthy ext)
      (session_select (by_ext (default "" ext)) sess) ;;
    session_prune sess) ;;
  mret session_list.

(** [if c: l = [x for x in l if p(x)]] on the flat list *)
Definition narrow (c : bool) (p : FileItem.t -> result bool) (l : loc) : M loc :=
  if c then select_files p l else mret l.

Definition _filter `{Env} (file_list session_list : loc) (a : Filter.t)
  : M (loc * loc) :=
  filtered_file_list ← copy_list file_list;
  filtered_sess_list ← copy_list session_list;
  '(filtered_file_list, filtered_sess_list) ←
    (if strs_truthy (Filter.subject a) then
       let subject := strs_list (Filter.subject a) in
       fl ← select_files (by_subject subject) filtered_file_list;
       sl ← select_sessions (fun '(subj, _, _) => str_in subj subject)
              filtered_sess_list;
       mret (fl, sl)
     else mret (filtered_file_list, filtered_sess_list));
  '(filtered_file_list, filtered_sess_list) ←
    (if strs_truthy (Filter.session a) then
       let session := strs_list (Filter.session a) in
       fl ← select_files (by_session session) filtered_file_list;
       sl ← select_sessions (fun '(_, sess, _) => opt_in sess session)
              filtered_sess_list;
       mret (fl, sl)
     else mret (filtered_file_list, filtered_sess_list));
  filtered_file_list ←
    narrow (strs_truthy (Filter.modal a))
      (by_modal (strs_list (Filter.modal a))) filtered_file_list;
  filtered_file_list ←
    narrow (strs_truthy (Filter.annotation a))
      (by_annotation (strs_list (Filter.annotation a))) filtered_file_list;
  filtered_file_list ←
    narrow (opt_truthy (Filter.ext a))
      (by_ext (default "" (Filter.ext a))) filtered_file_list;
  filtered_file_list ←
    narrow (opt_truthy (Filter.regex a))
      (by_regex (default "" (Filter.regex a))) filtered_file_list;
  filtered_file_list ←
    narrow (opt_truthy (Filter.regex_ignore a))
      (by_regex_ignore (default "" (Filter.regex_ignore a))) filtered_file_list;
  filtered_sess_list ←
    _session_filter filtered_sess_list (Filter.modal a) (Filter.annotation a)
      (Filter.regex a) (Filter.regex_ignore a) (Filter.ext a);
  mret (filtered_file_list, filtered_sess_list).

(* ===================================================================== *)
(** * RawDataset and StepDataset *)
(* ===================================================================== *)

Module Inherits.
Record t := mk {
  subjects : option (list string);
  sessions : option (list string);
  modal : option (list string);
  file_list : loc;
  session_list : loc;
}.
End Inherits.

(** [MaxDepthRef(2, 3)] with [modal=True] for [RawDataset],
    [MaxDepthRef(1, 2)] with [modal=False] for [StepDataset]. *)
Definition depth_ref (k : Dataset.kind) : MaxDepthRef.t :=
  match k with
  | Dataset.Raw => MaxDepthRef.mk 2 3
  | Dataset.Step => MaxDepthRef.mk 1 2
  end.

Definition has_modal (k : Dataset.kind) : bool :=
  match k with
  | Dataset.Raw => true
  | Dataset.Step => false
  end.

(** [BaseParser.__init__]: the new instance, parsed. *)
Definition BaseParser_init `{Env} (k : Dataset.kind) (path : string)
    (dir_only : bool) : M loc :=
  let '(abs_path, abs_path_list, abs_path_depth) := _init_process path in
  '(files_by_depth, dirs_by_depth, max_depth) ←
     _parse_all abs_path abs_path_depth dir_only;
  alloc (ODataset
    (Dataset.mk k path dir_only abs_path abs_path_list abs_path_depth
       files_by_depth dirs_by_depth max_depth Unset Unset Unset Unset Unset)).

Definition with_validated (d : Dataset.t)
    (sessions subjects modals : option (list string)) : Dataset.t :=
  Dataset.mk (Dataset.cls d) (Dataset.path d) (Dataset.dir_only d)
    (Dataset._abs_path d) (Dataset._abs_path_list d) (Dataset._abs_path_depth d)
    (Dataset._files_by_depth d) (Dataset._dirs_by_depth d) (Dataset.max_depth d)
    (Value subjects) (Value sessions) (Value modals)
    (Dataset.file_list d) (Dataset.session_list d).

Definition with_lists (d : Dataset.t) (session_list file_list : loc) : Dataset.t :=
  Dataset.mk (Dataset.cls d) (Dataset.path d) (Dataset.dir_only d)
    (Dataset._abs_path d) (Dataset._abs_path_list d) (Dataset._abs_path_depth d)
    (Dataset._files_by_depth d) (Dataset._dirs_by_depth d) (Dataset.max_depth d)
    (Dataset.subjects d) (Dataset.sessions d) (Dataset.modals d)
    (Value file_list) (Value session_list).

(** [_validate]: the tuple [(subjects, sessions, modals)] returned by
    [_validator] is assigned to [self.sessions, self.subjects, self.modals],
    in that order. *)
Definition _validate (self : loc) : M unit :=
  d ← load_dataset self;
  '(first, second, third) ←
     _validator (Dataset._dirs_by_depth d) (Dataset._files_by_depth d)
       (Dataset.max_depth d) (depth_ref (Dataset.cls d))
       (has_modal (Dataset.cls d)) false;
  store self (ODataset (with_validated d (Some first) second third)).

Definition _inherits (self : loc) (inherits : Inherits.t) : M unit :=
  d ← load_dataset self;
  store self (ODataset
    (with_lists
       (with_validated d (Inherits.sessions inherits)
          (Inherits.subjects inherits) (Inherits.modal inherits))
       (Inherits.session_list inherits) (Inherits.file_list inherits))).

(** The objects of the lists [_constructor] returns, placed in the store.
    Each [FileItem] of the flat list is one object; a session's file
    collection refers to the same object. *)
Fixpoint find_object (f : FileItem.t) (table : list (FileItem.t * loc))
  : option loc :=
  match table with
  | [] => None
  | (g, l) :: table' => if decide (f = g) then Some l else find_object f table'
  end.

Definition place_file (table : list (FileItem.t * loc)) (f : FileItem.t) : M loc :=
  match find_object f table with
  | Some l => mret l
  | None => alloc (OFile f)
  end.

Definition place_files (table : list (FileItem.t * loc)) (fs : list FileItem.t)
  : M loc :=
  xs ← map_M (place_file table) fs; alloc (OList xs).

Definition place_session (table : list (FileItem.t * loc)) (s : SessionItem.t)
  : M loc :=
  fl ← match SessionItem.files s with
       | FList l => place_files table l
       | FDict d =>
           kvs ← map_M (fun '(m, fs) => v ← place_files table fs; mret (m, v)) d;
           alloc (ODict kvs)
       end;
  alloc (OSession (SessionItem.subject s) (SessionItem.session s) fl).

Definition place_lists (session_list : list SessionItem.t)
    (file_list : list FileItem.t) : M (loc * loc) :=
  xs ← map_M (fun f => alloc (OFile f)) file_list;
  fl ← alloc (OList xs);
  ss ← map_M (place_session (zip file_list xs)) session_list;
  sl ← alloc (OList ss);
  mret (sl, fl).

(** [_construct]: [self.session_list, self.file_list = self._constructor(...)] *)
Definition _construct (self : loc) : M unit :=
  d ← load_dataset self;
  '(session_list, file_list) ←
     lift (_constructor d (Dataset._files_by_depth d) (depth_ref (Dataset.cls d))
             (has_modal (Dataset.cls d)));
  '(sl, fl) ← place_lists session_list file_list;
  d ← load_dataset self;
  store self (ODataset (with_lists d sl fl)).

(** [RawDataset.__init__] and [StepDataset.__init__], which differ in the
    class only. *)
Definition dataset_init `{Env} (k : Dataset.kind) (path : string)
    (validate : bool) (inherits : option Inherits.t) (dir_only : bool) : M loc :=
  self ← BaseParser_init k path dir_only;
  when validate (_validate self) ;;
  match inherits with
  | Some i => _inherits self i
  | None => _construct self
  end ;;
  mret self.

Definition RawDataset `{Env} := dataset_init Dataset.Raw.
Definition StepDataset `{Env} := dataset_init Dataset.Step.

(** Reading an attribute that may never have been assigned. *)
Definition getattr {A} (name : string) (a : attr A) : M A :=
  match a with
  | Value v => mret v
  | Unset => raise (AttributeError name)
  end.

(** [RawDataset.filter] and [StepDataset.filter]: the same body, the class
    of the result being the class of [self]. *)
Definition dataset_filter `{Env} (self : loc) (a : Filter.t) : M loc :=
  d ← load_dataset self;
  file_list ← getattr "file_list" (Dataset.file_list d);
  session_list ← getattr "session_list" (Dataset.session_list d);
  '(file_list, sess_list) ← _filter file_list session_list a;
  subjects ← getattr "subjects" (Dataset.subjects d);
  sessions ← getattr "sessions" (Dataset.sessions d);
  modals ← getattr "modals" (Dataset.modals d);
  let inherits := Inherits.mk subjects sessions modals file_list sess_list in
  dataset_init (Dataset.cls d) (Dataset.path d) false (Some inherits) false.

(* ===================================================================== *)
(** * Concrete environments and trees *)
(* ===================================================================== *)

(** An environment for literal expressions: an expression with an unclosed
    bracket does not compile, any other is matched as a literal prefix;
    paths are given absolute and normalised. *)
Definition literal_env : Env := {|
  re_pattern := string;
  re_compile := fun s => if str_contains "["%char s then None else Some s;
  re_match := fun p s => str_startswith p s;
  os_path_abspath := fun p => p;
|}.

Definition empty_world (disk : string -> option tree) : world :=
  World [] [] disk [].

Definition disk_at (root : string) (t : tree) : string -> option tree :=
  fun p => if String.eqb p root then Some t else None.

(** [data/sub-0N/ses-01/anat/sub-0N_ses-01_T1w.nii.gz] for N = 1, 2 *)
Definition multi_session_tree : tree :=
  Dir [("sub-01", Dir [("ses-01",
          Dir [("anat", Dir [] ["sub-01_ses-01_T1w.nii.gz"])] [])] []);
       ("sub-02", Dir [("ses-01",
          Dir [("anat", Dir [] ["sub-02_ses-01_T1w.nii.gz"])] [])] [])] [].

(** [data/<name>/anat/<name>_T1w.nii.gz] for sub-01, sub-02 and junk *)
Definition junk_tree : tree :=
  Dir [("sub-01", Dir [("anat", Dir [] ["sub-01_T1w.nii.gz"])] []);
       ("sub-02", Dir [("anat", Dir [] ["sub-02_T1w.nii.gz"])] []);
       ("junk", Dir [("anat", Dir [] ["junk_T1w.nii.gz"])] [])] [].

(** [data/sub-01/ses-01/anat/run-1/sub-01_ses-01_run-1_T1w.nii.gz]: one
    directory level too many for a raw dataset *)
Definition multi_session_tree_deep : tree :=
  Dir [("sub-01", Dir [("ses-01",
          Dir [("anat",
            Dir [("run-1", Dir [] ["sub-01_ses-01_run-1_T1w.nii.gz"])] [])] [])]
        [])] [].

(** [data/sub-0N/anat/sub-0N_T1w.nii.gz] for N = 1, 2 *)
Definition single_session_tree : tree :=
  Dir [("sub-01", Dir [("anat", Dir [] ["sub-01_T1w.nii.gz"])] []);
       ("sub-02", Dir [("anat", Dir [] ["sub-02_T1w.nii.gz"])] [])] [].

(* ===================================================================== *)
(** * Reading the store: the lists as values *)
(* ===================================================================== *)

Definition read_file (h : list obj) (l : loc) : option FileItem.t :=
  match h !! l with
  | Some (OFile f) => Some f
  | _ => None
  end.

Definition read_files (h : list obj) (l : loc) : option (list FileItem.t) :=
  match h !! l with
  | Some (OList xs) => mapM (read_file h) xs
  | _ => None
  end.

Definition read_bucket (h : list obj) (kv : string * loc)
  : option (string * list FileItem.t) :=
  fs ← read_files h (snd kv); Some (fst kv, fs).

Definition read_collection (h : list obj) (l : loc) : option (files_t FileItem.t) :=
  match h !! l with
  | Some (OList xs) => FList <$> mapM (read_file h) xs
  | Some (ODict kvs) => FDict <$> mapM (read_bucket h) kvs
  | _ => None
  end.

Definition read_session (h : list obj) (l : loc) : option SessionItem.t :=
  match h !! l with
  | Some (OSession subj sess fl) => SessionItem.mk subj sess <$> read_collection h fl
  | _ => None
  end.

Definition read_sessions (h : list obj) (l : loc) : option (list SessionItem.t) :=
  match h !! l with
  | Some (OList xs) => mapM (read_session h) xs
  | _ => None
  end.

(** The file list and the session list of the façade at [self]. *)
Definition facade_lists (h : list obj) (self : loc)
  : option (list FileItem.t * list SessionItem.t) :=
  match h !! self with
  | Some (ODataset d) =>
      match Dataset.file_list d, Dataset.session_list d with
      | Value fl, Value sl =>
          fv ← read_files h fl; sv ← read_sessions h sl; Some (fv, sv)
      | _, _ => None
      end
  | _ => None
  end.

(** ** What [_filter] computes, on values *)

(** [[x for x in l if p(x)]] where [p] may raise *)
Fixpoint filter_R {A} (p : A -> result bool) (l : list A) : result (list A) :=
  match l with
  | [] => Ok []
  | x :: l' =>
      b ← p x; ys ← filter_R p l'; Ok (if b : bool then x :: ys else ys)
  end.

Fixpoint map_R {A B} (f : A -> result B) (l : list A) : result (list B) :=
  match l with
  | [] => Ok []
  | x :: l' => y ← f x; ys ← map_R f l'; Ok (y :: ys)
  end.

Definition narrow_R {A} (c : bool) (p : A -> result bool) (l : list A)
  : result (list A) :=
  if c then filter_R p l else Ok l.

Definition collection_select (p : FileItem.t -> result bool)
    (c : files_t FileItem.t) : result (files_t FileItem.t) :=
  match c with
  | FList l => l' ← filter_R p l; Ok (FList l')
  | FDict d =>
      d' ← map_R (fun kv => fs ← filter_R p (snd kv); Ok (fst kv, fs)) d;
      Ok (FDict d')
  end.

Definition collection_narrow (c : bool) (p : FileItem.t -> result bool)
    (fs : files_t FileItem.t) : result (files_t FileItem.t) :=
  if c then collection_select p fs else Ok fs.

Definition collection_prune (c : files_t FileItem.t) : files_t FileItem.t :=
  match c with
  | FList l => FList l
  | FDict d => FDict (List.filter (fun kv => negb (length (snd kv) =? 0)%nat) d)
  end.

Definition collection_filtered `{Env} (a : Filter.t) (c : files_t FileItem.t)
  : result (files_t FileItem.t) :=
  c ← collection_narrow (strs_truthy (Filter.modal a))
         (by_modal (strs_list (Filter.modal a))) c;
  c ← collection_narrow (strs_truthy (Filter.annotation a))
         (by_annotation (strs_list (Filter.annotation a))) c;
  c ← collection_narrow (opt_truthy (Filter.regex a))
         (by_regex (default "" (Filter.regex a))) c;
  c ← collection_narrow (opt_truthy (Filter.regex_ignore a))
         (by_regex_ignore (default "" (Filter.regex_ignore a))) c;
  c ← collection_narrow (opt_truthy (Filter.ext a))
         (by_ext (default "" (Filter.ext a))) c;
  Ok (collection_prune c).

Definition session_filtered `{Env} (a : Filter.t) (s : SessionItem.t)
  : result SessionItem.t :=
  c ← collection_filtered a (SessionItem.files s);
  Ok (SessionItem.mk (SessionItem.subject s) (SessionItem.session s) c).

Definition files_filtered `{Env} (a : Filter.t) (l : list FileItem.t)
  : result (list FileItem.t) :=
  l ← narrow_R (strs_truthy (Filter.subject a))
         (by_subject (strs_list (Filter.subject a))) l;
  l ← narrow_R (strs_truthy (Filter.session a))
         (by_session (strs_list (Filter.session a))) l;
  l ← narrow_R (strs_truthy (Filter.modal a))
         (by_modal (strs_list (Filter.modal a))) l;
  l ← narrow_R (strs_truthy (Filter.annotation a))
         (by_annotation (strs_list (Filter.annotation a))) l;
  l ← narrow_R (opt_truthy (Filter.ext a))
         (by_ext (default "" (Filter.ext a))) l;
  l ← narrow_R (opt_truthy (Filter.regex a))
         (by_regex (default "" (Filter.regex a))) l;
  narrow_R (opt_truthy (Filter.regex_ignore a))
    (by_regex_ignore (default "" (Filter.regex_ignore a))) l.

Definition sessions_filtered `{Env} (a : Filter.t) (l : list SessionItem.t)
  : result (list SessionItem.t) :=
  let l := if strs_truthy (Filter.subject a)
           then List.filter (fun s => str_in (SessionItem.subject s)
                                        (strs_list (Filter.subject a))) l
           else l in
  let l := if strs_truthy (Filter.session a)
           then List.filter (fun s => opt_in (SessionItem.session s)
                                        (strs_list (Filter.session a))) l
           else l in
  map_R (session_filtered a) l.

(** ** Consistency of the two indexes *)

Definition collection_files (c : files_t FileItem.t) : list FileItem.t :=
  match c with
  | FList l => l
  | FDict d => concat (dict_values d)
  end.

Definition session_files (s : SessionItem.t) : list FileItem.t :=
  collection_files (SessionItem.files s).

(** A test that returned [True]. *)
Definition holds {A} (p : A -> result bool) (x : A) : bool :=
  match p x with
  | Ok b => b
  | Raise _ => false
  end.

(** A test that is applied only when its argument was given. *)
Definition guard {A} (c : bool) (p : A -> result bool) (x : A) : bool :=
  if c then holds p x else true.

Definition collection_wf (c : files_t FileItem.t) : Prop :=
  match c with
  | FList _ => True
  | FDict d => Forall (fun kv => snd kv ≠ []) d
  end.

(** Every record nested in a session, session after session. *)
Definition nested_files (sl : list SessionItem.t) : list FileItem.t :=
  flat_map session_files sl.

(** A nested record carries the subject and session of its session. *)
Definition session_owns (s : SessionItem.t) : Prop :=
  Forall (fun f => FileItem.subject f = SessionItem.subject s
                   ∧ FileItem.session f = SessionItem.session s)
         (session_files s).

Definition no_empty_bucket (s : SessionItem.t) : Prop :=
  collection_wf (SessionItem.files s).

Definition lists_wf (fl : list FileItem.t) (sl : list SessionItem.t) : Prop :=
  fl ≡ₚ nested_files sl ∧ Forall session_owns sl ∧ Forall no_empty_bucket sl.

(** ** Façades *)

(** The façades a program can hold: built from a path by [RawDataset(...)]
    or [StepDataset(...)] (without [inherits]), or returned by [filter];
    they stay façades while further datasets are built and filtered.
    With [validated], only constructions that validate are counted. *)
Inductive built `{Env} (validated : bool) : world -> loc -> Prop :=
| built_new k path validate dir_only w w' self :
    (validated = true -> validate = true) ->
    dataset_init k path validate None dir_only w = (w', Ok self) ->
    built validated w' self
| built_filter a w w' self self' :
    built validated w self ->
    dataset_filter self a w = (w', Ok self') ->
    built validated w' self'
| built_keep_new k path validate dir_only w w' r self :
    built validated w self ->
    dataset_init k path validate None dir_only w = (w', r) ->
    built validated w' self
| built_keep_filter a other w w' r self :
    built validated w self ->
    dataset_filter other a w = (w', r) ->
    built validated w' self.

(* ===================================================================== *)
(** * Vocabulary for effects on the store *)
(* ===================================================================== *)

(** [frames n m Q]: run in a store holding at least [n] objects, [m] leaves
    the first [n] objects and the file system as they are, never shrinks
    the store, and returns a value satisfying [Q]. *)
Definition frames (n : nat) {A} (m : M A) (Q : A -> Prop) : Prop :=
  forall w, (n <= length (heap w))%nat ->
    (forall l, (l < n)%nat -> heap (m w).1 !! l = heap w !! l)
    /\ (length (heap w) <= length (heap (m w).1))%nat
    /\ fs (m w).1 = fs w
    /\ match (m w).2 with Ok a => Q a | Raise _ => True end.

(** The store before a computation is kept as it is in the store after. *)
Definition sub_heap (h h' : list obj) : Prop :=
  forall l o, h !! l = Some o -> h' !! l = Some o.

(** Objects that no code of the module assigns to once they exist. *)
Definition immutable (o : obj) : Prop :=
  match o with
  | OFile _ | OList _ | ODict _ => True
  | OSession _ _ _ | ODataset _ => False
  end.

Definition sub_heap_imm (h h' : list obj) : Prop :=
  forall l o, h !! l = Some o -> immutable o -> h' !! l = Some o.

(** Only the object at [c] may have been assigned to. *)
Definition touch (c : loc) (h h' : list obj) : Prop :=
  sub_heap_imm h h'
  /\ forall l o, l ≠ c -> h !! l = Some o -> h' !! l = Some o.

Definition with_heap (w : world) (h : list obj) : world :=
  World h (warnings w) (fs w) (io_log w).

(** What a computation does to the session at [c], whose file collection
    reads as [col]: it assigns only to [c], and the collection then reads
    as [f col]. *)
Definition session_triple (m : M unit)
    (f : files_t FileItem.t -> result (files_t FileItem.t)) (c : loc) : Prop :=
  forall subj se fl col w,
    heap w !! c = Some (OSession subj se fl) ->
    read_collection (heap w) fl = Some col ->
    exists h',
      touch c (heap w) h'
      /\ match f col with
         | Ok col' =>
             m w = (with_heap w h', Ok tt)
             /\ exists fl', h' !! c = Some (OSession subj se fl')
                            /\ read_collection h' fl' = Some col'
         | Raise e => m w = (with_heap w h', Raise e)
         end.


(** The predicates of [a] as one test per record: those applied to nested
    collections, and all of them. *)
Definition nested_keep `{Env} (a : Filter.t) (f : FileItem.t) : bool :=
  guard (strs_truthy (Filter.modal a)) (by_modal (strs_list (Filter.modal a))) f
  && guard (strs_truthy (Filter.annotation a))
       (by_annotation (strs_list (Filter.annotation a))) f
  && guard (opt_truthy (Filter.regex a)) (by_regex (default "" (Filter.regex a))) f
  && guard (opt_truthy (Filter.regex_ignore a))
       (by_regex_ignore (default "" (Filter.regex_ignore a))) f
  && guard (opt_truthy (Filter.ext a)) (by_ext (default "" (Filter.ext a))) f.

Definition session_keep (a : Filter.t) (s : SessionItem.t) : bool :=
  (if strs_truthy (Filter.subject a)
   then str_in (SessionItem.subject s) (strs_list (Filter.subject a)) else true)
  && (if strs_truthy (Filter.session a)
      then opt_in (SessionItem.session s) (strs_list (Filter.session a)) else true).

Definition flat_keep `{Env} (a : Filter.t) (f : FileItem.t) : bool :=
  guard (strs_truthy (Filter.subject a)) (by_subject (strs_list (Filter.subject a))) f
  && guard (strs_truthy (Filter.session a))
       (by_session (strs_list (Filter.session a))) f
  && nested_keep a f.

(** The record is annotated with the last segment of the root path. *)
Definition annotated (abs_path_list : list string) (f : FileItem.t) : Prop :=
  exists root, last abs_path_list = Some root /\ FileItem.annotation f = Some root.

(** What holds of the lists while the constructor runs. *)
Definition constructing (self : Dataset.t) (st : cstate) : Prop :=
  lists_wf (c_file_list st) (c_session_list st)
  /\ Forall (annotated (Dataset._abs_path_list self)) (c_file_list st).

(** Every entry of the table refers to the object of its record. *)
Definition table_ok (h : list obj) (table : list (FileItem.t * loc)) : Prop :=
  Forall (fun e => read_file h (snd e) = Some (fst e)) table.

(** ** Façades in the store *)

Definition is_set {A} (a : attr A) : bool :=
  match a with
  | Value _ => true
  | Unset => false
  end.

(** The attributes [filter] hands over are assigned. *)
Definition attrs_set (d : Dataset.t) : bool :=
  is_set (Dataset.subjects d) && is_set (Dataset.sessions d)
  && is_set (Dataset.modals d).

Definition facade_validated (h : list obj) (self : loc) : Prop :=
  exists d, h !! self = Some (ODataset d) /\ attrs_set d = true.

Definition session_key (s : SessionItem.t) : string * option string :=
  (SessionItem.subject s, SessionItem.session s).

(** At most one [SessionItem] per (subject, session) pair. *)
Definition sessions_unique (sl : list SessionItem.t) : Prop :=
  NoDup (map session_key sl).

(** While the constructor runs, the key of every session built so far has
    been recorded as processed. *)
Definition constructing_keys (st : cstate) : Prop :=
  Forall (fun s => str_in (task_id (SessionItem.subject s) (SessionItem.session s))
                     (c_processed st) = true) (c_session_list st)
  /\ sessions_unique (c_session_list st).

(** The façade at [self] holds two consistent indexes. *)
Definition facade_ok (h : list obj) (self : loc) : Prop :=
  exists fv sv, facade_lists h self = Some (fv, sv)
                /\ lists_wf fv sv /\ sessions_unique sv.

(** Everything but the façade objects is kept. *)
Definition sub_heap_data (h h' : list obj) : Prop :=
  forall l o, h !! l = Some o ->
    match o with ODataset _ => False | _ => True end -> h' !! l = Some o.

(** What [parse] records of a disk: [(files_by_depth, dirs_by_depth,
    max_depth)] for the tree found at the absolute path. *)
Definition scan `{Env} (path : string) (dir_only : bool)
    (disk : string -> option tree) : DataItem * DataItem * Z :=
  let '(abs_path, _, abs_path_depth) := _init_process path in
  let entries := match disk abs_path with
                 | Some t => os_walk_tree abs_path t
                 | None => []
                 end in
  let '(max_depth, files_by_depth, dirs_by_depth) :=
    fold_left (parse_step abs_path_depth dir_only) entries (0, [], []) in
  (files_by_depth, dirs_by_depth, max_depth).

(** [filter(annotation=A)] *)
Definition annotation_only (A : string) : Filter.t :=
  Filter.mk SNone SNone SNone (SStr A) None None None.

(** A computation that leaves the log of walks as it is. *)
Definition quiet {A} (m : M A) : Prop :=
  forall w, io_log (m w).1 = io_log w.

(** The attribute [max_depth] of the façade at [self]. *)
Definition facade_max_depth (h : list obj) (self : loc) : option Z :=
  match h !! self with
  | Some (ODataset d) => Some (Dataset.max_depth d)
  | _ => None
  end.

(** What the façade at [self] holds of the disk: the two depth-grouped
    trees and [max_depth]. *)
Definition facade_scan (h : list obj) (self : loc)
  : option (DataItem * DataItem * Z) :=
  match h !! self with
  | Some (ODataset d) =>
      Some (Dataset._files_by_depth d, Dataset._dirs_by_depth d,
            Dataset.max_depth d)
  | _ => None
  end.

(** The same world with another disk. *)
Definition with_disk (w : world) (disk : string -> option tree) : world :=
  World (heap w) (warnings w) disk (io_log w).

(** The world after [RawDataset("/data")] on a disk holding [t] at [/data]. *)
Definition raw_world (validate : bool) (t : tree) : world :=
  (@RawDataset literal_env "/data" validate None false
     (empty_world (disk_at "/data" t))).1.

(** The attributes [subjects], [sessions] and [modals] of the façade at
    [self]. *)
Definition facade_attrs (h : list obj) (self : loc)
  : option (attr (option (list string)) * attr (option (list string))
            * attr (option (list string))) :=
  match h !! self with
  | Some (ODataset d) =>
      Some (Dataset.subjects d, Dataset.sessions d, Dataset.modals d)
  | _ => None
  end.

(** [filter(subject=S)] *)
Definition subject_only (S : string) : Filter.t :=
  Filter.mk (SStr S) SNone SNone SNone None None None.

(* ===================================================================== *)
(** * Directory trees as a file system lists them *)
(* ===================================================================== *)

(** An entry name of a POSIX directory: not empty, without a slash. *)
Definition name_ok (s : string) : bool :=
  str_truthy s && negb (str_contains "/"%char s).

(** Every directory of the tree has entries with such names, and no two
    sub-directories of one directory share a name. *)
Fixpoint tree_ok (t : tree) : bool :=
  match t with
  | Dir ds fs =>
      forallb name_ok (map fst ds)
      && bool_decide (NoDup (map fst ds))
      && forallb (fun p => tree_ok (snd p)) ds
  | Closed => true
  end.

(** The walk enters every directory of the tree: none is a link to a
    directory, and none is unreadable. *)
Fixpoint entered (t : tree) : bool :=
  match t with
  | Dir ds _ => forallb (fun p => entered (snd p)) ds
  | Closed => false
  end.

(** The number of directory levels below the root. *)
Fixpoint height (t : tree) : nat :=
  match t with
  | Dir ds _ => list_max (map (fun p => S (height (snd p))) ds)
  | Closed => 0
  end.

(* ===================================================================== *)
(** * SessionItem.length *)
(* ===================================================================== *)

(** [SessionItem.length : Union[int, Dict[str, int]]] *)
Inductive length_t :=
| LInt (n : nat)
| LDict (d : dict string nat).

(** [{modal: len(finfos) for modal, finfos in self.files.items()}] when the
    files are a dict, [len(self.files)] otherwise. *)
Definition SessionItem_length (s : SessionItem.t) : length_t :=
  match SessionItem.files s with
  | FDict d => LDict (map (fun kv => (fst kv, length (snd kv))) d)
  | FList l => LInt (length l)
  end.

(** The number of files a length stands for. *)
Definition length_total (n : length_t) : nat :=
  match n with
  | LInt n => n
  | LDict d => list_sum (dict_values d)
  end.

(** No modality is listed with a length of zero. *)
Definition length_positive (n : length_t) : Prop :=
  match n with
  | LInt _ => True
  | LDict d => Forall (fun kv => (0 < snd kv)%nat) d
  end.

(** [filter(regex=r)] *)
Definition regex_only (r : string) : Filter.t :=
  Filter.mk SNone SNone SNone SNone (Some r) None None.

(** [filter(ext=e)] *)
Definition ext_only (e : string) : Filter.t :=
  Filter.mk SNone SNone SNone SNone None None (Some e).

(** The file list and the session list of the dataset that
    [RawDataset("/data")] builds on the single-session tree. *)
Definition raw_lists : list FileItem.t * list SessionItem.t :=
  default ([], [])
    (facade_lists (heap (raw_world true single_session_tree)) 0).

(* ===================================================================== *)
(** * Warnings *)
(* ===================================================================== *)

(** The world after the warnings [ws] were issued, and nothing else
    happened. *)
Definition add_warnings (w : world) (ws : list string) : world :=
  World (heap w) (warnings w ++ ws) (fs w) (io_log w).

(** The warnings of the check of the file names: one per file at max depth,
    in the order of the index, path by path. *)
Definition file_warnings (level : dict string (list string)) : list string :=
  flat_map (fun kv => map (file_warning (fst kv)) (snd kv)) level.

(** A warning of the check of the subject or session names. *)
Definition is_excluded_msg (msg : string) : Prop :=
  exists name tag, msg = excluded_msg name tag.

(* ===================================================================== *)
(** * The walk of a tree, with paths relative to its root *)
(* ===================================================================== *)

(** The triples of [os.walk] with the directory given by the names that lead
    to it from the root of the walk. *)
Fixpoint walk_rel (rel : list string) (t : tree)
  : list (list string * list string * list string) :=
  match t with
  | Dir ds fs =>
      (rel, map fst ds, fs)
        :: flat_map (fun p => walk_rel (rel ++ [fst p]) (snd p)) ds
  | Closed => []
  end.

(** The body of the loop of [_parse_all] once [relpath] is known. *)
Definition parse_rel (dir_only : bool) (st : Z * DataItem * DataItem)
    (entry : list string * list string * list string) : Z * DataItem * DataItem :=
  let '(max_depth, files_by_depth, dirs_by_depth) := st in
  let '(relpath, dirnames, filenames) := entry in
  let depth_step := Z.of_nat (length relpath) in
  let '(max_depth, dirs_by_depth) :=
    if (length dirnames =? 0)%nat
    then ((if (max_depth <? depth_step)%Z then depth_step else max_depth),
          dirs_by_depth)
    else (max_depth,
          by_depth_set depth_step (str_join "/" relpath)
            (sorted String.ltb dirnames) dirs_by_depth) in
  let files_by_depth :=
    if negb dir_only && negb (length filenames =? 0)%nat
    then by_depth_set depth_step (str_join "/" relpath)
           (sorted String.ltb filenames) files_by_depth
    else files_by_depth in
  (max_depth, files_by_depth, dirs_by_depth).

(** The index holds an entry for [key] at depth [k]. *)
Definition by_depth_has (d : DataItem) (k : Z) (key : string) : Prop :=
  exists inner, dict_get k d = Some inner /\ dict_has key inner = true.

(** From the state [st] to the state [st'] of the loop of [_parse_all], the
    index of directories gained depths in [lo, hi) only, the index of files
    depths in [lo, hi] only, no entry was lost, and no file was recorded if
    only directories are parsed. *)
Definition scanned_between (dir_only : bool) (lo hi : Z)
    (st st' : Z * DataItem * DataItem) : Prop :=
  (forall key, key ∈ dict_keys st'.2 ->
               key ∈ dict_keys st.2 \/ (lo <= key < hi)%Z)
  /\ (forall key, key ∈ dict_keys st'.1.2 ->
                  key ∈ dict_keys st.1.2 \/ (lo <= key <= hi)%Z)
  /\ (forall key r, by_depth_has st.2 key r -> by_depth_has st'.2 key r)
  /\ (dir_only = true -> st'.1.2 = st.1.2).

(** What the loop of [_parse_all] has recorded after the walk of the tree
    [t] found at the relative path [rel]. *)
Definition node_scanned (dir_only : bool) (t : tree) (rel : list string)
    (st : Z * DataItem * DataItem) : Prop :=
  let st' := fold_left (parse_rel dir_only) (walk_rel rel t) st in
  let k := Z.of_nat (length rel) in
  st'.1.1 = Z.max st.1.1 (k + Z.of_nat (height t))
  /\ scanned_between dir_only k (k + Z.of_nat (height t)) st st'
  /\ ((0 < height t)%nat -> by_depth_has st'.2 k (str_join "/" rel)).

(** The assignments [_parse_all] makes to an index during a walk: depth, key
    and sorted names of every directory for which [sel] selects names. *)
Definition index_entries
    (sel : list string * list string * list string -> list string)
    (W : list (list string * list string * list string))
  : list (Z * string * list string) :=
  map (fun e => (Z.of_nat (length e.1.1), str_join "/" e.1.1,
                 sorted String.ltb (sel e)))
    (List.filter (fun e => negb (length (sel e) =? 0)%nat) W).

(** The assignments to the index of files, and to the index of
    directories. *)
Definition file_entries := index_entries (fun e => e.2).
Definition dir_entries := index_entries (fun e => e.1.2).

(** The assignments made at depth [j], as the items of a dict. *)
Definition entries_at (j : Z) (L : list (Z * string * list string))
  : dict string (list string) :=
  map (fun e => (e.1.2, e.2)) (List.filter (fun e => bool_decide (e.1.1 = j)) L).

(* ===================================================================== *)
(** * The records a tree stands for *)
(* ===================================================================== *)

(** Subject, session and modality as the position of the names in a
    relative path gives them: [subject/modality] and
    [subject/session/modality] for a raw dataset, [subject] and
    [subject/session] for a step dataset. *)
Definition meta_of (k : Dataset.kind) (rel : list string)
  : option (string * option string * option string) :=
  match k, rel with
  | Dataset.Raw, [subj; m] => Some (subj, None, Some m)
  | Dataset.Raw, [subj; sess; m] => Some (subj, Some sess, Some m)
  | Dataset.Step, [subj] => Some (subj, None, None)
  | Dataset.Step, [subj; sess] => Some (subj, Some sess, None)
  | _, _ => None
  end.

(** The record of the file [f] found in the directory [rel] below the root
    [abs_path], annotated with the last name of the root: none if [f] has
    no dot. *)
Definition record_of (abs_path : string)
    (meta : string * option string * option string) (rel : list string)
    (f : string) : list FileItem.t :=
  match str_split1 "."%char f with
  | [stem; ext] =>
      [FileItem.mk meta.1.1 meta.1.2 meta.2 (last (str_to_list abs_path))
         (os_path_join abs_path (str_join "/" rel)) stem ext]
  | _ => []
  end.

Definition records_of (k : Dataset.kind) (abs_path : string)
    (e : list string * list string * list string) : list FileItem.t :=
  match meta_of k e.1.1 with
  | Some meta => flat_map (record_of abs_path meta e.1.1) e.2
  | None => []
  end.

(** The directories of the tree at its deepest level, as the walk lists
    them, and the records of their files. *)
Definition deepest (t : tree) : list (list string * list string * list string) :=
  List.filter (fun e => (length e.1.1 =? height t)%nat) (walk_rel [] t).

Definition expected_records (k : Dataset.kind) (abs_path : string) (t : tree)
  : list FileItem.t :=
  flat_map (records_of k abs_path) (deepest t).

(* ===================================================================== *)
(** * FileItem.modify *)
(* ===================================================================== *)

Module Replace.
Record t := mk {
  regex : string;
  replacement : string;
}.
End Replace.

(** [Pattern.sub(repl, string)] of the standard library, which raises on a
    replacement template it cannot parse. *)
Class ReSub `{Env} := {
  re_sub : re_pattern -> string -> string -> option string;
}.

(** The argument [absdir : Union[bool, str]]. *)
Inductive absdir_t :=
| AbsBool (b : bool)
| AbsStr (s : string).

Definition absdir_truthy (a : absdir_t) : bool :=
  match a with
  | AbsBool b => b
  | AbsStr s => str_truthy s
  end.

(** [e == None] *)
Definition is_none {A} (o : option A) : bool :=
  match o with
  | None => true
  | Some _ => false
  end.

(** [FileItem.modify]; an instance of [Replace] is never falsy. *)
Definition FileItem_modify `{ReSub} (self : FileItem.t)
    (replace : option Replace.t) (prefix suffix ext : option string)
    (absdir : absdir_t) : result string :=
  if all [is_none prefix; is_none suffix; is_none replace; is_none ext] then
    Ok (if absdir_truthy absdir then
          match absdir with
          | AbsBool _ => FileItem.abspath self
          | AbsStr d => os_path_join d (FileItem.basename self)
          end
        else FileItem.basename self)
  else
    modified ← match replace with
               | Some r =>
                   match re_compile (Replace.regex r) with
                   | Some compiled =>
                       match re_sub compiled (Replace.replacement r)
                               (FileItem.filename self) with
                       | Some s => Ok s
                       | None => Raise (ReError (Replace.replacement r))
                       end
                   | None => Raise (ReError (Replace.regex r))
                   end
               | None => Ok (FileItem.filename self)
               end;
    let modified :=
      if opt_truthy prefix then default "" prefix +:+ modified else modified in
    let modified :=
      if opt_truthy suffix then modified +:+ default "" suffix else modified in
    let ext :=
      if opt_truthy ext
      then str_join "."
             (strip_empty_str_in_list (str_split "."%char (default "" ext)))
      else FileItem.fileext self in
    let modified := modified +:+ "." +:+ ext in
    Ok (if absdir_truthy absdir then
          match absdir with
          | AbsBool _ => os_path_join (FileItem.absdir self) modified
          | AbsStr d => os_path_join d modified
          end
        else modified).

Fixpoint str_drop (n : nat) (s : string) : string :=
  match n, s with
  | S n', String _ s' => str_drop n' s'
  | _, _ => s
  end.

(** Every occurrence of the non-empty text [p] in [s], from left to right
    and without overlap, replaced by [repl]. *)
Fixpoint literal_replace (fuel : nat) (p repl s : string) : string :=
  match fuel, s with
  | S fuel', String c s' =>
      if str_startswith p s
      then repl +:+ literal_replace fuel' p repl (str_drop (String.length p) s)
      else String c (literal_replace fuel' p repl s')
  | _, _ => s
  end.

(** The environment of literal expressions, with substitution: the
    expression and the template stand for themselves; an empty expression
    matches before every character and at the end, and a template with a
    backslash is refused. *)
Definition literal_sub : @ReSub literal_env := {|
  re_sub := fun (p : @re_pattern literal_env) repl s =>
    if str_contains "\"%char repl then None
    else Some match p with
              | EmptyString =>
                  repl +:+ (fix go (s : string) : string :=
                              match s with
                              | EmptyString => EmptyString
                              | String c s' => String c (repl +:+ go s')
                              end) s
              | _ => literal_replace (String.length s) p repl s
              end;
|}.

(* ===================================================================== *)
(** * StepItem and the step pattern of ProcDataset *)
(* ===================================================================== *)

Module StepItem.
Record t := mk {
  id : string;
  name : string;
  annotation : string;
  dataset : option loc;
}.

Definition path (s : t) : string :=
  id s +:+ "_" +:+ name s +:+ "_" +:+ annotation s.
End StepItem.

Module MaskItem.
Record t := mk {
  modal : string;
  dataset : option loc;
}.
End MaskItem.

Definition is_digit (c : ascii) : bool :=
  let n := nat_of_ascii c in ((48 <=? n) && (n <=? 57))%nat.

(** A character of the class [[a-zA-Z0-9\-]]. *)
Definition is_step_name_char (c : ascii) : bool :=
  is_alnum c || Ascii.eqb c "-".

Fixpoint str_forall (p : ascii -> bool) (s : string) : bool :=
  match s with
  | EmptyString => true
  | String c s' => p c && str_forall p s'
  end.

(** The longest prefix of [s] whose characters satisfy [p], and the rest. *)
Fixpoint str_span (p : ascii -> bool) (s : string) : string * string :=
  match s with
  | EmptyString => (EmptyString, EmptyString)
  | String c s' =>
      if p c then let '(a, b) := str_span p s' in (String c a, b)
      else (EmptyString, s)
  end.

(** [re.compile(r"(?P<id>[0-9]{4})_(?P<name>[a-zA-Z0-9\-]+)_(?P<annotation>[a-zA-Z0-9]+)").match(s)]
    and the groups [(id, name, annotation)] of the match. The class of
    [name] excludes the underscore that must follow it, so the greedy
    match of [name] is the only one, and [annotation] is matched as far as
    it goes. *)
Definition step_pattern_match (s : string) : option (string * string * string) :=
  let id := String.substring 0 4 s in
  if (String.length id =? 4)%nat && str_forall is_digit id then
    match String.substring 4 (String.length s - 4) s with
    | String "_" rest =>
        let '(name, rest) := str_span is_step_name_char rest in
        if str_truthy name then
          match rest with
          | String "_" rest =>
              let '(annotation, _) := str_span is_alnum rest in
              if str_truthy annotation then Some (id, name, annotation)
              else None
          | _ => None
          end
        else None
    | _ => None
    end
  else None.

(* ===================================================================== *)
(** * Order *)
(* ===================================================================== *)

(** No element of the list is followed, anywhere later, by one that is
    strictly smaller. *)
Fixpoint sorted_by {A} (lt : A -> A -> bool) (l : list A) : Prop :=
  match l with
  | [] => True
  | x :: l' => Forall (fun y => lt y x = false) l' /\ sorted_by lt l'
  end.

(** A three-way comparison that orders: swapping the arguments swaps the
    answer, [Lt] is transitive, and what compares [Eq] compares alike with
    everything. *)
Record ordering {A} (c : A -> A -> comparison) : Prop := {
  ordering_antisym : forall a b, c b a = CompOpp (c a b);
  ordering_trans : forall a b d, c a b = Lt -> c b d = Lt -> c a d = Lt;
  ordering_eq : forall a b d, c a b = Eq -> c a d = c b d;
}.

(** The sort keys of [_constructor] as comparisons of records. *)
Definition file_cmp (a b : FileItem.t) : comparison :=
  cmp_then (String.compare (FileItem.subject a) (FileItem.subject b))
    (cmp_then (cmp_opt (FileItem.session a) (FileItem.session b))
    (cmp_then (cmp_opt (FileItem.modal a) (FileItem.modal b))
    (cmp_then (String.compare (FileItem.filename a) (FileItem.filename b))
              (String.compare (FileItem.fileext a) (FileItem.fileext b))))).

Definition session_cmp (a b : SessionItem.t) : comparison :=
  cmp_then (String.compare (SessionItem.subject a) (SessionItem.subject b))
           (cmp_opt (SessionItem.session a) (SessionItem.session b)).

(* ===================================================================== *)
(** * Sessions group their files by modality *)
(* ===================================================================== *)

(** A dict of files has one entry per modality, holding records of that
    modality; a list of files holds records without modality. *)
Definition grouped_by_modality (c : files_t FileItem.t) : Prop :=
  match c with
  | FDict d =>
      NoDup (dict_keys d)
      /\ Forall (fun kv => Forall (fun f => FileItem.modal f = Some (fst kv))
                             (snd kv)) d
  | FList l => Forall (fun f => FileItem.modal f = None) l
  end.

(* ===================================================================== *)
(** * What is left of a session after filtering *)
(* ===================================================================== *)

(** The records of a collection that satisfy [q], with the emptied entries
    of a dict dropped. *)
Definition collection_kept (q : FileItem.t -> bool) (c : files_t FileItem.t)
  : files_t FileItem.t :=
  collection_prune
    match c with
    | FList l => FList (List.filter q l)
    | FDict d => FDict (map (fun kv => (fst kv, List.filter q (snd kv))) d)
    end.

Definition session_kept (q : FileItem.t -> bool) (s : SessionItem.t)
  : SessionItem.t :=
  SessionItem.mk (SessionItem.subject s) (SessionItem.session s)
    (collection_kept q (SessionItem.files s)).

(* ===================================================================== *)
(** * The trees a validated dataset is built from *)
(* ===================================================================== *)

(** The directory levels of the tree are those of a single-session dataset
    of class [k], some directory of the deepest level holds a file, and
    every file name of that level has a dot. *)
Definition buildable (k : Dataset.kind) (t : tree) : bool :=
  bool_decide (Z.of_nat (height t) = MaxDepthRef.single_session (depth_ref k))
  && existsb (fun e => negb (length e.2 =? 0)%nat) (deepest t)
  && forallb (str_contains "."%char) (flat_map (fun e => e.2) (deepest t)).

(** The file collection of a session of a dataset of class [k]: a dict when
    the class has modalities, a list otherwise. *)
Definition shaped (k : Dataset.kind) (c : files_t FileItem.t) : Prop :=
  match c with
  | FDict _ => has_modal k = true
  | FList _ => has_modal k = false
  end.

(** While the constructor runs on a single-session dataset: every key in
    [processed] is the key of a session of the list, and no session of the
    list has a session name. *)
Definition single_keyed (processed : list string) (sl : list SessionItem.t)
  : Prop :=
  (forall id, str_in id processed = true ->
     exists s, s ∈ sl
               /\ task_id (SessionItem.subject s) (SessionItem.session s) = id)
  /\ Forall (fun s => SessionItem.session s = None) sl.

(** The bucket of the modality [modal] exists in a dict of files. *)
Definition has_bucket (modal : option string) (c : files_t FileItem.t) : Prop :=
  match c with
  | FDict d => dict_get (default "" modal) d <> None
  | FList _ => True
  end.

(* ===================================================================== *)
(** * ProcDataset *)
(* ===================================================================== *)

(** [os.listdir(path)]: the names of the entries of the directory. The tree
    keeps sub-directories and files apart, each in the order of the
    directory, and the listing gives the sub-directories first. [None]
    stands for the [OSError] raised when [path] is not a directory or
    cannot be read. *)
Definition os_listdir (path : string) (w : world) : option (list string) :=
  match fs w path with
  | Some (Dir ds files) => Some (map fst ds ++ files)
  | Some Closed => None
  | None => None
  end.

(** [os.path.isdir(path)] *)
Definition os_path_isdir (path : string) : M bool := fun w =>
  (w, Ok match fs w path with Some _ => true | None => false end).

(** [try: ... except: pass] around a call whose value is used when it
    returns: whatever is raised is dropped, and the effects that came
    before it stay. *)
Definition try_pass {A} (m : M A) : M (option A) := fun w =>
  match m w with
  | (w', Ok a) => (w', Ok (Some a))
  | (w', Raise _) => (w', Ok None)
  end.

Module ProcDataset.
Record t := mk {
  path : string;
  is_mask : bool;
  mask_list : attr (list MaskItem.t);
  step_list : attr (list StepItem.t);
}.
End ProcDataset.

(** [_subpath] and [_scan_subpath] *)
Definition _subpath (path p : string) : string := os_path_join path p.

Definition _scan_subpath `{Env} (path p : string) : M loc :=
  StepDataset (os_path_join path p) true None false.

(** The loop of [_parse] over the listing when [is_mask] is set; the state
    is [self.mask_list]. *)
Fixpoint parse_masks `{Env} (path : string) (listing : list string)
    (mask_list : list MaskItem.t) : M (list MaskItem.t) :=
  match listing with
  | [] => mret mask_list
  | modal :: listing' =>
      isdir ← os_path_isdir (_subpath path modal);
      mask_list ←
        (if isdir : bool then
           d ← try_pass (_scan_subpath path modal);
           mret match d with
                | Some l => mask_list ++ [MaskItem.mk modal (Some l)]
                | None => mask_list
                end
         else mret mask_list);
      parse_masks path listing' mask_list
  end.

(** The loop of [_parse] when [is_mask] is not set; the state is
    [self.step_list]. *)
Fixpoint parse_steps `{Env} (path : string) (listing : list string)
    (step_list : list StepItem.t) : M (list StepItem.t) :=
  match listing with
  | [] => mret step_list
  | step :: listing' =>
      isdir ← os_path_isdir (_subpath path step);
      step_list ←
        (if isdir : bool then
           match step_pattern_match step with
           | Some (id, name, annotation) =>
               d ← try_pass (_scan_subpath path step);
               mret match d with
                    | Some l =>
                        step_list ++ [StepItem.mk id name annotation (Some l)]
                    | None => step_list
                    end
           | None => mret step_list
           end
         else mret step_list);
      parse_steps path listing' step_list
  end.

(** [ProcDataset(path, mask)]: [None] when [os.listdir] raises, otherwise
    the run of [_parse] and the new instance. *)
Definition ProcDataset_init `{Env} (path : string) (mask : bool) (w : world)
  : option (world * result ProcDataset.t) :=
  match os_listdir path w with
  | None => None
  | Some listing =>
      Some (if mask
            then (mask_list ← parse_masks path listing [];
                  mret (ProcDataset.mk path true (Value mask_list) Unset)) w
            else (step_list ← parse_steps path listing [];
                  mret (ProcDataset.mk path false Unset (Value step_list))) w)
  end.

(** The entries of a listing from which [ProcDataset] gets a dataset: the
    sub-directories whose tree a validated [StepDataset] is built from. *)
Definition scannable `{Env} (disk : string -> option tree) (path n : string)
  : bool :=
  match disk (os_path_join path n),
        disk (os_path_abspath (os_path_join path n)) with
  | Some _, Some sub =>
      buildable Dataset.Step sub
      && negb (bool_decide
                 (str_to_list (os_path_abspath (os_path_join path n)) = []))
  | _, _ => false
  end.

(** The store holds at [l] a validated dataset with well-formed lists. *)
Definition holds_dataset (h : list obj) (d : option loc) : Prop :=
  exists l, d = Some l /\ facade_ok h l /\ facade_validated h l.

(** The disk answers alike for the path of an entry as given and as
    resolved: an entry that is a directory has a tree under its absolute
    path, with proper and distinct directory names, whose directories the
    walk all enters. *)
Definition coherent `{Env} (disk : string -> option tree) (path : string)
    (listing : list string) : bool :=
  forallb (fun n =>
             match disk (os_path_join path n) with
             | None => true
             | Some _ =>
                 match disk (os_path_abspath (os_path_join path n)) with
                 | Some sub => tree_ok sub && entered sub
                 | None => false
                 end
             end) listing.

(** [/proc] with a single-session step, a multi-session step, a folder that
    is no step and a file. *)
Definition step_tree : tree :=
  Dir [("sub-01", Dir [] ["sub-01_bold.nii.gz"])] [].

Definition multi_step_tree : tree :=
  Dir [("sub-01", Dir [("ses-01", Dir [] ["sub-01_ses-01_bold.nii.gz"])] [])] [].

Definition proc_tree : tree :=
  Dir [("0001_realign_func", step_tree); ("0002_smooth_func", multi_step_tree);
       ("notes", step_tree)] ["README"].

Definition proc_disk : string -> option tree := fun p =>
  if String.eqb p "/proc" then Some proc_tree
  else if String.eqb p "/proc/0001_realign_func" then Some step_tree
  else if String.eqb p "/proc/0002_smooth_func" then Some multi_step_tree
  else if String.eqb p "/proc/notes" then Some step_tree
  else None.

(** The modality of a record of a dataset of class [k]: a name when the
    class has modalities, none otherwise. *)
Definition modal_of_class (k : Dataset.kind) (f : FileItem.t) : Prop :=
  if has_modal k then opt_truthy (FileItem.modal f) = true
  else FileItem.modal f = None.

(** The single-session step dataset built from [/step]. *)
Definition step_world : world :=
  (@StepDataset literal_env "/step" true None false
     (empty_world (disk_at "/step" step_tree))).1.

(* ===================================================================== *)
(** * Properties of the primitives *)
(* ===================================================================== *)

Section SortedFacts.
Context {A : Type} (lt : A -> A -> bool).

Lemma insert_sorted_Permutation (x : A) (l : list A) :
  insert_sorted lt x l ≡ₚ x :: l.
Proof.
  induction l as [|y l IH]; simpl; [done|].
  destruct (lt y x); [|done].
  rewrite IH. apply perm_swap.
Qed.

Lemma sorted_Permutation (l : list A) : sorted lt l ≡ₚ l.
Proof.
  induction l as [|x l IH]; simpl; [done|].
  rewrite insert_sorted_Permutation. by rewrite IH.
Qed.

Lemma sorted_nil_inv (l : list A) : sorted lt l = [] -> l = [].
Proof.
  intros E. apply Permutation_nil. rewrite <- E.
  apply sorted_Permutation.
Qed.
End SortedFacts.

Lemma str_split1_nonempty (sep : ascii) (s : string) : str_split1 sep s ≠ [].
Proof.
  destruct s as [|c s]; simpl; [done|].
  destruct (Ascii.eqb c sep); [done|]. by destruct (str_split1 sep s).
Qed.

(** Splitting at the first separator: the text before it has none. *)
Lemma str_split1_first (sep : ascii) (stem ext : string) :
  str_contains sep stem = false ->
  str_split1 sep (stem +:+ String sep ext) = [stem; ext].
Proof.
  induction stem as [|c stem IH]; simpl; intros Hc.
  - by rewrite Ascii.eqb_refl.
  - apply orb_false_iff in Hc as [Hc1 Hc2].
    rewrite Hc1, (IH Hc2). done.
Qed.

Lemma str_split1_none (sep : ascii) (s : string) :
  str_contains sep s = false -> str_split1 sep s = [s].
Proof.
  induction s as [|c s IH]; simpl; intros Hc; [done|].
  apply orb_false_iff in Hc as [Hc1 Hc2].
  by rewrite Hc1, (IH Hc2).
Qed.

Lemma str_contains_split (sep : ascii) (s : string) :
  str_contains sep s = true ->
  exists stem ext, s = stem +:+ String sep ext /\ str_contains sep stem = false.
Proof.
  induction s as [|c s IH]; simpl; [done|].
  destruct (Ascii.eqb c sep) eqn:E; simpl.
  - intros _. apply Ascii.eqb_eq in E as ->. by exists EmptyString, s.
  - intros Hc. destruct (IH Hc) as (stem & ext & -> & Hs).
    exists (String c stem), ext. simpl. by rewrite E, Hs.
Qed.

(* ===================================================================== *)
(** * The constructor, file by file *)
(* ===================================================================== *)

Lemma new_file_item_dotless abs_path abs_path_list subj sess modal sess_path f :
  str_contains "."%char f = false ->
  new_file_item abs_path abs_path_list subj sess modal sess_path f
  = Raise (UnpackError 2 1).
Proof.
  intros Hf. unfold new_file_item. by rewrite (str_split1_none _ _ Hf).
Qed.

Lemma construct_files_dotless abs_path abs_path_list subj sess modal sess_path
    filenames f st :
  In f filenames -> str_contains "."%char f = false ->
  exists e, construct_files abs_path abs_path_list subj sess modal sess_path
              filenames st = Raise e.
Proof.
  revert st. induction filenames as [|g filenames IH]; intros st Hin Hf; [done|].
  simpl. destruct Hin as [->|Hin].
  - rewrite (new_file_item_dotless _ _ _ _ _ _ _ Hf). simpl. eauto.
  - destruct (new_file_item _ _ _ _ _ _ g) as [finfo|e]; simpl; [|eauto].
    destruct (session_add modal finfo st.1) as [files|e]; simpl; [|eauto].
    by apply IH.
Qed.

Lemma construct_path_dotless self ref st sess_path filenames f :
  In f filenames -> str_contains "."%char f = false ->
  exists e, construct_path self ref st (sess_path, filenames) = Raise e.
Proof.
  intros Hin Hf. unfold construct_path.
  destruct (parse_meta _ _ _ _) as [[[subj sess] modal]|e]; simpl; [|eauto].
  destruct (lookup_session _ _ _ _ _) as [[[i processed] session_list]|e];
    simpl; [|eauto].
  destruct (session_list !! i) as [sinfo|]; [|eauto].
  destruct (construct_files_dotless (Dataset._abs_path self)
              (Dataset._abs_path_list self) subj sess modal sess_path filenames f
              (SessionItem.files sinfo, c_file_list st) Hin Hf) as [e ->].
  simpl. eauto.
Qed.

Lemma construct_paths_dotless self ref items st sess_path filenames f :
  In (sess_path, filenames) items ->
  In f filenames -> str_contains "."%char f = false ->
  exists e, construct_paths self ref items st = Raise e.
Proof.
  revert st. induction items as [|item items IH]; intros st Hitem Hin Hf; [done|].
  simpl. destruct Hitem as [->|Hitem].
  - destruct (construct_path_dotless self ref st sess_path filenames f Hin Hf)
      as [e ->]. simpl. eauto.
  - destruct (construct_path self ref st item) as [st'|e]; simpl; [|eauto].
    by apply IH.
Qed.

(* ===================================================================== *)
(** * Frame reasoning: what a computation leaves untouched *)
(* ===================================================================== *)

Section Frames.
Context (n : nat).

Lemma frames_ret {A} (a : A) (Q : A -> Prop) : Q a -> frames n (mret a) Q.
Proof. intros HQ w Hn. simpl. done. Qed.

Lemma frames_raise {A} (e : exn) (Q : A -> Prop) : frames n (raise e) Q.
Proof. intros w Hn. simpl. done. Qed.

Lemma frames_lift {A} (r : result A) : frames n (lift r) (fun _ => True).
Proof. intros w Hn. simpl. by destruct r. Qed.

Lemma frames_weaken {A} (m : M A) (Q R : A -> Prop) :
  frames n m Q -> (forall a, Q a -> R a) -> frames n m R.
Proof.
  intros Hm HQR w Hn. destruct (Hm w Hn) as (H1 & H2 & H3 & H4).
  repeat split; try done. destruct (m w).2; auto.
Qed.

Lemma frames_bind {A B} (m : M A) (k : A -> M B) (Q : A -> Prop) (R : B -> Prop) :
  frames n m Q -> (forall a, Q a -> frames n (k a) R) -> frames n (m ≫= k) R.
Proof.
  intros Hm Hk w Hn. destruct (Hm w Hn) as (H1 & H2 & H3 & H4).
  unfold mbind, M_bind. destruct (m w) as [w1 [a|e]]; simpl in *.
  - destruct (Hk a H4 w1) as (K1 & K2 & K3 & K4); [lia|].
    repeat split.
    + intros l Hl. rewrite K1, H1; done.
    + lia.
    + congruence.
    + done.
  - done.
Qed.

Lemma frames_alloc (o : obj) : frames n (alloc o) (fun l => (n <= l)%nat).
Proof.
  intros w Hn. simpl. repeat split.
  - intros l Hl. apply lookup_app_l. lia.
  - rewrite length_app. lia.
  - done.
Qed.

Lemma frames_load (l : loc) : frames n (load l) (fun _ => True).
Proof. intros w Hn. unfold load. by destruct (heap w !! l). Qed.

Lemma frames_store (l : loc) (o : obj) :
  (n <= l)%nat -> frames n (store l o) (fun _ => True).
Proof.
  intros Hl w Hn. simpl. repeat split.
  - intros l' Hl'. apply list_lookup_insert_ne. lia.
  - by rewrite length_insert.
Qed.

Lemma frames_warn (msg : string) : frames n (warn msg) (fun _ => True).
Proof. intros w Hn. simpl. done. Qed.

Lemma frames_os_walk (top : string) : frames n (os_walk top) (fun _ => True).
Proof. intros w Hn. simpl. done. Qed.

Lemma frames_when (b : bool) (m : M unit) :
  frames n m (fun _ => True) -> frames n (when b m) (fun _ => True).
Proof. intros Hm. destruct b; simpl; [done|]. by apply frames_ret. Qed.

Lemma frames_for_each {A} (xs : list A) (body : A -> M unit) :
  (forall x, x ∈ xs -> frames n (body x) (fun _ => True)) ->
  frames n (for_each xs body) (fun _ => True).
Proof.
  induction xs as [|x xs IH]; intros Hbody; simpl.
  - by apply frames_ret.
  - eapply frames_bind.
    + apply Hbody. by left.
    + intros _ _. apply IH. intros y Hy. apply Hbody. by right.
Qed.

Lemma frames_map_M {A B} (f : A -> M B) (xs : list A) (Q : B -> Prop) :
  (forall x, frames n (f x) Q) -> frames n (map_M f xs) (Forall Q).
Proof.
  intros Hf. induction xs as [|x xs IH]; simpl.
  - by apply frames_ret.
  - eapply frames_bind; [apply Hf|]. intros y Hy.
    eapply frames_bind; [apply IH|]. intros ys Hys.
    apply frames_ret. by constructor.
Qed.

Lemma frames_filter_M {A} (p : A -> M bool) (xs : list A) :
  (forall x, frames n (p x) (fun _ => True)) ->
  frames n (filter_M p xs) (fun _ => True).
Proof.
  intros Hp. induction xs as [|x xs IH]; simpl.
  - by apply frames_ret.
  - eapply frames_bind; [apply Hp|]. intros b _.
    eapply frames_bind; [apply IH|]. intros ys _.
    by apply frames_ret.
Qed.
End Frames.

Lemma frames_any {A} (n : nat) (m : M A) (Q : A -> Prop) :
  frames n m Q -> frames n m (fun _ => True).
Proof. intros H. eapply frames_weaken; [exact H|done]. Qed.

(** Symbolic execution of a computation under [frames]. *)
Ltac frames_prim :=
  first
    [ apply frames_alloc | apply frames_load | apply frames_lift
    | apply frames_warn | apply frames_os_walk | apply frames_raise
    | (apply frames_store; done)
    | (apply frames_ret; done) ].

Ltac frames_run :=
  repeat match goal with
  | |- frames _ (mret _) _ => apply frames_ret; try done
  | |- frames _ (raise _) _ => apply frames_raise
  | |- frames _ (_ ≫= _) _ => eapply frames_bind; [ | intros ]
  | |- frames _ (match ?x with _ => _ end) _ => destruct x
  | |- frames _ (let '(_, _) := ?x in _) _ => destruct x
  | |- frames _ (load _) _ => apply frames_load
  | |- frames _ (lift _) _ => apply frames_lift
  | |- frames _ (alloc _) _ => apply frames_alloc
  | |- frames _ (warn _) _ => apply frames_warn
  | |- frames _ (when _ _) _ => apply frames_when
  | |- frames _ (store _ _) _ => apply frames_store; try done
  end.

Section FramesCode.
Context `{Env} (n : nat).

Lemma frames_load_list l : frames n (load_list l) (fun _ => True).
Proof. unfold load_list. frames_run. Qed.

Lemma frames_load_file l : frames n (load_file l) (fun _ => True).
Proof. unfold load_file. frames_run. Qed.

Lemma frames_load_session l : frames n (load_session l) (fun _ => True).
Proof. unfold load_session. frames_run. Qed.

Lemma frames_load_dataset l : frames n (load_dataset l) (fun _ => True).
Proof. unfold load_dataset. frames_run. Qed.

Lemma frames_getattr {A} name (a : attr A) : frames n (getattr name a) (fun _ => True).
Proof. unfold getattr. frames_run. Qed.

Lemma frames_copy_list l : frames n (copy_list l) (fun l' => (n <= l')%nat).
Proof.
  unfold copy_list. eapply frames_bind; [apply frames_load_list|].
  intros. apply frames_alloc.
Qed.

Lemma frames_copy_session l : frames n (copy_session l) (fun l' => (n <= l')%nat).
Proof.
  unfold copy_session. eapply frames_bind; [apply frames_load_session|].
  intros [[subj sess] fl] _. apply frames_alloc.
Qed.

Lemma frames_select_files p l : frames n (select_files p l) (fun _ => True).
Proof.
  unfold select_files. eapply frames_bind; [apply frames_load_list|].
  intros xs _. eapply frames_bind.
  - apply frames_filter_M. intros x.
    eapply frames_bind; [apply frames_load_file|]. intros. apply frames_lift.
  - intros ys _. eapply frames_any, frames_alloc.
Qed.

Lemma frames_select_sessions p l : frames n (select_sessions p l) (fun _ => True).
Proof.
  unfold select_sessions. eapply frames_bind; [apply frames_load_list|].
  intros xs _. eapply frames_bind.
  - apply frames_filter_M. intros x.
    eapply frames_bind; [apply frames_load_session|]. intros. by apply frames_ret.
  - intros ys _. eapply frames_any, frames_alloc.
Qed.

(** The only assignments of the filter are to the session given to
    [session_select] and [session_prune]. *)
Lemma frames_session_select p sess :
  (n <= sess)%nat -> frames n (session_select p sess) (fun _ => True).
Proof.
  intros Hs. unfold session_select.
  eapply frames_bind; [apply frames_load_session|]. intros [[subj se] fl] _.
  eapply frames_bind; [apply frames_load|]. intros o _.
  assert (Hlist : frames n (l ← select_files p fl; store sess (OSession subj se l))
                    (fun _ => True)).
  { eapply frames_bind; [apply frames_select_files|]. intros.
    by apply frames_store. }
  destruct o; try exact Hlist.
  eapply frames_bind.
  - apply (frames_map_M n _ _ (fun _ => True)). intros [m fs].
    eapply frames_bind; [apply frames_select_files|]. intros. by apply frames_ret.
  - intros kvs' _. eapply frames_bind; [apply frames_alloc|]. intros.
    by apply frames_store.
Qed.

Lemma frames_session_prune sess :
  (n <= sess)%nat -> frames n (session_prune sess) (fun _ => True).
Proof.
  intros Hs. unfold session_prune.
  eapply frames_bind; [apply frames_load_session|]. intros [[subj se] fl] _.
  eapply frames_bind; [apply frames_load|]. intros o _.
  destruct o; try by apply frames_ret.
  eapply frames_bind.
  - apply frames_filter_M. intros [m v].
    eapply frames_bind; [apply frames_load_list|]. intros. by apply frames_ret.
  - intros kvs' _. eapply frames_bind; [apply frames_alloc|]. intros.
    by apply frames_store.
Qed.

Lemma frames__session_filter sl modal annotation regex regex_ignore ext :
  frames n (_session_filter sl modal annotation regex regex_ignore ext)
    (fun _ => True).
Proof.
  unfold _session_filter.
  eapply frames_bind; [apply frames_load_list|]. intros xs _.
  eapply frames_bind; [apply frames_map_M, frames_copy_session|].
  intros copies Hcopies.
  eapply frames_bind; [apply frames_alloc|]. intros sl' _.
  eapply frames_bind; [|intros; by apply frames_ret].
  apply frames_for_each. intros sess Hsess.
  assert (n <= sess)%nat as Hn.
  { rewrite Forall_forall in Hcopies. by apply Hcopies. }
  repeat (eapply frames_bind;
          [apply frames_when, frames_session_select, Hn | intros _ _]).
  by apply frames_session_prune.
Qed.

Lemma frames_narrow c p l : frames n (narrow c p l) (fun _ => True).
Proof.
  unfold narrow. destruct c; [apply frames_select_files | by apply frames_ret].
Qed.

Lemma frames__filter fl sl a : frames n (_filter fl sl a) (fun _ => True).
Proof.
  unfold _filter.
  eapply frames_bind; [apply frames_copy_list|]. intros fl1 _.
  eapply frames_bind; [apply frames_copy_list|]. intros sl1 _.
  eapply frames_bind.
  { instantiate (1 := fun _ => True). destruct (strs_truthy (Filter.subject a)).
    - eapply frames_bind; [apply frames_select_files|]. intros.
      eapply frames_bind; [apply frames_select_sessions|]. intros.
      by apply frames_ret.
    - by apply frames_ret. }
  intros [fl2 sl2] _.
  eapply frames_bind.
  { instantiate (1 := fun _ => True). destruct (strs_truthy (Filter.session a)).
    - eapply frames_bind; [apply frames_select_files|]. intros.
      eapply frames_bind; [apply frames_select_sessions|]. intros.
      by apply frames_ret.
    - by apply frames_ret. }
  intros [fl3 sl3] _.
  repeat (eapply frames_bind; [apply frames_narrow | intros ? _]).
  eapply frames_bind; [apply frames__session_filter|]. intros.
  by apply frames_ret.
Qed.
End FramesCode.

Section FramesDataset.
Context `{Env} (n : nat).

Lemma frames_exclude_loop tag flags iter names :
  frames n (exclude_loop tag flags iter names) (fun _ => True).
Proof.
  revert names. induction iter as [|[flag name] iter IH]; intros names; simpl.
  - by apply frames_ret.
  - eapply frames_bind.
    + instantiate (1 := fun _ => True). destruct flag;
        [apply frames_warn | by apply frames_ret].
    + intros. apply IH.
Qed.

Lemma frames_validate_names tag pattern names :
  frames n (validate_names tag pattern names) (fun _ => True).
Proof.
  unfold validate_names. destruct (negb _).
  - apply frames_exclude_loop.
  - by apply frames_ret.
Qed.

Lemma frames__validator dirs files max_depth ref modal dir_only :
  frames n (_validator dirs files max_depth ref modal dir_only) (fun _ => True).
Proof.
  unfold _validator. destruct (negb _); [apply frames_raise|].
  eapply frames_bind; [apply frames_lift|]. intros top _.
  eapply frames_bind; [apply frames_lift|]. intros root _.
  eapply frames_bind; [apply frames_validate_names|]. intros subjects _.
  eapply frames_bind.
  { instantiate (1 := fun _ => True). destruct (bool_decide _).
    - eapply frames_bind; [apply frames_lift|]. intros level _.
      eapply frames_bind; [apply frames_validate_names|]. intros.
      by apply frames_ret.
    - by apply frames_ret. }
  intros sessions _.
  eapply frames_bind.
  { instantiate (1 := fun _ => True). destruct (negb dir_only).
    - eapply frames_bind; [apply frames_lift|]. intros level _.
      destruct (negb _); [|by apply frames_ret].
      apply frames_for_each. intros [relpath sess] _.
      apply frames_for_each. intros filename _. apply frames_warn.
    - by apply frames_ret. }
  intros _ _.
  eapply frames_bind.
  { instantiate (1 := fun _ => True). destruct modal.
    - eapply frames_bind; [apply frames_lift|]. intros. by apply frames_ret.
    - by apply frames_ret. }
  intros. by apply frames_ret.
Qed.

Lemma frames__parse_all abs_path abs_path_depth dir_only :
  frames n (_parse_all abs_path abs_path_depth dir_only) (fun _ => True).
Proof.
  unfold _parse_all. eapply frames_bind; [apply frames_os_walk|].
  intros entries _. destruct (fold_left _ _ _) as [[a b] c]. by apply frames_ret.
Qed.

Lemma frames_BaseParser_init k path dir_only :
  frames n (BaseParser_init k path dir_only) (fun self => (n <= self)%nat).
Proof.
  unfold BaseParser_init. destruct (_init_process path) as [[a b] c].
  eapply frames_bind; [apply frames__parse_all|].
  intros [[x y] z] _. apply frames_alloc.
Qed.

Lemma frames__validate self :
  (n <= self)%nat -> frames n (_validate self) (fun _ => True).
Proof.
  intros Hs. unfold _validate.
  eapply frames_bind; [apply frames_load_dataset|]. intros d _.
  eapply frames_bind; [apply frames__validator|]. intros [[a b] c] _.
  by apply frames_store.
Qed.

Lemma frames__inherits self i :
  (n <= self)%nat -> frames n (_inherits self i) (fun _ => True).
Proof.
  intros Hs. unfold _inherits.
  eapply frames_bind; [apply frames_load_dataset|]. intros d _.
  by apply frames_store.
Qed.

Lemma frames_place_file table f : frames n (place_file table f) (fun _ => True).
Proof.
  unfold place_file. destruct (find_object f table).
  - by apply frames_ret.
  - eapply frames_any, frames_alloc.
Qed.

Lemma frames_place_files table fs : frames n (place_files table fs) (fun _ => True).
Proof.
  unfold place_files. eapply frames_bind.
  - apply frames_map_M, frames_place_file.
  - intros. eapply frames_any, frames_alloc.
Qed.

Lemma frames_place_session table s :
  frames n (place_session table s) (fun _ => True).
Proof.
  unfold place_session. eapply frames_bind.
  - instantiate (1 := fun _ => True). destruct (SessionItem.files s).
    + apply frames_place_files.
    + eapply frames_bind.
      * apply (frames_map_M n _ _ (fun _ => True)). intros [m fs].
        eapply frames_bind; [apply frames_place_files|]. intros.
        by apply frames_ret.
      * intros. eapply frames_any, frames_alloc.
  - intros. eapply frames_any, frames_alloc.
Qed.

Lemma frames_place_lists sl fl : frames n (place_lists sl fl) (fun _ => True).
Proof.
  unfold place_lists.
  eapply frames_bind.
  { apply (frames_map_M n _ _ (fun _ => True)). intros f.
    eapply frames_any, frames_alloc. }
  intros xs _. eapply frames_bind; [apply frames_alloc|]. intros l _.
  eapply frames_bind.
  { apply (frames_map_M n _ _ (fun _ => True)). intros s.
    apply frames_place_session. }
  intros ss _. eapply frames_bind; [apply frames_alloc|]. intros.
  by apply frames_ret.
Qed.

Lemma frames__construct self :
  (n <= self)%nat -> frames n (_construct self) (fun _ => True).
Proof.
  intros Hs. unfold _construct.
  eapply frames_bind; [apply frames_load_dataset|]. intros d _.
  eapply frames_bind; [apply frames_lift|]. intros [sl fl] _.
  eapply frames_bind; [apply frames_place_lists|]. intros [sl' fl'] _.
  eapply frames_bind; [apply frames_load_dataset|]. intros d' _.
  by apply frames_store.
Qed.

Lemma frames_dataset_init k path validate inherits dir_only :
  frames n (dataset_init k path validate inherits dir_only)
    (fun self => (n <= self)%nat).
Proof.
  unfold dataset_init.
  eapply frames_bind; [apply frames_BaseParser_init|]. intros self Hs.
  eapply frames_bind; [by apply frames_when, frames__validate|]. intros _ _.
  eapply frames_bind.
  { instantiate (1 := fun _ => True). destruct inherits.
    - by apply frames__inherits.
    - by apply frames__construct. }
  intros. by apply frames_ret.
Qed.

Lemma frames_dataset_filter self a :
  frames n (dataset_filter self a) (fun self' => (n <= self')%nat).
Proof.
  unfold dataset_filter.
  eapply frames_bind; [apply frames_load_dataset|]. intros d _.
  eapply frames_bind; [apply frames_getattr|]. intros fl _.
  eapply frames_bind; [apply frames_getattr|]. intros sl _.
  eapply frames_bind; [apply frames__filter|]. intros [fl' sl'] _.
  eapply frames_bind; [apply frames_getattr|]. intros subjects _.
  eapply frames_bind; [apply frames_getattr|]. intros sessions _.
  eapply frames_bind; [apply frames_getattr|]. intros modals _.
  apply frames_dataset_init.
Qed.
End FramesDataset.

Lemma frames_sub_heap {A} (m : M A) (Q : A -> Prop) (w : world) :
  frames (length (heap w)) m Q -> sub_heap (heap w) (heap (m w).1).
Proof.
  intros Hm l o Hl. destruct (Hm w) as (H1 & _); [done|].
  rewrite H1; [done|]. by apply lookup_lt_Some in Hl.
Qed.

(* ===================================================================== *)
(** * Reading the store is stable when the store grows *)
(* ===================================================================== *)

Lemma sub_heap_refl h : sub_heap h h.
Proof. by intros l o. Qed.

Lemma sub_heap_trans h1 h2 h3 : sub_heap h1 h2 -> sub_heap h2 h3 -> sub_heap h1 h3.
Proof. intros H12 H23 l o Hl. by apply H23, H12. Qed.

Lemma sub_heap_app h ext : sub_heap h (h ++ ext).
Proof. intros l o Hl. by apply lookup_app_l_Some. Qed.

Lemma sub_heap_sub_imm h h' : sub_heap h h' -> sub_heap_imm h h'.
Proof. intros Hs l o Hl _. by apply Hs. Qed.

Lemma sub_heap_imm_refl h : sub_heap_imm h h.
Proof. by intros l o. Qed.

Lemma sub_heap_imm_trans h1 h2 h3 :
  sub_heap_imm h1 h2 -> sub_heap_imm h2 h3 -> sub_heap_imm h1 h3.
Proof. intros H12 H23 l o Hl Ho. apply H23; [|done]. by apply H12. Qed.

Lemma mapM_mono {A B} (f g : A -> option B) (xs : list A) (ys : list B) :
  (forall x y, f x = Some y -> g x = Some y) ->
  mapM f xs = Some ys -> mapM g xs = Some ys.
Proof.
  intros Hfg. rewrite !mapM_Some. intros HF. eapply Forall2_impl; [exact HF|exact Hfg].
Qed.

Section ReadMono.
Context (h h' : list obj) (Hsub : sub_heap_imm h h').

Lemma read_file_mono l f : read_file h l = Some f -> read_file h' l = Some f.
Proof.
  unfold read_file. destruct (h !! l) as [[]|] eqn:E; try done.
  intros [= ->]. by rewrite (Hsub _ _ E I).
Qed.

Lemma read_files_mono l fs : read_files h l = Some fs -> read_files h' l = Some fs.
Proof.
  unfold read_files. destruct (h !! l) as [[]|] eqn:E; try done.
  rewrite (Hsub _ _ E I). apply mapM_mono, read_file_mono.
Qed.

Lemma read_bucket_mono kv b : read_bucket h kv = Some b -> read_bucket h' kv = Some b.
Proof.
  unfold read_bucket. destruct (read_files h kv.2) as [fs|] eqn:E; [|done].
  by rewrite (read_files_mono _ _ E).
Qed.

Lemma read_collection_mono l c :
  read_collection h l = Some c -> read_collection h' l = Some c.
Proof.
  unfold read_collection. destruct (h !! l) as [[]|] eqn:E; try done;
    rewrite (Hsub _ _ E I).
  - destruct (mapM (read_file h) xs) as [fs|] eqn:E2; [|done].
    by rewrite (mapM_mono _ _ _ _ read_file_mono E2).
  - destruct (mapM (read_bucket h) kvs) as [d|] eqn:E2; [|done].
    by rewrite (mapM_mono _ _ _ _ read_bucket_mono E2).
Qed.

Lemma read_session_mono l s :
  h' !! l = h !! l -> read_session h l = Some s -> read_session h' l = Some s.
Proof.
  unfold read_session. intros ->. destruct (h !! l) as [[]|] eqn:E; try done.
  destruct (read_collection h files) as [c|] eqn:E2; [|done].
  by rewrite (read_collection_mono _ _ E2).
Qed.
End ReadMono.

Section ReadGrow.
Context (h h' : list obj) (Hsub : sub_heap h h').

Lemma read_session_grow l s : read_session h l = Some s -> read_session h' l = Some s.
Proof.
  intros Hr. apply (read_session_mono h); [by apply sub_heap_sub_imm| |done].
  unfold read_session in Hr. destruct (h !! l) eqn:E; [|done].
  by rewrite (Hsub _ _ E).
Qed.

Lemma read_files_grow l fs : read_files h l = Some fs -> read_files h' l = Some fs.
Proof. apply read_files_mono. by apply sub_heap_sub_imm. Qed.

Lemma read_sessions_grow l ss :
  read_sessions h l = Some ss -> read_sessions h' l = Some ss.
Proof.
  unfold read_sessions. destruct (h !! l) as [[]|] eqn:E; try done.
  rewrite (Hsub _ _ E). apply mapM_mono, read_session_grow.
Qed.

Lemma facade_lists_grow self v :
  facade_lists h self = Some v -> facade_lists h' self = Some v.
Proof.
  unfold facade_lists. destruct (h !! self) as [[]|] eqn:E; try done.
  rewrite (Hsub _ _ E).
  destruct (Dataset.file_list d) as [|fl]; [done|].
  destruct (Dataset.session_list d) as [|sl]; [done|].
  destruct (read_files h fl) as [fv|] eqn:E1; [|done]. simpl.
  destruct (read_sessions h sl) as [sv|] eqn:E2; [|done]. simpl.
  intros [= <-].
  by rewrite (read_files_grow _ _ E1), (read_sessions_grow _ _ E2).
Qed.
End ReadGrow.

(* ===================================================================== *)
(** * C5: filtering leaves its source untouched *)
(* ===================================================================== *)

(** C5. For every store, every façade [self] and every combination of
    predicates, [filter] (whether it returns or raises) leaves every object
    that existed before the call as it was: lists, dicts, [FileItem]s,
    [SessionItem]s and the façade itself. Hence the file list and the
    session list of the source façade, with every nested file collection,
    read the same before and after, and the same holds for the lists given
    to [_filter]. *)
Theorem filter_leaves_source_unchanged `{Env} (w : world) (self : loc)
    (a : Filter.t) :
  let w' := (dataset_filter self a w).1 in
  (forall l o, heap w !! l = Some o -> heap w' !! l = Some o)
  /\ (forall v, facade_lists (heap w) self = Some v ->
                facade_lists (heap w') self = Some v)
  /\ (forall fl sl fv sv,
        let w1 := (_filter fl sl a w).1 in
        read_files (heap w) fl = Some fv ->
        read_sessions (heap w) sl = Some sv ->
        read_files (heap w1) fl = Some fv /\ read_sessions (heap w1) sl = Some sv).
Proof.
  intros w'.
  assert (sub_heap (heap w) (heap w')) as Hsub.
  { eapply frames_sub_heap, frames_dataset_filter. }
  split; [exact Hsub|]. split.
  - intros v. by apply facade_lists_grow.
  - intros fl sl fv sv w1 Hf Hs.
    assert (sub_heap (heap w) (heap w1)) as Hsub1.
    { eapply frames_sub_heap, frames__filter. }
    split; [by apply (read_files_grow _ _ Hsub1) |
            by apply (read_sessions_grow _ _ Hsub1)].
Qed.

(* ===================================================================== *)
(** * Running the store computations *)
(* ===================================================================== *)

Lemma bind_ok {A B} (m : M A) (k : A -> M B) w w1 a :
  m w = (w1, Ok a) -> (m ≫= k) w = k a w1.
Proof. intros E. unfold mbind, M_bind. by rewrite E. Qed.

Lemma bind_raise {A B} (m : M A) (k : A -> M B) w w1 e :
  m w = (w1, Raise e) -> (m ≫= k) w = (w1, Raise e).
Proof. intros E. unfold mbind, M_bind. by rewrite E. Qed.

Lemma with_heap_id w : with_heap w (heap w) = w.
Proof. by destruct w. Qed.

Lemma load_ok l o w : heap w !! l = Some o -> load l w = (w, Ok o).
Proof. intros E. unfold load. by rewrite E. Qed.

Lemma load_list_ok l xs w :
  heap w !! l = Some (OList xs) -> load_list l w = (w, Ok xs).
Proof. intros E. unfold load_list. by rewrite (bind_ok _ _ _ _ _ (load_ok _ _ _ E)). Qed.

Lemma load_file_ok l f w :
  read_file (heap w) l = Some f -> load_file l w = (w, Ok f).
Proof.
  unfold read_file. destruct (heap w !! l) as [[]|] eqn:E; try done.
  intros [= ->]. unfold load_file.
  by rewrite (bind_ok _ _ _ _ _ (load_ok _ _ _ E)).
Qed.

Lemma load_session_ok l subj se fl w :
  heap w !! l = Some (OSession subj se fl) ->
  load_session l w = (w, Ok (subj, se, fl)).
Proof.
  intros E. unfold load_session. by rewrite (bind_ok _ _ _ _ _ (load_ok _ _ _ E)).
Qed.

Lemma load_dataset_ok l d w :
  heap w !! l = Some (ODataset d) -> load_dataset l w = (w, Ok d).
Proof.
  intros E. unfold load_dataset. by rewrite (bind_ok _ _ _ _ _ (load_ok _ _ _ E)).
Qed.

Lemma alloc_run o w :
  alloc o w = (with_heap w (heap w ++ [o]), Ok (length (heap w))).
Proof. done. Qed.

Lemma store_run l o w : store l o w = (with_heap w (<[l := o]> (heap w)), Ok tt).
Proof. done. Qed.

Lemma lookup_new (h : list obj) (o : obj) : (h ++ [o]) !! length h = Some o.
Proof. rewrite lookup_app_r; [|done]. by rewrite Nat.sub_diag. Qed.

(* ===================================================================== *)
(** * The filter on the store computes the filter on values *)
(* ===================================================================== *)

(** The comprehension over a list of [FileItem] references. *)
Lemma filter_M_files (p : FileItem.t -> result bool) xs fs w :
  mapM (read_file (heap w)) xs = Some fs ->
  match filter_R p fs with
  | Ok fs' =>
      exists ys, filter_M (fun x => f ← load_file x; lift (p f)) xs w = (w, Ok ys)
                 /\ mapM (read_file (heap w)) ys = Some fs'
  | Raise e => filter_M (fun x => f ← load_file x; lift (p f)) xs w = (w, Raise e)
  end.
Proof.
  rewrite mapM_Some. induction 1 as [|x f xs fs Hx _ IH]; simpl.
  - by exists [].
  - pose proof (bind_ok _ (fun f0 => lift (p f0)) _ _ _ (load_file_ok _ _ _ Hx))
      as Hload.
    unfold lift in Hload.
    destruct (p f) as [b|e]; simpl.
    + destruct (filter_R p fs) as [fs'|e]; simpl.
      * destruct IH as (ys & Hrun & Hys).
        exists (if b then x :: ys else ys). split.
        { rewrite (bind_ok _ _ _ _ _ Hload), (bind_ok _ _ _ _ _ Hrun). done. }
        destruct b; [|done]. rewrite mapM_Some in *. by constructor.
      * by rewrite (bind_ok _ _ _ _ _ Hload), (bind_raise _ _ _ _ _ IH).
    + by rewrite (bind_raise _ _ _ _ _ Hload).
Qed.

Lemma select_files_spec (p : FileItem.t -> result bool) l fs w :
  read_files (heap w) l = Some fs ->
  match filter_R p fs with
  | Ok fs' =>
      exists ys, select_files p l w
                 = (with_heap w (heap w ++ [OList ys]), Ok (length (heap w)))
                 /\ mapM (read_file (heap w)) ys = Some fs'
  | Raise e => select_files p l w = (w, Raise e)
  end.
Proof.
  unfold read_files. destruct (heap w !! l) as [[]|] eqn:E; try done.
  intros Hm. unfold select_files.
  rewrite (bind_ok _ _ _ _ _ (load_list_ok _ _ _ E)).
  pose proof (filter_M_files p _ _ _ Hm) as Hf.
  destruct (filter_R p fs) as [fs'|e].
  - destruct Hf as (ys & Hrun & Hys). exists ys. split; [|done].
    by rewrite (bind_ok _ _ _ _ _ Hrun).
  - by rewrite (bind_raise _ _ _ _ _ Hf).
Qed.

Lemma read_files_new h ys fs :
  mapM (read_file h) ys = Some fs ->
  read_files (h ++ [OList ys]) (length h) = Some fs.
Proof.
  intros Hm. unfold read_files. rewrite lookup_new.
  eapply mapM_mono; [|exact Hm]. intros x y.
  apply read_file_mono, sub_heap_sub_imm, sub_heap_app.
Qed.

Lemma with_heap_nil w : with_heap w (heap w ++ []) = w.
Proof. rewrite app_nil_r. apply with_heap_id. Qed.

(** The dict comprehension over the buckets of a session. *)
Lemma select_buckets_spec (p : FileItem.t -> result bool) kvs d w :
  mapM (read_bucket (heap w)) kvs = Some d ->
  exists ext,
    match map_R (fun kv => fs ← filter_R p (snd kv); Ok (fst kv, fs)) d with
    | Ok d' =>
        exists kvs',
          map_M (fun '(m, fs) => fs' ← select_files p fs; mret (m, fs')) kvs w
          = (with_heap w (heap w ++ ext), Ok kvs')
          /\ mapM (read_bucket (heap w ++ ext)) kvs' = Some d'
    | Raise e =>
        map_M (fun '(m, fs) => fs' ← select_files p fs; mret (m, fs')) kvs w
        = (with_heap w (heap w ++ ext), Raise e)
    end.
Proof.
  rewrite mapM_Some. intros HF. revert d w HF.
  induction kvs as [|[m v] kvs IH]; intros d w HF;
    inversion HF as [|? b ? d0 Hb Hd]; subst.
  - exists []. simpl. exists []. by rewrite with_heap_nil.
  - unfold read_bucket in Hb. simpl in Hb.
    destruct (read_files (heap w) v) as [fs|] eqn:Hv; [|done].
    simpl in Hb. injection Hb as <-. simpl.
    pose proof (select_files_spec p _ _ _ Hv) as Hsel.
    destruct (filter_R p fs) as [fs'|e]; simpl.
    + destruct Hsel as (ys & Hrun & Hys).
      set (w1 := with_heap w (heap w ++ [OList ys])) in *.
      assert (Forall2 (fun x y => read_bucket (heap w1) x = Some y) kvs d0) as HF1.
      { eapply Forall2_impl; [exact Hd|]. intros x y.
        apply read_bucket_mono, sub_heap_sub_imm, sub_heap_app. }
      destruct (IH d0 w1 HF1) as (ext & IH1).
      exists (OList ys :: ext).
      assert (heap w ++ OList ys :: ext = heap w1 ++ ext) as Eh.
      { simpl. by rewrite <- app_assoc. }
      rewrite Eh.
      destruct (map_R _ d0) as [d'|e]; simpl.
      * destruct IH1 as (kvs' & Hrun' & Hkvs').
        exists ((m, length (heap w)) :: kvs'). split.
        { rewrite (bind_ok _ _ _ _ _ (bind_ok _ _ _ _ _ Hrun)).
          cbv beta iota. unfold mret at 1, M_ret at 1.
          rewrite (bind_ok _ _ _ _ _ Hrun'). done. }
        rewrite mapM_Some. constructor; [|by rewrite <- mapM_Some].
        unfold read_bucket. simpl.
        rewrite (read_files_grow (heap w ++ [OList ys]) _ (sub_heap_app _ ext) _ fs');
          [done|]. by apply read_files_new.
      * rewrite (bind_ok _ _ _ _ _ (bind_ok _ _ _ _ _ Hrun)).
        cbv beta iota. unfold mret at 1, M_ret at 1.
        by rewrite (bind_raise _ _ _ _ _ IH1).
    + exists []. rewrite with_heap_nil.
      by rewrite (bind_raise _ _ _ _ _ (bind_raise _ _ _ _ _ Hsel)).
Qed.

Lemma touch_refl c h : touch c h h.
Proof. split; [apply sub_heap_imm_refl | by intros l o]. Qed.

Lemma touch_trans c h1 h2 h3 : touch c h1 h2 -> touch c h2 h3 -> touch c h1 h3.
Proof.
  intros [A1 B1] [A2 B2]. split; [by eapply sub_heap_imm_trans|].
  intros l o Hl Ho. by apply B2, B1.
Qed.

(** Assigning to the session at [c] after allocations. *)
Lemma touch_store_app h ext c subj se fl o :
  h !! c = Some (OSession subj se fl) -> touch c h (<[c := o]> (h ++ ext)).
Proof.
  intros Hc. split.
  - intros l o' Hl Hi. rewrite list_lookup_insert_ne.
    + by apply lookup_app_l_Some.
    + intros ->. rewrite Hc in Hl. by injection Hl as <-.
  - intros l o' Hne Hl. rewrite list_lookup_insert_ne; [|done].
    by apply lookup_app_l_Some.
Qed.

Lemma lookup_store_app (h ext : list obj) c o o' :
  h !! c = Some o' -> <[c := o]> (h ++ ext) !! c = Some o.
Proof.
  intros Hc. apply list_lookup_insert_eq. rewrite length_app.
  apply lookup_lt_Some in Hc. lia.
Qed.

Lemma lookup_store_new (h : list obj) c o o' x :
  h !! c = Some o' -> <[c := o]> (h ++ [x]) !! length h = Some x.
Proof.
  intros Hc. rewrite list_lookup_insert_ne.
  - apply lookup_new.
  - apply lookup_lt_Some in Hc. lia.
Qed.

Lemma session_select_spec (p : FileItem.t -> result bool) c subj se fl col w :
  heap w !! c = Some (OSession subj se fl) ->
  read_collection (heap w) fl = Some col ->
  exists h',
    touch c (heap w) h'
    /\ match collection_select p col with
       | Ok col' =>
           session_select p c w = (with_heap w h', Ok tt)
           /\ exists fl', h' !! c = Some (OSession subj se fl')
                          /\ read_collection h' fl' = Some col'
       | Raise e => session_select p c w = (with_heap w h', Raise e)
       end.
Proof.
  intros Hc Hcol. unfold read_collection in Hcol.
  destruct (heap w !! fl) as [[f|xs|kvs|?|?]|] eqn:Hfl; try done.
  - (* a list *)
    destruct (mapM (read_file (heap w)) xs) as [fs|] eqn:Hxs; [|done].
    injection Hcol as <-. simpl.
    assert (read_files (heap w) fl = Some fs) as Hrf.
    { unfold read_files. by rewrite Hfl. }
    pose proof (select_files_spec p _ _ _ Hrf) as Hsel.
    unfold session_select.
    rewrite (bind_ok _ _ _ _ _ (load_session_ok _ _ _ _ _ Hc)). cbv beta iota.
    rewrite (bind_ok _ _ _ _ _ (load_ok _ _ _ Hfl)). cbv beta iota.
    destruct (filter_R p fs) as [fs'|e]; simpl.
    + destruct Hsel as (ys & Hrun & Hys).
      exists (<[c := OSession subj se (length (heap w))]> (heap w ++ [OList ys])).
      split; [by eapply touch_store_app|]. split.
      { by rewrite (bind_ok _ _ _ _ _ Hrun). }
      exists (length (heap w)). split; [by eapply lookup_store_app|].
      unfold read_collection. rewrite (lookup_store_new _ _ _ _ _ Hc).
      erewrite (mapM_mono (read_file (heap w))); [done| |exact Hys].
      intros x y. apply read_file_mono.
      eapply proj1, touch_store_app, Hc.
    + exists (heap w). split; [apply touch_refl|].
      by rewrite (bind_raise _ _ _ _ _ Hsel), with_heap_id.
  - (* a dict *)
    destruct (mapM (read_bucket (heap w)) kvs) as [d|] eqn:Hkvs; [|done].
    injection Hcol as <-. simpl.
    destruct (select_buckets_spec p _ _ _ Hkvs) as (ext & Hsel).
    unfold session_select.
    rewrite (bind_ok _ _ _ _ _ (load_session_ok _ _ _ _ _ Hc)). cbv beta iota.
    rewrite (bind_ok _ _ _ _ _ (load_ok _ _ _ Hfl)). cbv beta iota.
    destruct (map_R _ d) as [d'|e]; simpl.
    + destruct Hsel as (kvs' & Hrun & Hkvs').
      set (h1 := heap w ++ ext) in *.
      assert (h1 !! c = Some (OSession subj se fl)) as Hc1.
      { by apply lookup_app_l_Some. }
      exists (<[c := OSession subj se (length h1)]> (h1 ++ [ODict kvs'])).
      split.
      { unfold h1. rewrite <- app_assoc. by eapply touch_store_app. }
      split.
      { by rewrite (bind_ok _ _ _ _ _ Hrun). }
      exists (length h1). split; [by eapply lookup_store_app|].
      unfold read_collection. rewrite (lookup_store_new _ _ _ _ _ Hc1).
      erewrite (mapM_mono (read_bucket h1)); [done| |exact Hkvs'].
      intros x y. apply read_bucket_mono.
      eapply proj1, touch_store_app, Hc1.
    + exists (heap w ++ ext). split.
      { split; [apply sub_heap_sub_imm, sub_heap_app|].
        intros l o _. apply sub_heap_app. }
      by rewrite (bind_raise _ _ _ _ _ Hsel).
Qed.

Lemma session_triple_select p c :
  session_triple (session_select p c) (collection_select p) c.
Proof. intros subj se fl col w. apply session_select_spec. Qed.

Lemma session_triple_when b p c :
  session_triple (when b (session_select p c)) (collection_narrow b p) c.
Proof.
  destruct b; simpl; [apply session_triple_select|].
  intros subj se fl col w Hc Hcol. exists (heap w).
  split; [apply touch_refl|]. rewrite with_heap_id. split; [done|].
  by exists fl.
Qed.

Lemma session_triple_seq m1 m2 f1 f2 c :
  session_triple m1 f1 c -> session_triple m2 f2 c ->
  session_triple (m1 ;; m2) (fun col => f1 col ≫= f2) c.
Proof.
  intros H1 H2 subj se fl col w Hc Hcol.
  destruct (H1 subj se fl col w Hc Hcol) as (h1 & Ht1 & Hm1).
  destruct (f1 col) as [col1|e]; simpl.
  - destruct Hm1 as (Hrun1 & fl1 & Hc1 & Hcol1).
    destruct (H2 subj se fl1 col1 (with_heap w h1) Hc1 Hcol1) as (h2 & Ht2 & Hm2).
    exists h2. split; [by eapply touch_trans|].
    rewrite (bind_ok _ _ _ _ _ Hrun1). exact Hm2.
  - exists h1. split; [done|]. by rewrite (bind_raise _ _ _ _ _ Hm1).
Qed.

Lemma prune_buckets kvs d w :
  mapM (read_bucket (heap w)) kvs = Some d ->
  exists kvs',
    filter_M (fun '(_, v) => xs ← load_list v; mret (negb (length xs =? 0)%nat))
      kvs w = (w, Ok kvs')
    /\ mapM (read_bucket (heap w)) kvs'
       = Some (List.filter (fun kv => negb (length (snd kv) =? 0)%nat) d).
Proof.
  rewrite mapM_Some. induction 1 as [|[m v] [m' fs] kvs d Hb _ IH]; simpl.
  - by exists [].
  - destruct IH as (kvs' & Hrun & Hkvs').
    unfold read_bucket in Hb. simpl in Hb. unfold read_files in Hb.
    destruct (heap w !! v) as [[| xs | | |]|] eqn:Hv; try done.
    destruct (mapM (read_file (heap w)) xs) as [fs0|] eqn:Hxs; [|done].
    simpl in Hb. injection Hb as <- <-.
    assert (length xs = length fs0) as Hlen.
    { by apply length_mapM in Hxs. }
    exists (if negb (length xs =? 0)%nat then (m, v) :: kvs' else kvs').
    split.
    + rewrite (bind_ok _ _ _ _ _ (bind_ok _ _ _ _ _ (load_list_ok _ _ _ Hv))).
      cbv beta iota. unfold mret at 1, M_ret at 1.
      by rewrite (bind_ok _ _ _ _ _ Hrun).
    + rewrite <- Hlen. destruct (negb (length xs =? 0)%nat); [|done].
      rewrite mapM_Some. constructor; [|by rewrite <- mapM_Some].
      unfold read_bucket, read_files. simpl. by rewrite Hv, Hxs.
Qed.

Lemma session_triple_prune c :
  session_triple (session_prune c) (fun col => Ok (collection_prune col)) c.
Proof.
  intros subj se fl col w Hc Hcol. simpl.
  pose proof Hcol as Hcol0. unfold read_collection in Hcol.
  unfold session_prune.
  rewrite (bind_ok _ _ _ _ _ (load_session_ok _ _ _ _ _ Hc)). cbv beta iota.
  destruct (heap w !! fl) as [[f|xs|kvs|?|?]|] eqn:Hfl; try done.
  - destruct (mapM (read_file (heap w)) xs) as [fs|] eqn:Hxs; [|done].
    injection Hcol as <-. simpl.
    exists (heap w). split; [apply touch_refl|].
    rewrite (bind_ok _ _ _ _ _ (load_ok _ _ _ Hfl)). cbv beta iota.
    rewrite with_heap_id. split; [done|]. by exists fl.
  - destruct (mapM (read_bucket (heap w)) kvs) as [d|] eqn:Hkvs; [|done].
    injection Hcol as <-. simpl.
    destruct (prune_buckets _ _ _ Hkvs) as (kvs' & Hrun & Hkvs').
    exists (<[c := OSession subj se (length (heap w))]> (heap w ++ [ODict kvs'])).
    split; [by eapply touch_store_app|]. split.
    { rewrite (bind_ok _ _ _ _ _ (load_ok _ _ _ Hfl)). cbv beta iota.
      by rewrite (bind_ok _ _ _ _ _ Hrun). }
    exists (length (heap w)). split; [by eapply lookup_store_app|].
    unfold read_collection. rewrite (lookup_store_new _ _ _ _ _ Hc).
    erewrite (mapM_mono (read_bucket (heap w))); [done| |exact Hkvs'].
    intros x y. apply read_bucket_mono.
    eapply proj1, touch_store_app, Hc.
Qed.

Lemma read_session_inv h c s :
  read_session h c = Some s ->
  exists fl, h !! c = Some (OSession (SessionItem.subject s) (SessionItem.session s) fl)
             /\ read_collection h fl = Some (SessionItem.files s).
Proof.
  unfold read_session. destruct (h !! c) as [[| | |subj se fl|]|]; try done.
  destruct (read_collection h fl) as [col|] eqn:E; simpl; [|done].
  intros [= <-]. by exists fl.
Qed.

Lemma read_session_intro h c subj se fl col :
  h !! c = Some (OSession subj se fl) -> read_collection h fl = Some col ->
  read_session h c = Some (SessionItem.mk subj se col).
Proof. intros Hc Hcol. unfold read_session. by rewrite Hc, Hcol. Qed.

Lemma reads_preserved h h' xs ys :
  Forall2 (fun x y => read_session h x = Some y) xs ys ->
  sub_heap_imm h h' ->
  (forall x o, x ∈ xs -> h !! x = Some o -> h' !! x = Some o) ->
  Forall2 (fun x y => read_session h' x = Some y) xs ys.
Proof.
  intros HF Himm. induction HF as [|x y xs ys Hx _ IH]; intros Hsame.
  - constructor.
  - constructor.
    + apply (read_session_mono h); [done| |done].
      destruct (read_session_inv _ _ _ Hx) as (fl & Hc & _).
      rewrite Hc. apply Hsame; [by left|done].
    + apply IH. intros x' o Hin. apply Hsame. by right.
Qed.

(** The loop over the copied sessions: each iteration assigns to its own
    session only. *)
Lemma for_each_sessions (body : loc -> M unit)
    (step : SessionItem.t -> result SessionItem.t) :
  (forall c s w, read_session (heap w) c = Some s ->
     exists h', touch c (heap w) h'
       /\ match step s with
          | Ok s' => body c w = (with_heap w h', Ok tt)
                     /\ read_session h' c = Some s'
          | Raise e => body c w = (with_heap w h', Raise e)
          end) ->
  forall copies ss w,
    NoDup copies -> mapM (read_session (heap w)) copies = Some ss ->
    exists h',
      sub_heap_imm (heap w) h'
      /\ (forall l o, l ∉ copies -> heap w !! l = Some o -> h' !! l = Some o)
      /\ match map_R step ss with
         | Ok ss' => for_each copies body w = (with_heap w h', Ok tt)
                     /\ mapM (read_session h') copies = Some ss'
         | Raise e => for_each copies body w = (with_heap w h', Raise e)
         end.
Proof.
  intros Hbody copies ss w Hnd. rewrite mapM_Some. intros HF. revert ss w Hnd HF.
  induction copies as [|c copies IH]; intros ss0 w Hnd HF;
    inversion HF as [|? s ? ss Hc Hrest]; subst.
  - exists (heap w). simpl. rewrite with_heap_id.
    split; [apply sub_heap_imm_refl|]. split; [by intros l o|done].
  - apply NoDup_cons in Hnd as [Hnotin Hnd].
    destruct (Hbody c s w Hc) as (h1 & [Himm1 Hfr1] & Hrun1). simpl.
    destruct (step s) as [s'|e]; simpl.
    + destruct Hrun1 as (Hrun1 & Hs').
      assert (Forall2 (fun x y => read_session (heap (with_heap w h1)) x = Some y)
                copies ss) as HF1.
      { simpl. apply (reads_preserved (heap w)); [done|done|].
        intros x o Hin. apply Hfr1. intros ->. done. }
      destruct (IH ss (with_heap w h1) Hnd HF1) as (h2 & Himm2 & Hfr2 & Hrun2).
      simpl in Himm2, Hfr2.
      exists h2. split; [by eapply sub_heap_imm_trans|]. split.
      { intros l o Hl Ho. apply not_elem_of_cons in Hl as [Hne Hl].
        apply Hfr2; [done|]. by apply Hfr1. }
      rewrite (bind_ok _ _ _ _ _ Hrun1).
      destruct (map_R step ss) as [ss'|e]; simpl.
      * destruct Hrun2 as (Hrun2 & Hss'). split; [done|].
        apply (mapM_Some_2 _ (c :: copies)).
        constructor; [|by apply mapM_Some_1].
        destruct (read_session_inv _ _ _ Hs') as (fl & Hc1 & _).
        apply (read_session_mono h1); [done| |done].
        rewrite Hc1. by apply Hfr2.
      * done.
    + exists h1. split; [done|]. split.
      { intros l o Hl Ho. apply not_elem_of_cons in Hl as [Hne Hl]. by apply Hfr1. }
      by rewrite (bind_raise _ _ _ _ _ Hrun1).
Qed.

Lemma copy_sessions_spec xs ss w :
  mapM (read_session (heap w)) xs = Some ss ->
  exists ext,
    map_M copy_session xs w
    = (with_heap w (heap w ++ ext), Ok (seq (length (heap w)) (length xs)))
    /\ mapM (read_session (heap w ++ ext)) (seq (length (heap w)) (length xs))
       = Some ss.
Proof.
  rewrite mapM_Some. intros HF. revert ss w HF.
  induction xs as [|x xs IH]; intros ss0 w HF;
    inversion HF as [|? s ? ss Hx Hrest]; subst.
  - exists []. simpl. by rewrite with_heap_nil.
  - destruct (read_session_inv _ _ _ Hx) as (fl & Hc & Hcol).
    set (o := OSession (SessionItem.subject s) (SessionItem.session s) fl) in *.
    set (w1 := with_heap w (heap w ++ [o])).
    assert (copy_session x w = (w1, Ok (length (heap w)))) as Hcopy.
    { unfold copy_session. by rewrite (bind_ok _ _ _ _ _ (load_session_ok _ _ _ _ _ Hc)). }
    assert (Forall2 (fun x y => read_session (heap w1) x = Some y) xs ss) as HF1.
    { eapply Forall2_impl; [exact Hrest|]. intros a b.
      apply read_session_grow, sub_heap_app. }
    destruct (IH ss w1 HF1) as (ext & Hrun & Hread).
    assert (length (heap w1) = S (length (heap w))) as Hlen.
    { simpl. rewrite length_app. simpl. lia. }
    rewrite Hlen in Hrun, Hread.
    assert (heap w1 ++ ext = heap w ++ o :: ext) as Eh.
    { simpl. by rewrite <- app_assoc. }
    rewrite Eh in Hrun, Hread.
    exists (o :: ext). simpl. split.
    + rewrite (bind_ok _ _ _ _ _ Hcopy), (bind_ok _ _ _ _ _ Hrun). done.
    + change (mapM (read_session (heap w ++ o :: ext))
                (length (heap w) :: seq (S (length (heap w))) (length xs))
              = Some (s :: ss)).
      apply mapM_Some_2. constructor; [|by apply mapM_Some_1].
      destruct s as [subj se col]. simpl in *.
      apply (read_session_intro _ _ _ _ fl).
      * rewrite lookup_app_r; [|done]. by rewrite Nat.sub_diag.
      * apply (read_collection_mono (heap w)); [|done].
        apply sub_heap_sub_imm, sub_heap_app.
Qed.

Section FilterRefines.
Context `{Env}.

Lemma session_body_triple (a : Filter.t) (c : loc) :
  session_triple
    (when (strs_truthy (Filter.modal a))
       (session_select (by_modal (strs_list (Filter.modal a))) c) ;;
     when (strs_truthy (Filter.annotation a))
       (session_select (by_annotation (strs_list (Filter.annotation a))) c) ;;
     when (opt_truthy (Filter.regex a))
       (session_select (by_regex (default "" (Filter.regex a))) c) ;;
     when (opt_truthy (Filter.regex_ignore a))
       (session_select (by_regex_ignore (default "" (Filter.regex_ignore a))) c) ;;
     when (opt_truthy (Filter.ext a))
       (session_select (by_ext (default "" (Filter.ext a))) c) ;;
     session_prune c)
    (collection_filtered a) c.
Proof.
  unfold collection_filtered.
  repeat (apply session_triple_seq; [apply session_triple_when|]).
  apply session_triple_prune.
Qed.

Lemma _session_filter_spec (a : Filter.t) sl ss w :
  read_sessions (heap w) sl = Some ss ->
  exists h',
    match map_R (session_filtered a) ss with
    | Ok ss' =>
        exists sl',
          _session_filter sl (Filter.modal a) (Filter.annotation a)
            (Filter.regex a) (Filter.regex_ignore a) (Filter.ext a) w
          = (with_heap w h', Ok sl')
          /\ read_sessions h' sl' = Some ss'
    | Raise e =>
        _session_filter sl (Filter.modal a) (Filter.annotation a)
          (Filter.regex a) (Filter.regex_ignore a) (Filter.ext a) w
        = (with_heap w h', Raise e)
    end.
Proof.
  unfold read_sessions. destruct (heap w !! sl) as [[|xs| | |]|] eqn:Hsl; try done.
  intros Hxs.
  destruct (copy_sessions_spec _ _ _ Hxs) as (ext & Hcopy & Hread).
  set (copies := seq (length (heap w)) (length xs)) in *.
  set (h1 := heap w ++ ext) in *.
  set (sl' := length h1).
  set (w2 := with_heap w (h1 ++ [OList copies])).
  assert (mapM (read_session (heap w2)) copies = Some ss) as Hread2.
  { eapply mapM_mono; [|exact Hread]. intros x y.
    apply read_session_grow, sub_heap_app. }
  assert (NoDup copies) as Hnd by apply NoDup_seq.
  destruct (for_each_sessions _ (session_filtered a)
              (fun c s w Hr =>
                 ltac:(destruct (read_session_inv _ _ _ Hr) as (fl & Hc & Hcol);
                       destruct (session_body_triple a c _ _ _ _ _ Hc Hcol)
                         as (h' & Ht & Hm);
                       exists h'; split; [exact Ht|];
                       unfold session_filtered;
                       destruct (collection_filtered a (SessionItem.files s))
                         as [col'|e]; simpl;
                       [ destruct Hm as (Hrun & fl' & Hc' & Hcol');
                         split; [exact Hrun|];
                         exact (read_session_intro _ _ _ _ _ _ Hc' Hcol')
                       | exact Hm ]))
              copies ss w2 Hnd Hread2) as (h' & Himm & Hfr & Hloop).
  exists h'. unfold _session_filter.
  rewrite (bind_ok _ _ _ _ _ (load_list_ok _ _ _ Hsl)).
  rewrite (bind_ok _ _ _ _ _ Hcopy).
  rewrite (bind_ok _ _ _ _ _ (alloc_run _ _)).
  change (with_heap (with_heap w (heap w ++ ext))
            (heap (with_heap w (heap w ++ ext)) ++ [OList copies])) with w2.
  change (length (heap (with_heap w (heap w ++ ext)))) with sl'.
  destruct (map_R (session_filtered a) ss) as [ss'|e].
  - destruct Hloop as (Hrun & Hss'). exists sl'. split.
    + by rewrite (bind_ok _ _ _ _ _ Hrun).
    + unfold read_sessions. rewrite (Himm sl' (OList copies)); [done| |done].
      apply lookup_new.
  - by rewrite (bind_raise _ _ _ _ _ Hloop).
Qed.
End FilterRefines.

Lemma filter_R_pure {A} (p : A -> result bool) (q : A -> bool) (l : list A) :
  (forall x, p x = Ok (q x)) -> filter_R p l = Ok (List.filter q l).
Proof.
  intros Hp. induction l as [|x l IH]; simpl; [done|].
  rewrite Hp, IH. simpl. by destruct (q x).
Qed.

Lemma copy_list_spec l xs w :
  heap w !! l = Some (OList xs) ->
  copy_list l w = (with_heap w (heap w ++ [OList xs]), Ok (length (heap w))).
Proof.
  intros Hl. unfold copy_list. by rewrite (bind_ok _ _ _ _ _ (load_list_ok _ _ _ Hl)).
Qed.

Lemma read_files_inv h l fs :
  read_files h l = Some fs ->
  exists xs, h !! l = Some (OList xs) /\ mapM (read_file h) xs = Some fs.
Proof.
  unfold read_files. destruct (h !! l) as [[|xs| | |]|]; try done. by exists xs.
Qed.

Lemma read_sessions_inv h l ss :
  read_sessions h l = Some ss ->
  exists xs, h !! l = Some (OList xs) /\ mapM (read_session h) xs = Some ss.
Proof.
  unfold read_sessions. destruct (h !! l) as [[|xs| | |]|]; try done. by exists xs.
Qed.

Lemma read_sessions_new h ys ss :
  mapM (read_session h) ys = Some ss ->
  read_sessions (h ++ [OList ys]) (length h) = Some ss.
Proof.
  intros Hm. unfold read_sessions. rewrite lookup_new.
  eapply mapM_mono; [|exact Hm]. intros x y.
  apply read_session_grow, sub_heap_app.
Qed.

(** The comprehension over a list of [SessionItem] references. *)
Lemma filter_M_sessions (p : string * option string * loc -> bool)
    (p' : SessionItem.t -> bool) xs ss w :
  (forall subj se fl col, p (subj, se, fl) = p' (SessionItem.mk subj se col)) ->
  mapM (read_session (heap w)) xs = Some ss ->
  exists ys,
    filter_M (fun x => s ← load_session x; mret (p s)) xs w = (w, Ok ys)
    /\ mapM (read_session (heap w)) ys = Some (List.filter p' ss).
Proof.
  intros Hp. rewrite mapM_Some. induction 1 as [|x s xs ss Hx _ IH]; simpl.
  - by exists [].
  - destruct IH as (ys & Hrun & Hys).
    destruct (read_session_inv _ _ _ Hx) as (fl & Hc & Hcol).
    assert (p' s = p (SessionItem.subject s, SessionItem.session s, fl)) as Hps.
    { rewrite (Hp _ _ _ (SessionItem.files s)). by destruct s. }
    exists (if p' s then x :: ys else ys). split.
    + rewrite (bind_ok _ _ _ _ _ (bind_ok _ _ _ _ _ (load_session_ok _ _ _ _ _ Hc))).
      unfold mret at 1, M_ret at 1.
      rewrite (bind_ok _ _ _ _ _ Hrun), <- Hps. done.
    + destruct (p' s); [|done].
      apply mapM_Some_2. constructor; [done|by apply mapM_Some_1].
Qed.

Lemma select_sessions_spec p p' l ss w :
  (forall subj se fl col, p (subj, se, fl) = p' (SessionItem.mk subj se col)) ->
  read_sessions (heap w) l = Some ss ->
  exists ys,
    select_sessions p l w
    = (with_heap w (heap w ++ [OList ys]), Ok (length (heap w)))
    /\ mapM (read_session (heap w)) ys = Some (List.filter p' ss).
Proof.
  intros Hp Hr. destruct (read_sessions_inv _ _ _ Hr) as (xs & Hl & Hxs).
  destruct (filter_M_sessions p p' _ _ _ Hp Hxs) as (ys & Hrun & Hys).
  exists ys. split; [|done]. unfold select_sessions.
  rewrite (bind_ok _ _ _ _ _ (load_list_ok _ _ _ Hl)).
  by rewrite (bind_ok _ _ _ _ _ Hrun).
Qed.

(** One step on the flat list, the session list being kept readable. *)
Lemma narrow_cursor c (p : FileItem.t -> result bool) l fs sl ss w :
  read_files (heap w) l = Some fs ->
  read_sessions (heap w) sl = Some ss ->
  match narrow_R c p fs with
  | Ok fs' =>
      exists w' l', narrow c p l w = (w', Ok l')
                    /\ read_files (heap w') l' = Some fs'
                    /\ read_sessions (heap w') sl = Some ss
  | Raise e => narrow c p l w = (w, Raise e)
  end.
Proof.
  intros Hf Hs. destruct c; simpl.
  - pose proof (select_files_spec p _ _ _ Hf) as Hsel.
    destruct (filter_R p fs) as [fs'|e]; [|done].
    destruct Hsel as (ys & Hrun & Hys).
    eexists _, _. split; [exact Hrun|]. simpl. split.
    + by apply read_files_new.
    + by apply (read_sessions_grow _ _ (sub_heap_app _ _)).
  - by exists w, l.
Qed.

(** The subject and session predicates narrow both lists. *)
Lemma select_both c (pf : FileItem.t -> result bool) (q : FileItem.t -> bool)
    p p' l fs sl ss w :
  (forall f, pf f = Ok (q f)) ->
  (forall subj se fl col, p (subj, se, fl) = p' (SessionItem.mk subj se col)) ->
  read_files (heap w) l = Some fs ->
  read_sessions (heap w) sl = Some ss ->
  exists w' l' sl',
    (if c : bool
     then fl ← select_files pf l; sl ← select_sessions p sl; mret (fl, sl)
     else mret (l, sl)) w = (w', Ok (l', sl'))
    /\ read_files (heap w') l' = Some (if c then List.filter q fs else fs)
    /\ read_sessions (heap w') sl' = Some (if c then List.filter p' ss else ss).
Proof.
  intros Hpf Hp Hf Hs. destruct c.
  - pose proof (select_files_spec pf _ _ _ Hf) as Hsel.
    rewrite (filter_R_pure pf q fs Hpf) in Hsel.
    destruct Hsel as (ys & Hrun & Hys).
    set (w1 := with_heap w (heap w ++ [OList ys])) in *.
    assert (read_sessions (heap w1) sl = Some ss) as Hs1.
    { by apply (read_sessions_grow _ _ (sub_heap_app _ _)). }
    destruct (select_sessions_spec p p' _ _ _ Hp Hs1) as (zs & Hrun2 & Hzs).
    eexists _, _, _. split.
    { rewrite (bind_ok _ _ _ _ _ Hrun), (bind_ok _ _ _ _ _ Hrun2). done. }
    simpl. split.
    + apply (read_files_grow _ _ (sub_heap_app _ _)). by apply read_files_new.
    + by apply read_sessions_new.
  - by exists w, l, sl.
Qed.

Lemma narrow_R_pure {A} c (p : A -> result bool) (q : A -> bool) (l : list A) :
  (forall x, p x = Ok (q x)) ->
  narrow_R c p l = Ok (if c then List.filter q l else l).
Proof. intros Hp. destruct c; simpl; [by apply filter_R_pure|done]. Qed.

Section FilterSpec.
Context `{Env}.

(** [_filter] computes [files_filtered] and [sessions_filtered]: it raises
    when one of them raises, and otherwise returns two new lists that read
    as their results. *)
Lemma _filter_spec (a : Filter.t) fl sl fv sv w :
  read_files (heap w) fl = Some fv ->
  read_sessions (heap w) sl = Some sv ->
  match files_filtered a fv with
  | Raise e => (_filter fl sl a w).2 = Raise e
  | Ok fv' =>
      match sessions_filtered a sv with
      | Raise e => (_filter fl sl a w).2 = Raise e
      | Ok sv' =>
          exists fl' sl',
            (_filter fl sl a w).2 = Ok (fl', sl')
            /\ read_files (heap (_filter fl sl a w).1) fl' = Some fv'
            /\ read_sessions (heap (_filter fl sl a w).1) sl' = Some sv'
      end
  end.
Proof.
  intros Hf Hs.
  remember (_filter fl sl a w) as R eqn:HR.
  destruct (read_files_inv _ _ _ Hf) as (xs & Hfl & Hxs).
  destruct (read_sessions_inv _ _ _ Hs) as (zs & Hsl & Hzs).
  unfold _filter in HR.
  rewrite (bind_ok _ _ _ _ _ (copy_list_spec _ _ _ Hfl)) in HR.
  set (w1 := with_heap w (heap w ++ [OList xs])) in *.
  assert (heap w1 !! sl = Some (OList zs)) as Hsl1 by by apply lookup_app_l_Some.
  rewrite (bind_ok _ _ _ _ _ (copy_list_spec _ _ _ Hsl1)) in HR.
  set (w2 := with_heap w1 (heap w1 ++ [OList zs])) in *.
  assert (read_files (heap w2) (length (heap w)) = Some fv) as Hf2.
  { apply (read_files_grow _ _ (sub_heap_app _ _)). by apply read_files_new. }
  assert (read_sessions (heap w2) (length (heap w1)) = Some sv) as Hs2.
  { apply read_sessions_new. eapply mapM_mono; [|exact Hzs].
    intros x y. apply read_session_grow, sub_heap_app. }
  cbv beta iota in HR.
  (* subject *)
  destruct (select_both (strs_truthy (Filter.subject a))
              (by_subject (strs_list (Filter.subject a)))
              (fun f => str_in (FileItem.subject f) (strs_list (Filter.subject a)))
              (fun '(subj, _, _) => str_in subj (strs_list (Filter.subject a)))
              (fun s => str_in (SessionItem.subject s) (strs_list (Filter.subject a)))
              _ _ _ _ w2 ltac:(done) ltac:(done) Hf2 Hs2)
    as (w3 & fl3 & sl3 & Hrun3 & Hf3 & Hs3).
  rewrite (bind_ok _ _ _ _ _ Hrun3) in HR. cbv beta iota in HR.
  (* session *)
  destruct (select_both (strs_truthy (Filter.session a))
              (by_session (strs_list (Filter.session a)))
              (fun f => opt_in (FileItem.session f) (strs_list (Filter.session a)))
              (fun '(_, sess, _) => opt_in sess (strs_list (Filter.session a)))
              (fun s => opt_in (SessionItem.session s) (strs_list (Filter.session a)))
              _ _ _ _ w3 ltac:(done) ltac:(done) Hf3 Hs3)
    as (w4 & fl4 & sl4 & Hrun4 & Hf4 & Hs4).
  rewrite (bind_ok _ _ _ _ _ Hrun4) in HR. cbv beta iota in HR.
  unfold files_filtered, sessions_filtered.
  rewrite (narrow_R_pure _ (by_subject _)
             (fun f => str_in (FileItem.subject f) (strs_list (Filter.subject a))))
    by done.
  simpl.
  rewrite (narrow_R_pure _ (by_session _)
             (fun f => opt_in (FileItem.session f) (strs_list (Filter.session a))))
    by done.
  simpl.
  (* modal *)
  generalize (narrow_cursor (strs_truthy (Filter.modal a))
                (by_modal (strs_list (Filter.modal a))) _ _ _ _ _ Hf4 Hs4).
  destruct (narrow_R (strs_truthy (Filter.modal a)) _ _) as [fv5|e]; simpl;
    [intros (w5 & fl5 & Hrun5 & Hf5 & Hs5)
    |intros Hrun5; by rewrite (bind_raise _ _ _ _ _ Hrun5) in HR; subst R].
  rewrite (bind_ok _ _ _ _ _ Hrun5) in HR.
  (* annotation *)
  generalize (narrow_cursor (strs_truthy (Filter.annotation a))
                (by_annotation (strs_list (Filter.annotation a))) _ _ _ _ _ Hf5 Hs5).
  destruct (narrow_R (strs_truthy (Filter.annotation a)) _ _) as [fv6|e]; simpl;
    [intros (w6 & fl6 & Hrun6 & Hf6 & Hs6)
    |intros Hrun6; by rewrite (bind_raise _ _ _ _ _ Hrun6) in HR; subst R].
  rewrite (bind_ok _ _ _ _ _ Hrun6) in HR.
  (* ext *)
  generalize (narrow_cursor (opt_truthy (Filter.ext a))
                (by_ext (default "" (Filter.ext a))) _ _ _ _ _ Hf6 Hs6).
  destruct (narrow_R (opt_truthy (Filter.ext a)) _ _) as [fv7|e]; simpl;
    [intros (w7 & fl7 & Hrun7 & Hf7 & Hs7)
    |intros Hrun7; by rewrite (bind_raise _ _ _ _ _ Hrun7) in HR; subst R].
  rewrite (bind_ok _ _ _ _ _ Hrun7) in HR.
  (* regex *)
  generalize (narrow_cursor (opt_truthy (Filter.regex a))
                (by_regex (default "" (Filter.regex a))) _ _ _ _ _ Hf7 Hs7).
  destruct (narrow_R (opt_truthy (Filter.regex a)) _ _) as [fv8|e]; simpl;
    [intros (w8 & fl8 & Hrun8 & Hf8 & Hs8)
    |intros Hrun8; by rewrite (bind_raise _ _ _ _ _ Hrun8) in HR; subst R].
  rewrite (bind_ok _ _ _ _ _ Hrun8) in HR.
  (* regex_ignore *)
  generalize (narrow_cursor (opt_truthy (Filter.regex_ignore a))
                (by_regex_ignore (default "" (Filter.regex_ignore a)))
                _ _ _ _ _ Hf8 Hs8).
  destruct (narrow_R (opt_truthy (Filter.regex_ignore a)) _ _) as [fv9|e]; simpl;
    [intros (w9 & fl9 & Hrun9 & Hf9 & Hs9)
    |intros Hrun9; by rewrite (bind_raise _ _ _ _ _ Hrun9) in HR; subst R].
  rewrite (bind_ok _ _ _ _ _ Hrun9) in HR.
  (* the nested collections *)
  destruct (_session_filter_spec a _ _ _ Hs9) as (h' & Hsf).
  assert (sub_heap (heap w9)
            (heap (_session_filter sl4 (Filter.modal a) (Filter.annotation a)
                     (Filter.regex a) (Filter.regex_ignore a) (Filter.ext a) w9).1))
    as Hsub.
  { eapply frames_sub_heap, frames__session_filter. }
  destruct (map_R (session_filtered a) _) as [sv'|e].
  - destruct Hsf as (sl' & Hrun & Hsl').
    rewrite Hrun in Hsub. simpl in Hsub.
    rewrite (bind_ok _ _ _ _ _ Hrun) in HR. subst R. simpl.
    exists fl9, sl'. split; [done|]. split; [|done].
    by apply (read_files_grow _ _ Hsub).
  - rewrite (bind_raise _ _ _ _ _ Hsf) in HR. by subst R.
Qed.
End FilterSpec.

(* ===================================================================== *)
(** * Filtering on values keeps the two indexes consistent *)
(* ===================================================================== *)

Lemma filter_R_Ok {A} (p : A -> result bool) (l l' : list A) :
  filter_R p l = Ok l' -> l' = List.filter (holds p) l.
Proof.
  revert l'. induction l as [|x l IH]; intros l'; simpl.
  - by intros [= <-].
  - unfold holds. destruct (p x) as [b|e]; simpl; [|done].
    destruct (filter_R p l) as [ys|e]; simpl; [|done].
    intros [= <-]. rewrite (IH ys eq_refl). by destruct b.
Qed.

Lemma narrow_R_Ok {A} c (p : A -> result bool) (l l' : list A) :
  narrow_R c p l = Ok l' -> l' = List.filter (guard c p) l.
Proof.
  unfold narrow_R, guard. destruct c.
  - apply filter_R_Ok.
  - intros [= <-]. induction l as [|x l IH]; simpl; [done|]. by rewrite <- IH.
Qed.

Lemma filter_filter {A} (p q : A -> bool) (l : list A) :
  List.filter p (List.filter q l) = List.filter (fun x => q x && p x) l.
Proof.
  induction l as [|x l IH]; simpl; [done|].
  destruct (q x); simpl; [|done]. destruct (p x); by rewrite IH.
Qed.

Lemma filter_all {A} (p : A -> bool) (l : list A) :
  Forall (fun x => p x = true) l -> List.filter p l = l.
Proof.
  induction 1 as [|x l Hx _ IH]; simpl; [done|]. by rewrite Hx, IH.
Qed.

Lemma filter_none {A} (p : A -> bool) (l : list A) :
  Forall (fun x => p x = false) l -> List.filter p l = [].
Proof.
  induction 1 as [|x l Hx _ IH]; simpl; [done|]. by rewrite Hx, IH.
Qed.

Lemma filter_ext_Forall {A} (p q : A -> bool) (l : list A) :
  Forall (fun x => p x = q x) l -> List.filter p l = List.filter q l.
Proof.
  induction 1 as [|x l Hx _ IH]; simpl; [done|]. by rewrite Hx, IH.
Qed.

Lemma filter_Permutation {A} (p : A -> bool) (l l' : list A) :
  l ≡ₚ l' -> List.filter p l ≡ₚ List.filter p l'.
Proof.
  induction 1 as [|x l l' _ IH|x y l|l1 l2 l3 _ IH1 _ IH2]; simpl.
  - done.
  - destruct (p x); [by constructor|done].
  - destruct (p x), (p y); try done. apply perm_swap.
  - by etrans.
Qed.

Lemma filter_concat {A} (p : A -> bool) (ls : list (list A)) :
  List.filter p (concat ls) = concat (map (List.filter p) ls).
Proof.
  induction ls as [|l ls IH]; simpl; [done|].
  by rewrite List.filter_app, IH.
Qed.

Lemma filter_flat_map {A B} (p : B -> bool) (f : A -> list B) (l : list A) :
  List.filter p (flat_map f l) = flat_map (fun x => List.filter p (f x)) l.
Proof.
  induction l as [|x l IH]; simpl; [done|].
  by rewrite List.filter_app, IH.
Qed.

Lemma concat_filter_nonempty {A} (ls : list (list A)) :
  concat (List.filter (fun l => negb (length l =? 0)%nat) ls) = concat ls.
Proof.
  induction ls as [|l ls IH]; simpl; [done|].
  destruct l as [|x l]; simpl; [done|]. by rewrite IH.
Qed.

(** The files of a collection after one selection and after pruning. *)
Lemma collection_narrow_files c p col col' :
  collection_narrow c p col = Ok col' ->
  collection_files col' = List.filter (guard c p) (collection_files col).
Proof.
  unfold collection_narrow. destruct c.
  - unfold collection_select. destruct col as [l|d]; simpl.
    + destruct (filter_R p l) as [l'|e] eqn:E; simpl; [|done].
      intros [= <-]. simpl. by apply filter_R_Ok.
    + destruct (map_R _ d) as [d'|e] eqn:E; simpl; [|done].
      intros [= <-]. simpl. unfold dict_values.
      rewrite filter_concat, map_map.
      f_equal. revert d' E. induction d as [|[m fs] d IH]; intros d'; simpl.
      * by intros [= <-].
      * destruct (filter_R p fs) as [fs'|e] eqn:E1; simpl; [|done].
        destruct (map_R _ d) as [d1|e] eqn:E2; simpl; [|done].
        intros [= <-]. simpl. rewrite (IH d1 eq_refl).
        by rewrite (filter_R_Ok _ _ _ E1).
  - intros [= <-]. symmetry. apply filter_all, Forall_forall. done.
Qed.

Lemma collection_prune_files col :
  collection_files (collection_prune col) = collection_files col.
Proof.
  destruct col as [l|d]; simpl; [done|]. unfold dict_values.
  induction d as [|[m [|x fs]] d IH]; simpl; [done|done|]. by rewrite IH.
Qed.

Lemma collection_prune_wf col : collection_wf (collection_prune col).
Proof.
  destruct col as [l|d]; simpl; [done|].
  induction d as [|[m [|x fs]] d IH]; simpl; [done|done|].
  constructor; [done|exact IH].
Qed.

Lemma map_R_Ok {A B} (f : A -> result B) (l : list A) (l' : list B) :
  map_R f l = Ok l' -> Forall2 (fun x y => f x = Ok y) l l'.
Proof.
  revert l'. induction l as [|x l IH]; intros l'; simpl.
  - intros [= <-]. constructor.
  - destruct (f x) as [y|e] eqn:E; simpl; [|done].
    destruct (map_R f l) as [ys|e]; simpl; [|done].
    intros [= <-]. constructor; [done|]. by apply IH.
Qed.

Section ValuesConsistent.
Context `{Env}.

Lemma files_filtered_Ok (a : Filter.t) fv fv' :
  files_filtered a fv = Ok fv' -> fv' = List.filter (flat_keep a) fv.
Proof.
  unfold files_filtered.
  destruct (narrow_R _ _ fv) as [l1|] eqn:E1; simpl; [|done].
  destruct (narrow_R _ _ l1) as [l2|] eqn:E2; simpl; [|done].
  destruct (narrow_R _ _ l2) as [l3|] eqn:E3; simpl; [|done].
  destruct (narrow_R _ _ l3) as [l4|] eqn:E4; simpl; [|done].
  destruct (narrow_R _ _ l4) as [l5|] eqn:E5; simpl; [|done].
  destruct (narrow_R _ _ l5) as [l6|] eqn:E6; simpl; [|done].
  intros E7.
  apply narrow_R_Ok in E1, E2, E3, E4, E5, E6, E7. subst.
  rewrite !filter_filter. apply List.filter_ext. intros f.
  unfold flat_keep, nested_keep.
  repeat match goal with |- context [guard ?c ?p f] => destruct (guard c p f) end;
    done.
Qed.

Lemma collection_filtered_files (a : Filter.t) col col' :
  collection_filtered a col = Ok col' ->
  collection_files col' = List.filter (nested_keep a) (collection_files col)
  /\ collection_wf col'.
Proof.
  unfold collection_filtered.
  destruct (collection_narrow _ _ col) as [c1|] eqn:E1; simpl; [|done].
  destruct (collection_narrow _ _ c1) as [c2|] eqn:E2; simpl; [|done].
  destruct (collection_narrow _ _ c2) as [c3|] eqn:E3; simpl; [|done].
  destruct (collection_narrow _ _ c3) as [c4|] eqn:E4; simpl; [|done].
  destruct (collection_narrow _ _ c4) as [c5|] eqn:E5; simpl; [|done].
  intros [= <-]. split; [|apply collection_prune_wf].
  rewrite collection_prune_files.
  apply collection_narrow_files in E1, E2, E3, E4, E5.
  rewrite E5, E4, E3, E2, E1, !filter_filter.
  apply List.filter_ext. intros f. unfold nested_keep. by rewrite !andb_assoc.
Qed.

Lemma session_filtered_Ok (a : Filter.t) s s' :
  session_filtered a s = Ok s' ->
  SessionItem.subject s' = SessionItem.subject s
  /\ SessionItem.session s' = SessionItem.session s
  /\ session_files s' = List.filter (nested_keep a) (session_files s)
  /\ no_empty_bucket s'.
Proof.
  unfold session_filtered.
  destruct (collection_filtered a (SessionItem.files s)) as [c|] eqn:E; simpl;
    [|done].
  intros [= <-]. simpl. apply collection_filtered_files in E as [E1 E2].
  done.
Qed.

Lemma sessions_narrowed (a : Filter.t) (sv : list SessionItem.t) :
  (let l := if strs_truthy (Filter.subject a)
            then List.filter (fun s => str_in (SessionItem.subject s)
                                         (strs_list (Filter.subject a))) sv
            else sv in
   if strs_truthy (Filter.session a)
   then List.filter (fun s => opt_in (SessionItem.session s)
                                (strs_list (Filter.session a))) l
   else l)
  = List.filter (session_keep a) sv.
Proof.
  unfold session_keep. cbv zeta.
  destruct (strs_truthy (Filter.subject a)), (strs_truthy (Filter.session a));
    simpl.
  - apply filter_filter.
  - apply List.filter_ext. intros s. by rewrite andb_true_r.
  - done.
  - symmetry. apply filter_all, Forall_forall. done.
Qed.

(** On the files of a session, the subject and session tests are the
    tests on the session itself. *)
Lemma flat_keep_owned (a : Filter.t) s :
  session_owns s ->
  List.filter (flat_keep a) (session_files s)
  = if session_keep a s then List.filter (nested_keep a) (session_files s) else [].
Proof.
  intros Hown. unfold session_owns in Hown.
  assert (Forall (fun f => flat_keep a f = session_keep a s && nested_keep a f)
            (session_files s)) as HF.
  { eapply Forall_impl; [exact Hown|]. intros f [Hsubj Hsess]. simpl.
    unfold flat_keep, session_keep, guard, holds, by_subject, by_session.
    by rewrite Hsubj, Hsess. }
  destruct (session_keep a s); simpl in HF.
  - by apply filter_ext_Forall.
  - apply filter_none. eapply Forall_impl; [exact HF|]. done.
Qed.

Lemma sessions_filtered_nested (a : Filter.t) sv sv' :
  Forall session_owns sv ->
  sessions_filtered a sv = Ok sv' ->
  nested_files sv' = List.filter (flat_keep a) (nested_files sv)
  /\ Forall session_owns sv' /\ Forall no_empty_bucket sv'.
Proof.
  unfold sessions_filtered. rewrite sessions_narrowed.
  intros Hown Hmap. apply map_R_Ok in Hmap. unfold nested_files.
  rewrite filter_flat_map.
  revert sv' Hmap. induction Hown as [|s sv Hs _ IH]; intros sv'; simpl.
  - intros Hmap. by inversion Hmap.
  - rewrite (flat_keep_owned a s Hs).
    destruct (session_keep a s); simpl.
    + intros Hmap. inversion Hmap as [|? s' ? sv1 Hs' Hrest]; subst.
      destruct (IH _ Hrest) as (IH1 & IH2 & IH3).
      destruct (session_filtered_Ok _ _ _ Hs') as (E1 & E2 & E3 & E4).
      simpl. rewrite IH1, E3. split; [done|]. split; constructor; try done.
      unfold session_owns. rewrite E1, E2, E3.
      unfold session_owns in Hs. rewrite Forall_forall in *.
      intros f Hf. apply Hs. rewrite list_elem_of_In in *.
      by apply List.filter_In in Hf as [Hf _].
    + apply IH.
Qed.

(** Filtering keeps the flat list and the nested lists consistent. *)
Lemma lists_wf_filtered (a : Filter.t) fv sv fv' sv' :
  lists_wf fv sv ->
  files_filtered a fv = Ok fv' ->
  sessions_filtered a sv = Ok sv' ->
  lists_wf fv' sv'.
Proof.
  intros (Hperm & Hown & _) Hf Hs.
  apply files_filtered_Ok in Hf as ->.
  destruct (sessions_filtered_nested _ _ _ Hown Hs) as (E & Hown' & Hne').
  split; [|done]. rewrite E. by apply filter_Permutation.
Qed.
End ValuesConsistent.

(* ===================================================================== *)
(** * The constructor builds consistent indexes *)
(* ===================================================================== *)

Section DictFacts.
Context {V : Type}.

Lemma dict_set_append (m : string) (x : list V) (d : dict string (list V)) :
  concat (dict_values (dict_set m (default [] (dict_get m d) ++ x) d))
  ≡ₚ concat (dict_values d) ++ x.
Proof.
  induction d as [|[k v] d IH]; simpl.
  - by rewrite app_nil_r.
  - destruct (decide (m = k)) as [->|Hne]; simpl.
    + rewrite <- !app_assoc. f_equiv. apply Permutation_app_comm.
    + rewrite IH. by rewrite app_assoc.
Qed.

Lemma dict_set_replace (m : string) (b b' : list V) (d : dict string (list V)) :
  dict_get m d = Some b -> b' ≡ₚ b ->
  concat (dict_values (dict_set m b' d)) ≡ₚ concat (dict_values d).
Proof.
  intros Hget Hperm. induction d as [|[k v] d IH]; simpl in *; [done|].
  destruct (decide (m = k)) as [->|Hne]; simpl.
  - injection Hget as ->. by rewrite Hperm.
  - by rewrite IH.
Qed.

Lemma dict_set_Forall (P : string * V -> Prop) (m : string) (v : V)
    (d : dict string V) :
  Forall P d -> P (m, v) -> Forall P (dict_set m v d).
Proof.
  intros Hd Hv. induction Hd as [|[k v'] d Hk Hd IH]; simpl.
  - by constructor.
  - destruct (decide (m = k)); by constructor.
Qed.

Lemma dict_get_Forall (P : string * V -> Prop) (m : string) (v : V)
    (d : dict string V) :
  Forall P d -> dict_get m d = Some v -> P (m, v).
Proof.
  induction 1 as [|[k v'] d Hk _ IH]; simpl; [done|].
  destruct (decide (m = k)) as [->|]; [|done]. by intros [= <-].
Qed.
End DictFacts.

Lemma session_add_spec modal finfo files files' :
  session_add modal finfo files = Ok files' ->
  collection_files files' ≡ₚ collection_files files ++ [finfo]
  /\ (collection_wf files -> collection_wf files').
Proof.
  unfold session_add. destruct (opt_truthy modal), files as [l|d]; try done;
    intros [= <-]; simpl.
  - split; [apply dict_set_append|]. intros Hwf.
    apply dict_set_Forall; [done|]. simpl. by destruct (default [] _).
  - done.
Qed.

Lemma session_sort_spec modal files files' :
  session_sort modal files = Ok files' ->
  collection_files files' ≡ₚ collection_files files
  /\ (collection_wf files -> collection_wf files').
Proof.
  unfold session_sort. destruct (opt_truthy modal), files as [l|d]; try done.
  - destruct (dict_get _ d) as [bucket|] eqn:E; [|done].
    intros [= <-]. simpl. split.
    + apply (dict_set_replace _ bucket); [done|apply sorted_Permutation].
    + intros Hwf. apply dict_set_Forall; [done|]. simpl.
      pose proof (dict_get_Forall _ _ _ _ Hwf E) as Hb. simpl in Hb.
      intros Hs. by apply sorted_nil_inv in Hs.
  - intros [= <-]. simpl. split; [apply sorted_Permutation|done].
  - destruct d; [|done]. by intros [= <-].
Qed.

Lemma new_file_item_owner abs_path abs_path_list subj sess modal sess_path f finfo :
  new_file_item abs_path abs_path_list subj sess modal sess_path f = Ok finfo ->
  FileItem.subject finfo = subj /\ FileItem.session finfo = sess
  /\ FileItem.modal finfo = modal
  /\ annotated abs_path_list finfo.
Proof.
  unfold new_file_item, annotated.
  destruct (str_split1 _ f) as [|a [|b [|]]]; try done.
  destruct (last abs_path_list) as [root|]; [|done]. intros [= <-].
  repeat split. by exists root.
Qed.

Lemma construct_files_spec abs_path abs_path_list subj sess modal sess_path
    filenames files fl files' fl' :
  construct_files abs_path abs_path_list subj sess modal sess_path filenames
    (files, fl) = Ok (files', fl') ->
  exists added,
    fl' = fl ++ added
    /\ collection_files files' ≡ₚ collection_files files ++ added
    /\ Forall (fun f => FileItem.subject f = subj /\ FileItem.session f = sess
                        /\ annotated abs_path_list f) added
    /\ (collection_wf files -> collection_wf files').
Proof.
  revert files fl. induction filenames as [|f filenames IH]; intros files fl; simpl.
  - intros [= <- <-]. exists []. by rewrite !app_nil_r.
  - destruct (new_file_item _ _ _ _ _ _ f) as [finfo|] eqn:E1; simpl; [|done].
    destruct (session_add modal finfo files) as [files1|] eqn:E2; simpl; [|done].
    intros Hrest. destruct (IH _ _ Hrest) as (added & -> & Hperm & Hown & Hwf).
    apply session_add_spec in E2 as [Hp1 Hwf1].
    apply new_file_item_owner in E1 as (O1 & O2 & _ & O3).
    exists (finfo :: added). split; [by rewrite <- app_assoc|]. split.
    + rewrite Hperm, Hp1. by rewrite <- app_assoc.
    + split; [by constructor|auto].
Qed.

Lemma nested_files_app sl sl' :
  nested_files (sl ++ sl') = nested_files sl ++ nested_files sl'.
Proof. unfold nested_files. apply flat_map_app. Qed.

Lemma nested_files_insert sl i s s' added :
  sl !! i = Some s ->
  session_files s' ≡ₚ session_files s ++ added ->
  nested_files (<[i := s']> sl) ≡ₚ nested_files sl ++ added.
Proof.
  revert i. induction sl as [|x sl IH]; intros [|i]; simpl; try done.
  - intros [= ->] Hp. unfold nested_files. simpl. rewrite Hp.
    rewrite <- !app_assoc. f_equiv. apply Permutation_app_comm.
  - intros Hi Hp. unfold nested_files in *. simpl.
    rewrite (IH i Hi Hp). by rewrite app_assoc.
Qed.

Lemma lookup_session_spec subj sess modal processed sl i processed' sl' :
  lookup_session subj sess modal processed sl = Ok (i, processed', sl') ->
  exists sinfo,
    sl' !! i = Some sinfo
    /\ SessionItem.subject sinfo = subj /\ SessionItem.session sinfo = sess
    /\ nested_files sl' = nested_files sl
    /\ (Forall session_owns sl -> Forall session_owns sl')
    /\ (Forall no_empty_bucket sl -> Forall no_empty_bucket sl').
Proof.
  unfold lookup_session. destruct (str_in _ processed).
  - destruct (list_find _ sl) as [[j x]|] eqn:E; [|done].
    intros [= <- <- <-]. apply list_find_Some in E as (Hj & [P1 P2] & _).
    by exists x.
  - intros [= <- <- <-]. eexists. split.
    { rewrite lookup_app_r; [|done]. by rewrite Nat.sub_diag. }
    simpl. split; [done|]. split; [done|]. split.
    { rewrite nested_files_app. unfold nested_files at 2. simpl.
      unfold session_files. simpl.
      destruct (opt_truthy modal); simpl; by rewrite !app_nil_r. }
    split; intros Hall; apply Forall_app; (split; [done|]);
      constructor; try done.
    + unfold session_owns, session_files. simpl.
      destruct (opt_truthy modal); simpl; constructor.
    + unfold no_empty_bucket. simpl.
      destruct (opt_truthy modal); simpl; by try constructor.
Qed.

Lemma construct_path_inv self ref st item st' :
  constructing self st ->
  construct_path self ref st item = Ok st' ->
  constructing self st'.
Proof.
  intros [(Hperm & Hown & Hne) Hann]. destruct item as [sess_path filenames].
  unfold construct_path.
  destruct (parse_meta _ _ _ _) as [[[subj sess] modal]|]; simpl; [|done].
  destruct (lookup_session _ _ _ _ _) as [[[i processed] sl]|] eqn:E1; simpl;
    [|done].
  apply lookup_session_spec in E1
    as (sinfo & Hi & Hsubj & Hsess & Hnest & Hown1 & Hne1).
  rewrite Hi.
  destruct (construct_files _ _ _ _ _ _ _ _) as [[files fl]|] eqn:E2; simpl;
    [|done].
  apply construct_files_spec in E2 as (added & -> & Hp2 & Hadd & Hwf2).
  destruct (session_sort modal files) as [files'|] eqn:E3; simpl; [|done].
  apply session_sort_spec in E3 as [Hp3 Hwf3].
  intros [= <-]. simpl.
  pose proof (Hown1 Hown) as Hown2. pose proof (Hne1 Hne) as Hne2.
  assert (session_owns sinfo /\ no_empty_bucket sinfo) as [Hos Hns].
  { rewrite Forall_forall in Hown2, Hne2.
    apply list_elem_of_lookup_2 in Hi. auto. }
  unfold constructing, lists_wf. simpl. repeat split.
  - rewrite (nested_files_insert sl i sinfo _ added Hi).
    + rewrite Hnest. by f_equiv.
    + unfold session_files. simpl. by rewrite Hp3, Hp2.
  - apply Forall_insert; [done|].
    unfold session_owns, session_files in *. simpl. rewrite Hp3, Hp2.
    apply Forall_app. split; [done|].
    eapply Forall_impl; [exact Hadd|]. simpl. intros f (-> & -> & _). done.
  - apply Forall_insert; [done|]. unfold no_empty_bucket in *. simpl. auto.
  - apply Forall_app. split; [done|].
    eapply Forall_impl; [exact Hadd|]. simpl. by intros f (_ & _ & ?).
Qed.

Lemma construct_paths_inv self ref items st st' :
  constructing self st ->
  construct_paths self ref items st = Ok st' ->
  constructing self st'.
Proof.
  revert st. induction items as [|item items IH]; intros st Hst; simpl.
  - by intros [= <-].
  - destruct (construct_path self ref st item) as [st1|] eqn:E; simpl; [|done].
    apply IH. by eapply construct_path_inv.
Qed.

(** The lists returned by [_constructor]: the flat list and the nested lists
    hold the same records, every nested record lies under its own session,
    no modality bucket is empty, and every record is annotated with the
    last segment of the root path. *)
Lemma _constructor_spec self files ref modal sl fl :
  _constructor self files ref modal = Ok (sl, fl) ->
  lists_wf fl sl
  /\ Forall (annotated (Dataset._abs_path_list self)) fl.
Proof.
  unfold _constructor.
  destruct (by_depth_get _ files) as [level|]; simpl; [|done].
  destruct (construct_paths _ _ _ _) as [st|] eqn:E; simpl; [|done].
  intros [= <- <-].
  apply construct_paths_inv in E as [(Hperm & Hown & Hne) Hann].
  - repeat split.
    + rewrite !sorted_Permutation. unfold nested_files.
      rewrite (Permutation_flat_map _ (sorted_Permutation session_lt _)).
      exact Hperm.
    + by rewrite sorted_Permutation.
    + by rewrite sorted_Permutation.
    + by rewrite sorted_Permutation.
  - repeat split; simpl; constructor.
Qed.

(* ===================================================================== *)
(** * Placing the constructed lists in the store *)
(* ===================================================================== *)

(** A comprehension whose steps only allocate: the store grows, and the
    results read as the items they were made from. *)
Lemma map_M_grow {A B V} (f : A -> M B) (rd : list obj -> B -> option V)
    (g : A -> V) (P : list obj -> Prop) :
  (forall h h' b v, sub_heap h h' -> rd h b = Some v -> rd h' b = Some v) ->
  (forall h ext, P h -> P (h ++ ext)) ->
  (forall w x, P (heap w) ->
     exists ext b, f x w = (with_heap w (heap w ++ ext), Ok b)
                   /\ rd (heap w ++ ext) b = Some (g x)) ->
  forall xs w, P (heap w) ->
    exists ext bs, map_M f xs w = (with_heap w (heap w ++ ext), Ok bs)
                   /\ mapM (rd (heap w ++ ext)) bs = Some (map g xs).
Proof.
  intros Hrd HP Hstep xs. induction xs as [|x xs IH]; intros w Hw; simpl.
  - exists [], []. by rewrite with_heap_nil.
  - destruct (Hstep w x Hw) as (ext1 & b & Hrun1 & Hb).
    destruct (IH (with_heap w (heap w ++ ext1))) as (ext2 & bs & Hrun2 & Hbs).
    { simpl. by apply HP. }
    simpl in Hrun2, Hbs. rewrite <- app_assoc in Hrun2, Hbs.
    exists (ext1 ++ ext2), (b :: bs). split.
    + by rewrite (bind_ok _ _ _ _ _ Hrun1), (bind_ok _ _ _ _ _ Hrun2).
    + apply mapM_Some_2. constructor; [|by apply mapM_Some_1].
      apply (Hrd (heap w ++ ext1)); [|done].
      rewrite app_assoc. apply sub_heap_app.
Qed.

Lemma table_ok_app h ext table : table_ok h table -> table_ok (h ++ ext) table.
Proof.
  unfold table_ok. intros Ht. eapply Forall_impl; [exact Ht|].
  intros [f l]. simpl. apply read_file_mono, sub_heap_sub_imm, sub_heap_app.
Qed.

Lemma find_object_ok h table f l :
  table_ok h table -> find_object f table = Some l -> read_file h l = Some f.
Proof.
  induction 1 as [|[g k] table Hk _ IH]; simpl; [done|].
  destruct (decide (f = g)) as [->|]; [|done]. by intros [= <-].
Qed.

Lemma read_file_grow h h' l f :
  sub_heap h h' -> read_file h l = Some f -> read_file h' l = Some f.
Proof. intros Hs. by apply read_file_mono, sub_heap_sub_imm. Qed.

Lemma read_bucket_grow h h' kv b :
  sub_heap h h' -> read_bucket h kv = Some b -> read_bucket h' kv = Some b.
Proof. intros Hs. by apply read_bucket_mono, sub_heap_sub_imm. Qed.

Lemma place_file_spec table f w :
  table_ok (heap w) table ->
  exists ext l, place_file table f w = (with_heap w (heap w ++ ext), Ok l)
                /\ read_file (heap w ++ ext) l = Some f.
Proof.
  intros Ht. unfold place_file.
  destruct (find_object f table) as [l|] eqn:E.
  - exists [], l. rewrite with_heap_nil, app_nil_r. split; [done|].
    by eapply find_object_ok.
  - exists [OFile f], (length (heap w)). split; [done|].
    unfold read_file. by rewrite lookup_new.
Qed.

Lemma place_files_spec table fs w :
  table_ok (heap w) table ->
  exists ext l, place_files table fs w = (with_heap w (heap w ++ ext), Ok l)
                /\ read_files (heap w ++ ext) l = Some fs.
Proof.
  intros Ht.
  destruct (map_M_grow (place_file table) read_file id
              (fun h => table_ok h table) read_file_grow
              (fun h ext => table_ok_app h ext table)
              (fun w x => place_file_spec table x w) fs w Ht)
    as (ext & xs & Hrun & Hxs).
  rewrite map_id in Hxs.
  exists (ext ++ [OList xs]), (length (heap w ++ ext)). split.
  - unfold place_files. rewrite (bind_ok _ _ _ _ _ Hrun).
    rewrite alloc_run. simpl. by rewrite <- app_assoc.
  - rewrite app_assoc. by apply read_files_new.
Qed.

Lemma place_bucket_spec table (kv : string * list FileItem.t) w :
  table_ok (heap w) table ->
  exists ext b,
    (let '(m, fs) := kv in v ← place_files table fs; mret (m, v)) w
    = (with_heap w (heap w ++ ext), Ok b)
    /\ read_bucket (heap w ++ ext) b = Some (id kv).
Proof.
  intros Ht. destruct kv as [m fs].
  destruct (place_files_spec table fs w Ht) as (ext & l & Hrun & Hl).
  exists ext, (m, l). split.
  - by rewrite (bind_ok _ _ _ _ _ Hrun).
  - unfold read_bucket. simpl. by rewrite Hl.
Qed.

Lemma place_session_spec table s w :
  table_ok (heap w) table ->
  exists ext l, place_session table s w = (with_heap w (heap w ++ ext), Ok l)
                /\ read_session (heap w ++ ext) l = Some (id s).
Proof.
  intros Ht. destruct s as [subj sess files]. unfold place_session. simpl.
  destruct files as [fs|d].
  - destruct (place_files_spec table fs w Ht) as (ext & l & Hrun & Hl).
    exists (ext ++ [OSession subj sess l]), (length (heap w ++ ext)). split.
    + rewrite (bind_ok _ _ _ _ _ Hrun), alloc_run. simpl.
      by rewrite <- app_assoc.
    + rewrite app_assoc. apply (read_session_intro _ _ _ _ l).
      * apply lookup_new.
      * apply (read_collection_mono (heap w ++ ext));
          [apply sub_heap_sub_imm, sub_heap_app|].
        destruct (read_files_inv _ _ _ Hl) as (xs & Hx & Hxs).
        unfold read_collection. by rewrite Hx, Hxs.
  - destruct (map_M_grow
                (fun '(m, fs) => v ← place_files table fs; mret (m, v))
                read_bucket id (fun h => table_ok h table) read_bucket_grow
                (fun h ext => table_ok_app h ext table)
                (fun w x => place_bucket_spec table x w) d w Ht)
      as (ext & kvs & Hrun & Hkvs).
    rewrite map_id in Hkvs.
    set (h1 := heap w ++ ext) in *.
    exists (ext ++ [ODict kvs; OSession subj sess (length h1)]),
      (S (length h1)). split.
    + assert ((kvs ← map_M (fun '(m, fs) => v ← place_files table fs; mret (m, v)) d;
               alloc (ODict kvs)) w
              = (with_heap w (h1 ++ [ODict kvs]), Ok (length h1))) as Hinner.
      { by rewrite (bind_ok _ _ _ _ _ Hrun), alloc_run. }
      rewrite (bind_ok _ _ _ _ _ Hinner), alloc_run. simpl.
      f_equal; [|by rewrite length_app, Nat.add_1_r].
      unfold h1. by rewrite <- !app_assoc.
    + rewrite app_assoc. fold h1.
      apply (read_session_intro _ _ _ _ (length h1)).
      * rewrite lookup_app_r; [|lia].
        by replace (S (length h1) - length h1)%nat with 1%nat by lia.
      * unfold read_collection.
        rewrite lookup_app_r; [|lia]. rewrite Nat.sub_diag. simpl.
        erewrite (mapM_mono (read_bucket h1)); [done| |exact Hkvs].
        intros x y. apply read_bucket_grow, sub_heap_app.
Qed.

Lemma alloc_files_spec fl w :
  map_M (fun f => alloc (OFile f)) fl w
  = (with_heap w (heap w ++ map OFile fl), Ok (seq (length (heap w)) (length fl)))
  /\ forall ext, mapM (read_file (heap w ++ map OFile fl ++ ext))
                      (seq (length (heap w)) (length fl)) = Some fl.
Proof.
  revert w. induction fl as [|f fl IH]; intros w; simpl.
  - by rewrite with_heap_nil.
  - destruct (IH (with_heap w (heap w ++ [OFile f]))) as [Hrun Hread].
    simpl in Hrun, Hread. rewrite <- app_assoc in Hrun.
    rewrite length_app, Nat.add_1_r in Hrun, Hread. split.
    + by rewrite (bind_ok _ _ _ _ _ (alloc_run _ _)), (bind_ok _ _ _ _ _ Hrun).
    + intros ext. apply (mapM_Some_2 _ (_ :: _)). constructor.
      * unfold read_file. rewrite lookup_app_r; [|done].
        by rewrite Nat.sub_diag.
      * apply mapM_Some_1. specialize (Hread ext).
        by rewrite <- app_assoc in Hread.
Qed.

Lemma table_ok_zip h fl xs :
  mapM (read_file h) xs = Some fl -> table_ok h (zip fl xs).
Proof.
  intros Hm. apply mapM_Some_1 in Hm. unfold table_ok.
  induction Hm as [|x f xs fl Hx _ IH]; simpl; by constructor.
Qed.

(** The lists placed in the store read back as the lists. *)
Lemma place_lists_spec sl fl w :
  exists ext sl' fl',
    place_lists sl fl w = (with_heap w (heap w ++ ext), Ok (sl', fl'))
    /\ read_files (heap w ++ ext) fl' = Some fl
    /\ read_sessions (heap w ++ ext) sl' = Some sl.
Proof.
  destruct (alloc_files_spec fl w) as [Hrun1 Hread1].
  set (xs := seq (length (heap w)) (length fl)) in *.
  set (h1 := heap w ++ map OFile fl) in *.
  set (h2 := h1 ++ [OList xs]).
  assert (mapM (read_file h2) xs = Some fl) as Hxs2.
  { unfold h2, h1. rewrite <- app_assoc. apply Hread1. }
  destruct (map_M_grow (place_session (zip fl xs)) read_session id
              (fun h => table_ok h (zip fl xs))
              (fun h h' b v Hs => read_session_grow h h' Hs b v)
              (fun h ext => table_ok_app h ext _)
              (fun w x => place_session_spec _ x w) sl (with_heap w h2)
              (table_ok_zip _ _ _ Hxs2))
    as (ext & ss & Hrun2 & Hss).
  rewrite map_id in Hss. simpl in Hrun2, Hss.
  exists (map OFile fl ++ [OList xs] ++ ext ++ [OList ss]),
    (length (h2 ++ ext)), (length h1).
  assert (heap w ++ map OFile fl ++ [OList xs] ++ ext ++ [OList ss]
          = (h2 ++ ext) ++ [OList ss]) as Eh.
  { unfold h2, h1. by rewrite <- !app_assoc. }
  rewrite Eh. split; [|split].
  - unfold place_lists. rewrite (bind_ok _ _ _ _ _ Hrun1).
    rewrite (bind_ok _ _ _ _ _ (alloc_run _ _)).
    change (with_heap (with_heap w h1) (heap (with_heap w h1) ++ [OList xs]))
      with (with_heap w h2).
    rewrite (bind_ok _ _ _ _ _ Hrun2).
    rewrite (bind_ok _ _ _ _ _ (alloc_run _ _)). done.
  - rewrite <- app_assoc. apply (read_files_grow h2); [apply sub_heap_app|].
    unfold h2. apply read_files_new.
    eapply mapM_mono; [|exact Hxs2]. intros x y Hx. unfold h2 in Hx.
    unfold read_file in *. destruct (decide (x < length h1)%nat) as [Hlt|Hge].
    + by rewrite lookup_app_l in Hx.
    + rewrite lookup_app_r in Hx by lia.
      destruct (x - length h1)%nat as [|[|]]; done.
  - by apply read_sessions_new.
Qed.

(* ===================================================================== *)
(** * Façades: construction and filtering *)
(* ===================================================================== *)

Lemma bind_inv_ok {A B} (m : M A) (k : A -> M B) w w' b :
  (m ≫= k) w = (w', Ok b) ->
  exists w1 a, m w = (w1, Ok a) /\ k a w1 = (w', Ok b).
Proof.
  unfold mbind, M_bind. destruct (m w) as [w1 [a|e]]; [|done].
  intros Hk. by exists w1, a.
Qed.

Lemma sub_heap_data_imm h h' : sub_heap_data h h' -> sub_heap_imm h h'.
Proof. intros Hd l o Hl Hi. apply Hd; [done|]. by destruct o. Qed.

Lemma sub_heap_data_store h c d o : 
  h !! c = Some (ODataset d) -> sub_heap_data h (<[c := o]> h).
Proof.
  intros Hc l o' Hl Ho. rewrite list_lookup_insert_ne; [done|].
  intros ->. rewrite Hc in Hl. by injection Hl as <-.
Qed.

Lemma read_files_data h h' l fs :
  sub_heap_data h h' -> read_files h l = Some fs -> read_files h' l = Some fs.
Proof. intros Hd. by apply read_files_mono, sub_heap_data_imm. Qed.

Lemma read_sessions_data h h' l ss :
  sub_heap_data h h' -> read_sessions h l = Some ss -> read_sessions h' l = Some ss.
Proof.
  intros Hd Hr. destruct (read_sessions_inv _ _ _ Hr) as (xs & Hl & Hxs).
  unfold read_sessions. rewrite (Hd _ _ Hl I).
  eapply mapM_mono; [|exact Hxs]. intros x s Hx.
  apply (read_session_mono h); [by apply sub_heap_data_imm| |done].
  destruct (read_session_inv _ _ _ Hx) as (fl & Hc & _).
  by rewrite Hc, (Hd _ _ Hc I).
Qed.

Section Facades.
Context `{Env}.

Lemma _parse_all_run abs_path abs_path_depth dir_only w :
  exists r,
    _parse_all abs_path abs_path_depth dir_only w
    = (World (heap w) (warnings w) (fs w) (io_log w ++ [abs_path]), Ok r)
    /\ r = (let '(max_depth, files_by_depth, dirs_by_depth) :=
              fold_left (parse_step abs_path_depth dir_only)
                match fs w abs_path with
                | Some t => os_walk_tree abs_path t
                | None => []
                end (0, [], []) in
            (files_by_depth, dirs_by_depth, max_depth)).
Proof.
  unfold _parse_all, os_walk, mbind, M_bind.
  destruct (fold_left _ _ _) as [[a b] c]. by eexists.
Qed.

Lemma BaseParser_init_run k path dir_only w :
  exists d,
    BaseParser_init k path dir_only w
    = (World (heap w ++ [ODataset d]) (warnings w) (fs w)
         (io_log w ++ [os_path_abspath path]), Ok (length (heap w)))
    /\ Dataset.cls d = k /\ Dataset.path d = path
    /\ Dataset._abs_path d = os_path_abspath path
    /\ Dataset._abs_path_list d
       = strip_empty_str_in_list (str_split "/"%char (os_path_abspath path))
    /\ Dataset.subjects d = Unset /\ Dataset.sessions d = Unset
    /\ Dataset.modals d = Unset
    /\ (Dataset._files_by_depth d, Dataset._dirs_by_depth d, Dataset.max_depth d)
       = scan path dir_only (fs w).
Proof.
  unfold BaseParser_init, scan, _init_process.
  destruct (_parse_all_run (os_path_abspath path)
              (length (strip_empty_str_in_list
                         (str_split "/"%char (os_path_abspath path))))
              dir_only w) as ([[files dirs] md] & Hrun & Hr).
  rewrite (bind_ok _ _ _ _ _ Hrun). eexists. split; [done|].
  simpl. rewrite <- Hr. done.
Qed.

Lemma store_new (h : list obj) (o o' : obj) :
  <[length h := o']> (h ++ [o]) = h ++ [o'].
Proof.
  rewrite insert_app_r_alt by done. by rewrite Nat.sub_diag.
Qed.

(** A façade built from an inheritance bundle adopts the bundle. *)
Lemma dataset_init_inherits_run k path (i : Inherits.t) w :
  exists d w',
    dataset_init k path false (Some i) false w = (w', Ok (length (heap w)))
    /\ heap w' = heap w ++ [ODataset d]
    /\ Dataset.file_list d = Value (Inherits.file_list i)
    /\ Dataset.session_list d = Value (Inherits.session_list i)
    /\ attrs_set d = true
    /\ io_log w' = io_log w ++ [os_path_abspath path]
    /\ (Dataset._files_by_depth d, Dataset._dirs_by_depth d, Dataset.max_depth d)
       = scan path false (fs w).
Proof.
  destruct (BaseParser_init_run k path false w)
    as (d0 & Hrun & _ & _ & _ & _ & _ & _ & _ & Hscan).
  set (w1 := World _ _ _ _) in Hrun.
  assert (heap w1 !! length (heap w) = Some (ODataset d0)) as Hself
    by apply lookup_new.
  set (d := with_lists
              (with_validated d0 (Inherits.sessions i) (Inherits.subjects i)
                 (Inherits.modal i))
              (Inherits.session_list i) (Inherits.file_list i)).
  assert (_inherits (length (heap w)) i w1
          = (with_heap w1 (<[length (heap w) := ODataset d]> (heap w1)), Ok tt))
    as Hinh.
  { unfold _inherits. by rewrite (bind_ok _ _ _ _ _ (load_dataset_ok _ _ _ Hself)). }
  exists d, (with_heap w1 (<[length (heap w) := ODataset d]> (heap w1))).
  split; [|split; [apply store_new|done]].
  unfold dataset_init. rewrite (bind_ok _ _ _ _ _ Hrun). simpl when.
  rewrite (bind_ok _ _ w1 w1 tt eq_refl).
  by rewrite (bind_ok _ _ _ _ _ Hinh).
Qed.

Lemma facade_lists_intro h self d fl sl fv sv :
  h !! self = Some (ODataset d) ->
  Dataset.file_list d = Value fl -> Dataset.session_list d = Value sl ->
  read_files h fl = Some fv -> read_sessions h sl = Some sv ->
  facade_lists h self = Some (fv, sv).
Proof.
  intros Hs Hfl Hsl Hf Hss. unfold facade_lists.
  by rewrite Hs, Hfl, Hsl, Hf, Hss.
Qed.

Lemma facade_lists_inv h self fv sv :
  facade_lists h self = Some (fv, sv) ->
  exists d fl sl,
    h !! self = Some (ODataset d)
    /\ Dataset.file_list d = Value fl /\ Dataset.session_list d = Value sl
    /\ read_files h fl = Some fv /\ read_sessions h sl = Some sv.
Proof.
  unfold facade_lists. destruct (h !! self) as [[| | | |d]|]; try done.
  destruct (Dataset.file_list d) as [|fl] eqn:Efl; [done|].
  destruct (Dataset.session_list d) as [|sl] eqn:Esl; [done|].
  destruct (read_files h fl) as [fv0|] eqn:E1; simpl; [|done].
  destruct (read_sessions h sl) as [sv0|] eqn:E2; simpl; [|done].
  intros [= <- <-]. by exists d, fl, sl.
Qed.
End Facades.

Lemma getattr_bind {A B} name (v : A) (k : A -> M B) w :
  (getattr name (Value v) ≫= k) w = k v w.
Proof. done. Qed.

Lemma getattr_unset_bind {A B} name (k : A -> M B) w :
  (getattr name Unset ≫= k) w = (w, Raise (AttributeError name)).
Proof. done. Qed.

Section FacadeFilter.
Context `{Env}.

(** [filter] on a façade whose lists read as [fv] and [sv]: it raises where
    filtering the values raises, or where the façade was built without
    validation, and otherwise returns a new façade whose lists read as the
    filtered values. *)
Lemma dataset_filter_spec (a : Filter.t) self w fv sv :
  facade_lists (heap w) self = Some (fv, sv) ->
  exists d,
    heap w !! self = Some (ODataset d)
    /\ if attrs_set d then
         match files_filtered a fv with
         | Raise e => (dataset_filter self a w).2 = Raise e
         | Ok fv' =>
             match sessions_filtered a sv with
             | Raise e => (dataset_filter self a w).2 = Raise e
             | Ok sv' =>
                 exists self',
                   (dataset_filter self a w).2 = Ok self'
                   /\ facade_lists (heap (dataset_filter self a w).1) self'
                      = Some (fv', sv')
                   /\ facade_validated (heap (dataset_filter self a w).1) self'
             end
         end
       else exists e, (dataset_filter self a w).2 = Raise e.
Proof.
  intros Hfac.
  destruct (facade_lists_inv _ _ _ _ Hfac) as (d & fl & sl & Hself & Hfl & Hsl & Hf & Hs).
  exists d. split; [done|].
  remember (dataset_filter self a w) as R eqn:HR.
  unfold dataset_filter in HR.
  rewrite (bind_ok _ _ _ _ _ (load_dataset_ok _ _ _ Hself)) in HR.
  rewrite Hfl, Hsl, !getattr_bind in HR.
  pose proof (_filter_spec a fl sl fv sv w Hf Hs) as Hspec.
  destruct (_filter fl sl a w) as [w1 r] eqn:E. simpl in Hspec.
  unfold attrs_set.
  destruct (Dataset.subjects d) as [|subjects] eqn:E1;
    [|destruct (Dataset.sessions d) as [|sessions] eqn:E2;
      [|destruct (Dataset.modals d) as [|modals] eqn:E3]]; simpl.
  1-3: destruct r as [[fl' sl']|e];
    [ rewrite (bind_ok _ _ _ _ _ E) in HR; cbv beta iota in HR;
      rewrite ?getattr_bind, getattr_unset_bind in HR; subst R; by eexists
    | rewrite (bind_raise _ _ _ _ _ E) in HR; subst R; by eexists ].
  destruct (files_filtered a fv) as [fv'|e].
  2: { subst r. rewrite (bind_raise _ _ _ _ _ E) in HR. by subst R. }
  destruct (sessions_filtered a sv) as [sv'|e].
  2: { subst r. rewrite (bind_raise _ _ _ _ _ E) in HR. by subst R. }
  destruct Hspec as (fl' & sl' & -> & Hf' & Hs').
  rewrite (bind_ok _ _ _ _ _ E) in HR. cbv beta iota in HR.
  rewrite !getattr_bind in HR.
  destruct (dataset_init_inherits_run (Dataset.cls d) (Dataset.path d)
              (Inherits.mk subjects sessions modals fl' sl') w1)
    as (d' & w' & Hrun & Hheap & Hfl' & Hsl' & Hattrs & _).
  rewrite Hrun in HR. subst R. simpl.
  exists (length (heap w1)). split; [done|]. rewrite Hheap. split.
  - apply (facade_lists_intro _ _ d' fl' sl'); try done.
    + apply lookup_new.
    + by apply (read_files_grow _ _ (sub_heap_app _ _)).
    + by apply (read_sessions_grow _ _ (sub_heap_app _ _)).
  - exists d'. split; [apply lookup_new|done].
Qed.
End FacadeFilter.

Section FacadeNew.
Context `{Env}.

Lemma _validate_spec self d0 w w2 :
  heap w !! self = Some (ODataset d0) ->
  _validate self w = (w2, Ok tt) ->
  exists d1,
    heap w2 !! self = Some (ODataset d1)
    /\ attrs_set d1 = true
    /\ Dataset.cls d1 = Dataset.cls d0
    /\ Dataset.max_depth d1 = Dataset.max_depth d0
    /\ Dataset._abs_path d1 = Dataset._abs_path d0
    /\ Dataset._abs_path_list d1 = Dataset._abs_path_list d0
    /\ Dataset._files_by_depth d1 = Dataset._files_by_depth d0.
Proof.
  intros Hself Hrun. unfold _validate in Hrun.
  rewrite (bind_ok _ _ _ _ _ (load_dataset_ok _ _ _ Hself)) in Hrun.
  apply bind_inv_ok in Hrun as (w1 & [[a b] c] & Hv & Hstore).
  rewrite store_run in Hstore. injection Hstore as <-.
  assert (sub_heap (heap w) (heap w1)) as Hsub.
  { pose proof (frames_sub_heap _ _ w
                  (frames__validator (length (heap w)) (Dataset._dirs_by_depth d0)
                     (Dataset._files_by_depth d0) (Dataset.max_depth d0)
                     (depth_ref (Dataset.cls d0)) (has_modal (Dataset.cls d0))
                     false)) as Hs.
    by rewrite Hv in Hs. }
  eexists. split.
  - simpl. apply list_lookup_insert_eq. apply Hsub in Hself.
    by apply lookup_lt_Some in Hself.
  - done.
Qed.

(** A façade built from a path holds the lists of [_constructor]. *)
Lemma dataset_init_new_spec k path validate dir_only w w' self :
  dataset_init k path validate None dir_only w = (w', Ok self) ->
  exists d sl fl,
    _constructor d (Dataset._files_by_depth d) (depth_ref k) (has_modal k)
    = Ok (sl, fl)
    /\ Dataset._abs_path_list d
       = strip_empty_str_in_list (str_split "/"%char (os_path_abspath path))
    /\ facade_lists (heap w') self = Some (fl, sl)
    /\ (validate = true -> facade_validated (heap w') self)
    /\ Dataset._files_by_depth d = (scan path dir_only (fs w)).1.1
    /\ Dataset.max_depth d = (scan path dir_only (fs w)).2.
Proof.
  intros Hrun. unfold dataset_init in Hrun.
  destruct (BaseParser_init_run k path dir_only w)
    as (d0 & Hbase & Hcls & _ & _ & Hlist & _ & _ & _ & Hscan).
  rewrite (bind_ok _ _ _ _ _ Hbase) in Hrun.
  set (w1 := World _ _ _ _) in *.
  assert (heap w1 !! length (heap w) = Some (ODataset d0)) as Hself
    by apply lookup_new.
  apply bind_inv_ok in Hrun as (w2 & [] & Hval & Hrun).
  apply bind_inv_ok in Hrun as (w3 & [] & Hcons & Hret).
  injection Hret as <- <-.
  assert (exists d1, heap w2 !! length (heap w) = Some (ODataset d1)
                     /\ (validate = true -> attrs_set d1 = true)
                     /\ Dataset.cls d1 = k
                     /\ Dataset._abs_path_list d1 = Dataset._abs_path_list d0
                     /\ Dataset._files_by_depth d1 = Dataset._files_by_depth d0
                     /\ Dataset.max_depth d1 = Dataset.max_depth d0)
    as (d1 & Hself2 & Hattrs & Hcls1 & Hlist1 & Hfiles1 & Hmd1).
  { destruct validate; simpl in Hval.
    - destruct (_validate_spec _ _ _ _ Hself Hval)
        as (d1 & ? & ? & ? & ? & ? & ? & ?).
      exists d1. repeat split; try done. congruence.
    - injection Hval as <-. exists d0. repeat split; done. }
  unfold _construct in Hcons.
  rewrite (bind_ok _ _ _ _ _ (load_dataset_ok _ _ _ Hself2)) in Hcons.
  apply bind_inv_ok in Hcons as (w2' & [sl fl] & Hc & Hcons).
  unfold lift in Hc. injection Hc as <- Hc.
  destruct (place_lists_spec sl fl w2) as (ext & sl' & fl' & Hplace & Hf & Hs).
  rewrite (bind_ok _ _ _ _ _ Hplace) in Hcons. cbv beta iota in Hcons.
  assert (heap (with_heap w2 (heap w2 ++ ext)) !! length (heap w)
          = Some (ODataset d1)) as Hself3.
  { simpl. by apply lookup_app_l_Some. }
  rewrite (bind_ok _ _ _ _ _ (load_dataset_ok _ _ _ Hself3)) in Hcons.
  rewrite store_run in Hcons. injection Hcons as <-. simpl in *.
  pose proof (sub_heap_data_store _ _ _ (ODataset (with_lists d1 sl' fl')) Hself3)
    as Hdata.
  assert (<[length (heap w) := ODataset (with_lists d1 sl' fl')]> (heap w2 ++ ext)
          !! length (heap w) = Some (ODataset (with_lists d1 sl' fl'))) as Hnew.
  { apply list_lookup_insert_eq. by apply lookup_lt_Some in Hself3. }
  exists d1, sl, fl. rewrite Hcls1 in Hc. split; [done|]. split; [congruence|].
  split; [|split; [|split]].
  - apply (facade_lists_intro _ _ _ fl' sl' _ _ Hnew); try done.
    + by apply (read_files_data _ _ _ _ Hdata).
    + by apply (read_sessions_data _ _ _ _ Hdata).
  - intros Hv. eexists. split; [exact Hnew|]. by apply Hattrs.
  - rewrite Hfiles1. by rewrite <- Hscan.
  - rewrite Hmd1. by rewrite <- Hscan.
Qed.
End FacadeNew.

(* ===================================================================== *)
(** * One session per (subject, session) pair *)
(* ===================================================================== *)

Lemma str_in_app x l l' : str_in x (l ++ l') = str_in x l || str_in x l'.
Proof. unfold str_in. apply existsb_app. Qed.

Lemma str_in_self x : str_in x [x] = true.
Proof. unfold str_in. simpl. by rewrite String.eqb_refl. Qed.

Lemma lookup_session_keys subj sess modal st i processed' sl' :
  constructing_keys st ->
  lookup_session subj sess modal (c_processed st) (c_session_list st)
  = Ok (i, processed', sl') ->
  Forall (fun s => str_in (task_id (SessionItem.subject s) (SessionItem.session s))
                     processed' = true) sl'
  /\ sessions_unique sl'.
Proof.
  intros [Hproc Huniq]. unfold lookup_session.
  destruct (str_in _ (c_processed st)) eqn:E.
  - destruct (list_find _ _) as [[j x]|]; [|done]. by intros [= <- <- <-].
  - intros [= <- <- <-]. split.
    + apply Forall_app. split.
      * eapply Forall_impl; [exact Hproc|]. intros s Hs. simpl in Hs.
        by rewrite str_in_app, Hs.
      * constructor; [|done]. simpl. by rewrite str_in_app, str_in_self, orb_true_r.
    + unfold sessions_unique in *. rewrite map_app. simpl.
      apply NoDup_app. split; [done|]. split; [|apply NoDup_singleton].
      intros key Hkey Hnew. apply list_elem_of_singleton in Hnew as ->.
      apply list_elem_of_fmap in Hkey as (s & Hk & Hs).
      rewrite Forall_forall in Hproc. specialize (Hproc s Hs).
      unfold session_key in Hk. injection Hk as -> ->.
      simpl in Hproc. congruence.
Qed.

Lemma construct_path_keys self ref st item st' :
  constructing_keys st ->
  construct_path self ref st item = Ok st' ->
  constructing_keys st'.
Proof.
  intros Hkeys. destruct item as [sess_path filenames]. unfold construct_path.
  destruct (parse_meta _ _ _ _) as [[[subj sess] modal]|]; simpl; [|done].
  destruct (lookup_session _ _ _ _ _) as [[[i processed] sl]|] eqn:E1; simpl;
    [|done].
  destruct (lookup_session_keys _ _ _ _ _ _ _ Hkeys E1) as [Hproc Huniq].
  destruct (sl !! i) as [sinfo|] eqn:Hi; [|done].
  destruct (construct_files _ _ _ _ _ _ _ _) as [[files fl]|]; simpl; [|done].
  destruct (session_sort modal files) as [files'|]; simpl; [|done].
  intros [= <-]. split; simpl.
  - apply Forall_insert; [done|]. simpl.
    rewrite Forall_forall in Hproc. apply Hproc.
    by apply list_elem_of_lookup_2 in Hi.
  - unfold sessions_unique in *. rewrite list_fmap_insert.
    rewrite list_insert_id; [done|].
    rewrite list_lookup_fmap, Hi. done.
Qed.

Lemma construct_paths_keys self ref items st st' :
  constructing_keys st ->
  construct_paths self ref items st = Ok st' ->
  constructing_keys st'.
Proof.
  revert st. induction items as [|item items IH]; intros st Hst; simpl.
  - by intros [= <-].
  - destruct (construct_path self ref st item) as [st1|] eqn:E; simpl; [|done].
    apply IH. by eapply construct_path_keys.
Qed.

Lemma _constructor_unique self files ref modal sl fl :
  _constructor self files ref modal = Ok (sl, fl) -> sessions_unique sl.
Proof.
  unfold _constructor.
  destruct (by_depth_get _ files) as [level|]; simpl; [|done].
  destruct (construct_paths _ _ _ _) as [st|] eqn:E; simpl; [|done].
  intros [= <- <-]. apply construct_paths_keys in E as [_ Huniq].
  - unfold sessions_unique in *.
    by rewrite (Permutation_map _ (sorted_Permutation session_lt _)).
  - split; simpl; constructor.
Qed.

Lemma sessions_filtered_unique `{Env} (a : Filter.t) sv sv' :
  sessions_unique sv -> sessions_filtered a sv = Ok sv' -> sessions_unique sv'.
Proof.
  unfold sessions_filtered. rewrite sessions_narrowed. unfold sessions_unique.
  intros Huniq Hmap. apply map_R_Ok in Hmap.
  assert (map session_key sv' = map session_key (List.filter (session_keep a) sv))
    as ->.
  { induction Hmap as [|s s' l l' Hs _ IH]; simpl; [done|].
    destruct (session_filtered_Ok _ _ _ Hs) as (E1 & E2 & _).
    unfold session_key at 1 3. by rewrite E1, E2, IH. }
  clear Hmap. induction sv as [|s sv IH]; simpl; [constructor|].
  simpl in Huniq. apply NoDup_cons in Huniq as [Hnot Huniq].
  destruct (session_keep a s); simpl; [|by apply IH].
  apply NoDup_cons. split; [|by apply IH].
  intros Hin. apply Hnot. apply list_elem_of_fmap in Hin as (x & -> & Hx).
  apply list_elem_of_fmap. exists x. split; [done|].
  rewrite list_elem_of_In in *. by apply List.filter_In in Hx as [Hx _].
Qed.

(* ===================================================================== *)
(** * Every façade holds consistent indexes *)
(* ===================================================================== *)

Lemma facade_validated_grow h h' self :
  sub_heap h h' -> facade_validated h self -> facade_validated h' self.
Proof. intros Hs (d & Hd & Ha). exists d. split; [by apply Hs|done]. Qed.

Lemma facade_ok_grow h h' self :
  sub_heap h h' -> facade_ok h self -> facade_ok h' self.
Proof.
  intros Hs (fv & sv & Hf & Hwf). exists fv, sv. split; [|done].
  by apply (facade_lists_grow _ _ Hs).
Qed.

Section Built.
Context `{Env}.

Lemma built_facade_ok validated w self :
  built validated w self ->
  facade_ok (heap w) self
  /\ (validated = true -> facade_validated (heap w) self).
Proof.
  induction 1 as [k path validate dir_only w w' self Hv Hrun
                 |a w w' self self' _ [IH1 IH2] Hrun
                 |k path validate dir_only w w' r self _ [IH1 IH2] Hrun
                 |a other w w' r self _ [IH1 IH2] Hrun].
  - destruct (dataset_init_new_spec _ _ _ _ _ _ _ Hrun)
      as (d & sl & fl & Hc & _ & Hfac & Hval & _).
    split; [|auto]. exists fl, sl. split; [done|]. split.
    + by apply _constructor_spec in Hc as [Hwf _].
    + by apply _constructor_unique in Hc.
  - destruct IH1 as (fv & sv & Hfac & Hwf & Huniq).
    destruct (dataset_filter_spec a self w fv sv Hfac) as (d & Hd & Hspec).
    rewrite Hrun in Hspec. simpl in Hspec.
    destruct (attrs_set d); [|by destruct Hspec].
    destruct (files_filtered a fv) as [fv'|] eqn:E1; [|done].
    destruct (sessions_filtered a sv) as [sv'|] eqn:E2; [|done].
    destruct Hspec as (self0 & [= <-] & Hfac' & Hval'). split; [|done].
    exists fv', sv'. split; [done|]. split.
    + by eapply lists_wf_filtered.
    + by eapply sessions_filtered_unique.
  - assert (sub_heap (heap w) (heap w')) as Hsub.
    { pose proof (frames_sub_heap _ _ w
                    (frames_dataset_init (length (heap w)) k path validate None
                       dir_only)) as Hs.
      by rewrite Hrun in Hs. }
    split; [by eapply facade_ok_grow|].
    intros Hv. by eapply facade_validated_grow; auto.
  - assert (sub_heap (heap w) (heap w')) as Hsub.
    { pose proof (frames_sub_heap _ _ w
                    (frames_dataset_filter (length (heap w)) other a)) as Hs.
      by rewrite Hrun in Hs. }
    split; [by eapply facade_ok_grow|].
    intros Hv. by eapply facade_validated_grow; auto.
Qed.
End Built.

Lemma unique_key_eq (sl : list SessionItem.t) (s s' : SessionItem.t) :
  sessions_unique sl -> s ∈ sl -> s' ∈ sl -> session_key s = session_key s' ->
  s = s'.
Proof.
  unfold sessions_unique. induction sl as [|x sl IH]; simpl; intros Hnd Hs Hs' Hk.
  - by apply not_elem_of_nil in Hs.
  - apply NoDup_cons in Hnd as [Hnot Hnd].
    apply elem_of_cons in Hs as [->|Hs]; apply elem_of_cons in Hs' as [->|Hs'].
    + done.
    + exfalso. apply Hnot. rewrite Hk. apply list_elem_of_fmap. by exists s'.
    + exfalso. apply Hnot. rewrite <- Hk. apply list_elem_of_fmap. by exists s.
    + by apply IH.
Qed.

Lemma elem_of_nested_files f sl :
  f ∈ nested_files sl <-> exists s, s ∈ sl /\ f ∈ session_files s.
Proof.
  unfold nested_files. rewrite list_elem_of_In, in_flat_map.
  split; intros (s & Hs & Hf); exists s; by rewrite ?list_elem_of_In in *.
Qed.

(** C2. A façade built from a path, or returned by any chain of [filter]
    calls, holds a flat file list and a session list with the same
    [FileItem]s: the flat list is a rearrangement of the records nested in
    the sessions; every record of the flat list lies in the file collection
    of exactly one session; every record nested in a session is in the flat
    list. *)
Theorem flat_and_nested_lists_agree `{Env} (w : world) (self : loc) :
  built false w self ->
  exists fv sv,
    facade_lists (heap w) self = Some (fv, sv)
    /\ fv ≡ₚ nested_files sv
    /\ (forall f, f ∈ fv ->
          exists s, s ∈ sv /\ f ∈ session_files s
                    /\ forall s', s' ∈ sv -> f ∈ session_files s' -> s' = s)
    /\ (forall s f, s ∈ sv -> f ∈ session_files s -> f ∈ fv).
Proof.
  intros Hb.
  destruct (built_facade_ok _ _ _ Hb) as [(fv & sv & Hfac & Hwf & Huniq) _].
  destruct Hwf as (Hperm & Hown & _).
  exists fv, sv. split; [done|]. split; [done|]. split.
  - intros f Hf. rewrite Hperm in Hf.
    apply elem_of_nested_files in Hf as (s & Hs & Hfs).
    exists s. split; [done|]. split; [done|].
    intros s' Hs' Hfs'. apply (unique_key_eq sv); try done.
    rewrite Forall_forall in Hown.
    pose proof (Hown s Hs) as Ho. pose proof (Hown s' Hs') as Ho'.
    unfold session_owns in Ho, Ho'. rewrite Forall_forall in Ho, Ho'.
    destruct (Ho f Hfs) as [E1 E2]. destruct (Ho' f Hfs') as [E1' E2'].
    unfold session_key. congruence.
  - intros s f Hs Hf. rewrite Hperm. apply elem_of_nested_files. eauto.
Qed.

Lemma collection_prune_id c : collection_wf c -> collection_prune c = c.
Proof.
  destruct c as [l|d]; simpl; [done|]. intros Hwf. f_equal.
  induction Hwf as [|[m v] d Hv _ IH]; simpl; [done|].
  simpl in Hv. destruct v; [done|]. simpl. by rewrite IH.
Qed.

Lemma map_R_id {A} (f : A -> result A) (l : list A) :
  Forall (fun x => f x = Ok x) l -> map_R f l = Ok l.
Proof.
  induction 1 as [|x l Hx _ IH]; simpl; [done|]. by rewrite Hx, IH.
Qed.

Lemma files_filtered_none `{Env} fv : files_filtered Filter.none fv = Ok fv.
Proof. done. Qed.

Lemma sessions_filtered_none `{Env} sv :
  Forall no_empty_bucket sv -> sessions_filtered Filter.none sv = Ok sv.
Proof.
  intros Hne. unfold sessions_filtered. simpl. apply map_R_id.
  eapply Forall_impl; [exact Hne|]. intros [subj sess c] Hc.
  unfold session_filtered, collection_filtered. simpl.
  unfold no_empty_bucket in Hc. simpl in Hc. by rewrite collection_prune_id.
Qed.

(** For every façade built with validation from a path, or returned by
    [filter], [filter()] with no predicate returns a new façade whose flat
    file list and session list read exactly as those of the source: the
    same records, in the same order, with the same nested collections. *)
Theorem filter_without_predicates_is_identity `{Env} (w : world) (self : loc) :
  built true w self ->
  exists fv sv self',
    facade_lists (heap w) self = Some (fv, sv)
    /\ (dataset_filter self Filter.none w).2 = Ok self'
    /\ facade_lists (heap (dataset_filter self Filter.none w).1) self'
       = Some (fv, sv).
Proof.
  intros Hb.
  destruct (built_facade_ok _ _ _ Hb) as [(fv & sv & Hfac & Hwf & _) Hval].
  destruct (Hval eq_refl) as (d0 & Hd0 & Hattrs).
  destruct (dataset_filter_spec Filter.none self w fv sv Hfac) as (d & Hd & Hspec).
  rewrite Hd0 in Hd. injection Hd as <-. rewrite Hattrs in Hspec.
  rewrite files_filtered_none in Hspec.
  rewrite sessions_filtered_none in Hspec by apply Hwf.
  destruct Hspec as (self' & Hrun & Hfac' & _).
  by exists fv, sv, self'.
Qed.

(* ===================================================================== *)
(** * Which computations walk the disk *)
(* ===================================================================== *)

Lemma quiet_ret {A} (a : A) : quiet (mret a).
Proof. by intros w. Qed.

Lemma quiet_raise {A} (e : exn) : quiet (@raise A e).
Proof. by intros w. Qed.

Lemma quiet_lift {A} (r : result A) : quiet (lift r).
Proof. by intros w. Qed.

Lemma quiet_alloc o : quiet (alloc o).
Proof. by intros w. Qed.

Lemma quiet_store l o : quiet (store l o).
Proof. by intros w. Qed.

Lemma quiet_load l : quiet (load l).
Proof. intros w. unfold load. by destruct (heap w !! l). Qed.

Lemma quiet_bind {A B} (m : M A) (k : A -> M B) :
  quiet m -> (forall a, quiet (k a)) -> quiet (m ≫= k).
Proof.
  intros Hm Hk w. unfold mbind, M_bind. specialize (Hm w).
  destruct (m w) as [w1 [a|e]]; simpl in *; [|done].
  by rewrite (Hk a w1).
Qed.

Lemma quiet_when b m : quiet m -> quiet (when b m).
Proof. destruct b; simpl; [done|]. intros _. apply quiet_ret. Qed.

Lemma quiet_for_each {A} (xs : list A) (body : A -> M unit) :
  (forall x, quiet (body x)) -> quiet (for_each xs body).
Proof.
  intros Hb. induction xs as [|x xs IH]; simpl; [apply quiet_ret|].
  apply quiet_bind; [apply Hb|]. by intros _.
Qed.

Lemma quiet_map_M {A B} (f : A -> M B) (xs : list A) :
  (forall x, quiet (f x)) -> quiet (map_M f xs).
Proof.
  intros Hf. induction xs as [|x xs IH]; simpl; [apply quiet_ret|].
  apply quiet_bind; [apply Hf|]. intros y.
  apply quiet_bind; [apply IH|]. intros ys. apply quiet_ret.
Qed.

Lemma quiet_filter_M {A} (p : A -> M bool) (xs : list A) :
  (forall x, quiet (p x)) -> quiet (filter_M p xs).
Proof.
  intros Hp. induction xs as [|x xs IH]; simpl; [apply quiet_ret|].
  apply quiet_bind; [apply Hp|]. intros b.
  apply quiet_bind; [apply IH|]. intros ys. apply quiet_ret.
Qed.

(** Structural proof that a computation built from the quiet primitives
    is quiet. *)
Ltac quiet_auto :=
  repeat first
    [ apply quiet_ret | apply quiet_raise | apply quiet_lift
    | apply quiet_alloc | apply quiet_store | apply quiet_load
    | apply quiet_when
    | apply quiet_for_each; intros ?
    | apply quiet_map_M; intros ?
    | apply quiet_filter_M; intros ?
    | apply quiet_bind; [|intros ?]
    | match goal with
      | |- quiet (match ?x with _ => _ end) => destruct x
      | |- quiet (if ?x then _ else _) => destruct x
      end
    | progress unfold load_list, load_file, load_session, load_dataset,
        copy_list, copy_session, select_files, select_sessions,
        session_select, session_prune, narrow ].

Lemma quiet__filter `{Env} fl sl a : quiet (_filter fl sl a).
Proof. unfold _filter, _session_filter. quiet_auto. Qed.

(* ===================================================================== *)
(** * C4: filtering and the disk *)
(* ===================================================================== *)

Lemma load_dataset_inv self w w1 d :
  load_dataset self w = (w1, Ok d) -> w1 = w /\ heap w !! self = Some (ODataset d).
Proof.
  unfold load_dataset, load, mbind, M_bind.
  destruct (heap w !! self) as [[| | | |d0]|]; try done.
  by intros [= <- <-].
Qed.

Lemma getattr_inv {A} name (a : attr A) w w1 v :
  getattr name a w = (w1, Ok v) -> w1 = w /\ a = Value v.
Proof. destruct a; [done|]. by intros [= <- <-]. Qed.

(** Whenever [filter] returns, it has walked the tree at the path of its
    source once more. *)
Lemma dataset_filter_walks `{Env} (a : Filter.t) self w self' :
  (dataset_filter self a w).2 = Ok self' ->
  exists d,
    heap w !! self = Some (ODataset d)
    /\ io_log (dataset_filter self a w).1
       = io_log w ++ [os_path_abspath (Dataset.path d)].
Proof.
  destruct (dataset_filter self a w) as [w' r] eqn:E. simpl. intros ->.
  unfold dataset_filter in E.
  apply bind_inv_ok in E as (w1 & d & Hload & E).
  apply load_dataset_inv in Hload as [-> Hd].
  apply bind_inv_ok in E as (w1 & fl & Hg & E).
  apply getattr_inv in Hg as [-> _].
  apply bind_inv_ok in E as (w1 & sl & Hg & E).
  apply getattr_inv in Hg as [-> _].
  apply bind_inv_ok in E as (w1 & [fl' sl'] & Hf & E).
  pose proof (quiet__filter fl sl a w) as Hq. rewrite Hf in Hq. simpl in Hq.
  apply bind_inv_ok in E as (w2 & subjects & Hg & E).
  apply getattr_inv in Hg as [-> _].
  apply bind_inv_ok in E as (w2 & sessions & Hg & E).
  apply getattr_inv in Hg as [-> _].
  apply bind_inv_ok in E as (w2 & modals & Hg & E).
  apply getattr_inv in Hg as [-> _].
  destruct (dataset_init_inherits_run (Dataset.cls d) (Dataset.path d)
              (Inherits.mk subjects sessions modals fl' sl') w1)
    as (d' & w'' & Hrun & _ & _ & _ & _ & Hio & _).
  rewrite Hrun in E. injection E as <- _.
  exists d. split; [done|]. by rewrite Hio, Hq.
Qed.

(** Whenever [filter] returns, the façade it returns holds the scan of the
    disk as it is when [filter] is called. *)
Lemma dataset_filter_rescans `{Env} (a : Filter.t) self w self' :
  (dataset_filter self a w).2 = Ok self' ->
  exists d,
    heap w !! self = Some (ODataset d)
    /\ facade_scan (heap (dataset_filter self a w).1) self'
       = Some (scan (Dataset.path d) false (fs w)).
Proof.
  destruct (dataset_filter self a w) as [w' r] eqn:E. simpl. intros ->.
  unfold dataset_filter in E.
  apply bind_inv_ok in E as (w1 & d & Hload & E).
  apply load_dataset_inv in Hload as [-> Hd].
  apply bind_inv_ok in E as (w1 & fl & Hg & E).
  apply getattr_inv in Hg as [-> _].
  apply bind_inv_ok in E as (w1 & sl & Hg & E).
  apply getattr_inv in Hg as [-> _].
  apply bind_inv_ok in E as (w1 & [fl' sl'] & Hf & E).
  assert (fs w1 = fs w) as Hfs.
  { destruct (frames__filter (length (heap w)) fl sl a w (le_n _))
      as (_ & _ & Hfs & _). by rewrite Hf in Hfs. }
  apply bind_inv_ok in E as (w2 & subjects & Hg & E).
  apply getattr_inv in Hg as [-> _].
  apply bind_inv_ok in E as (w2 & sessions & Hg & E).
  apply getattr_inv in Hg as [-> _].
  apply bind_inv_ok in E as (w2 & modals & Hg & E).
  apply getattr_inv in Hg as [-> _].
  destruct (dataset_init_inherits_run (Dataset.cls d) (Dataset.path d)
              (Inherits.mk subjects sessions modals fl' sl') w1)
    as (d' & w'' & Hrun & Hheap & _ & _ & _ & _ & Hscan).
  rewrite Hrun in E. injection E as <- <-.
  exists d. split; [done|]. unfold facade_scan.
  by rewrite Hheap, lookup_new, Hscan, Hfs.
Qed.

(** C4 (as the code has it). Whenever [filter] returns, it has walked the
    directory tree at the path of its source once more, and the façade it
    returns holds the depth-grouped trees and the max depth of the disk as
    it is at that moment; but the file list and the session list of that
    façade are the filtered lists of the source, whatever the disk holds
    when [filter] is called. *)
Theorem filter_lists_do_not_depend_on_disk `{Env} (w : world) (self : loc)
    (a : Filter.t) (disk : string -> option tree) fv sv self1 :
  facade_lists (heap w) self = Some (fv, sv) ->
  (dataset_filter self a w).2 = Ok self1 ->
  exists d fv' sv' self2,
    heap w !! self = Some (ODataset d)
    /\ files_filtered a fv = Ok fv' /\ sessions_filtered a sv = Ok sv'
    /\ facade_lists (heap (dataset_filter self a w).1) self1 = Some (fv', sv')
    /\ (dataset_filter self a (with_disk w disk)).2 = Ok self2
    /\ facade_lists (heap (dataset_filter self a (with_disk w disk)).1) self2
       = Some (fv', sv')
    /\ io_log (dataset_filter self a w).1
       = io_log w ++ [os_path_abspath (Dataset.path d)]
    /\ facade_scan (heap (dataset_filter self a w).1) self1
       = Some (scan (Dataset.path d) false (fs w))
    /\ facade_scan (heap (dataset_filter self a (with_disk w disk)).1) self2
       = Some (scan (Dataset.path d) false disk).
Proof.
  intros Hfac Hok.
  destruct (dataset_filter_walks a self w self1 Hok) as (d & Hd & Hio).
  destruct (dataset_filter_rescans a self w self1 Hok) as (d2 & Hd2 & Hscan).
  destruct (dataset_filter_spec a self w fv sv Hfac) as (d0 & Hd0 & Hspec).
  destruct (dataset_filter_spec a self (with_disk w disk) fv sv Hfac)
    as (d1 & Hd1 & Hspec1).
  simpl in Hd1. rewrite Hd in Hd0, Hd1, Hd2.
  injection Hd0 as <-. injection Hd1 as <-. injection Hd2 as <-.
  rewrite Hok in Hspec.
  destruct (attrs_set d); [|by destruct Hspec].
  destruct (files_filtered a fv) as [fv'|]; [|done].
  destruct (sessions_filtered a sv) as [sv'|]; [|done].
  destruct Hspec as (s1 & [= <-] & Hl1 & _).
  destruct Hspec1 as (self2 & Hok2 & Hl2 & _).
  destruct (dataset_filter_rescans a self (with_disk w disk) self2 Hok2)
    as (d3 & Hd3 & Hscan2).
  simpl in Hd3. rewrite Hd in Hd3. injection Hd3 as <-.
  exists d, fv', sv', self2. by repeat (split; [done|]).
Qed.

(** C4, witness: a filtered façade of the single-session tree. *)
Lemma filter_lists_do_not_depend_on_disk_witness :
  exists d fv' sv' self2,
    heap (raw_world true single_session_tree) !! 0%nat = Some (ODataset d)
    /\ @files_filtered literal_env (annotation_only "data")
         (default [] (fst <$> facade_lists (heap (raw_world true single_session_tree)) 0))
       = Ok fv'
    /\ @sessions_filtered literal_env (annotation_only "data")
         (default [] (snd <$> facade_lists (heap (raw_world true single_session_tree)) 0))
       = Ok sv'
    /\ facade_lists
         (heap (@dataset_filter literal_env 0 (annotation_only "data")
                  (raw_world true single_session_tree)).1) 23
       = Some (fv', sv')
    /\ (@dataset_filter literal_env 0 (annotation_only "data")
          (with_disk (raw_world true single_session_tree) (fun _ => None))).2
       = Ok self2
    /\ facade_lists
         (heap (@dataset_filter literal_env 0 (annotation_only "data")
                  (with_disk (raw_world true single_session_tree)
                     (fun _ => None))).1) self2
       = Some (fv', sv')
    /\ io_log (@dataset_filter literal_env 0 (annotation_only "data")
                 (raw_world true single_session_tree)).1
       = io_log (raw_world true single_session_tree)
         ++ [@os_path_abspath literal_env (Dataset.path d)]
    /\ facade_scan
         (heap (@dataset_filter literal_env 0 (annotation_only "data")
                  (raw_world true single_session_tree)).1) 23
       = Some (@scan literal_env (Dataset.path d) false
                 (fs (raw_world true single_session_tree)))
    /\ facade_scan
         (heap (@dataset_filter literal_env 0 (annotation_only "data")
                  (with_disk (raw_world true single_session_tree)
                     (fun _ => None))).1) self2
       = Some (@scan literal_env (Dataset.path d) false (fun _ => None)).
Proof.
  apply (@filter_lists_do_not_depend_on_disk literal_env
           (raw_world true single_session_tree) 0 (annotation_only "data")
           (fun _ => None)); vm_compute; reflexivity.
Defined.

(** C4, counterexample: [filter] reads the disk. After a [RawDataset] was
    built on the single-session tree, [filter()] walks [/data] a second
    time, and the façade it returns records the depth of the tree found at
    that moment: 2 on the unchanged disk, 0 once the directory is gone. *)
Lemma filter_walks_the_disk :
  let w := raw_world true single_session_tree in
  io_log w = ["/data"]
  /\ io_log (@dataset_filter literal_env 0 Filter.none w).1 = ["/data"; "/data"]
  /\ (@dataset_filter literal_env 0 Filter.none w).2 = Ok 18%nat
  /\ facade_max_depth (heap (@dataset_filter literal_env 0 Filter.none w).1) 18
     = Some 2
  /\ facade_max_depth
       (heap (@dataset_filter literal_env 0 Filter.none
                (with_disk w (fun _ => None))).1) 18
     = Some 0.
Proof. vm_compute. repeat split. Qed.

(* ===================================================================== *)
(** * C8, C9: file names *)
(* ===================================================================== *)

(** C8. For every file name with at least one dot, the [FileItem] the
    constructor builds has as [filename] the text before the first dot and
    as [fileext] everything after it; so [a.b.c] gives [a] and [b.c], and
    [sub-01_T1w.nii.gz] gives [sub-01_T1w] and [nii.gz], also in the
    records of a constructed dataset. *)
Theorem extension_is_split_at_first_dot :
  (forall abs_path abs_path_list root subj sess modal sess_path f,
     str_contains "."%char f = true ->
     last abs_path_list = Some root ->
     exists stem ext,
       f = stem +:+ "." +:+ ext
       /\ str_contains "."%char stem = false
       /\ new_file_item abs_path abs_path_list subj sess modal sess_path f
          = Ok (FileItem.mk subj sess modal (Some root)
                  (os_path_join abs_path sess_path) stem ext))
  /\ str_split1 "."%char "a.b.c" = ["a"; "b.c"]
  /\ str_split1 "."%char "sub-01_T1w.nii.gz" = ["sub-01_T1w"; "nii.gz"]
  /\ (fun fs => map (fun f => (FileItem.filename f, FileItem.fileext f)) fs)
       <$> (fst <$> facade_lists (heap (raw_world true single_session_tree)) 0)
     = Some [("sub-01_T1w", "nii.gz"); ("sub-02_T1w", "nii.gz")].
Proof.
  split; [|by vm_compute].
  intros abs_path abs_path_list root subj sess modal sess_path f Hf Hroot.
  destruct (str_contains_split _ _ Hf) as (stem & ext & -> & Hstem).
  exists stem, ext. split; [done|]. split; [done|].
  unfold new_file_item. by rewrite (str_split1_first _ _ _ Hstem), Hroot.
Qed.

Lemma extension_is_split_at_first_dot_witness :
  exists stem ext,
    "sub-01_ses-01_T1w.nii.gz" = stem +:+ "." +:+ ext
    /\ str_contains "."%char stem = false
    /\ new_file_item "/data" ["data"] "sub-01" (Some "ses-01") (Some "anat")
         "sub-01/ses-01/anat" "sub-01_ses-01_T1w.nii.gz"
       = Ok (FileItem.mk "sub-01" (Some "ses-01") (Some "anat") (Some "data")
               (os_path_join "/data" "sub-01/ses-01/anat") stem ext).
Proof.
  apply (proj1 extension_is_split_at_first_dot); reflexivity.
Defined.

(** C9. When some file name recorded at max depth has no dot, the
    constructor raises: the unpacking of [f.split('.', 1)] fails on that
    name, unless an earlier name or path has already made the constructor
    raise. So whenever a façade is built from a path, every file name at
    max depth of the scanned tree has a dot. *)
Theorem dotless_file_name_fails_construction `{Env} :
  (forall abs_path abs_path_list subj sess modal sess_path f,
     str_contains "."%char f = false ->
     new_file_item abs_path abs_path_list subj sess modal sess_path f
     = Raise (UnpackError 2 1))
  /\ (forall self (files : DataItem) ref modal
          (level : dict string (list string)) sess_path filenames f,
     dict_get (Dataset.max_depth self) files = Some level ->
     In (sess_path, filenames) level -> In f filenames ->
     str_contains "."%char f = false ->
     exists e, _constructor self files ref modal = Raise e)
  /\ (forall k path validate dir_only w w' self
          (level : dict string (list string)) sess_path filenames f,
        dataset_init k path validate None dir_only w = (w', Ok self) ->
        dict_get (scan path dir_only (fs w)).2 (scan path dir_only (fs w)).1.1
        = Some level ->
        In (sess_path, filenames) level -> In f filenames ->
        str_contains "."%char f = true).
Proof.
  assert (forall self (files : DataItem) ref modal
          (level : dict string (list string)) sess_path filenames f,
     dict_get (Dataset.max_depth self) files = Some level ->
     In (sess_path, filenames) level -> In f filenames ->
     str_contains "."%char f = false ->
     exists e, _constructor self files ref modal = Raise e) as Hcons.
  { intros self files ref modal level sess_path filenames f Hget Hitem Hin Hf.
    unfold _constructor, by_depth_get. rewrite Hget. simpl.
    destruct (construct_paths_dotless self ref (dict_items level)
                (CState (ModalFlag modal) [] [] []) sess_path filenames f
                Hitem Hin Hf) as [e ->].
    simpl. eauto. }
  split; [intros; by apply new_file_item_dotless|]. split; [exact Hcons|].
  intros k path validate dir_only w w' self level sess_path filenames f
    Hrun Hget Hitem Hin.
  destruct (dataset_init_new_spec _ _ _ _ _ _ _ Hrun)
    as (d & sl & fl & Hc & _ & _ & _ & Hfiles & Hmd).
  destruct (str_contains "."%char f) eqn:Hf; [done|]. exfalso.
  rewrite <- Hfiles, <- Hmd in Hget.
  destruct (Hcons d _ (depth_ref k) (has_modal k) _ _ _ _ Hget Hitem Hin Hf)
    as [e He].
  congruence.
Qed.

Lemma dotless_file_name_fails_construction_witness :
  exists e,
    _constructor
      (Dataset.mk Dataset.Raw "/data" false "/data" ["data"] 1
         [(2, [("sub-01/anat", ["README"])])] [] 2 Unset Unset Unset Unset Unset)
      [(2, [("sub-01/anat", ["README"])])] (depth_ref Dataset.Raw) true
    = Raise e.
Proof.
  apply (proj1 (proj2 (@dotless_file_name_fails_construction literal_env))
           _ _ _ _ [("sub-01/anat", ["README"])] "sub-01/anat" ["README"] "README");
    [reflexivity | by left | by left | reflexivity].
Defined.

(* ===================================================================== *)
(** * C6: depth outside the reference *)
(* ===================================================================== *)

Section DictGen.
Context {K V : Type} `{EqDecision K}.

Lemma dict_set_nonempty (k : K) (v : V) (d : dict K V) : dict_set k v d ≠ [].
Proof. destruct d as [|[k' v'] d]; simpl; [done|]. by destruct (decide _). Qed.

Lemma dict_set_Forall_gen (P : K * V -> Prop) (k : K) (v : V) (d : dict K V) :
  Forall P d -> P (k, v) -> Forall P (dict_set k v d).
Proof.
  intros Hd Hv. induction Hd as [|[k' v'] d Hk Hd IH]; simpl.
  - by constructor.
  - destruct (decide (k = k')); by constructor.
Qed.

Lemma dict_get_Forall_gen (P : K * V -> Prop) (k : K) (v : V) (d : dict K V) :
  Forall P d -> dict_get k d = Some v -> P (k, v).
Proof.
  induction 1 as [|[k' v'] d Hk _ IH]; simpl; [done|].
  destruct (decide (k = k')) as [->|]; [|done]. by intros [= <-].
Qed.
End DictGen.

(** Every depth recorded by a scan has at least one path under it. *)
Lemma scan_levels_nonempty `{Env} path dir_only disk md level :
  dict_get md (scan path dir_only disk).1.1 = Some level -> level ≠ [].
Proof.
  unfold scan, _init_process.
  set (depth := length _).
  set (entries := match disk (os_path_abspath path) with
                  | Some t => os_walk_tree (os_path_abspath path) t
                  | None => []
                  end).
  assert (forall st,
            Forall (fun kv : Z * dict string (list string) => kv.2 ≠ []) st.1.2 ->
            Forall (fun kv : Z * dict string (list string) => kv.2 ≠ [])
              (fold_left (parse_step depth dir_only) entries st).1.2) as Hfold.
  { induction entries as [|[[dirpath dirnames] filenames] entries IH];
      intros st Hst; simpl; [done|].
    apply IH. destruct st as [[md0 files] dirs]. simpl in *.
    destruct (length dirnames =? 0)%nat; simpl;
      (destruct (negb dir_only && negb (length filenames =? 0)%nat); simpl;
       [|done]);
      (apply dict_set_Forall_gen; [done|]; simpl; apply dict_set_nonempty). }
  specialize (Hfold (0, [], []) ltac:(constructor)).
  destruct (fold_left _ _ _) as [[md0 files] dirs]. simpl in *.
  intros Hget. apply (dict_get_Forall_gen _ _ _ _ Hfold Hget).
Qed.

Lemma not_in_ref md ref :
  md ∉ MaxDepthRef.list ref ->
  md ≠ MaxDepthRef.single_session ref /\ md ≠ MaxDepthRef.multi_session ref.
Proof.
  unfold MaxDepthRef.list. intros Hnot. split; intros ->; apply Hnot.
  - by left.
  - right. by left.
Qed.

(** When the max depth observed by the scan is neither of the two reference
    depths, the validator raises the structural error naming the observed
    depth and the two accepted ones. The constructor raises too: that same
    error when the scan recorded files at max depth, and a [KeyError] for
    the missing depth when it recorded none. Either way no façade is
    built. *)
Theorem depth_outside_reference_is_fatal `{Env} :
  (forall dirs files md ref modal dir_only w,
     md ∉ MaxDepthRef.list ref ->
     _validator dirs files md ref modal dir_only w
     = (w, Raise (depth_error md ref)))
  /\ (forall self ref modal path dir_only disk,
        Dataset.max_depth self ∉ MaxDepthRef.list ref ->
        _constructor self (scan path dir_only disk).1.1 ref modal
        = Raise (if dict_has (Dataset.max_depth self) (scan path dir_only disk).1.1
                 then depth_error (Dataset.max_depth self) ref
                 else KeyError (Dataset.max_depth self)))
  /\ (forall k path validate dir_only w,
        (scan path dir_only (fs w)).2 ∉ MaxDepthRef.list (depth_ref k) ->
        (dataset_init k path validate None dir_only w).2
        = Raise (if validate
                    || dict_has (scan path dir_only (fs w)).2
                         (scan path dir_only (fs w)).1.1
                 then depth_error (scan path dir_only (fs w)).2 (depth_ref k)
                 else KeyError (scan path dir_only (fs w)).2)).
Proof.
  assert (forall dirs files md ref modal dir_only w,
     md ∉ MaxDepthRef.list ref ->
     _validator dirs files md ref modal dir_only w
     = (w, Raise (depth_error md ref))) as Hval.
  { intros dirs files md ref modal dir_only w Hnot. unfold _validator.
    by rewrite bool_decide_eq_false_2. }
  assert (forall self ref modal path dir_only disk,
        Dataset.max_depth self ∉ MaxDepthRef.list ref ->
        _constructor self (scan path dir_only disk).1.1 ref modal
        = Raise (if dict_has (Dataset.max_depth self) (scan path dir_only disk).1.1
                 then depth_error (Dataset.max_depth self) ref
                 else KeyError (Dataset.max_depth self))) as Hcons.
  { intros self ref modal path dir_only disk Hnot.
    unfold _constructor, by_depth_get, dict_has.
    destruct (dict_get _ _) as [level|] eqn:Hget; simpl; [|done].
    apply scan_levels_nonempty in Hget.
    destruct level as [|[sess_path filenames] level]; [done|]. simpl.
    unfold construct_path, parse_meta. simpl.
    apply not_in_ref in Hnot as [H1 H2].
    by rewrite !bool_decide_eq_false_2. }
  split; [exact Hval|]. split; [exact Hcons|].
  intros k path validate dir_only w Hnot.
  destruct (BaseParser_init_run k path dir_only w)
    as (d0 & Hbase & Hcls & _ & _ & _ & _ & _ & _ & Hscan).
  set (w1 := World _ _ _ _) in *.
  assert (heap w1 !! length (heap w) = Some (ODataset d0)) as Hself
    by apply lookup_new.
  assert (Dataset._files_by_depth d0 = (scan path dir_only (fs w)).1.1) as Hfiles
    by by rewrite <- Hscan.
  assert (Dataset.max_depth d0 = (scan path dir_only (fs w)).2) as Hmd
    by by rewrite <- Hscan.
  unfold dataset_init. rewrite (bind_ok _ _ _ _ _ Hbase).
  destruct validate; simpl.
  - assert (_validate (length (heap w)) w1 = (w1, Raise (depth_error
              (scan path dir_only (fs w)).2 (depth_ref k)))) as Hv.
    { unfold _validate.
      rewrite (bind_ok _ _ _ _ _ (load_dataset_ok _ _ _ Hself)).
      rewrite Hcls, Hmd. by rewrite (bind_raise _ _ _ _ _ (Hval _ _ _ _ _ _ _ Hnot)). }
    by rewrite (bind_raise _ _ _ _ _ Hv).
  - rewrite (bind_ok _ _ w1 w1 tt eq_refl).
    assert (_construct (length (heap w)) w1
            = (w1, Raise (if dict_has (scan path dir_only (fs w)).2
                               (scan path dir_only (fs w)).1.1
                          then depth_error (scan path dir_only (fs w)).2 (depth_ref k)
                          else KeyError (scan path dir_only (fs w)).2))) as Hc.
    { unfold _construct.
      rewrite (bind_ok _ _ _ _ _ (load_dataset_ok _ _ _ Hself)).
      rewrite Hcls, Hfiles.
      assert (Dataset.max_depth d0 ∉ MaxDepthRef.list (depth_ref k)) as Hnot'
        by by rewrite Hmd.
      rewrite (Hcons d0 (depth_ref k) (has_modal k) path dir_only (fs w) Hnot').
      by rewrite Hmd. }
    by rewrite (bind_raise _ _ _ _ _ Hc).
Qed.

Lemma depth_outside_reference_is_fatal_witness :
  (@dataset_init literal_env Dataset.Raw "/data" true None false
     (empty_world (disk_at "/data" multi_session_tree_deep))).2
  = Raise (depth_error 4 (depth_ref Dataset.Raw)).
Proof.
  apply (proj2 (proj2 (@depth_outside_reference_is_fatal literal_env))
           Dataset.Raw "/data" true false
           (empty_world (disk_at "/data" multi_session_tree_deep))).
  vm_compute. intros Hin. repeat (apply elem_of_cons in Hin as [Hin|Hin]; [done|]).
  by apply not_elem_of_nil in Hin.
Defined.

(** C6. On an empty directory the observed depth is 0, outside the
    reference of [RawDataset]. With validation the construction raises the
    structural error that names the depth, and the constructor carries the
    same [raise ValueError] in its loop; but reached with [validate=False]
    it looks up the files at max depth at the head of the loop and raises
    [KeyError: 0], not the structural error. *)
Theorem constructor_without_files_raises_KeyError :
  let r := @RawDataset literal_env "/data" false None false
             (empty_world (disk_at "/data" (Dir [] []))) in
  let v := @RawDataset literal_env "/data" true None false
             (empty_world (disk_at "/data" (Dir [] []))) in
  facade_max_depth (heap r.1) 0 = Some 0
  /\ (0 ∉ MaxDepthRef.list (depth_ref Dataset.Raw))
  /\ v.2 = Raise (depth_error 0 (depth_ref Dataset.Raw))
  /\ r.2 = Raise (KeyError 0)
  /\ r.2 ≠ Raise (depth_error 0 (depth_ref Dataset.Raw)).
Proof.
  vm_compute. split; [done|]. split; [|done].
  intros Hin. repeat (apply elem_of_cons in Hin as [Hin|Hin]; [done|]).
  by apply not_elem_of_nil in Hin.
Qed.

(** The text of the structural error. *)
Example depth_error_message :
  depth_error 4 (MaxDepthRef.mk 2 3)
  = ValueError "Invalid dataset depth: 4. Expected depth is 2 for single session or 3 for multi session dataset.".
Proof. reflexivity. Qed.

(* ===================================================================== *)
(** * C10: the annotation of a record *)
(* ===================================================================== *)

Lemma map_R_total {A B} (f : A -> result B) (l : list A) :
  (forall x, exists y, f x = Ok y) -> exists l', map_R f l = Ok l'.
Proof.
  intros Hf. induction l as [|x l [l' IH]]; simpl; [by eexists|].
  destruct (Hf x) as [y ->]. rewrite IH. simpl. by eexists.
Qed.

Lemma collection_select_pure p (q : FileItem.t -> bool) c :
  (forall f, p f = Ok (q f)) -> exists c', collection_select p c = Ok c'.
Proof.
  intros Hp. destruct c as [l|d]; simpl.
  - rewrite (filter_R_pure p q l Hp). simpl. by eexists.
  - destruct (map_R_total (fun kv : string * list FileItem.t =>
                             fs ← filter_R p kv.2; Ok (kv.1, fs)) d) as [d' ->].
    + intros [m fs]. simpl. rewrite (filter_R_pure p q fs Hp). simpl. by eexists.
    + simpl. by eexists.
Qed.

Lemma filter_R_all {A} (p : A -> result bool) (l : list A) :
  Forall (fun x => p x = Ok true) l -> filter_R p l = Ok l.
Proof.
  induction 1 as [|x l Hx _ IH]; simpl; [done|]. by rewrite Hx, IH.
Qed.

Lemma collection_select_all p c :
  Forall (fun f => p f = Ok true) (collection_files c) ->
  collection_select p c = Ok c.
Proof.
  destruct c as [l|d]; simpl; intros Hall.
  - by rewrite filter_R_all.
  - assert (map_R (fun kv : string * list FileItem.t =>
                     fs ← filter_R p kv.2; Ok (kv.1, fs)) d = Ok d) as ->; [|done].
    apply map_R_id. unfold dict_values in Hall.
    induction d as [|[m fs] d IH]; simpl in *; [constructor|].
    apply Forall_app in Hall as [H1 H2]. constructor; [|by apply IH].
    simpl. by rewrite filter_R_all.
Qed.

Lemma str_truthy_true s : s ≠ EmptyString -> str_truthy s = true.
Proof. by destruct s. Qed.

Lemma opt_in_single (a : option string) (A : string) :
  opt_in a [A] = bool_decide (a = Some A).
Proof.
  destruct a as [s|]; simpl; [|done]. rewrite orb_false_r.
  destruct (String.eqb_spec s A) as [->|Hne].
  - by rewrite bool_decide_eq_true_2.
  - rewrite bool_decide_eq_false_2; [done|]. by intros [= ->].
Qed.

Section Annotation.
Context `{Env}.

Lemma files_filtered_annotation (A : string) fv :
  A ≠ EmptyString ->
  files_filtered (annotation_only A) fv
  = Ok (List.filter (fun f => bool_decide (FileItem.annotation f = Some A)) fv).
Proof.
  intros HA. unfold files_filtered, annotation_only. simpl.
  rewrite (str_truthy_true _ HA). simpl.
  rewrite (filter_R_pure _ (fun f => opt_in (FileItem.annotation f) [A])) by done.
  simpl. f_equal. apply List.filter_ext. intros f. apply opt_in_single.
Qed.

Lemma session_filtered_annotation_total (A : string) s :
  exists s', session_filtered (annotation_only A) s = Ok s'.
Proof.
  unfold session_filtered, collection_filtered, annotation_only. simpl.
  destruct (str_truthy A); simpl; [|by eexists].
  destruct (collection_select_pure (by_annotation [A])
              (fun f => opt_in (FileItem.annotation f) [A])
              (SessionItem.files s)) as [c' ->]; [done|].
  simpl. by eexists.
Qed.

Lemma session_filtered_annotation_same (A : string) s :
  no_empty_bucket s ->
  Forall (fun f => FileItem.annotation f = Some A) (session_files s) ->
  session_filtered (annotation_only A) s = Ok s.
Proof.
  intros Hne Hall. unfold session_filtered, collection_filtered, annotation_only.
  simpl. destruct s as [subj sess c]. simpl in *.
  assert (collection_narrow (str_truthy A) (by_annotation [A]) c = Ok c) as ->.
  { unfold collection_narrow. destruct (str_truthy A); [|done].
    apply collection_select_all. eapply Forall_impl; [exact Hall|].
    intros f Hf. unfold by_annotation. rewrite opt_in_single.
    by rewrite bool_decide_eq_true_2. }
  simpl. by rewrite collection_prune_id.
Qed.
End Annotation.

(** C10 (as the code has it). Every record of a façade built from a path,
    in the flat list and in the sessions, is annotated with the last segment
    of the scan root, never with [None]. When the façade was built with
    validation, [filter(annotation=A)] for a non-empty string [A] returns a
    façade with all the records, in both indexes, when [A] is that segment,
    and with none of them otherwise. *)
Theorem annotation_is_the_root_directory_name `{Env} (k : Dataset.kind)
    (path : string) (validate dir_only : bool) (w w' : world) (self : loc) :
  dataset_init k path validate None dir_only w = (w', Ok self) ->
  exists fv sv,
    facade_lists (heap w') self = Some (fv, sv)
    /\ Forall (annotated (strip_empty_str_in_list
                           (str_split "/"%char (os_path_abspath path)))) fv
    /\ Forall (annotated (strip_empty_str_in_list
                           (str_split "/"%char (os_path_abspath path))))
         (nested_files sv)
    /\ (validate = true ->
        forall A : string, A ≠ EmptyString ->
        exists self' fv' sv',
          (dataset_filter self (annotation_only A) w').2 = Ok self'
          /\ facade_lists (heap (dataset_filter self (annotation_only A) w').1) self'
             = Some (fv', sv')
          /\ (last (strip_empty_str_in_list
                      (str_split "/"%char (os_path_abspath path))) = Some A ->
              fv' = fv /\ sv' = sv)
          /\ (last (strip_empty_str_in_list
                      (str_split "/"%char (os_path_abspath path))) ≠ Some A ->
              fv' = [] /\ nested_files sv' = [])).
Proof.
  intros Hrun.
  destruct (dataset_init_new_spec _ _ _ _ _ _ _ Hrun)
    as (d & sl & fl & Hc & Hlist & Hfac & Hval & _).
  destruct (_constructor_spec _ _ _ _ _ _ Hc) as [Hwf Hann].
  rewrite Hlist in Hann.
  set (L := strip_empty_str_in_list _) in *.
  destruct Hwf as (Hperm & Hown & Hne).
  assert (Forall (annotated L) (nested_files sl)) as Hann_nested.
  { by rewrite <- Hperm. }
  exists fl, sl. split; [done|]. split; [done|]. split; [done|].
  intros Hv A HA.
  destruct (Hval Hv) as (d1 & Hd1 & Hattrs).
  destruct (dataset_filter_spec (annotation_only A) self w' fl sl Hfac)
    as (d2 & Hd2 & Hspec).
  rewrite Hd1 in Hd2. injection Hd2 as <-. rewrite Hattrs in Hspec.
  rewrite (files_filtered_annotation A fl HA) in Hspec.
  destruct (map_R_total (session_filtered (annotation_only A)) sl
              (session_filtered_annotation_total A)) as [sv' Hsv'].
  assert (sessions_filtered (annotation_only A) sl = Ok sv') as Hsess.
  { unfold sessions_filtered. exact Hsv'. }
  rewrite Hsess in Hspec. destruct Hspec as (self' & Hok & Hfac' & _).
  eexists self', _, sv'. split; [done|]. split; [exact Hfac'|]. split.
  - intros Hlast. split.
    + apply filter_all. eapply Forall_impl; [exact Hann|].
      intros f (root & Hroot & Hf). simpl.
      rewrite bool_decide_eq_true_2; congruence.
    + assert (map_R (session_filtered (annotation_only A)) sl = Ok sl) as Hid.
      { apply map_R_id. rewrite Forall_forall. intros s Hs.
        apply session_filtered_annotation_same.
        - rewrite Forall_forall in Hne. by apply Hne.
        - rewrite Forall_forall in Hann_nested |- *. intros f Hf.
          destruct (Hann_nested f) as (root & Hroot & Hfa).
          { apply elem_of_nested_files. eauto. }
          congruence. }
      congruence.
  - intros Hlast.
    assert (Forall (fun f => bool_decide (FileItem.annotation f = Some A) = false)
              (nested_files sl)) as Hnone.
    { eapply Forall_impl; [exact Hann_nested|].
      intros f (root & Hroot & Hf). simpl.
      rewrite bool_decide_eq_false_2; congruence. }
    split.
    + apply filter_none. by rewrite Hperm.
    + destruct (sessions_filtered_nested _ _ _ Hown Hsess) as (-> & _).
      apply filter_none. eapply Forall_impl; [exact Hnone|].
      intros f Hf. simpl. unfold flat_keep, nested_keep, annotation_only. simpl.
      rewrite (str_truthy_true _ HA). unfold guard at 1, holds, by_annotation.
      by rewrite opt_in_single, Hf.
Qed.

Lemma annotation_is_the_root_directory_name_witness :
  exists fv sv,
    facade_lists (heap (raw_world true single_session_tree)) 0 = Some (fv, sv)
    /\ Forall (annotated (strip_empty_str_in_list
                           (str_split "/"%char
                              (@os_path_abspath literal_env "/data")))) fv
    /\ Forall (annotated (strip_empty_str_in_list
                           (str_split "/"%char
                              (@os_path_abspath literal_env "/data"))))
         (nested_files sv)
    /\ (true = true ->
        forall A : string, A ≠ EmptyString ->
        exists self' fv' sv',
          (@dataset_filter literal_env 0 (annotation_only A)
             (raw_world true single_session_tree)).2 = Ok self'
          /\ facade_lists
               (heap (@dataset_filter literal_env 0 (annotation_only A)
                        (raw_world true single_session_tree)).1) self'
             = Some (fv', sv')
          /\ (last (strip_empty_str_in_list
                      (str_split "/"%char (@os_path_abspath literal_env "/data")))
              = Some A -> fv' = fv /\ sv' = sv)
          /\ (last (strip_empty_str_in_list
                      (str_split "/"%char (@os_path_abspath literal_env "/data")))
              ≠ Some A -> fv' = [] /\ nested_files sv' = [])).
Proof.
  apply (@annotation_is_the_root_directory_name literal_env Dataset.Raw "/data"
           true false (empty_world (disk_at "/data" single_session_tree))
           (raw_world true single_session_tree) 0).
  vm_compute. reflexivity.
Defined.

(** C10, counterexample: [filter(annotation="")] keeps every record of the
    single-session dataset scanned at [/data], although the empty string is
    not the root's last segment [data]: an empty argument is no predicate. *)
Lemma empty_annotation_keeps_every_record :
  let w := raw_world true single_session_tree in
  let r := @dataset_filter literal_env 0 (annotation_only "") w in
  exists fv sv,
    facade_lists (heap w) 0 = Some (fv, sv)
    /\ length fv = 2%nat
    /\ map FileItem.annotation fv = [Some "data"; Some "data"]
    /\ r.2 = Ok 18%nat
    /\ facade_lists (heap r.1) 18 = Some (fv, sv)
    /\ "" ≠ "data".
Proof. vm_compute. eexists _, _. repeat split. done. Qed.

(* ===================================================================== *)
(** * C1, C3: validation on concrete trees *)
(* ===================================================================== *)

(** C1. On the two-file multi-session tree the scan finds max depth 3, but
    [RawDataset(path)] does not return: [_validator] looks the session
    names up at depth [ref.multi_session] = 3 of the directory index, where
    a scan records nothing (the directories at max depth are leaves), and
    raises [KeyError: 3]. On a tree that does validate (the single-session
    one), [_validate] stores the validated subject list in [sessions] and
    the session list in [subjects]. Built without validation, the dataset
    has the two records and two sessions, and [_filter] with
    [subject="sub-01"] leaves one record, one session and one file under
    [anat]; but [filter] itself raises, [subjects] never having been set. *)
Theorem multi_session_validation_raises_KeyError :
  let w0 := empty_world (disk_at "/data" multi_session_tree) in
  let r := @RawDataset literal_env "/data" true None false w0 in
  let u := @RawDataset literal_env "/data" false None false w0 in
  facade_max_depth (heap r.1) 0 = Some 3
  /\ r.2 = Raise (KeyError 3)
  /\ dict_keys (@scan literal_env "/data" false (fs w0)).1.2 = [0; 1; 2]
  /\ facade_attrs (heap (raw_world true single_session_tree)) 0
     = Some (Value None, Value (Some ["sub-01"; "sub-02"]), Value (Some ["anat"]))
  /\ u.2 = Ok 0%nat
  /\ (@dataset_filter literal_env 0 (subject_only "sub-01") u.1).2
     = Raise (AttributeError "subjects")
  /\ (let f := @_filter literal_env 3 10 (subject_only "sub-01") u.1 in
      exists fl sl,
        f.2 = Ok (fl, sl)
        /\ (length <$> read_files (heap f.1) fl) = Some 1%nat
        /\ (map (fun s => length <$> dict_get "anat"
                            match SessionItem.files s with
                            | FDict d => d
                            | FList _ => []
                            end)
              <$> read_sessions (heap f.1) sl) = Some [Some 1%nat]).
Proof. vm_compute. repeat split. eexists _, _. repeat split. Qed.

(** C3. With the depth-0 directories [sub-01], [sub-02] and [junk], each
    holding one file under [anat], validation warns that [sub-01] and
    [sub-02] are excluded and says nothing of [junk]; the subject list it
    returns is empty; and since one file name does not match, it warns about
    all three files. The record under [junk] is in the flat file list. *)
Theorem junk_subject_is_not_the_one_excluded :
  let w0 := empty_world (disk_at "/data" junk_tree) in
  let r := @RawDataset literal_env "/data" true None false w0 in
  let s := @scan literal_env "/data" false (fs w0) in
  r.2 = Ok 0%nat
  /\ dict_get "" (default [] (dict_get 0 s.1.2)) = Some ["junk"; "sub-01"; "sub-02"]
  /\ (_validator s.1.2 s.1.1 s.2 (depth_ref Dataset.Raw) true false w0).2
     = Ok ([], None, Some ["anat"])
  /\ warnings r.1
     = [excluded_msg "sub-01" "sub"; excluded_msg "sub-02" "sub";
        file_warning "sub-01/anat" "sub-01_T1w.nii.gz";
        file_warning "sub-02/anat" "sub-02_T1w.nii.gz";
        file_warning "junk/anat" "junk_T1w.nii.gz"]
  /\ (map FileItem.subject <$> (fst <$> facade_lists (heap r.1) 0))
     = Some ["junk"; "sub-01"; "sub-02"].
Proof. vm_compute. repeat split. Qed.

(* ===================================================================== *)
(** * Witnesses on the single-session dataset *)
(* ===================================================================== *)

Lemma raw_world_built validated :
  @built literal_env validated (raw_world true single_session_tree) 0.
Proof.
  apply (@built_new literal_env validated Dataset.Raw "/data" true false
           (empty_world (disk_at "/data" single_session_tree))); [done|].
  vm_compute. reflexivity.
Defined.

Lemma filtered_world_built validated :
  @built literal_env validated
    (@dataset_filter literal_env 0 (subject_only "sub-01")
       (raw_world true single_session_tree)).1 18.
Proof.
  apply (@built_filter literal_env validated (subject_only "sub-01")
           (raw_world true single_session_tree) _ 0 18);
    [apply raw_world_built|].
  vm_compute. reflexivity.
Defined.

Lemma flat_and_nested_lists_agree_witness :
  exists fv sv,
    facade_lists
      (heap (@dataset_filter literal_env 0 (subject_only "sub-01")
               (raw_world true single_session_tree)).1) 18 = Some (fv, sv)
    /\ fv ≡ₚ nested_files sv
    /\ (forall f, f ∈ fv ->
          exists s, s ∈ sv /\ f ∈ session_files s
                    /\ forall s', s' ∈ sv -> f ∈ session_files s' -> s' = s)
    /\ (forall s f, s ∈ sv -> f ∈ session_files s -> f ∈ fv).
Proof.
  apply (@flat_and_nested_lists_agree literal_env). apply filtered_world_built.
Defined.

Lemma filter_without_predicates_is_identity_witness :
  exists fv sv self',
    facade_lists (heap (raw_world true single_session_tree)) 0 = Some (fv, sv)
    /\ (@dataset_filter literal_env 0 Filter.none
          (raw_world true single_session_tree)).2 = Ok self'
    /\ facade_lists
         (heap (@dataset_filter literal_env 0 Filter.none
                  (raw_world true single_session_tree)).1) self'
       = Some (fv, sv).
Proof.
  apply (@filter_without_predicates_is_identity literal_env).
  apply raw_world_built.
Defined.

Lemma filter_leaves_source_unchanged_witness :
  exists v,
    facade_lists (heap (raw_world true single_session_tree)) 0 = Some v
    /\ facade_lists
         (heap (@dataset_filter literal_env 0 (subject_only "sub-01")
                  (raw_world true single_session_tree)).1) 0 = Some v.
Proof.
  eexists. split; [vm_compute; reflexivity|].
  apply (proj1 (proj2 (@filter_leaves_source_unchanged literal_env
                         (raw_world true single_session_tree) 0
                         (subject_only "sub-01")))).
  vm_compute. reflexivity.
Defined.

(** C7. [filter()] with no predicate does not return on a façade built
    without validation: the multi-session tree is constructed with
    [validate=False] (with validation its construction raises
    [KeyError: 3]), its lists hold the two records and the two sessions,
    and [filter()] raises [AttributeError] for [subjects], the attribute
    that only validation assigns; the same on the single-session tree. *)
Theorem filter_without_predicates_raises_unvalidated :
  let w := raw_world false multi_session_tree in
  let w1 := raw_world false single_session_tree in
  (length <$> (fst <$> facade_lists (heap w) 0)) = Some 2%nat
  /\ (length <$> (snd <$> facade_lists (heap w) 0)) = Some 2%nat
  /\ (@dataset_filter literal_env 0 Filter.none w).2
     = Raise (AttributeError "subjects")
  /\ (@RawDataset literal_env "/data" true None false
        (empty_world (disk_at "/data" multi_session_tree))).2
     = Raise (KeyError 3)
  /\ (length <$> (fst <$> facade_lists (heap w1) 0)) = Some 2%nat
  /\ (@dataset_filter literal_env 0 Filter.none w1).2
     = Raise (AttributeError "subjects").
Proof. vm_compute. by repeat split. Qed.

(* ===================================================================== *)
(** * Splitting and joining strings *)
(* ===================================================================== *)

Lemma str_split_cons (sep : ascii) (s : string) :
  str_split sep (String sep s) = EmptyString :: str_split sep s.
Proof. simpl. by rewrite Ascii.eqb_refl. Qed.

Lemma str_split_nonempty (sep : ascii) (s : string) : str_split sep s ≠ [].
Proof.
  destruct s as [|c s]; simpl; [done|].
  destruct (Ascii.eqb c sep); [done|]. by destruct (str_split sep s).
Qed.

Lemma str_split_app (sep : ascii) (a b : string) :
  str_split sep (a +:+ String sep b) = str_split sep a ++ str_split sep b.
Proof.
  induction a as [|c a IH]; simpl.
  - by rewrite Ascii.eqb_refl.
  - destruct (Ascii.eqb c sep); [by rewrite IH|].
    rewrite IH. by destruct (str_split sep a) eqn:E;
      [destruct (str_split_nonempty _ _ E)|].
Qed.

Lemma str_split_none (sep : ascii) (s : string) :
  str_contains sep s = false -> str_split sep s = [s].
Proof.
  induction s as [|c s IH]; simpl; intros Hc; [done|].
  apply orb_false_iff in Hc as [Hc1 Hc2].
  by rewrite Hc1, (IH Hc2).
Qed.

Lemma strip_app (l l' : list string) :
  strip_empty_str_in_list (l ++ l')
  = strip_empty_str_in_list l ++ strip_empty_str_in_list l'.
Proof. unfold strip_empty_str_in_list. apply List.filter_app. Qed.

Lemma str_app_assoc (a b c : string) : (a +:+ b) +:+ c = a +:+ (b +:+ c).
Proof.
  induction a as [|x a IH]; [done|].
  change (String x ((a +:+ b) +:+ c) = String x (a +:+ b +:+ c)). by f_equal.
Qed.

Lemma str_app_nil_r (a : string) : a +:+ "" = a.
Proof.
  induction a as [|x a IH]; [done|].
  change (String x (a +:+ "") = String x a). by f_equal.
Qed.

(* ===================================================================== *)
(** * FileItem: extensions *)
(* ===================================================================== *)

(** X1. [has_ext] compares whole extensions, whatever dots surround the
    query: a record has its own extension, a leading or a trailing dot in
    the query changes nothing, and the last part alone of a two-part
    extension is not the extension. *)
Theorem has_ext_compares_whole_extensions (f : FileItem.t) (e : string) :
  FileItem.has_ext f (FileItem.fileext f) = true
  /\ FileItem.has_ext f ("." +:+ e) = FileItem.has_ext f e
  /\ FileItem.has_ext f (e +:+ ".") = FileItem.has_ext f e
  /\ (forall a b : string,
        FileItem.fileext f = a +:+ "." +:+ b ->
        a ≠ EmptyString -> str_contains "."%char a = false ->
        str_contains "."%char b = false ->
        FileItem.has_ext f b = false).
Proof.
  unfold FileItem.has_ext. split; [|split; [|split]].
  - by apply bool_decide_eq_true_2.
  - change ("." +:+ e) with (String "." e). by rewrite str_split_cons.
  - rewrite str_split_app, strip_app. simpl. by rewrite app_nil_r.
  - intros a b -> Ha Hca Hcb. apply bool_decide_eq_false_2.
    change (a +:+ "." +:+ b) with (a +:+ String "." b).
    rewrite str_split_app, strip_app, (str_split_none _ a Hca),
      (str_split_none _ b Hcb).
    destruct a as [|c a]; [done|]. simpl. destruct b; simpl; [done|].
    intros E. injection E as E1 E2. done.
Qed.

Lemma has_ext_compares_whole_extensions_witness :
  let f := FileItem.mk "sub-01" None (Some "anat") (Some "data")
             "/data/sub-01/anat" "sub-01_T1w" "nii.gz" in
  FileItem.has_ext f "nii.gz" = true
  /\ FileItem.has_ext f ".nii.gz" = FileItem.has_ext f "nii.gz"
  /\ FileItem.has_ext f "nii.gz." = FileItem.has_ext f "nii.gz"
  /\ FileItem.has_ext f "gz" = false.
Proof.
  intros f.
  destruct (has_ext_compares_whole_extensions f "nii.gz") as (H1 & H2 & H3 & H4).
  split; [exact H1|split; [exact H2|split; [exact H3|]]].
  apply (H4 "nii" "gz"); [reflexivity|discriminate|reflexivity|reflexivity].
Defined.

(* ===================================================================== *)
(** * Filtering a façade: what the result holds *)
(* ===================================================================== *)

Section ExtraFilter.
Context `{Env}.

Lemma dataset_filter_ok_inv (a : Filter.t) self w fv sv self' :
  facade_lists (heap w) self = Some (fv, sv) ->
  (dataset_filter self a w).2 = Ok self' ->
  exists fv' sv',
    files_filtered a fv = Ok fv' /\ sessions_filtered a sv = Ok sv'
    /\ facade_lists (heap (dataset_filter self a w).1) self' = Some (fv', sv')
    /\ facade_validated (heap (dataset_filter self a w).1) self'.
Proof.
  intros Hfac Hok.
  destruct (dataset_filter_spec a self w fv sv Hfac) as (d & Hd & Hspec).
  destruct (attrs_set d).
  - destruct (files_filtered a fv) as [fv'|e]; [|congruence].
    destruct (sessions_filtered a sv) as [sv'|e]; [|congruence].
    destruct Hspec as (self'' & Hr & Hl & Hv).
    rewrite Hok in Hr. injection Hr as <-. by exists fv', sv'.
  - destruct Hspec as [e He]. congruence.
Qed.

Lemma sessions_filtered_keys (a : Filter.t) sv sv' :
  sessions_filtered a sv = Ok sv' ->
  map session_key sv' = map session_key (List.filter (session_keep a) sv).
Proof.
  unfold sessions_filtered. cbv zeta. rewrite sessions_narrowed.
  intros Hm. apply map_R_Ok in Hm.
  induction Hm as [|s s' l l' Hs _ IH]; [done|].
  simpl. rewrite IH. f_equal.
  destruct (session_filtered_Ok _ _ _ Hs) as (E1 & E2 & _).
  unfold session_key. by rewrite E1, E2.
Qed.

Lemma session_keep_none (a : Filter.t) s :
  strs_truthy (Filter.subject a) = false ->
  strs_truthy (Filter.session a) = false ->
  session_keep a s = true.
Proof. unfold session_keep. by intros -> ->. Qed.
End ExtraFilter.

(** X2. The sessions of a filtered dataset are the sessions of the source
    whose subject and session pass, in the same order and whatever is left
    of their files: a call that gives neither [subject] nor [session]
    returns as many sessions as the source has, emptied ones included. *)
Theorem filter_keeps_emptied_sessions `{Env} (a : Filter.t) (self self' : loc)
    (w : world) fv sv :
  facade_lists (heap w) self = Some (fv, sv) ->
  (dataset_filter self a w).2 = Ok self' ->
  exists fv' sv',
    facade_lists (heap (dataset_filter self a w).1) self' = Some (fv', sv')
    /\ map session_key sv' = map session_key (List.filter (session_keep a) sv)
    /\ (strs_truthy (Filter.subject a) = false ->
        strs_truthy (Filter.session a) = false ->
        map session_key sv' = map session_key sv).
Proof.
  intros Hfac Hok.
  destruct (dataset_filter_ok_inv a self w fv sv self' Hfac Hok)
    as (fv' & sv' & _ & Hs & Hl & _).
  exists fv', sv'. split; [done|].
  pose proof (sessions_filtered_keys a sv sv' Hs) as Hk. split; [done|].
  intros H1 H2. rewrite Hk. f_equal. apply filter_all.
  apply Forall_forall. intros s _. by apply session_keep_none.
Qed.

Lemma filter_keeps_emptied_sessions_witness :
  exists self',
    (@dataset_filter literal_env 0 (ext_only "json")
       (raw_world true single_session_tree)).2 = Ok self'
    /\ exists fv' sv', facade_lists
         (heap (@dataset_filter literal_env 0 (ext_only "json")
                  (raw_world true single_session_tree)).1) self'
       = Some (fv', sv')
    /\ map session_key sv'
       = map session_key (List.filter (session_keep (ext_only "json")) raw_lists.2)
    /\ (strs_truthy (Filter.subject (ext_only "json")) = false ->
        strs_truthy (Filter.session (ext_only "json")) = false ->
        map session_key sv' = map session_key raw_lists.2).
Proof.
  eexists. split; [vm_compute; reflexivity|].
  apply (@filter_keeps_emptied_sessions literal_env (ext_only "json") 0 _
           (raw_world true single_session_tree) raw_lists.1 raw_lists.2);
    vm_compute; reflexivity.
Defined.

Section ExtraIdempotent.
Context `{Env}.

Lemma result_bind_ok {A B} (a : A) (k : A -> result B) : (Ok a ≫= k) = k a.
Proof. done. Qed.

Ltac split_keep :=
  repeat match goal with
         | H : _ && _ = true |- _ => apply andb_prop in H as [? ?]
         end.

Lemma guard_holds {A} c (p : A -> result bool) x :
  guard c p x = true -> c = true -> p x = Ok true.
Proof.
  intros Hg ->. unfold guard, holds in Hg.
  destruct (p x) as [b|e]; [by subst|done].
Qed.

Lemma narrow_R_all {A} c (p : A -> result bool) (l : list A) :
  Forall (fun x => guard c p x = true) l -> narrow_R c p l = Ok l.
Proof.
  intros Hl. destruct c; [|done]. simpl. apply filter_R_all.
  eapply Forall_impl; [exact Hl|]. intros x Hx. by apply (guard_holds true).
Qed.

Lemma collection_narrow_all c p col :
  Forall (fun f => guard c p f = true) (collection_files col) ->
  collection_narrow c p col = Ok col.
Proof.
  intros Hl. destruct c; [|done]. simpl. apply collection_select_all.
  eapply Forall_impl; [exact Hl|]. intros x Hx. by apply (guard_holds true).
Qed.

Lemma files_filtered_fixed (a : Filter.t) fv :
  Forall (fun f => flat_keep a f = true) fv -> files_filtered a fv = Ok fv.
Proof.
  intros Hl. unfold files_filtered.
  assert (forall c p, (forall f, flat_keep a f = true -> guard c p f = true) ->
                      narrow_R c p fv = Ok fv) as Hn.
  { intros c p Hcp. apply narrow_R_all. eapply Forall_impl; [exact Hl|]. done. }
  unfold flat_keep, nested_keep in Hn.
  do 6 (rewrite Hn, result_bind_ok; [|by intros f Hf; split_keep]).
  rewrite Hn; [done|]. by intros f Hf; split_keep.
Qed.

Lemma collection_filtered_fixed (a : Filter.t) col :
  collection_wf col ->
  Forall (fun f => nested_keep a f = true) (collection_files col) ->
  collection_filtered a col = Ok col.
Proof.
  intros Hwf Hl. unfold collection_filtered.
  assert (forall c p, (forall f, nested_keep a f = true -> guard c p f = true) ->
                      collection_narrow c p col = Ok col) as Hn.
  { intros c p Hcp. apply collection_narrow_all.
    eapply Forall_impl; [exact Hl|]. done. }
  unfold nested_keep in Hn.
  do 5 (rewrite Hn, result_bind_ok; [|by intros f Hf; split_keep]).
  by rewrite collection_prune_id.
Qed.

Lemma sessions_filtered_fixed (a : Filter.t) sv :
  Forall (fun s => session_keep a s = true) sv ->
  Forall no_empty_bucket sv ->
  Forall (fun f => nested_keep a f = true) (nested_files sv) ->
  sessions_filtered a sv = Ok sv.
Proof.
  intros Hk Hne Hn. unfold sessions_filtered. cbv zeta.
  rewrite sessions_narrowed, (filter_all _ _ Hk).
  apply map_R_id. apply Forall_forall. intros s Hs.
  unfold session_filtered. rewrite collection_filtered_fixed.
  - by destruct s.
  - rewrite Forall_forall in Hne. by apply Hne.
  - apply Forall_forall. intros f Hf. rewrite Forall_forall in Hn. apply Hn.
    apply elem_of_nested_files. eauto.
Qed.

Lemma filter_idem {A} (p : A -> bool) (l : list A) :
  Forall (fun x => p x = true) (List.filter p l).
Proof.
  apply Forall_forall. intros x Hx. apply list_elem_of_In in Hx.
  by apply List.filter_In in Hx as [_ Hx].
Qed.

Lemma sessions_filtered_kept (a : Filter.t) sv sv' :
  sessions_filtered a sv = Ok sv' ->
  Forall (fun s => session_keep a s = true) sv'
  /\ Forall no_empty_bucket sv'
  /\ Forall (fun f => nested_keep a f = true) (nested_files sv').
Proof.
  unfold sessions_filtered. cbv zeta. rewrite sessions_narrowed.
  intros Hm. apply map_R_Ok in Hm.
  pose proof (filter_idem (session_keep a) sv) as Hk.
  induction Hm as [|s s' l l' Hs _ IH]; [by repeat constructor|].
  apply Forall_cons in Hk as [Hks Hk].
  destruct (IH Hk) as (IH1 & IH2 & IH3).
  destruct (session_filtered_Ok _ _ _ Hs) as (E1 & E2 & E3 & E4).
  split; [|split].
  - constructor; [|done]. unfold session_keep in *. by rewrite E1, E2.
  - by constructor.
  - unfold nested_files. simpl. apply Forall_app. split; [|done].
    rewrite E3. apply filter_idem.
Qed.
End ExtraIdempotent.

(** X3. Filtering is idempotent: applying to the result of [filter] the
    filter that produced it succeeds, and the dataset it returns holds the
    same file list and the same sessions. *)
Theorem filter_is_idempotent `{Env} (a : Filter.t) (self self1 : loc)
    (w : world) fv sv :
  facade_lists (heap w) self = Some (fv, sv) ->
  (dataset_filter self a w).2 = Ok self1 ->
  exists self2 fv1 sv1,
    facade_lists (heap (dataset_filter self a w).1) self1 = Some (fv1, sv1)
    /\ (dataset_filter self1 a (dataset_filter self a w).1).2 = Ok self2
    /\ facade_lists
         (heap (dataset_filter self1 a (dataset_filter self a w).1).1) self2
       = Some (fv1, sv1).
Proof.
  intros Hfac Hok.
  destruct (dataset_filter_ok_inv a self w fv sv self1 Hfac Hok)
    as (fv1 & sv1 & Hf & Hs & Hl & d1 & Hd1 & Hattrs).
  destruct (dataset_filter_spec a self1 _ fv1 sv1 Hl) as (d & Hd & Hspec).
  rewrite Hd1 in Hd. injection Hd as <-. rewrite Hattrs in Hspec.
  rewrite files_filtered_fixed in Hspec.
  2: { rewrite (files_filtered_Ok _ _ _ Hf). apply filter_idem. }
  destruct (sessions_filtered_kept a sv sv1 Hs) as (H1 & H2 & H3).
  rewrite (sessions_filtered_fixed a sv1 H1 H2 H3) in Hspec.
  destruct Hspec as (self2 & Hr & Hl2 & _). by exists self2, fv1, sv1.
Qed.

Lemma filter_is_idempotent_witness :
  exists self2 fv1 sv1,
    facade_lists
      (heap (@dataset_filter literal_env 0 (subject_only "sub-01")
               (raw_world true single_session_tree)).1) 18
    = Some (fv1, sv1)
    /\ (@dataset_filter literal_env 18 (subject_only "sub-01")
          (@dataset_filter literal_env 0 (subject_only "sub-01")
             (raw_world true single_session_tree)).1).2 = Ok self2
    /\ facade_lists
         (heap (@dataset_filter literal_env 18 (subject_only "sub-01")
                  (@dataset_filter literal_env 0 (subject_only "sub-01")
                     (raw_world true single_session_tree)).1).1) self2
       = Some (fv1, sv1).
Proof.
  apply (@filter_is_idempotent literal_env (subject_only "sub-01") 0 18
           (raw_world true single_session_tree) raw_lists.1 raw_lists.2);
    vm_compute; reflexivity.
Defined.

(* ===================================================================== *)
(** * The attributes a filtered dataset is given *)
(* ===================================================================== *)

Section ExtraInherits.
Context `{Env}.

Lemma dataset_init_inherits_full k path (i : Inherits.t) w :
  exists d w',
    dataset_init k path false (Some i) false w = (w', Ok (length (heap w)))
    /\ heap w' = heap w ++ [ODataset d]
    /\ Dataset.cls d = k /\ Dataset.path d = path
    /\ Dataset.subjects d = Value (Inherits.subjects i)
    /\ Dataset.sessions d = Value (Inherits.sessions i)
    /\ Dataset.modals d = Value (Inherits.modal i)
    /\ warnings w' = warnings w.
Proof.
  destruct (BaseParser_init_run k path false w)
    as (d0 & Hrun & Hcls & Hpath & _).
  set (w1 := World _ _ _ _) in Hrun.
  assert (heap w1 !! length (heap w) = Some (ODataset d0)) as Hself
    by apply lookup_new.
  set (d := with_lists
              (with_validated d0 (Inherits.sessions i) (Inherits.subjects i)
                 (Inherits.modal i))
              (Inherits.session_list i) (Inherits.file_list i)).
  assert (_inherits (length (heap w)) i w1
          = (with_heap w1 (<[length (heap w) := ODataset d]> (heap w1)), Ok tt))
    as Hinh.
  { unfold _inherits. by rewrite (bind_ok _ _ _ _ _ (load_dataset_ok _ _ _ Hself)). }
  exists d, (with_heap w1 (<[length (heap w) := ODataset d]> (heap w1))).
  split; [|split; [apply store_new|done]].
  unfold dataset_init. rewrite (bind_ok _ _ _ _ _ Hrun). simpl when.
  rewrite (bind_ok _ _ w1 w1 tt eq_refl).
  by rewrite (bind_ok _ _ _ _ _ Hinh).
Qed.
End ExtraInherits.

(** X4. [filter] hands the attributes [subjects], [sessions] and [modals]
    of its source over as they are, whatever it was asked to keep: the
    dataset returned by [filter(subject=...)] still names every subject of
    the source. Its class and its path are those of the source. *)
Theorem filter_hands_over_the_names `{Env} (a : Filter.t) (self self' : loc)
    (w : world) (d : Dataset.t) :
  heap w !! self = Some (ODataset d) ->
  (dataset_filter self a w).2 = Ok self' ->
  exists d',
    heap (dataset_filter self a w).1 !! self' = Some (ODataset d')
    /\ Dataset.cls d' = Dataset.cls d /\ Dataset.path d' = Dataset.path d
    /\ Dataset.subjects d' = Dataset.subjects d
    /\ Dataset.sessions d' = Dataset.sessions d
    /\ Dataset.modals d' = Dataset.modals d.
Proof.
  intros Hself.
  remember (dataset_filter self a w) as R eqn:HR.
  unfold dataset_filter in HR.
  rewrite (bind_ok _ _ _ _ _ (load_dataset_ok _ _ _ Hself)) in HR.
  destruct (Dataset.file_list d) as [|fl];
    [rewrite getattr_unset_bind in HR; by subst R|].
  destruct (Dataset.session_list d) as [|sl];
    [rewrite getattr_bind, getattr_unset_bind in HR; by subst R|].
  rewrite !getattr_bind in HR.
  destruct (_filter fl sl a w) as [w1 [[fl' sl']|e]] eqn:E.
  2: { rewrite (bind_raise _ _ _ _ _ E) in HR. by subst R. }
  rewrite (bind_ok _ _ _ _ _ E) in HR. cbv beta iota in HR.
  destruct (Dataset.subjects d) as [|subjects];
    [rewrite getattr_unset_bind in HR; by subst R|].
  destruct (Dataset.sessions d) as [|sessions];
    [rewrite getattr_bind, getattr_unset_bind in HR; by subst R|].
  destruct (Dataset.modals d) as [|modals];
    [rewrite !getattr_bind, getattr_unset_bind in HR; by subst R|].
  rewrite !getattr_bind in HR.
  destruct (dataset_init_inherits_full (Dataset.cls d) (Dataset.path d)
              (Inherits.mk subjects sessions modals fl' sl') w1)
    as (d' & w' & Hrun & Hheap & Hcls & Hpath & Hsu & Hse & Hmo & _).
  rewrite Hrun in HR. subst R. simpl. intros [= <-].
  exists d'. rewrite Hheap. split; [apply lookup_new|done].
Qed.

Lemma filter_hands_over_the_names_witness :
  exists d',
    heap (@dataset_filter literal_env 0 (subject_only "sub-01")
            (raw_world true single_session_tree)).1 !! 18%nat
    = Some (ODataset d')
    /\ Dataset.cls d' = Dataset.Raw /\ Dataset.path d' = "/data"
    /\ Dataset.subjects d' = Value None
    /\ Dataset.sessions d' = Value (Some ["sub-01"; "sub-02"])
    /\ Dataset.modals d' = Value (Some ["anat"]).
Proof.
  destruct (@filter_hands_over_the_names literal_env (subject_only "sub-01") 0 18
              (raw_world true single_session_tree)
              (default (Dataset.mk Dataset.Raw "" false "" [] 0 [] [] 0
                          Unset Unset Unset Unset Unset)
                 (match heap (raw_world true single_session_tree) !! 0%nat with
                  | Some (ODataset d) => Some d
                  | _ => None
                  end)))
    as (d' & H1 & H2 & H3 & H4 & H5 & H6);
    [vm_compute; reflexivity|vm_compute; reflexivity|].
  exists d'. split; [exact H1|].
  split; [exact H2|]. split; [exact H3|].
  split; [exact H4|]. split; [exact H5|exact H6].
Defined.

(* ===================================================================== *)
(** * Sessions of a façade: lengths and keys *)
(* ===================================================================== *)

Lemma length_total_files (s : SessionItem.t) :
  length_total (SessionItem_length s) = length (session_files s).
Proof.
  unfold SessionItem_length, session_files, collection_files.
  destruct (SessionItem.files s) as [l|d]; simpl; [done|].
  unfold dict_values. induction d as [|[m fs] d IH]; simpl; [done|].
  rewrite length_app. by rewrite <- IH.
Qed.

Lemma length_positive_wf (s : SessionItem.t) :
  no_empty_bucket s -> length_positive (SessionItem_length s).
Proof.
  unfold no_empty_bucket, collection_wf, SessionItem_length, length_positive.
  destruct (SessionItem.files s) as [l|d]; [done|].
  intros Hd. apply Forall_map. eapply Forall_impl; [exact Hd|].
  intros [m fs] Hfs. simpl in *. destruct fs; [done|]. simpl. lia.
Qed.

Lemma nested_files_length (sv : list SessionItem.t) :
  length (nested_files sv)
  = list_sum (map (fun s => length_total (SessionItem_length s)) sv).
Proof.
  unfold nested_files. induction sv as [|s sv IH]; simpl; [done|].
  by rewrite length_app, IH, length_total_files.
Qed.

(** X5. On every dataset, built from a path or returned by [filter], the
    lengths the sessions report add up to the length of the file list, no
    session reports a modality with zero files, and no two sessions have
    the same subject and session. *)
Theorem session_lengths_add_up `{Env} (w : world) (self : loc) :
  built false w self ->
  exists fv sv,
    facade_lists (heap w) self = Some (fv, sv)
    /\ list_sum (map (fun s => length_total (SessionItem_length s)) sv)
       = length fv
    /\ Forall (fun s => length_positive (SessionItem_length s)) sv
    /\ NoDup (map (fun s => (SessionItem.subject s, SessionItem.session s)) sv).
Proof.
  intros Hb. destruct (built_facade_ok _ _ _ Hb) as [(fv & sv & Hl & Hwf & Hu) _].
  exists fv, sv. destruct Hwf as (Hperm & _ & Hne).
  split; [done|]. split; [|split].
  - by rewrite <- nested_files_length, <- Hperm.
  - eapply Forall_impl; [exact Hne|]. apply length_positive_wf.
  - exact Hu.
Qed.

Lemma session_lengths_add_up_witness :
  exists fv sv,
    facade_lists
      (heap (@dataset_filter literal_env 0 (subject_only "sub-01")
               (raw_world true single_session_tree)).1) 18 = Some (fv, sv)
    /\ list_sum (map (fun s => length_total (SessionItem_length s)) sv)
       = length fv
    /\ Forall (fun s => length_positive (SessionItem_length s)) sv
    /\ NoDup (map (fun s => (SessionItem.subject s, SessionItem.session s)) sv).
Proof.
  apply (@session_lengths_add_up literal_env). apply filtered_world_built.
Defined.

(* ===================================================================== *)
(** * Expressions that do not compile *)
(* ===================================================================== *)

Section ExtraRegex.
Context `{Env}.

Lemma files_filtered_regex_only (r : string) fv :
  r ≠ EmptyString ->
  files_filtered (regex_only r) fv = filter_R (by_regex r) fv.
Proof.
  intros Hr. unfold files_filtered, regex_only. simpl.
  rewrite (str_truthy_true _ Hr). simpl.
  by destruct (filter_R (by_regex r) fv).
Qed.
End ExtraRegex.

(** X6. An expression that does not compile is only noticed when a record
    is tested against it: on a validated dataset, [filter(regex=r)] with
    such an [r] raises the error of [re.compile] as soon as the file list
    holds a record, and returns a dataset with the same (empty) file list
    and the same sessions when it holds none. *)
Theorem invalid_regex_raises_when_a_record_is_tested `{Env} (r : string)
    (w : world) (self : loc) fv sv :
  built true w self ->
  facade_lists (heap w) self = Some (fv, sv) ->
  r ≠ EmptyString -> re_compile r = None ->
  (fv ≠ [] -> (dataset_filter self (regex_only r) w).2 = Raise (ReError r))
  /\ (fv = [] ->
      exists self',
        (dataset_filter self (regex_only r) w).2 = Ok self'
        /\ facade_lists (heap (dataset_filter self (regex_only r) w).1) self'
           = Some ([], sv)).
Proof.
  intros Hb Hl Hr Hc.
  destruct (built_facade_ok _ _ _ Hb) as [(fv0 & sv0 & Hl0 & Hwf & _) Hv].
  rewrite Hl in Hl0. injection Hl0 as <- <-.
  destruct (Hv eq_refl) as (d & Hd & Hattrs).
  destruct (dataset_filter_spec (regex_only r) self w fv sv Hl) as (d' & Hd' & Hspec).
  rewrite Hd in Hd'. injection Hd' as <-. rewrite Hattrs in Hspec.
  rewrite (files_filtered_regex_only r fv Hr) in Hspec.
  split.
  - intros Hne. destruct fv as [|f fv]; [done|].
    simpl in Hspec. unfold by_regex, FileItem.is_match in Hspec.
    by rewrite Hc in Hspec.
  - intros ->. simpl in Hspec. destruct Hwf as (Hperm & _ & Hne).
    apply Permutation_nil in Hperm.
    rewrite (sessions_filtered_fixed (regex_only r) sv) in Hspec.
    + destruct Hspec as (self' & Hok & Hl' & _). by exists self'.
    + apply Forall_forall. by intros s _.
    + done.
    + by rewrite Hperm.
Qed.

Lemma invalid_regex_raises_when_a_record_is_tested_witness :
  (raw_lists.1 ≠ [] ->
   (@dataset_filter literal_env 0 (regex_only "[a")
      (raw_world true single_session_tree)).2 = Raise (ReError "[a"))
  /\ (raw_lists.1 = [] ->
      exists self',
        (@dataset_filter literal_env 0 (regex_only "[a")
           (raw_world true single_session_tree)).2 = Ok self'
        /\ facade_lists
             (heap (@dataset_filter literal_env 0 (regex_only "[a")
                      (raw_world true single_session_tree)).1) self'
           = Some ([], raw_lists.2)).
Proof.
  apply (@invalid_regex_raises_when_a_record_is_tested literal_env "[a"
           (raw_world true single_session_tree) 0 raw_lists.1 raw_lists.2).
  - apply raw_world_built.
  - vm_compute. reflexivity.
  - discriminate.
  - reflexivity.
Defined.

(* ===================================================================== *)
(** * What the validator does: it warns, and nothing else *)
(* ===================================================================== *)

Lemma add_warnings_nil w : add_warnings w [] = w.
Proof. destruct w. unfold add_warnings. simpl. by rewrite app_nil_r. Qed.

Lemma add_warnings_app w ws ws' :
  add_warnings (add_warnings w ws) ws' = add_warnings w (ws ++ ws').
Proof. unfold add_warnings. simpl. by rewrite app_assoc. Qed.

Lemma warn_run msg w : warn msg w = (add_warnings w [msg], Ok tt).
Proof. done. Qed.

Lemma for_each_warn {A} (f : A -> string) (xs : list A) w :
  for_each xs (fun x => warn (f x)) w = (add_warnings w (map f xs), Ok tt).
Proof.
  revert w. induction xs as [|x xs IH]; intros w; simpl.
  - by rewrite add_warnings_nil.
  - rewrite (bind_ok _ _ _ _ _ (warn_run (f x) w)), IH.
    by rewrite add_warnings_app.
Qed.

Lemma for_each_file_warnings (level : dict string (list string)) w :
  for_each (dict_items level) (fun '(relpath, sess) =>
    for_each sess (fun filename => warn (file_warning relpath filename))) w
  = (add_warnings w (file_warnings level), Ok tt).
Proof.
  unfold dict_items, file_warnings. revert w.
  induction level as [|[relpath sess] level IH]; intros w; simpl.
  - by rewrite add_warnings_nil.
  - rewrite (bind_ok _ _ _ _ _ (for_each_warn (file_warning relpath) sess w)), IH.
    by rewrite add_warnings_app.
Qed.

Lemma exclude_loop_run tag flags iter names w :
  exists ws names',
    exclude_loop tag flags iter names w = (add_warnings w ws, Ok names')
    /\ Forall is_excluded_msg ws.
Proof.
  revert names w. induction iter as [|[flag name] iter IH]; intros names w; simpl.
  - exists [], names. by rewrite add_warnings_nil.
  - destruct flag.
    + rewrite (bind_ok _ _ _ _ _ (warn_run _ w)).
      destruct (IH (keep_flagged flags names) (add_warnings w [excluded_msg name tag]))
        as (ws & names' & -> & Hws).
      exists (excluded_msg name tag :: ws), names'.
      rewrite add_warnings_app. split; [done|].
      constructor; [by exists name, tag|done].
    + rewrite (bind_ok _ _ w w tt eq_refl). apply IH.
Qed.

Lemma forallb_all {A} (p : A -> bool) (l : list A) :
  all (map p l) = forallb p l.
Proof. unfold all. induction l as [|x l IH]; simpl; [done|]. by rewrite IH. Qed.

Lemma validate_names_run tag pattern names w :
  exists ws names',
    validate_names tag pattern names w = (add_warnings w ws, Ok names')
    /\ Forall is_excluded_msg ws
    /\ (forallb pattern names = true -> ws = [] /\ names' = names).
Proof.
  unfold validate_names. rewrite forallb_all.
  destruct (forallb pattern names); simpl.
  - exists [], names. by rewrite add_warnings_nil.
  - destruct (exclude_loop_run tag (map pattern names)
                (zip (map pattern names) names) names w) as (ws & names' & -> & Hws).
    by exists ws, names'.
Qed.

Lemma lift_inv {A} (r : result A) w w' a :
  lift r w = (w', Ok a) -> w' = w /\ r = Ok a.
Proof. unfold lift. by intros [= <- ->]. Qed.

Lemma by_depth_get_inv k (d : DataItem) v :
  by_depth_get k d = Ok v -> dict_get k d = Some v.
Proof. unfold by_depth_get. destruct (dict_get k d); by intros [= <-]. Qed.

Lemma sorted_forallb {A} (lt : A -> A -> bool) (p : A -> bool) (l : list A) :
  forallb p (sorted lt l) = forallb p l.
Proof.
  apply eq_true_iff_eq. rewrite !forallb_forall.
  split; intros Hp x Hx; apply Hp; apply list_elem_of_In;
    apply list_elem_of_In in Hx.
  - by rewrite (sorted_Permutation lt l).
  - by rewrite (sorted_Permutation lt l) in Hx.
Qed.

Lemma filter_negb_empty {A} (p : A -> bool) (l : list A) :
  negb (length (List.filter (fun x => negb (p x)) l) =? 0)%nat
  = negb (forallb p l).
Proof.
  f_equal. induction l as [|x l IH]; simpl; [done|].
  destruct (p x); simpl; [done|done].
Qed.

(** The check of the file names: silent when every name complies, one
    warning per file otherwise. *)
Lemma file_check_run (level : dict string (list string)) w :
  (let filenames := sorted String.ltb (concat (dict_values level)) in
   let is_not_bidsfiles :=
     List.filter (fun f => negb (file_pattern_match f)) filenames in
   if negb (length is_not_bidsfiles =? 0)%nat
   then for_each (dict_items level) (fun '(relpath, sess) =>
          for_each sess (fun filename => warn (file_warning relpath filename)))
   else mret tt) w
  = (add_warnings w
       (if forallb file_pattern_match (concat (dict_values level))
        then [] else file_warnings level), Ok tt).
Proof.
  cbv zeta. rewrite filter_negb_empty, sorted_forallb.
  destruct (forallb _ _); simpl.
  - by rewrite add_warnings_nil.
  - apply for_each_file_warnings.
Qed.

(** What a run of [_validator] that returns has looked up, returned and
    issued. *)
Lemma _validator_ok_inv dirs files md ref modal dir_only w w'
    subjects sessions modals :
  _validator dirs files md ref modal dir_only w
  = (w', Ok (subjects, sessions, modals)) ->
  md ∈ MaxDepthRef.list ref
  /\ exists top root pre post,
       dict_get 0 dirs = Some top /\ dict_get "" top = Some root
       /\ w' = add_warnings w (pre ++ post)
       /\ Forall is_excluded_msg pre
       /\ (forallb subj_pattern_match root = true ->
           subjects = sorted String.ltb root
           /\ (md ≠ MaxDepthRef.multi_session ref -> pre = []))
       /\ (md ≠ MaxDepthRef.multi_session ref -> sessions = None)
       /\ (if dir_only then post = []
           else exists level,
                  dict_get md files = Some level
                  /\ post = if forallb file_pattern_match
                                 (concat (dict_values level))
                            then [] else file_warnings level)
       /\ (if modal
           then exists level,
                  dict_get (md - 1) dirs = Some level
                  /\ modals = Some (sorted_set (concat (dict_values level)))
           else modals = None).
Proof.
  unfold _validator. destruct (bool_decide (md ∈ MaxDepthRef.list ref)) eqn:Hmd;
    simpl; [|done].
  apply bool_decide_eq_true_1 in Hmd. intros Hrun. split; [done|].
  apply bind_inv_ok in Hrun as (w1 & top & Htop & Hrun).
  apply lift_inv in Htop as [-> Htop]. apply by_depth_get_inv in Htop.
  apply bind_inv_ok in Hrun as (w1 & root & Hroot & Hrun).
  apply lift_inv in Hroot as [-> Hroot].
  assert (dict_get "" top = Some root) as Hroot'.
  { destruct (dict_get "" top); [by injection Hroot as ->|done]. }
  apply bind_inv_ok in Hrun as (w1 & subj & Hsubj & Hrun).
  destruct (validate_names_run "sub" subj_pattern_match (sorted String.ltb root) w)
    as (ws1 & names1 & Hrun1 & Hex1 & Hall1).
  rewrite Hrun1 in Hsubj. injection Hsubj as <- <-.
  apply bind_inv_ok in Hrun as (w2 & sess & Hsess & Hrun).
  assert (exists ws2, w2 = add_warnings w (ws1 ++ ws2)
                      /\ Forall is_excluded_msg ws2
                      /\ (md ≠ MaxDepthRef.multi_session ref ->
                          ws2 = [] /\ sess = None)) as (ws2 & -> & Hex2 & Hno2).
  { destruct (bool_decide (md = MaxDepthRef.multi_session ref)) eqn:Hm.
    - apply bool_decide_eq_true_1 in Hm.
      apply bind_inv_ok in Hsess as (w3 & level & Hlevel & Hsess).
      apply lift_inv in Hlevel as [-> Hlevel].
      apply bind_inv_ok in Hsess as (w3 & s & Hs & Hret).
      destruct (validate_names_run "ses" sess_pattern_match
                  (sorted_set (concat (dict_values level)))
                  (add_warnings w ws1)) as (ws2 & names2 & Hrun2 & Hex2 & _).
      rewrite Hrun2 in Hs. injection Hs as <- <-.
      injection Hret as <- <-. exists ws2.
      by rewrite add_warnings_app.
    - apply bool_decide_eq_false_1 in Hm. injection Hsess as <- <-.
      exists []. by rewrite app_nil_r. }
  apply bind_inv_ok in Hrun as (w3 & [] & Hfiles & Hrun).
  assert (exists post, w3 = add_warnings w ((ws1 ++ ws2) ++ post)
            /\ if dir_only then post = []
               else exists level,
                      dict_get md files = Some level
                      /\ post = if forallb file_pattern_match
                                     (concat (dict_values level))
                                then [] else file_warnings level)
    as (post & -> & Hpost).
  { destruct dir_only; simpl in Hfiles.
    - injection Hfiles as <-. exists []. by rewrite app_nil_r.
    - apply bind_inv_ok in Hfiles as (w4 & level & Hlevel & Hfiles).
      apply lift_inv in Hlevel as [-> Hlevel]. apply by_depth_get_inv in Hlevel.
      rewrite file_check_run in Hfiles. injection Hfiles as <-.
      eexists. rewrite add_warnings_app. split; [done|]. by exists level. }
  apply bind_inv_ok in Hrun as (w4 & mo & Hmo & Hret).
  injection Hret as <- <- <- <-.
  exists top, root, (ws1 ++ ws2), post.
  split; [done|]. split; [done|].
  assert (w4 = add_warnings w ((ws1 ++ ws2) ++ post)
          /\ if modal
             then exists level,
                    dict_get (md - 1) dirs = Some level
                    /\ mo = Some (sorted_set (concat (dict_values level)))
             else mo = None) as [-> Hmodal].
  { destruct modal.
    - apply bind_inv_ok in Hmo as (w5 & level & Hlevel & Hmo).
      apply lift_inv in Hlevel as [-> Hlevel]. apply by_depth_get_inv in Hlevel.
      injection Hmo as <- <-. split; [done|]. by exists level.
    - by injection Hmo as <- <-. }
  split; [done|]. split; [by apply Forall_app|].
  split; [|split; [|split]]; try done.
  - rewrite sorted_forallb in Hall1. intros Hall. destruct (Hall1 Hall) as [-> ->].
    split; [done|]. intros Hm. by destruct (Hno2 Hm) as [-> _].
  - intros Hm. by destruct (Hno2 Hm) as [_ ->].
Qed.

(* ===================================================================== *)
(** * Building a dataset from a path, step by step *)
(* ===================================================================== *)

Lemma construct_path_ext (d d' : Dataset.t) ref st item :
  Dataset.max_depth d' = Dataset.max_depth d ->
  Dataset._abs_path d' = Dataset._abs_path d ->
  Dataset._abs_path_list d' = Dataset._abs_path_list d ->
  construct_path d' ref st item = construct_path d ref st item.
Proof. intros E1 E2 E3. unfold construct_path. by rewrite E1, E2, E3. Qed.

Lemma construct_paths_ext (d d' : Dataset.t) ref items st :
  Dataset.max_depth d' = Dataset.max_depth d ->
  Dataset._abs_path d' = Dataset._abs_path d ->
  Dataset._abs_path_list d' = Dataset._abs_path_list d ->
  construct_paths d' ref items st = construct_paths d ref items st.
Proof.
  intros E1 E2 E3. revert st. induction items as [|item items IH]; intros st;
    simpl; [done|].
  rewrite (construct_path_ext d d' ref st item E1 E2 E3).
  destruct (construct_path d ref st item); simpl; [apply IH|done].
Qed.

Lemma _constructor_ext (d d' : Dataset.t) files ref modal :
  Dataset.max_depth d' = Dataset.max_depth d ->
  Dataset._abs_path d' = Dataset._abs_path d ->
  Dataset._abs_path_list d' = Dataset._abs_path_list d ->
  _constructor d' files ref modal = _constructor d files ref modal.
Proof.
  intros E1 E2 E3. unfold _constructor. rewrite E1.
  destruct (by_depth_get _ _); simpl; [|done].
  by rewrite (construct_paths_ext d d' _ _ _ E1 E2 E3).
Qed.

Section ExtraNew.
Context `{Env}.

Lemma _validate_run_inv self d0 w w2 :
  heap w !! self = Some (ODataset d0) ->
  _validate self w = (w2, Ok tt) ->
  exists w1 first second third,
    _validator (Dataset._dirs_by_depth d0) (Dataset._files_by_depth d0)
      (Dataset.max_depth d0) (depth_ref (Dataset.cls d0))
      (has_modal (Dataset.cls d0)) false w
    = (w1, Ok (first, second, third))
    /\ w2 = with_heap w1
              (<[self := ODataset (with_validated d0 (Some first) second third)]>
                 (heap w1)).
Proof.
  intros Hself Hrun. unfold _validate in Hrun.
  rewrite (bind_ok _ _ _ _ _ (load_dataset_ok _ _ _ Hself)) in Hrun.
  apply bind_inv_ok in Hrun as (w1 & [[a b] c] & Hv & Hstore).
  rewrite store_run in Hstore. injection Hstore as <-. by exists w1, a, b, c.
Qed.

(** The steps of [RawDataset(path)] and [StepDataset(path)] when they
    return: the scan, the validation if it was asked for, the constructor,
    and the instance that holds its lists. *)
Lemma dataset_init_run_inv k path validate dir_only w w' self :
  dataset_init k path validate None dir_only w = (w', Ok self) ->
  exists d0 d1 ws sl fl sl' fl',
    self = length (heap w)
    /\ (Dataset._files_by_depth d0, Dataset._dirs_by_depth d0, Dataset.max_depth d0)
       = scan path dir_only (fs w)
    /\ Dataset.cls d0 = k
    /\ Dataset._abs_path d0 = os_path_abspath path
    /\ Dataset._abs_path_list d0 = str_to_list (os_path_abspath path)
    /\ Dataset.subjects d0 = Unset /\ Dataset.sessions d0 = Unset
    /\ Dataset.modals d0 = Unset
    /\ (if validate
        then exists first second third w1,
               (_validator (Dataset._dirs_by_depth d0) (Dataset._files_by_depth d0)
                  (Dataset.max_depth d0) (depth_ref k) (has_modal k) false
                  (World (heap w ++ [ODataset d0]) (warnings w) (fs w)
                     (io_log w ++ [os_path_abspath path])))
               = (w1, Ok (first, second, third))
               /\ warnings w1 = warnings w ++ ws
               /\ d1 = with_validated d0 (Some first) second third
        else ws = [] /\ d1 = d0)
    /\ _constructor d0 (Dataset._files_by_depth d0) (depth_ref k) (has_modal k)
       = Ok (sl, fl)
    /\ heap w' !! self = Some (ODataset (with_lists d1 sl' fl'))
    /\ read_files (heap w') fl' = Some fl
    /\ read_sessions (heap w') sl' = Some sl
    /\ warnings w' = warnings w ++ ws
    /\ fs w' = fs w.
Proof.
  intros Hrun. unfold dataset_init in Hrun.
  destruct (BaseParser_init_run k path dir_only w)
    as (d0 & Hbase & Hcls & _ & Habs & Hlist & Hsu & Hse & Hmo & Hscan).
  rewrite (bind_ok _ _ _ _ _ Hbase) in Hrun.
  set (w1 := World _ _ _ _) in *.
  assert (heap w1 !! length (heap w) = Some (ODataset d0)) as Hself
    by apply lookup_new.
  apply bind_inv_ok in Hrun as (w2 & [] & Hval & Hrun).
  apply bind_inv_ok in Hrun as (w3 & [] & Hcons & Hret).
  injection Hret as <- <-.
  assert (exists d1 ws,
            heap w2 !! length (heap w) = Some (ODataset d1)
            /\ warnings w2 = warnings w ++ ws /\ fs w2 = fs w
            /\ Dataset.cls d1 = k
            /\ Dataset.max_depth d1 = Dataset.max_depth d0
            /\ Dataset._abs_path d1 = Dataset._abs_path d0
            /\ Dataset._abs_path_list d1 = Dataset._abs_path_list d0
            /\ Dataset._files_by_depth d1 = Dataset._files_by_depth d0
            /\ if validate
               then exists first second third w1',
                      _validator (Dataset._dirs_by_depth d0)
                        (Dataset._files_by_depth d0) (Dataset.max_depth d0)
                        (depth_ref k) (has_modal k) false w1
                      = (w1', Ok (first, second, third))
                      /\ warnings w1' = warnings w ++ ws
                      /\ d1 = with_validated d0 (Some first) second third
               else ws = [] /\ d1 = d0)
    as (d1 & ws & Hself2 & Hws & Hfs & Hcls1 & Hmd1 & Habs1 & Hlist1 & Hfiles1 & Hv).
  { destruct validate; simpl in Hval.
    - destruct (_validate_run_inv _ _ _ _ Hself Hval)
        as (w1' & a & b & c & Hv & ->).
      rewrite Hcls in Hv.
      destruct (_validator_ok_inv _ _ _ _ _ _ _ _ _ _ _ Hv)
        as (_ & top & root & pre & post & _ & _ & Hw1' & _).
      exists (with_validated d0 (Some a) b c), (pre ++ post).
      subst w1'. simpl. split.
      { apply list_lookup_insert_eq. rewrite length_app. simpl. lia. }
      repeat split; try done. by exists a, b, c, (add_warnings w1 (pre ++ post)).
    - injection Hval as <-. exists d0, []. simpl. rewrite app_nil_r.
      by repeat split. }
  unfold _construct in Hcons.
  rewrite (bind_ok _ _ _ _ _ (load_dataset_ok _ _ _ Hself2)) in Hcons.
  apply bind_inv_ok in Hcons as (w2' & [sl fl] & Hc & Hcons).
  unfold lift in Hc. injection Hc as <- Hc.
  destruct (place_lists_spec sl fl w2) as (ext & sl' & fl' & Hplace & Hf & Hs).
  rewrite (bind_ok _ _ _ _ _ Hplace) in Hcons. cbv beta iota in Hcons.
  assert (heap (with_heap w2 (heap w2 ++ ext)) !! length (heap w)
          = Some (ODataset d1)) as Hself3.
  { simpl. by apply lookup_app_l_Some. }
  rewrite (bind_ok _ _ _ _ _ (load_dataset_ok _ _ _ Hself3)) in Hcons.
  rewrite store_run in Hcons. injection Hcons as <-. simpl in *.
  pose proof (sub_heap_data_store _ _ _ (ODataset (with_lists d1 sl' fl')) Hself3)
    as Hdata.
  exists d0, d1, ws, sl, fl, sl', fl'.
  split; [done|]. split; [done|]. split; [done|]. split; [done|].
  split; [done|]. split; [done|]. split; [done|]. split; [done|].
  split; [done|]. split.
  { rewrite <- Hc, Hcls1, Hfiles1. symmetry. by apply _constructor_ext. }
  split.
  { apply list_lookup_insert_eq. by apply lookup_lt_Some in Hself3. }
  split; [by apply (read_files_data _ _ _ _ Hdata)|].
  split; [by apply (read_sessions_data _ _ _ _ Hdata)|]. done.
Qed.
End ExtraNew.

(* ===================================================================== *)
(** * Filtering without expressions cannot fail *)
(* ===================================================================== *)

Section ExtraTotal.
Context `{Env}.

Lemma filter_R_total {A} (p : A -> result bool) (l : list A) :
  (forall x, exists b, p x = Ok b) -> exists l', filter_R p l = Ok l'.
Proof.
  intros Hp. induction l as [|x l [l' IH]]; simpl; [by eexists|].
  destruct (Hp x) as [b ->]. rewrite IH. simpl. by eexists.
Qed.

Lemma narrow_R_total {A} c (p : A -> result bool) (l : list A) :
  (c = true -> forall x, exists b, p x = Ok b) ->
  exists l', narrow_R c p l = Ok l'.
Proof.
  destruct c; simpl; [|by eexists]. intros Hp. by apply filter_R_total, Hp.
Qed.

Lemma collection_narrow_total c p col :
  (c = true -> forall f, exists b, p f = Ok b) ->
  exists col', collection_narrow c p col = Ok col'.
Proof.
  destruct c; simpl; [|by eexists]. intros Hp.
  apply (collection_select_pure p (holds p)).
  intros f. unfold holds. by destruct (Hp eq_refl f) as [b ->].
Qed.

Lemma files_filtered_total (a : Filter.t) fv :
  Filter.regex a = None -> Filter.regex_ignore a = None ->
  exists fv', files_filtered a fv = Ok fv'.
Proof.
  intros Hr Hi. unfold files_filtered. rewrite Hr, Hi. simpl.
  destruct (narrow_R_total (strs_truthy (Filter.subject a))
              (by_subject (strs_list (Filter.subject a))) fv) as [l1 ->];
    [by eexists|]. rewrite result_bind_ok.
  destruct (narrow_R_total (strs_truthy (Filter.session a))
              (by_session (strs_list (Filter.session a))) l1) as [l2 ->];
    [by eexists|]. rewrite result_bind_ok.
  destruct (narrow_R_total (strs_truthy (Filter.modal a))
              (by_modal (strs_list (Filter.modal a))) l2) as [l3 ->];
    [by eexists|]. rewrite result_bind_ok.
  destruct (narrow_R_total (strs_truthy (Filter.annotation a))
              (by_annotation (strs_list (Filter.annotation a))) l3) as [l4 ->];
    [by eexists|]. rewrite result_bind_ok.
  destruct (narrow_R_total (opt_truthy (Filter.ext a))
              (by_ext (default "" (Filter.ext a))) l4) as [l5 ->];
    [by eexists|]. rewrite result_bind_ok. by eexists.
Qed.

Lemma collection_filtered_total (a : Filter.t) col :
  Filter.regex a = None -> Filter.regex_ignore a = None ->
  exists col', collection_filtered a col = Ok col'.
Proof.
  intros Hr Hi. unfold collection_filtered. rewrite Hr, Hi. simpl.
  destruct (collection_narrow_total (strs_truthy (Filter.modal a))
              (by_modal (strs_list (Filter.modal a))) col) as [c1 ->];
    [by eexists|]. rewrite result_bind_ok.
  destruct (collection_narrow_total (strs_truthy (Filter.annotation a))
              (by_annotation (strs_list (Filter.annotation a))) c1) as [c2 ->];
    [by eexists|]. rewrite !result_bind_ok.
  destruct (collection_narrow_total (opt_truthy (Filter.ext a))
              (by_ext (default "" (Filter.ext a))) c2) as [c3 ->];
    [by eexists|]. rewrite result_bind_ok. by eexists.
Qed.

Lemma sessions_filtered_total (a : Filter.t) sv :
  Filter.regex a = None -> Filter.regex_ignore a = None ->
  exists sv', sessions_filtered a sv = Ok sv'.
Proof.
  intros Hr Hi. unfold sessions_filtered. cbv zeta. apply map_R_total.
  intros s. unfold session_filtered.
  destruct (collection_filtered_total a (SessionItem.files s) Hr Hi) as [c ->].
  by eexists.
Qed.

(** [filter] on a façade whose validated names were never assigned. *)
Lemma dataset_filter_unset (a : Filter.t) self w d fl sl fv sv :
  heap w !! self = Some (ODataset d) ->
  Dataset.file_list d = Value fl -> Dataset.session_list d = Value sl ->
  read_files (heap w) fl = Some fv -> read_sessions (heap w) sl = Some sv ->
  Dataset.subjects d = Unset ->
  (dataset_filter self a w).2
  = match files_filtered a fv with
    | Raise e => Raise e
    | Ok _ => match sessions_filtered a sv with
              | Raise e => Raise e
              | Ok _ => Raise (AttributeError "subjects")
              end
    end.
Proof.
  intros Hself Hfl Hsl Hf Hs Hsu.
  remember (dataset_filter self a w) as R eqn:HR.
  unfold dataset_filter in HR.
  rewrite (bind_ok _ _ _ _ _ (load_dataset_ok _ _ _ Hself)) in HR.
  rewrite Hfl, Hsl, !getattr_bind in HR.
  pose proof (_filter_spec a fl sl fv sv w Hf Hs) as Hspec.
  destruct (_filter fl sl a w) as [w1 r] eqn:E. simpl in Hspec.
  destruct (files_filtered a fv) as [fv'|e].
  2: { subst r. rewrite (bind_raise _ _ _ _ _ E) in HR. by subst R. }
  destruct (sessions_filtered a sv) as [sv'|e].
  2: { subst r. rewrite (bind_raise _ _ _ _ _ E) in HR. by subst R. }
  destruct Hspec as (fl' & sl' & -> & _).
  rewrite (bind_ok _ _ _ _ _ E) in HR. cbv beta iota in HR.
  rewrite Hsu, getattr_unset_bind in HR. by subst R.
Qed.
End ExtraTotal.

(** X7. A dataset built with [validate=False] cannot be filtered: [filter]
    reads the attribute [subjects], which only validation assigns, so every
    call raises; when no expression is given, what it raises is the
    [AttributeError] for [subjects]. *)
Theorem unvalidated_dataset_cannot_be_filtered `{Env} (k : Dataset.kind)
    (path : string) (dir_only : bool) (w w' : world) (self : loc)
    (a : Filter.t) :
  dataset_init k path false None dir_only w = (w', Ok self) ->
  (exists e, (dataset_filter self a w').2 = Raise e)
  /\ (Filter.regex a = None -> Filter.regex_ignore a = None ->
      (dataset_filter self a w').2 = Raise (AttributeError "subjects")).
Proof.
  intros Hrun.
  destruct (dataset_init_run_inv _ _ _ _ _ _ _ Hrun)
    as (d0 & d1 & ws & sl & fl & sl' & fl' & _ & _ & _ & _ & _ & Hsu & _ & _
        & [_ ->] & _ & Hself & Hf & Hs & _).
  rewrite (dataset_filter_unset a self w' _ fl' sl' fl sl Hself eq_refl eq_refl
             Hf Hs Hsu).
  split.
  - destruct (files_filtered a fl); [|by eexists].
    destruct (sessions_filtered a sl); by eexists.
  - intros Hr Hi.
    destruct (files_filtered_total a fl Hr Hi) as [fv' ->].
    by destruct (sessions_filtered_total a sl Hr Hi) as [sv' ->].
Qed.

Lemma unvalidated_dataset_cannot_be_filtered_witness :
  (exists e,
     (@dataset_filter literal_env 0 (subject_only "sub-01")
        (raw_world false single_session_tree)).2 = Raise e)
  /\ (Filter.regex (subject_only "sub-01") = None ->
      Filter.regex_ignore (subject_only "sub-01") = None ->
      (@dataset_filter literal_env 0 (subject_only "sub-01")
         (raw_world false single_session_tree)).2
      = Raise (AttributeError "subjects")).
Proof.
  apply (@unvalidated_dataset_cannot_be_filtered literal_env Dataset.Raw "/data"
           false (empty_world (disk_at "/data" single_session_tree))).
  vm_compute. reflexivity.
Defined.

(* ===================================================================== *)
(** * The warnings of a validated construction *)
(* ===================================================================== *)

(** X8. The check of the file names is all or nothing: a construction with
    validation that returns has warned, after its warnings about folders,
    about every file at max depth, compliant names included, if one of
    these names does not comply, and about none if all comply. *)
Theorem file_name_check_is_all_or_nothing `{Env} (k : Dataset.kind)
    (path : string) (dir_only : bool) (w w' : world) (self : loc) :
  dataset_init k path true None dir_only w = (w', Ok self) ->
  exists pre level,
    dict_get (scan path dir_only (fs w)).2 (scan path dir_only (fs w)).1.1
    = Some level
    /\ Forall is_excluded_msg pre
    /\ warnings w'
       = warnings w ++ pre
         ++ (if forallb file_pattern_match (concat (dict_values level))
             then [] else file_warnings level).
Proof.
  intros Hrun.
  destruct (dataset_init_run_inv _ _ _ _ _ _ _ Hrun)
    as (d0 & d1 & ws & sl & fl & sl' & fl' & _ & Hscan & _ & _ & _ & _ & _ & _
        & (a & b & c & w1 & Hv & Hws & _) & _ & _ & _ & _ & Hw & _).
  destruct (_validator_ok_inv _ _ _ _ _ _ _ _ _ _ _ Hv)
    as (_ & top & root & pre & post & _ & _ & Hw1 & Hpre & _ & _
        & (level & Hlevel & Hpost) & _).
  exists pre, level. rewrite <- Hscan. simpl. split; [done|]. split; [done|].
  rewrite Hw. f_equal. subst w1 post. simpl in Hws.
  by apply app_inv_head in Hws.
Qed.

Lemma file_name_check_is_all_or_nothing_witness :
  exists pre level,
    dict_get (@scan literal_env "/data" false (disk_at "/data" junk_tree)).2
      (@scan literal_env "/data" false (disk_at "/data" junk_tree)).1.1
    = Some level
    /\ Forall is_excluded_msg pre
    /\ warnings (raw_world true junk_tree)
       = [] ++ pre
         ++ (if forallb file_pattern_match (concat (dict_values level))
             then [] else file_warnings level).
Proof.
  apply (@file_name_check_is_all_or_nothing literal_env Dataset.Raw "/data" false
           (empty_world (disk_at "/data" junk_tree)) _ 0).
  vm_compute. reflexivity.
Defined.

(* ===================================================================== *)
(** * Paths as lists of names *)
(* ===================================================================== *)

Lemma name_ok_inv (s : string) :
  name_ok s = true -> s ≠ EmptyString /\ str_contains "/"%char s = false.
Proof.
  unfold name_ok. intros Hs. apply andb_prop in Hs as [H1 H2].
  split; [by destruct s|]. by apply negb_true_iff in H2.
Qed.

Lemma str_to_list_app (a b : string) :
  str_to_list (a +:+ String "/" b) = str_to_list a ++ str_to_list b.
Proof. unfold str_to_list. by rewrite str_split_app, strip_app. Qed.

Lemma str_to_list_name (s : string) : name_ok s = true -> str_to_list s = [s].
Proof.
  intros Hs. apply name_ok_inv in Hs as [Hne Hc]. unfold str_to_list.
  rewrite (str_split_none _ _ Hc). simpl. by destruct s.
Qed.

Lemma str_last_split (s : string) (c : ascii) :
  str_last s = Some c -> exists s', s = s' +:+ String c "".
Proof.
  induction s as [|x s IH]; [done|]. simpl. destruct s as [|y s].
  - intros [= ->]. by exists "".
  - intros Hl. destruct (IH Hl) as [s' Hs']. exists (String x s').
    change (String x s' +:+ String c "") with (String x (s' +:+ String c "")).
    by rewrite <- Hs'.
Qed.

Lemma name_not_absolute (s : string) :
  name_ok s = true -> str_startswith "/" s = false.
Proof.
  intros Hs. apply name_ok_inv in Hs as [Hne Hc].
  destruct s as [|c s]; [done|]. simpl in *.
  apply orb_false_iff in Hc as [Hc _]. unfold str_startswith.
  destruct (String.prefix "/" (String c s)) eqn:E; [|done].
  apply String.prefix_correct in E. simpl in E.
  destruct s; injection E as ->; by rewrite Ascii.eqb_refl in Hc.
Qed.

(** A directory entry is one more name on the path. *)
Lemma str_to_list_join (top name : string) :
  name_ok name = true ->
  str_to_list (os_path_join top name) = str_to_list top ++ [name].
Proof.
  intros Hn. unfold os_path_join. rewrite (name_not_absolute _ Hn).
  rewrite <- (str_to_list_name _ Hn).
  destruct (negb (str_truthy top) || _) eqn:E.
  - apply orb_prop in E as [E|E].
    + by destruct top.
    + destruct (str_last top) as [l|] eqn:Hl; [|done].
      apply Ascii.eqb_eq in E as ->. apply str_last_split in Hl as [top' ->].
      rewrite str_app_assoc.
      change (String "/" "" +:+ name) with (String "/" name).
      rewrite !str_to_list_app. unfold str_to_list at 3. simpl.
      by rewrite app_nil_r.
  - change (top +:+ "/" +:+ name) with (top +:+ String "/" name).
    apply str_to_list_app.
Qed.

(* ===================================================================== *)
(** * Dicts: lookup after assignment *)
(* ===================================================================== *)

Section DictLookup.
Context {K V : Type} `{EqDecision K}.

Lemma dict_get_set_eq (k : K) (v : V) (d : dict K V) :
  dict_get k (dict_set k v d) = Some v.
Proof.
  induction d as [|[k' v'] d IH]; simpl.
  - by rewrite decide_True.
  - destruct (decide (k = k')) as [->|Hne]; simpl.
    + by rewrite decide_True.
    + by rewrite decide_False.
Qed.

Lemma dict_get_set_ne (k k' : K) (v : V) (d : dict K V) :
  k ≠ k' -> dict_get k' (dict_set k v d) = dict_get k' d.
Proof.
  intros Hne. induction d as [|[k0 v0] d IH]; simpl.
  - by rewrite decide_False.
  - destruct (decide (k = k0)) as [->|Hne0]; simpl.
    + by rewrite !decide_False.
    + destruct (decide (k' = k0)); [done|apply IH].
Qed.

Lemma dict_keys_set (k k' : K) (v : V) (d : dict K V) :
  k' ∈ dict_keys (dict_set k v d) <-> k' = k \/ k' ∈ dict_keys d.
Proof.
  unfold dict_keys. induction d as [|[k0 v0] d IH]; simpl.
  - rewrite list_elem_of_singleton, elem_of_nil. tauto.
  - destruct (decide (k = k0)) as [->|Hne0]; simpl.
    + rewrite !elem_of_cons. tauto.
    + rewrite !elem_of_cons, IH. tauto.
Qed.

Lemma dict_keys_get (k : K) (d : dict K V) :
  k ∈ dict_keys d <-> exists v, dict_get k d = Some v.
Proof.
  unfold dict_keys. induction d as [|[k0 v0] d IH]; simpl.
  - rewrite elem_of_nil. split; [done|]. by intros [v Hv].
  - rewrite elem_of_cons, IH. destruct (decide (k = k0)) as [->|Hne].
    + split; [by eexists|by left].
    + split; [by intros [?|?]|by right].
Qed.

Lemma dict_set_NoDup (k : K) (v : V) (d : dict K V) :
  NoDup (dict_keys d) -> NoDup (dict_keys (dict_set k v d)).
Proof.
  unfold dict_keys. induction d as [|[k0 v0] d IH]; simpl; intros Hd.
  - apply NoDup_singleton.
  - apply NoDup_cons in Hd as [Hk0 Hd].
    destruct (decide (k = k0)) as [->|Hne]; simpl.
    + by apply NoDup_cons.
    + apply NoDup_cons. split; [|by apply IH].
      intros Hin. apply (dict_keys_set k k0 v d) in Hin as [->|Hin]; done.
Qed.
End DictLookup.

Lemma by_depth_set_keys k key v (d : DataItem) j :
  j ∈ dict_keys (by_depth_set k key v d) <-> j = k \/ j ∈ dict_keys d.
Proof. unfold by_depth_set. apply dict_keys_set. Qed.

Lemma by_depth_set_has k key v (d : DataItem) j r :
  by_depth_has d j r -> by_depth_has (by_depth_set k key v d) j r.
Proof.
  intros (inner & Hget & Hhas). unfold by_depth_has, by_depth_set.
  destruct (decide (k = j)) as [->|Hne].
  - rewrite dict_get_set_eq, Hget. eexists. split; [done|].
    unfold dict_has in *. destruct (decide (key = r)) as [->|Hr].
    + by rewrite dict_get_set_eq.
    + by rewrite dict_get_set_ne.
  - rewrite dict_get_set_ne by done. by exists inner.
Qed.

Lemma by_depth_set_has_new k key v (d : DataItem) :
  by_depth_has (by_depth_set k key v d) k key.
Proof.
  unfold by_depth_has, by_depth_set. rewrite dict_get_set_eq.
  eexists. split; [done|]. unfold dict_has. by rewrite dict_get_set_eq.
Qed.

(* ===================================================================== *)
(** * What [_parse_all] records of a tree *)
(* ===================================================================== *)

Lemma tree_ind' (P : tree -> Prop) :
  (forall ds fs, Forall (fun p => P (snd p)) ds -> P (Dir ds fs)) ->
  P Closed ->
  forall t, P t.
Proof.
  intros HP HC. fix IH 1. intros [ds fs|]; [|exact HC]. apply HP.
  induction ds as [|[name sub] ds IHds]; constructor; [apply IH|apply IHds].
Qed.

Lemma entered_inv ds fs :
  entered (Dir ds fs) = true -> Forall (fun p => entered (snd p) = true) ds.
Proof.
  simpl. rewrite forallb_forall. intros Hall. apply Forall_forall. intros p Hp.
  apply Hall. by apply list_elem_of_In.
Qed.

Lemma tree_ok_inv ds fs :
  tree_ok (Dir ds fs) = true ->
  Forall (fun p => name_ok (fst p) = true) ds
  /\ NoDup (map fst ds)
  /\ Forall (fun p => tree_ok (snd p) = true) ds.
Proof.
  simpl. intros Hok. apply andb_prop in Hok as [Hok H3].
  apply andb_prop in Hok as [H1 H2]. split; [|split].
  - rewrite forallb_forall in H1. apply Forall_forall. intros p Hp.
    apply H1. apply in_map. by apply list_elem_of_In.
  - by apply bool_decide_eq_true_1 in H2.
  - rewrite forallb_forall in H3. apply Forall_forall. intros p Hp.
    apply H3. by apply list_elem_of_In.
Qed.

Lemma parse_step_rel n d st e :
  parse_step n d st e = parse_rel d st (drop n (str_to_list e.1.1), e.1.2, e.2).
Proof. by destruct st as [[? ?] ?], e as [[? ?] ?]. Qed.

Lemma fold_left_map_view {A B C} (f : A -> C -> A) (g : B -> C) (l : list B) a :
  fold_left (fun a x => f a (g x)) l a = fold_left f (map g l) a.
Proof. revert a. induction l as [|x l IH]; intros a; simpl; [done|apply IH]. Qed.

(** The walk of a well-formed tree, read as [_parse_all] reads it. *)
Lemma os_walk_rel n t :
  forall top, tree_ok t = true -> (n <= length (str_to_list top))%nat ->
  map (fun e => (drop n (str_to_list e.1.1), e.1.2, e.2)) (os_walk_tree top t)
  = walk_rel (drop n (str_to_list top)) t.
Proof.
  induction t as [ds fs IH|] using tree_ind'; [|done]. intros top Hok Hn.
  apply tree_ok_inv in Hok as (Hnames & _ & Hsubs).
  simpl. f_equal.
  induction ds as [|[name sub] ds IHds]; simpl; [done|].
  apply Forall_cons in IH as [IHsub IH].
  apply Forall_cons in Hnames as [Hname Hnames].
  apply Forall_cons in Hsubs as [Hsub Hsubs]. simpl in *.
  rewrite map_app, (IHds IH Hnames Hsubs). f_equal.
  rewrite (IHsub (os_path_join top name) Hsub).
  - by rewrite (str_to_list_join _ _ Hname), drop_app_le.
  - rewrite (str_to_list_join _ _ Hname), length_app. lia.
Qed.

Lemma parse_rel_eq d md (files dirs : DataItem) rel dirnames filenames :
  parse_rel d (md, files, dirs) (rel, dirnames, filenames)
  = (match dirnames with
     | [] => Z.max md (Z.of_nat (length rel))
     | _ => md
     end,
     if negb d && negb (length filenames =? 0)%nat
     then by_depth_set (Z.of_nat (length rel)) (str_join "/" rel)
            (sorted String.ltb filenames) files
     else files,
     match dirnames with
     | [] => dirs
     | _ => by_depth_set (Z.of_nat (length rel)) (str_join "/" rel)
              (sorted String.ltb dirnames) dirs
     end).
Proof.
  unfold parse_rel. destruct dirnames; simpl; [|done].
  destruct (md <? Z.of_nat (length rel))%Z eqn:E; do 2 f_equal; lia.
Qed.

Lemma scanned_between_refl d lo hi st : scanned_between d lo hi st st.
Proof.
  unfold scanned_between. split; [by left|]. split; [by left|]. by split.
Qed.

Lemma scanned_between_trans d lo1 hi1 lo2 hi2 lo hi st st1 st2 :
  scanned_between d lo1 hi1 st st1 -> scanned_between d lo2 hi2 st1 st2 ->
  lo <= lo1 -> lo <= lo2 -> hi1 <= hi -> hi2 <= hi ->
  scanned_between d lo hi st st2.
Proof.
  intros (A1 & A2 & A3 & A4) (B1 & B2 & B3 & B4) ? ? ? ?.
  split; [|split; [|split]].
  - intros key Hk. destruct (B1 key Hk) as [Hk1|?]; [|right; lia].
    destruct (A1 key Hk1) as [?|?]; [by left|right; lia].
  - intros key Hk. destruct (B2 key Hk) as [Hk1|?]; [|right; lia].
    destruct (A2 key Hk1) as [?|?]; [by left|right; lia].
  - intros key r Hh. by apply B3, A3.
  - intros Hd. by rewrite (B4 Hd), (A4 Hd).
Qed.

Lemma parse_rel_scanned d st rel dirnames filenames :
  let st' := parse_rel d st (rel, dirnames, filenames) in
  let k := Z.of_nat (length rel) in
  st'.1.1 = match dirnames with [] => Z.max st.1.1 k | _ => st.1.1 end
  /\ scanned_between d k (match dirnames with [] => k | _ => k + 1 end) st st'
  /\ (dirnames ≠ [] -> by_depth_has st'.2 k (str_join "/" rel)).
Proof.
  destruct st as [[md files] dirs]. cbv zeta. rewrite parse_rel_eq. simpl.
  split; [done|]. split; [split; [|split; [|split]]|].
  - intros key Hk. destruct dirnames; [by left|].
    apply by_depth_set_keys in Hk as [->|Hk]; [right; lia|by left].
  - intros key Hk. destruct (negb d && _); [|by left].
    apply by_depth_set_keys in Hk as [->|Hk]; [|by left].
    right. destruct dirnames; lia.
  - intros key r Hh. destruct dirnames; [done|]. by apply by_depth_set_has.
  - by intros ->.
  - intros Hne. destruct dirnames; [done|]. apply by_depth_set_has_new.
Qed.

Lemma children_scanned d rel ds :
  Forall (fun p => forall rel st, node_scanned d (snd p) rel st) ds ->
  forall st,
    let st' := fold_left (parse_rel d)
                 (flat_map (fun p => walk_rel (rel ++ [fst p]) (snd p)) ds) st in
    let k := Z.of_nat (length rel) in
    let h := Z.of_nat (list_max (map (fun p => S (height (snd p))) ds)) in
    (ds = [] -> st' = st)
    /\ (ds ≠ [] -> st'.1.1 = Z.max st.1.1 (k + h))
    /\ scanned_between d (k + 1) (k + h) st st'.
Proof.
  induction ds as [|[name sub] ds IHds]; intros IH st; simpl.
  - split; [done|]. split; [done|]. apply scanned_between_refl.
  - apply Forall_cons in IH as [IHsub IH]. simpl in IHsub.
    rewrite fold_left_app.
    destruct (IHsub (rel ++ [name]) st) as (Hmax1 & Hsb1 & _).
    set (st1 := fold_left (parse_rel d) (walk_rel (rel ++ [name]) sub) st) in *.
    destruct (IHds IH st1) as (Hnil & Hmax2 & Hsb2).
    set (st2 := fold_left _ (flat_map _ ds) st1) in *.
    rewrite length_app in Hmax1, Hsb1. simpl in Hmax1, Hsb1.
    split; [done|]. split.
    + intros _. destruct ds as [|p ds].
      * rewrite (Hnil eq_refl), Hmax1. simpl. lia.
      * rewrite (Hmax2 ltac:(done)), Hmax1. lia.
    + eapply scanned_between_trans; [exact Hsb1|exact Hsb2|lia..].
Qed.

Lemma node_scanned_all d t :
  entered t = true -> forall rel st, node_scanned d t rel st.
Proof.
  induction t as [ds fs IH|] using tree_ind'; [|done]. intros Hent rel st.
  apply entered_inv in Hent.
  assert (Forall (fun p => forall rel st, node_scanned d (snd p) rel st) ds)
    as IH'.
  { apply Forall_forall. intros p Hp.
    apply (proj1 (Forall_forall _ _) IH p Hp).
    by apply (proj1 (Forall_forall _ _) Hent p Hp). }
  clear IH Hent. rename IH' into IH.
  unfold node_scanned. simpl walk_rel. simpl fold_left. simpl height.
  destruct (parse_rel_scanned d st rel (map fst ds) fs) as (Hmax1 & Hsb1 & Hhas1).
  set (st1 := parse_rel d st (rel, map fst ds, fs)) in *.
  destruct (children_scanned d rel ds IH st1) as (Hnil & Hmax2 & Hsb2).
  set (st2 := fold_left _ _ st1) in *.
  destruct ds as [|p ds].
  - rewrite (Hnil eq_refl). simpl in *. split; [rewrite Hmax1; lia|].
    split; [|lia].
    eapply (scanned_between_trans _ _ _ (Z.of_nat (length rel))
              (Z.of_nat (length rel)));
      [exact Hsb1|apply scanned_between_refl|lia..].
  - specialize (Hmax2 ltac:(done)). simpl map in Hmax1, Hsb1, Hhas1.
    cbv iota in Hmax1, Hsb1.
    assert (1 <= list_max (map (fun p => S (height (snd p))) (p :: ds)))%nat.
    { simpl. lia. }
    split; [rewrite Hmax2, Hmax1; lia|]. split.
    + eapply scanned_between_trans; [exact Hsb1|exact Hsb2|lia..].
    + intros _. destruct Hsb2 as (_ & _ & Hmono & _). apply Hmono.
      by apply Hhas1.
Qed.

Lemma fold_parse_step_rel n d l st :
  fold_left (parse_step n d) l st
  = fold_left (parse_rel d)
      (map (fun e => (drop n (str_to_list e.1.1), e.1.2, e.2)) l) st.
Proof.
  revert st. induction l as [|e l IH]; intros st; simpl; [done|].
  by rewrite IH, parse_step_rel.
Qed.

Lemma fold_parse_step_dir_only n l st :
  (fold_left (parse_step n true) l st).1.2 = st.1.2.
Proof.
  revert st. induction l as [|[[p ds] fs] l IH]; intros st; simpl; [done|].
  rewrite IH. destruct st as [[md files] dirs]. simpl.
  by destruct (length ds =? 0)%nat.
Qed.

(** The scan of a well-formed tree is the loop of [_parse_all] over its
    directories, each known by the names that lead to it. *)
Lemma scan_rel `{Env} path dir_only disk t :
  disk (os_path_abspath path) = Some t -> tree_ok t = true ->
  scan path dir_only disk
  = ((fold_left (parse_rel dir_only) (walk_rel [] t) (0, [], [])).1.2,
     (fold_left (parse_rel dir_only) (walk_rel [] t) (0, [], [])).2,
     (fold_left (parse_rel dir_only) (walk_rel [] t) (0, [], [])).1.1).
Proof.
  intros Hdisk Hok. unfold scan, _init_process. rewrite Hdisk.
  rewrite fold_parse_step_rel.
  change (strip_empty_str_in_list (str_split "/" (os_path_abspath path)))
    with (str_to_list (os_path_abspath path)).
  rewrite (os_walk_rel _ t _ Hok) by done. rewrite drop_all.
  by destruct (fold_left _ _ _) as [[md files] dirs].
Qed.

(** X9. [_parse_all] measures the height of the tree: on a tree whose
    directory names are proper entry names and whose directories the walk
    all enters (none is a link to a directory, none is unreadable),
    [max_depth] is the number of directory levels below the root,
    sub-directories are recorded at depths below [max_depth] only and files
    at depths up to [max_depth] only; with [dir_only] no file is recorded
    at all. *)
Theorem parse_measures_the_height (abs_path : string) (dir_only : bool)
    (w : world) (t : tree) :
  fs w abs_path = Some t -> tree_ok t = true -> entered t = true ->
  exists files dirs,
    _parse_all abs_path (length (str_to_list abs_path)) dir_only w
    = (World (heap w) (warnings w) (fs w) (io_log w ++ [abs_path]),
       Ok (files, dirs, Z.of_nat (height t)))
    /\ (forall k, k ∈ dict_keys dirs -> 0 <= k < Z.of_nat (height t))
    /\ (forall k, k ∈ dict_keys files -> 0 <= k <= Z.of_nat (height t))
    /\ (dir_only = true -> files = []).
Proof.
  intros Hfs Hok Hent.
  destruct (_parse_all_run abs_path (length (str_to_list abs_path)) dir_only w)
    as (r & Hrun & Hr).
  rewrite Hfs, fold_parse_step_rel, (os_walk_rel _ t _ Hok) in Hr by done.
  rewrite drop_all in Hr.
  destruct (node_scanned_all dir_only t Hent [] (0, [], []))
    as (Hmax & (Hd & Hf & _ & Hdo) & _).
  destruct (fold_left _ _ _) as [[md files] dirs]. simpl in *. subst r.
  exists files, dirs. rewrite Hrun. split; [do 3 f_equal; lia|].
  split; [|split].
  - intros k Hk. destruct (Hd k Hk) as [Hin|?]; [|lia].
    by apply elem_of_nil in Hin.
  - intros k Hk. destruct (Hf k Hk) as [Hin|?]; [|lia].
    by apply elem_of_nil in Hin.
  - done.
Qed.

Lemma parse_measures_the_height_witness :
  exists files dirs,
    _parse_all "/data" (length (str_to_list "/data")) false
      (empty_world (disk_at "/data" multi_session_tree))
    = (World [] [] (disk_at "/data" multi_session_tree) ([] ++ ["/data"]),
       Ok (files, dirs, Z.of_nat (height multi_session_tree)))
    /\ (forall k, k ∈ dict_keys dirs
                  -> 0 <= k < Z.of_nat (height multi_session_tree))
    /\ (forall k, k ∈ dict_keys files
                  -> 0 <= k <= Z.of_nat (height multi_session_tree))
    /\ (false = true -> files = []).
Proof.
  apply (parse_measures_the_height "/data" false
           (empty_world (disk_at "/data" multi_session_tree)) multi_session_tree);
    reflexivity.
Defined.

(* ===================================================================== *)
(** * Datasets that cannot be built *)
(* ===================================================================== *)

Lemma _validator_multi_raises dirs files md ref modal dir_only w :
  md = MaxDepthRef.multi_session ref ->
  by_depth_has dirs 0 "" -> dict_get md dirs = None ->
  (_validator dirs files md ref modal dir_only w).2 = Raise (KeyError md).
Proof.
  intros Hmd (top & Htop & Hroot) Hnone. unfold _validator.
  rewrite bool_decide_eq_true_2.
  2: { subst md. unfold MaxDepthRef.list. rewrite !elem_of_cons. auto. }
  change (negb true) with false. cbv iota.
  assert (lift (by_depth_get 0 dirs) w = (w, Ok top)) as E1.
  { unfold lift, by_depth_get. by rewrite Htop. }
  rewrite (bind_ok _ _ _ _ _ E1).
  unfold dict_has in Hroot. destruct (dict_get "" top) as [root|]; [|done].
  rewrite (bind_ok _ _ w w root eq_refl).
  destruct (validate_names_run "sub" subj_pattern_match (sorted String.ltb root) w)
    as (ws & names & E2 & _).
  rewrite (bind_ok _ _ _ _ _ E2).
  rewrite bool_decide_eq_true_2 by done.
  erewrite bind_raise; [done|].
  erewrite bind_raise; [done|].
  unfold lift, by_depth_get. rewrite <- Hmd, Hnone. done.
Qed.

(** X10. No multi-session dataset is built with validation from a tree
    whose directories the walk all enters (none is a link to a directory,
    none is unreadable): whenever such a tree has as many directory levels
    as the multi-session reference of the class, [RawDataset(path)] and
    [StepDataset(path)] raise [KeyError] for that depth, because the
    validator looks for the session folders at the depth of the leaf
    directories. *)
Theorem multi_session_dataset_is_never_validated `{Env} (k : Dataset.kind)
    (path : string) (dir_only : bool) (w : world) (t : tree) :
  fs w (os_path_abspath path) = Some t -> tree_ok t = true ->
  entered t = true ->
  Z.of_nat (height t) = MaxDepthRef.multi_session (depth_ref k) ->
  (dataset_init k path true None dir_only w).2
  = Raise (KeyError (MaxDepthRef.multi_session (depth_ref k))).
Proof.
  intros Hfs Hok Hent Hh. unfold dataset_init.
  destruct (BaseParser_init_run k path dir_only w)
    as (d0 & Hbase & Hcls & _ & _ & _ & _ & _ & _ & Hscan).
  rewrite (bind_ok _ _ _ _ _ Hbase).
  set (w1 := World _ _ _ _).
  assert (heap w1 !! length (heap w) = Some (ODataset d0)) as Hself
    by apply lookup_new.
  rewrite (scan_rel path dir_only (fs w) t Hfs Hok) in Hscan.
  destruct (node_scanned_all dir_only t Hent [] (0, [], []))
    as (Hmax & (Hd & _) & Hhas).
  destruct (fold_left _ _ _) as [[md files] dirs]. simpl in *.
  injection Hscan as Hfiles Hdirs Hmd.
  assert (Dataset.max_depth d0 = MaxDepthRef.multi_session (depth_ref k)) as Hmulti
    by lia.
  assert ((_validate (length (heap w)) w1).2
          = Raise (KeyError (MaxDepthRef.multi_session (depth_ref k)))) as Hv.
  { unfold _validate.
    rewrite (bind_ok _ _ _ _ _ (load_dataset_ok (length (heap w)) d0 w1 Hself)).
    pose proof (_validator_multi_raises (Dataset._dirs_by_depth d0)
                  (Dataset._files_by_depth d0) (Dataset.max_depth d0)
                  (depth_ref (Dataset.cls d0)) (has_modal (Dataset.cls d0))
                  false w1) as Hr.
    rewrite Hcls, Hmulti in Hr. rewrite Hcls, Hmulti.
    destruct (_validator _ _ _ _ _ _ w1) as [w2 r] eqn:E. simpl in Hr.
    rewrite Hr in E.
    - by rewrite (bind_raise _ _ _ _ _ E).
    - done.
    - rewrite Hdirs. apply Hhas. destruct k; simpl in Hh; lia.
    - rewrite Hdirs. destruct (dict_get _ dirs) as [v|] eqn:Eg; [|done].
      assert (MaxDepthRef.multi_session (depth_ref k) ∈ dict_keys dirs) as Hin.
      { apply dict_keys_get. by exists v. }
      destruct (Hd _ Hin) as [Hin'|?]; [by apply elem_of_nil in Hin'|lia]. }
  simpl when.
  destruct (_validate (length (heap w)) w1) as [w2 r] eqn:E. simpl in Hv.
  subst r. by rewrite (bind_raise _ _ _ _ _ E).
Qed.

Lemma multi_session_dataset_is_never_validated_witness :
  (@dataset_init literal_env Dataset.Raw "/data" true None false
     (empty_world (disk_at "/data" multi_session_tree))).2
  = Raise (KeyError (MaxDepthRef.multi_session (depth_ref Dataset.Raw))).
Proof.
  apply (@multi_session_dataset_is_never_validated literal_env Dataset.Raw
           "/data" false (empty_world (disk_at "/data" multi_session_tree))
           multi_session_tree); reflexivity.
Defined.

(** X11. With [dir_only=True] a dataset is built only from an [inherits]
    bundle and without validation: no file is recorded, so from a path
    alone the constructor's look-up of the files at max depth raises
    [KeyError] for that depth, and with validation the construction raises
    whether [inherits] is given or not; [RawDataset(path, False, inherits,
    True)] and [StepDataset(path, False, inherits, True)] return. *)
Theorem dir_only_needs_inherits `{Env} (k : Dataset.kind)
    (path : string) (w : world) :
  (dataset_init k path false None true w).2
  = Raise (KeyError (scan path true (fs w)).2)
  /\ (forall inherits,
        exists e, (dataset_init k path true inherits true w).2 = Raise e)
  /\ (forall i : Inherits.t,
        exists self, (dataset_init k path false (Some i) true w).2 = Ok self).
Proof.
  assert ((scan path true (fs w)).1.1 = []) as Hfiles.
  { unfold scan, _init_process.
    pose proof (fold_parse_step_dir_only
                  (length (strip_empty_str_in_list
                             (str_split "/" (os_path_abspath path))))
                  match fs w (os_path_abspath path) with
                  | Some t => os_walk_tree (os_path_abspath path) t
                  | None => []
                  end (0, [], [])) as Hf.
    by destruct (fold_left _ _ _) as [[md files] dirs]. }
  destruct (BaseParser_init_run k path true w)
    as (d0 & Hbase & Hcls & _ & _ & _ & _ & _ & _ & Hscan).
  set (w1 := World _ _ _ _) in Hbase.
  assert (heap w1 !! length (heap w) = Some (ODataset d0)) as Hself
    by apply lookup_new.
  rewrite <- Hscan in Hfiles. simpl in Hfiles.
  split; [|split].
  - unfold dataset_init. rewrite (bind_ok _ _ _ _ _ Hbase).
    simpl when. rewrite (bind_ok _ _ w1 w1 tt eq_refl).
    assert ((_construct (length (heap w)) w1)
            = (w1, Raise (KeyError (scan path true (fs w)).2))) as Hc.
    { unfold _construct.
      rewrite (bind_ok _ _ _ _ _ (load_dataset_ok _ _ _ Hself)).
      erewrite bind_raise; [done|]. unfold lift, _constructor.
      rewrite Hfiles. by rewrite <- Hscan. }
    by rewrite (bind_raise _ _ _ _ _ Hc).
  - intros inherits. unfold dataset_init. rewrite (bind_ok _ _ _ _ _ Hbase).
    simpl when.
    destruct (_validate (length (heap w)) w1) as [w2 [[]|e]] eqn:Ev.
    + destruct (_validate_run_inv _ _ _ _ Hself Ev)
        as (w1' & first & second & third & Hv & _).
      destruct (_validator_ok_inv _ _ _ _ _ _ _ _ _ _ _ Hv)
        as (_ & top & root & pre & post & _ & _ & _ & _ & _ & _
            & (level & Hlevel & _) & _).
      by rewrite Hfiles in Hlevel.
    + exists e. by rewrite (bind_raise _ _ _ _ _ Ev).
  - intros i. unfold dataset_init. rewrite (bind_ok _ _ _ _ _ Hbase).
    simpl when. rewrite (bind_ok _ _ w1 w1 tt eq_refl).
    assert (exists w2, _inherits (length (heap w)) i w1 = (w2, Ok tt))
      as [w2 Hinh].
    { unfold _inherits.
      rewrite (bind_ok _ _ _ _ _ (load_dataset_ok _ _ _ Hself)).
      rewrite store_run. by eexists. }
    rewrite (bind_ok _ _ _ _ _ Hinh). by eexists.
Qed.

(* ===================================================================== *)
(** * The index of files, entry by entry *)
(* ===================================================================== *)

Lemma str_to_list_join_list (l : list string) :
  Forall (fun s => name_ok s = true) l -> str_to_list (str_join "/" l) = l.
Proof.
  induction 1 as [|x l Hx Hl IH]; [done|].
  destruct l as [|y l].
  - by apply str_to_list_name.
  - change (str_join "/" (x :: y :: l))
      with (x +:+ String "/" (str_join "/" (y :: l))).
    rewrite str_to_list_app, IH. by rewrite (str_to_list_name _ Hx).
Qed.

Lemma str_join_inj (l l' : list string) :
  Forall (fun s => name_ok s = true) l -> Forall (fun s => name_ok s = true) l' ->
  str_join "/" l = str_join "/" l' -> l = l'.
Proof.
  intros Hl Hl' E. rewrite <- (str_to_list_join_list l Hl).
  rewrite <- (str_to_list_join_list l' Hl'). by rewrite E.
Qed.

Lemma dict_set_fresh {V} (k : string) (v : V) (d : dict string V) :
  k ∉ dict_keys d -> dict_set k v d = d ++ [(k, v)].
Proof.
  unfold dict_keys. induction d as [|[k0 v0] d IH]; simpl; [done|].
  intros Hk. apply not_elem_of_cons in Hk as [Hne Hk].
  rewrite decide_False by done. by rewrite IH.
Qed.

Lemma fold_by_depth_set_get (L : list (Z * string * list string)) :
  NoDup (map (fun e => (e.1.1, e.1.2)) L) ->
  forall j,
    dict_get j (fold_left (fun d e => by_depth_set e.1.1 e.1.2 e.2 d) L [])
    = match entries_at j L with
      | [] => None
      | l => Some l
      end.
Proof.
  induction L as [|[[k key] v] L IH] using rev_ind; intros Hnd j; [done|].
  rewrite map_app in Hnd. apply NoDup_app in Hnd as (Hnd & Hfresh & _).
  rewrite (@fold_left_app DataItem). simpl. unfold entries_at.
  rewrite List.filter_app, map_app. simpl.
  unfold by_depth_set at 1.
  destruct (decide (k = j)) as [->|Hne].
  - rewrite dict_get_set_eq, bool_decide_eq_true_2 by done. simpl.
    rewrite (IH Hnd j). unfold entries_at.
    set (inner := map _ (List.filter _ L)).
    assert (key ∉ dict_keys inner) as Hfr.
    { intros Hin. apply (Hfresh (j, key)); [|by apply list_elem_of_singleton].
      unfold dict_keys, inner in Hin. rewrite map_map in Hin.
      apply list_elem_of_fmap in Hin as ([[k' key'] v'] & -> & Hin).
      apply list_elem_of_In, List.filter_In in Hin as [Hin Hk].
      apply bool_decide_eq_true_1 in Hk. simpl in *. subst k'.
      apply list_elem_of_fmap. exists (j, key', v').
      split; [done|]. by apply list_elem_of_In. }
    clearbody inner. destruct inner as [|p inner]; [done|].
    by rewrite (dict_set_fresh _ _ _ Hfr).
  - rewrite dict_get_set_ne by done. rewrite bool_decide_eq_false_2 by done.
    simpl. rewrite app_nil_r. apply (IH Hnd j).
Qed.

Lemma fold_parse_rel_files W st :
  (fold_left (parse_rel false) W st).1.2
  = fold_left (fun d e => by_depth_set e.1.1 e.1.2 e.2 d) (file_entries W) st.1.2.
Proof.
  revert st. induction W as [|[[rel ds] fs] W IH]; intros st; [done|].
  simpl fold_left. rewrite IH. destruct st as [[md files] dirs].
  rewrite parse_rel_eq. unfold file_entries, index_entries. simpl.
  by destruct (length fs =? 0)%nat.
Qed.

Lemma fold_parse_rel_dirs d W st :
  (fold_left (parse_rel d) W st).2
  = fold_left (fun d e => by_depth_set e.1.1 e.1.2 e.2 d) (dir_entries W) st.2.
Proof.
  revert st. induction W as [|[[rel ds] fs] W IH]; intros st; [done|].
  simpl fold_left. rewrite IH. destruct st as [[md files] dirs].
  rewrite parse_rel_eq. unfold dir_entries, index_entries. simpl.
  by destruct ds.
Qed.

Lemma walk_rel_prefix t :
  forall rel e, e ∈ walk_rel rel t -> exists suffix, e.1.1 = rel ++ suffix.
Proof.
  induction t as [ds fs IH|] using tree_ind';
    [|intros rel e He; by apply elem_of_nil in He].
  intros rel e. simpl.
  rewrite elem_of_cons. intros [->|Hin].
  - exists []. by rewrite app_nil_r.
  - apply list_elem_of_In, in_flat_map in Hin as ([name sub] & Hp & Hin).
    rewrite Forall_forall in IH.
    destruct (IH (name, sub) ltac:(by apply list_elem_of_In) (rel ++ [name]) e)
      as [suffix Hs]; [by apply list_elem_of_In|].
    exists (name :: suffix). by rewrite Hs, <- app_assoc.
Qed.

Lemma walk_rel_names t :
  tree_ok t = true ->
  forall rel, Forall (fun s => name_ok s = true) rel ->
  Forall (fun e => Forall (fun s => name_ok s = true) e.1.1) (walk_rel rel t).
Proof.
  induction t as [ds fs IH|] using tree_ind'; [|intros; constructor].
  intros Hok rel Hrel.
  apply tree_ok_inv in Hok as (Hnames & _ & Hsubs). simpl.
  constructor; [done|].
  induction ds as [|[name sub] ds IHds]; simpl; [done|].
  apply Forall_cons in IH as [IHsub IH].
  apply Forall_cons in Hnames as [Hname Hnames].
  apply Forall_cons in Hsubs as [Hsub Hsubs].
  apply Forall_app. split; [|by apply IHds].
  apply IHsub; [done|]. apply Forall_app. split; [done|]. by constructor.
Qed.

Lemma walk_rel_NoDup t :
  tree_ok t = true ->
  forall rel, NoDup (map (fun e => e.1.1) (walk_rel rel t)).
Proof.
  induction t as [ds fs IH|] using tree_ind'; [|intros; constructor].
  intros Hok rel.
  apply tree_ok_inv in Hok as (_ & Hnd & Hsubs). simpl.
  apply NoDup_cons. split.
  - intros Hin. apply list_elem_of_fmap in Hin as (e & He & Hin).
    apply list_elem_of_In, in_flat_map in Hin as ([name sub] & _ & Hin).
    apply list_elem_of_In, walk_rel_prefix in Hin as [suffix Hs].
    rewrite Hs, <- app_assoc in He. simpl in He.
    apply (f_equal length) in He. rewrite length_app in He. simpl in He. lia.
  - induction ds as [|[name sub] ds IHds]; simpl; [constructor|].
    apply Forall_cons in IH as [IHsub IH].
    apply Forall_cons in Hsubs as [Hsub Hsubs].
    simpl in Hnd. apply NoDup_cons in Hnd as [Hname Hnd].
    rewrite map_app. apply NoDup_app. split; [by apply IHsub|].
    split; [|by apply IHds].
    intros r Hr1 Hr2.
    apply list_elem_of_fmap in Hr1 as (e1 & -> & Hin1).
    apply walk_rel_prefix in Hin1 as [s1 Hs1].
    apply list_elem_of_fmap in Hr2 as (e2 & He2 & Hin2).
    apply list_elem_of_In, in_flat_map in Hin2 as ([name2 sub2] & Hp2 & Hin2).
    apply list_elem_of_In, walk_rel_prefix in Hin2 as [s2 Hs2].
    rewrite Hs1, Hs2, <- !app_assoc in He2. apply app_inv_head in He2.
    simpl in He2. injection He2 as -> _.
    apply Hname. apply list_elem_of_fmap. exists (name2, sub2).
    split; [done|]. by apply list_elem_of_In.
Qed.

Lemma index_entries_NoDup sel W :
  NoDup (map (fun e => e.1.1) W) ->
  Forall (fun e => Forall (fun s => name_ok s = true) e.1.1) W ->
  NoDup (map (fun e => (e.1.1, e.1.2)) (index_entries sel W)).
Proof.
  unfold index_entries. induction W as [|[[rel ds] fs] W IH]; simpl;
    intros Hnd Hok; [constructor|].
  apply NoDup_cons in Hnd as [Hrel Hnd]. apply Forall_cons in Hok as [Hr Hok].
  destruct (length (sel (rel, ds, fs)) =? 0)%nat; simpl; [by apply IH|].
  apply NoDup_cons. split; [|by apply IH].
  intros Hin. apply Hrel. rewrite map_map in Hin. simpl in Hin.
  apply list_elem_of_fmap in Hin as ([[rel' ds'] fs'] & He & Hin).
  apply list_elem_of_In, List.filter_In in Hin as [Hin _].
  simpl in He. injection He as _ He.
  rewrite Forall_forall in Hok.
  pose proof (Hok _ ltac:(by apply list_elem_of_In)) as Hr'. simpl in *.
  apply (str_join_inj _ _ Hr Hr') in He as ->.
  apply list_elem_of_fmap. exists (rel', ds', fs').
  split; [done|]. by apply list_elem_of_In.
Qed.

(** X12. The two indexes of [_parse_all] list the walk: on a tree whose
    directory names are proper and distinct, the index of files maps each
    depth to the directories at that depth that hold files, in the order of
    the walk, each under its relative path and with its file names sorted;
    a depth without such a directory has no entry. The index of
    directories does the same with the names of the sub-directories. *)
Theorem parse_indexes_the_walk (abs_path : string) (w : world) (t : tree) :
  fs w abs_path = Some t -> tree_ok t = true ->
  exists files dirs md,
    (_parse_all abs_path (length (str_to_list abs_path)) false w).2
    = Ok (files, dirs, md)
    /\ (forall j, dict_get j files
                  = match entries_at j (file_entries (walk_rel [] t)) with
                    | [] => None
                    | l => Some l
                    end)
    /\ (forall j, dict_get j dirs
                  = match entries_at j (dir_entries (walk_rel [] t)) with
                    | [] => None
                    | l => Some l
                    end).
Proof.
  intros Hfs Hok.
  destruct (_parse_all_run abs_path (length (str_to_list abs_path)) false w)
    as (r & Hrun & Hr).
  rewrite Hfs, fold_parse_step_rel, (os_walk_rel _ t _ Hok) in Hr by done.
  rewrite drop_all in Hr.
  pose proof (fold_parse_rel_files (walk_rel [] t) (0, [], [])) as Hf.
  pose proof (fold_parse_rel_dirs false (walk_rel [] t) (0, [], [])) as Hd.
  destruct (fold_left (parse_rel false) _ _) as [[md files] dirs].
  simpl in Hf, Hd. subst r files dirs. rewrite Hrun. eexists _, _, _.
  split; [done|].
  pose proof (walk_rel_NoDup t Hok []) as Hnd.
  pose proof (walk_rel_names t Hok [] ltac:(constructor)) as Hnames.
  split; intros j; apply fold_by_depth_set_get; by apply index_entries_NoDup.
Qed.

Lemma parse_indexes_the_walk_witness :
  exists files dirs md,
    (_parse_all "/data" (length (str_to_list "/data")) false
       (empty_world (disk_at "/data" single_session_tree))).2
    = Ok (files, dirs, md)
    /\ (forall j, dict_get j files
                  = match entries_at j
                            (file_entries (walk_rel [] single_session_tree)) with
                    | [] => None
                    | l => Some l
                    end)
    /\ (forall j, dict_get j dirs
                  = match entries_at j
                            (dir_entries (walk_rel [] single_session_tree)) with
                    | [] => None
                    | l => Some l
                    end).
Proof.
  apply (parse_indexes_the_walk "/data"
           (empty_world (disk_at "/data" single_session_tree))
           single_session_tree); reflexivity.
Defined.

(* ===================================================================== *)
(** * The records the constructor builds *)
(* ===================================================================== *)

Lemma str_split1_join (sep : ascii) (s a b : string) :
  str_split1 sep s = [a; b] -> s = a +:+ String sep b.
Proof.
  revert a. induction s as [|c s IH]; intros a; simpl; [done|].
  destruct (Ascii.eqb c sep) eqn:E.
  - intros [= <- <-]. by apply Ascii.eqb_eq in E as ->.
  - destruct (str_split1 sep s) as [|h [|h2 [|]]] eqn:Es; try done.
    intros [= <- <-]. rewrite (IH h eq_refl). done.
Qed.

Lemma new_file_item_inv abs_path abs_path_list subj sess modal sess_path f r :
  new_file_item abs_path abs_path_list subj sess modal sess_path f = Ok r ->
  exists stem ext,
    str_split1 "."%char f = [stem; ext]
    /\ r = FileItem.mk subj sess modal (last abs_path_list)
             (os_path_join abs_path sess_path) stem ext.
Proof.
  unfold new_file_item.
  destruct (str_split1 "." f) as [|stem [|ext [|]]]; try done.
  destruct (last abs_path_list) as [root|]; [|done].
  intros [= <-]. by exists stem, ext.
Qed.

Lemma construct_files_records abs_path abs_path_list subj sess modal sess_path
    filenames files fl files' fl' :
  construct_files abs_path abs_path_list subj sess modal sess_path filenames
    (files, fl) = Ok (files', fl') ->
  exists added,
    fl' = fl ++ added
    /\ Forall2 (fun f r => new_file_item abs_path abs_path_list subj sess modal
                             sess_path f = Ok r) filenames added.
Proof.
  revert files fl. induction filenames as [|f filenames IH]; intros files fl; simpl.
  - intros [= <- <-]. exists []. by rewrite app_nil_r.
  - destruct (new_file_item _ _ _ _ _ _ f) as [finfo|] eqn:E1; simpl; [|done].
    destruct (session_add modal finfo files) as [files1|] eqn:E2; simpl; [|done].
    intros Hrest. destruct (IH _ _ Hrest) as (added & -> & Hall).
    exists (finfo :: added). split; [by rewrite <- app_assoc|]. by constructor.
Qed.

Lemma str_to_list_truthy (p : string) :
  Forall (fun s => str_truthy s = true) (str_to_list p).
Proof.
  unfold str_to_list, strip_empty_str_in_list. apply Forall_forall.
  intros s Hs. by apply list_elem_of_In, List.filter_In in Hs as [_ Hs].
Qed.

Lemma parse_meta_truthy md ref m sp subj sess modal :
  parse_meta md ref m sp = Ok (subj, sess, modal) ->
  opt_truthy modal = modal_truthy m.
Proof.
  unfold parse_meta. pose proof (str_to_list_truthy sp) as Ht.
  destruct (bool_decide (md = MaxDepthRef.single_session ref)).
  - destruct (modal_truthy m).
    + destruct (str_to_list sp) as [|a [|b [|]]]; try done.
      intros [= <- <- <-]. simpl.
      apply Forall_cons in Ht as [_ Ht]. by apply Forall_cons in Ht as [Ht _].
    + destruct (str_to_list sp); [done|]. by intros [= <- <- <-].
  - destruct (bool_decide (md = MaxDepthRef.multi_session ref)); [|done].
    destruct (modal_truthy m).
    + destruct (str_to_list sp) as [|a [|b [|c [|]]]]; try done.
      intros [= <- <- <-]. simpl.
      apply Forall_cons in Ht as [_ Ht]. apply Forall_cons in Ht as [_ Ht].
      by apply Forall_cons in Ht as [Ht _].
    + destruct (str_to_list sp) as [|a [|b [|]]]; try done.
      by intros [= <- <- <-].
Qed.

Lemma parse_meta_flag md ref m sp :
  parse_meta md ref m sp = parse_meta md ref (ModalFlag (modal_truthy m)) sp.
Proof. done. Qed.

Lemma parse_meta_meta_of k rel meta :
  Forall (fun s => name_ok s = true) rel ->
  parse_meta (Z.of_nat (length rel)) (depth_ref k) (ModalFlag (has_modal k))
    (str_join "/" rel) = Ok meta ->
  meta_of k rel = Some meta.
Proof.
  intros Hrel. unfold parse_meta. rewrite (str_to_list_join_list rel Hrel).
  destruct k; simpl; repeat case_bool_decide;
    destruct rel as [|a [|b [|c [|d rel]]]]; simpl in *; try done; try lia;
    by intros [= <-].
Qed.

Lemma construct_path_records self ref st sp filenames st' :
  construct_path self ref st (sp, filenames) = Ok st' ->
  exists subj sess modal added,
    parse_meta (Dataset.max_depth self) ref (c_modal st) sp
    = Ok (subj, sess, modal)
    /\ c_modal st' = ModalName modal
    /\ c_file_list st' = c_file_list st ++ added
    /\ Forall2 (fun f r => new_file_item (Dataset._abs_path self)
                             (Dataset._abs_path_list self) subj sess modal sp f
                           = Ok r) filenames added.
Proof.
  unfold construct_path.
  destruct (parse_meta _ _ _ _) as [[[subj sess] modal]|]; simpl; [|done].
  destruct (lookup_session _ _ _ _ _) as [[[i processed] sl]|]; simpl; [|done].
  destruct (sl !! i) as [sinfo|]; [|done].
  destruct (construct_files _ _ _ _ _ _ _ _) as [[files fl]|] eqn:E2; simpl;
    [|done].
  apply construct_files_records in E2 as (added & -> & Hall).
  destruct (session_sort modal files) as [files'|]; simpl; [|done].
  intros [= <-]. simpl. by exists subj, sess, modal, added.
Qed.

Lemma new_file_items_records abs_path subj sess modal rel filenames added :
  Forall2 (fun f r => new_file_item abs_path (str_to_list abs_path) subj sess
                        modal (str_join "/" rel) f = Ok r) filenames added ->
  added = flat_map (record_of abs_path (subj, sess, modal) rel) filenames
  /\ map FileItem.basename added = filenames.
Proof.
  induction 1 as [|f r filenames added Hf _ [IH1 IH2]]; [done|].
  apply new_file_item_inv in Hf as (stem & ext & Hs & ->).
  simpl. unfold record_of at 1. rewrite Hs. simpl. rewrite <- IH1, IH2.
  split; [done|]. f_equal. unfold FileItem.basename. simpl.
  by rewrite (str_split1_join _ _ _ _ Hs).
Qed.

(** The constructor, over the directories [Wf] of one depth, each holding
    files: it appends the records of their files, directory by
    directory. *)
Lemma construct_paths_records k self abs_path Wf :
  Dataset._abs_path self = abs_path ->
  Dataset._abs_path_list self = str_to_list abs_path ->
  Forall (fun e => Forall (fun s => name_ok s = true) e.1.1
                   /\ Z.of_nat (length e.1.1) = Dataset.max_depth self) Wf ->
  forall st st',
    modal_truthy (c_modal st) = has_modal k ->
    construct_paths self (depth_ref k)
      (map (fun e => (str_join "/" e.1.1, sorted String.ltb e.2)) Wf) st
    = Ok st' ->
    c_file_list st'
    = c_file_list st
      ++ flat_map (fun e => records_of k abs_path
                              (e.1.1, e.1.2, sorted String.ltb e.2)) Wf
    /\ map FileItem.basename (c_file_list st')
       = map FileItem.basename (c_file_list st)
         ++ flat_map (fun e => sorted String.ltb e.2) Wf.
Proof.
  intros Habs Hlist. induction 1 as [|[[rel ds] fs] Wf [Hrel Hlen] _ IH];
    intros st st' Hm.
  - simpl. intros [= <-]. by rewrite !app_nil_r.
  - cbn [map construct_paths].
    destruct (construct_path self (depth_ref k) st _) as [st1|] eqn:E;
      [|done].
    rewrite result_bind_ok.
    intros Hrest.
    apply construct_path_records in E
      as (subj & sess & modal & added & Hmeta & Hm1 & Hfl & Hall).
    pose proof (parse_meta_truthy _ _ _ _ _ _ _ Hmeta) as Ht.
    rewrite Habs, Hlist in Hall.
    apply new_file_items_records in Hall as [Hadded Hbase].
    destruct (IH st1 st') as [IH1 IH2]; [|done|].
    { rewrite Hm1. simpl. by rewrite Ht. }
    simpl in Hlen. rewrite <- Hlen in Hmeta.
    rewrite parse_meta_flag, Hm in Hmeta. simpl in Hmeta.
    apply (parse_meta_meta_of k rel _ Hrel) in Hmeta.
    split.
    + rewrite IH1, Hfl, <- app_assoc. f_equal. f_equal.
      unfold records_of. simpl. by rewrite Hmeta, Hadded.
    + rewrite IH2, Hfl, map_app, <- app_assoc, Hbase. done.
Qed.

Lemma filter_map_comm {A B} (g : A -> B) (q : B -> bool) (l : list A) :
  List.filter q (map g l) = map g (List.filter (fun x => q (g x)) l).
Proof.
  induction l as [|x l IH]; simpl; [done|].
  destruct (q (g x)); simpl; by rewrite IH.
Qed.

Lemma flat_map_filter_irrelevant {A B} (f : A -> list B) (p q : A -> bool)
    (l : list A) :
  (forall x, p x = false -> f x = []) ->
  flat_map f (List.filter (fun x => p x && q x) l)
  = flat_map f (List.filter q l).
Proof.
  intros Hp. induction l as [|x l IH]; simpl; [done|].
  destruct (p x) eqn:Ep, (q x); simpl; rewrite ?IH; try done.
  by rewrite (Hp x Ep).
Qed.

Lemma flat_map_perm_pointwise {A B} (f g : A -> list B) (l : list A) :
  (forall x, f x ≡ₚ g x) -> flat_map f l ≡ₚ flat_map g l.
Proof.
  intros Hfg. induction l as [|x l IH]; simpl; [done|]. by rewrite Hfg, IH.
Qed.

Lemma entries_at_index_entries sel j W :
  entries_at j (index_entries sel W)
  = map (fun e => (str_join "/" e.1.1, sorted String.ltb (sel e)))
      (List.filter (fun e => negb (length (sel e) =? 0)%nat
                             && bool_decide (Z.of_nat (length e.1.1) = j)) W).
Proof.
  unfold entries_at, index_entries.
  rewrite filter_map_comm, map_map, filter_filter. done.
Qed.

Lemma records_of_sorted k abs_path rel ds fs :
  records_of k abs_path (rel, ds, sorted String.ltb fs)
  ≡ₚ records_of k abs_path (rel, ds, fs).
Proof.
  unfold records_of. simpl. destruct (meta_of k rel); [|done].
  apply Permutation_flat_map, sorted_Permutation.
Qed.

(** X13. The file list of a dataset built from a path lists the files of
    the deepest directories, and nothing else, when the walk enters every
    directory of the tree (none is a link to a directory, none is
    unreadable): it is a permutation of the records of these files, one
    per file, with subject, session and modality read from the position of
    the names in the directory's relative path; files at any other depth
    are left out. *)
Theorem file_list_lists_the_deepest_files `{Env} (k : Dataset.kind)
    (path : string) (validate : bool) (w w' : world) (self : loc) (t : tree) :
  dataset_init k path validate None false w = (w', Ok self) ->
  fs w (os_path_abspath path) = Some t -> tree_ok t = true ->
  entered t = true ->
  exists fv sv,
    facade_lists (heap w') self = Some (fv, sv)
    /\ fv ≡ₚ expected_records k (os_path_abspath path) t
    /\ map FileItem.basename fv ≡ₚ flat_map (fun e => e.2) (deepest t).
Proof.
  intros Hrun Hfs Hok Hent.
  destruct (dataset_init_run_inv _ _ _ _ _ _ _ Hrun)
    as (d0 & d1 & ws & sl & fl & sl' & fl' & _ & Hscan & _ & Habs & Hlist & _ & _
        & _ & _ & Hc & Hself & Hf & Hs & _).
  exists fl, sl. split.
  { by apply (facade_lists_intro _ _ _ fl' sl' _ _ Hself). }
  rewrite (scan_rel path false (fs w) t Hfs Hok) in Hscan.
  destruct (node_scanned_all false t Hent [] (0, [], [])) as (Hmax & _).
  pose proof (fold_parse_rel_files (walk_rel [] t) (0, [], [])) as Hfiles.
  pose proof (walk_rel_NoDup t Hok []) as Hnd.
  pose proof (walk_rel_names t Hok [] ltac:(constructor)) as Hnames.
  pose proof (fold_by_depth_set_get (file_entries (walk_rel [] t))
                (index_entries_NoDup _ _ Hnd Hnames)) as Hget.
  destruct (fold_left (parse_rel false) _ _) as [[md files] dirs].
  simpl in Hmax, Hfiles. injection Hscan as Hfd Hdd Hmd.
  assert (md = Z.of_nat (height t)) as -> by lia.
  rewrite <- Hfiles in Hget. clear Hfiles.
  unfold _constructor in Hc. rewrite Hfd, Hmd in Hc.
  unfold by_depth_get in Hc. rewrite Hget in Hc.
  unfold file_entries in Hc. rewrite entries_at_index_entries in Hc.
  set (Wf := List.filter _ (walk_rel [] t)) in Hc.
  destruct (map _ Wf) as [|item items] eqn:Eitems; [done|].
  rewrite <- Eitems in Hc. clear Eitems item items. rewrite result_bind_ok in Hc.
  unfold dict_items in Hc.
  destruct (construct_paths d0 _ _ _) as [st|] eqn:Ep; [|done].
  injection Hc as <- <-.
  destruct (construct_paths_records k d0 (os_path_abspath path) Wf Habs Hlist)
    with (st := CState (ModalFlag (has_modal k)) [] [] []) (st' := st)
    as [Hrec Hbase]; [|done|done|].
  { apply Forall_forall. intros e He.
    apply list_elem_of_In, List.filter_In in He as [He Hp].
    apply andb_prop in Hp as [_ Hp]. apply bool_decide_eq_true_1 in Hp.
    rewrite Forall_forall in Hnames. split; [|by rewrite Hmd].
    apply Hnames. by apply list_elem_of_In. }
  simpl in Hrec, Hbase.
  assert (forall {B} (f : _ -> list B),
            (forall e, length e.2 = 0%nat -> f e = []) ->
            flat_map f Wf = flat_map f (deepest t)) as Hdeep.
  { intros B f Hnil. unfold Wf, deepest.
    rewrite (flat_map_filter_irrelevant f
               (fun e => negb (length e.2 =? 0)%nat)).
    - f_equal. apply List.filter_ext. intros e.
      apply eq_true_iff_eq. rewrite bool_decide_eq_true, Nat.eqb_eq. lia.
    - intros e He. apply Hnil. apply negb_false_iff in He.
      by apply Nat.eqb_eq in He. }
  split.
  - rewrite sorted_Permutation, Hrec. unfold expected_records.
    rewrite <- (Hdeep _ (records_of k (os_path_abspath path))).
    + apply flat_map_perm_pointwise. intros [[rel ds] fs].
      apply records_of_sorted.
    + intros [[rel ds] fs] Hl. simpl in Hl. unfold records_of. simpl.
      destruct fs; [|done]. by destruct (meta_of k rel).
  - rewrite (Permutation_map _ (sorted_Permutation file_lt (c_file_list st))).
    rewrite Hbase, <- (Hdeep _ (fun e => e.2)).
    + apply flat_map_perm_pointwise. intros e. apply sorted_Permutation.
    + intros e He. by destruct e.2.
Qed.

Lemma file_list_lists_the_deepest_files_witness :
  exists fv sv,
    facade_lists (heap (raw_world true single_session_tree)) 0 = Some (fv, sv)
    /\ fv ≡ₚ expected_records Dataset.Raw
               (@os_path_abspath literal_env "/data") single_session_tree
    /\ map FileItem.basename fv
       ≡ₚ flat_map (fun e => e.2) (deepest single_session_tree).
Proof.
  apply (@file_list_lists_the_deepest_files literal_env Dataset.Raw "/data" true
           (empty_world (disk_at "/data" single_session_tree))
           (raw_world true single_session_tree) 0 single_session_tree);
    vm_compute; reflexivity.
Defined.

(* ===================================================================== *)
(** * What a filter keeps *)
(* ===================================================================== *)

Lemma sessions_filtered_each `{Env} (a : Filter.t) sv sv' :
  sessions_filtered a sv = Ok sv' ->
  Forall2 (fun s s' =>
             SessionItem.subject s' = SessionItem.subject s
             /\ SessionItem.session s' = SessionItem.session s
             /\ session_files s' = List.filter (nested_keep a) (session_files s))
    (List.filter (session_keep a) sv) sv'.
Proof.
  unfold sessions_filtered. cbv zeta. rewrite sessions_narrowed.
  intros Hm. apply map_R_Ok in Hm.
  eapply Forall2_impl; [exact Hm|]. intros s s' Hs. simpl in Hs.
  by destruct (session_filtered_Ok _ _ _ Hs) as (E1 & E2 & E3 & _).
Qed.

(** X14. [filter] keeps what passes: the file list it returns holds the
    records of the source that pass every criterion given, in the order of
    the source; its sessions are those of the source whose subject and
    session pass, each left with those of its files that pass the other
    criteria; and the files of these sessions are again the records of
    the file list. *)
Theorem filter_keeps_what_passes `{Env} (a : Filter.t) (self self' : loc)
    (w : world) fv sv :
  built false w self ->
  facade_lists (heap w) self = Some (fv, sv) ->
  (dataset_filter self a w).2 = Ok self' ->
  exists fv' sv',
    facade_lists (heap (dataset_filter self a w).1) self' = Some (fv', sv')
    /\ fv' = List.filter (flat_keep a) fv
    /\ Forall2 (fun s s' =>
                  SessionItem.subject s' = SessionItem.subject s
                  /\ SessionItem.session s' = SessionItem.session s
                  /\ session_files s'
                     = List.filter (nested_keep a) (session_files s))
         (List.filter (session_keep a) sv) sv'
    /\ nested_files sv' = List.filter (flat_keep a) (nested_files sv).
Proof.
  intros Hb Hl Hok.
  destruct (built_facade_ok _ _ _ Hb) as [(fv0 & sv0 & Hl0 & Hwf & _) _].
  rewrite Hl in Hl0. injection Hl0 as <- <-. destruct Hwf as (_ & Hown & _).
  destruct (dataset_filter_ok_inv a self w fv sv self' Hl Hok)
    as (fv' & sv' & Hf & Hs & Hl' & _).
  exists fv', sv'. split; [done|]. split; [by apply files_filtered_Ok|].
  split; [by apply sessions_filtered_each|].
  by destruct (sessions_filtered_nested a sv sv' Hown Hs).
Qed.

Lemma filter_keeps_what_passes_witness :
  exists fv' sv',
    facade_lists
      (heap (@dataset_filter literal_env 0 (subject_only "sub-01")
               (raw_world true single_session_tree)).1) 18 = Some (fv', sv')
    /\ fv' = List.filter (@flat_keep literal_env (subject_only "sub-01"))
               raw_lists.1
    /\ Forall2 (fun s s' =>
                  SessionItem.subject s' = SessionItem.subject s
                  /\ SessionItem.session s' = SessionItem.session s
                  /\ session_files s'
                     = List.filter (@nested_keep literal_env (subject_only "sub-01"))
                         (session_files s))
         (List.filter (session_keep (subject_only "sub-01")) raw_lists.2) sv'
    /\ nested_files sv'
       = List.filter (@flat_keep literal_env (subject_only "sub-01"))
           (nested_files raw_lists.2).
Proof.
  apply (@filter_keeps_what_passes literal_env (subject_only "sub-01") 0 18
           (raw_world true single_session_tree) raw_lists.1 raw_lists.2).
  - apply raw_world_built.
  - vm_compute. reflexivity.
  - vm_compute. reflexivity.
Defined.

(* ===================================================================== *)
(** * FileItem.modify *)
(* ===================================================================== *)

Lemma str_contains_app (c : ascii) (a b : string) :
  str_contains c (a +:+ b) = str_contains c a || str_contains c b.
Proof.
  induction a as [|x a IH]; [done|].
  change (String x a +:+ b) with (String x (a +:+ b)). simpl.
  by rewrite IH, orb_assoc.
Qed.

Lemma str_split_clean (sep : ascii) (s : string) :
  Forall (fun x => str_contains sep x = false) (str_split sep s).
Proof.
  induction s as [|c s IH]; simpl; [by repeat constructor|].
  destruct (Ascii.eqb c sep) eqn:E; [by constructor|].
  destruct (str_split sep s) as [|h t].
  { constructor; [|constructor]. simpl. by rewrite E. }
  apply Forall_cons in IH as [Hh Ht]. constructor; [|done].
  simpl. by rewrite E, Hh.
Qed.

(** Joining clean segments and splitting again gives the segments back. *)
Lemma strip_split_join (sep : ascii) (l : list string) :
  Forall (fun x => x ≠ EmptyString /\ str_contains sep x = false) l ->
  strip_empty_str_in_list (str_split sep (str_join (String sep "") l)) = l.
Proof.
  induction 1 as [|x l [Hx Hc] Hl IH]; [done|].
  destruct l as [|y l].
  - simpl. rewrite (str_split_none _ _ Hc). simpl. by destruct x.
  - change (str_join (String sep "") (x :: y :: l))
      with (x +:+ String sep (str_join (String sep "") (y :: l))).
    rewrite str_split_app, strip_app, IH, (str_split_none _ _ Hc).
    simpl. by destruct x.
Qed.

Lemma strip_split_segments (sep : ascii) (s : string) :
  Forall (fun x => x ≠ EmptyString /\ str_contains sep x = false)
    (strip_empty_str_in_list (str_split sep s)).
Proof.
  apply Forall_forall. intros x Hx.
  apply list_elem_of_In, List.filter_In in Hx as [Hx Ht].
  split; [by destruct x|].
  pose proof (str_split_clean sep s) as Hc. rewrite Forall_forall in Hc.
  apply Hc. by apply list_elem_of_In.
Qed.

(** X15. A name made by [modify] parses back: when neither the file name
    of the record nor the prefix and suffix given hold a dot, the name
    [modify] returns (without [replace]) splits at its first dot into
    prefix + filename + suffix and the extension, which is the one asked
    for with its empty parts dropped, or the record's own if none was
    asked for; a record with that extension has the extension asked for.
    With [absdir=True] the same name is joined to the record's
    directory. *)
Theorem modified_name_parses_back `{ReSub} (f : FileItem.t)
    (prefix suffix ext : option string) :
  str_contains "."%char (FileItem.filename f) = false ->
  str_contains "."%char (default "" prefix) = false ->
  str_contains "."%char (default "" suffix) = false ->
  exists name new_ext,
    FileItem_modify f None prefix suffix ext (AbsBool false) = Ok name
    /\ FileItem_modify f None prefix suffix ext (AbsBool true)
       = Ok (os_path_join (FileItem.absdir f) name)
    /\ str_split1 "."%char name
       = [default "" prefix +:+ FileItem.filename f +:+ default "" suffix;
          new_ext]
    /\ new_ext
       = (if opt_truthy ext
          then str_join "."
                 (strip_empty_str_in_list (str_split "."%char (default "" ext)))
          else FileItem.fileext f)
    /\ (opt_truthy ext = true ->
        FileItem.has_ext
          (FileItem.mk (FileItem.subject f) (FileItem.session f)
             (FileItem.modal f) (FileItem.annotation f) (FileItem.absdir f)
             (default "" prefix +:+ FileItem.filename f +:+ default "" suffix)
             new_ext)
          (default "" ext) = true).
Proof.
  intros Hf Hp Hs.
  set (stem := default "" prefix +:+ FileItem.filename f +:+ default "" suffix).
  set (new_ext := if opt_truthy ext
                  then str_join "."
                         (strip_empty_str_in_list
                            (str_split "."%char (default "" ext)))
                  else FileItem.fileext f).
  assert (str_contains "."%char stem = false) as Hstem.
  { unfold stem. rewrite !str_contains_app, Hf, Hp, Hs. done. }
  exists (stem +:+ "." +:+ new_ext), new_ext.
  assert (forall b,
            FileItem_modify f None prefix suffix ext (AbsBool b)
            = Ok (if b then os_path_join (FileItem.absdir f)
                              (stem +:+ "." +:+ new_ext)
                  else stem +:+ "." +:+ new_ext)) as Hmod.
  { intros b. unfold FileItem_modify, stem, new_ext.
    destruct prefix as [[|c p]|], suffix as [[|c' s]|], ext as [[|c'' e]|];
      simpl; rewrite ?str_app_nil_r, ?str_app_assoc; try done;
      unfold FileItem.abspath, FileItem.basename; by destruct b. }
  split; [apply (Hmod false)|]. split; [apply (Hmod true)|].
  split; [by apply (str_split1_first "."%char)|]. split; [done|].
  intros Ht. unfold FileItem.has_ext, new_ext. simpl. rewrite Ht.
  apply bool_decide_eq_true_2.
  apply (strip_split_join "."%char), strip_split_segments.
Qed.

Lemma modified_name_parses_back_witness :
  let f := FileItem.mk "sub-01" None (Some "anat") (Some "data")
             "/data/sub-01/anat" "sub-01_T1w" "nii.gz" in
  exists name new_ext,
    @FileItem_modify literal_env literal_sub f None (Some "r") (Some "_brain")
      (Some ".nii") (AbsBool false) = Ok name
    /\ @FileItem_modify literal_env literal_sub f None (Some "r") (Some "_brain")
         (Some ".nii") (AbsBool true)
       = Ok (os_path_join "/data/sub-01/anat" name)
    /\ str_split1 "."%char name = ["rsub-01_T1w_brain"; new_ext]
    /\ new_ext = "nii"
    /\ (true = true ->
        FileItem.has_ext
          (FileItem.mk "sub-01" None (Some "anat") (Some "data")
             "/data/sub-01/anat" "rsub-01_T1w_brain" new_ext) ".nii" = true).
Proof.
  intros f.
  apply (@modified_name_parses_back literal_env literal_sub f (Some "r")
           (Some "_brain") (Some ".nii")); reflexivity.
Defined.

(* ===================================================================== *)
(** * The names of step directories *)
(* ===================================================================== *)

Lemma substring_full (s : string) : String.substring 0 (String.length s) s = s.
Proof. induction s as [|c s IH]; simpl; [done|]. by rewrite IH. Qed.

Lemma str_span_app (p : ascii -> bool) (a b : string) :
  str_forall p a = true ->
  match b with
  | EmptyString => true
  | String c _ => negb (p c)
  end = true ->
  str_span p (a +:+ b) = (a, b).
Proof.
  intros Ha Hb. induction a as [|x a IH].
  - destruct b as [|c b]; [done|]. simpl.
    apply negb_true_iff in Hb. by rewrite Hb.
  - change (String x a +:+ b) with (String x (a +:+ b)). simpl in *.
    apply andb_prop in Ha as [Hx Ha]. by rewrite Hx, (IH Ha).
Qed.

Lemma str_span_inv (p : ascii -> bool) (s a b : string) :
  str_span p s = (a, b) ->
  s = a +:+ b /\ str_forall p a = true
  /\ match b with
     | EmptyString => true
     | String c _ => negb (p c)
     end = true.
Proof.
  revert a. induction s as [|x s IH]; intros a; simpl.
  - by intros [= <- <-].
  - destruct (p x) eqn:Hx.
    + destruct (str_span p s) as [a' b'] eqn:Es. intros [= <- <-].
      destruct (IH a' eq_refl) as (-> & Ha & Hb). simpl. by rewrite Hx.
    + intros [= <- <-]. simpl. by rewrite Hx.
Qed.

Lemma str_length_app (a b : string) :
  String.length (a +:+ b) = (String.length a + String.length b)%nat.
Proof.
  induction a as [|x a IH]; [done|].
  change (String x a +:+ b) with (String x (a +:+ b)). simpl. by rewrite IH.
Qed.

Lemma substring_4 (a b c e : ascii) (s : string) :
  String.substring 0 4 (String a (String b (String c (String e s))))
  = String a (String b (String c (String e ""))).
Proof. by destruct s. Qed.

Lemma substring_4_rest (a b c e : ascii) (s : string) :
  String.substring 4
    (String.length (String a (String b (String c (String e s)))) - 4)
    (String a (String b (String c (String e s)))) = s.
Proof.
  change (String.substring 0 (String.length s - 0) s = s).
  rewrite Nat.sub_0_r. apply substring_full.
Qed.

(** X16. The name of a step directory and its parts: the directory name
    [id_name_annotation] that [StepItem.path] gives is matched by the step
    pattern of [ProcDataset] and decomposed into the same three parts when
    [id] is four digits, [name] is made of letters, digits and hyphens and
    [annotation] of letters and digits, also when other text follows the
    annotation; and whatever the pattern matches starts with the path of
    the parts it returns. *)
Theorem step_path_is_matched_back :
  (forall (id name annotation rest : string) (d : option loc),
     String.length id = 4%nat -> str_forall is_digit id = true ->
     name ≠ EmptyString -> str_forall is_step_name_char name = true ->
     annotation ≠ EmptyString -> str_forall is_alnum annotation = true ->
     match rest with
     | EmptyString => true
     | String c _ => negb (is_alnum c)
     end = true ->
     step_pattern_match (StepItem.path (StepItem.mk id name annotation d) +:+ rest)
     = Some (id, name, annotation))
  /\ (forall (s id name annotation : string),
        step_pattern_match s = Some (id, name, annotation) ->
        exists rest,
          s = StepItem.path (StepItem.mk id name annotation None) +:+ rest
          /\ String.length id = 4%nat /\ str_forall is_digit id = true
          /\ name ≠ EmptyString /\ str_forall is_step_name_char name = true
          /\ annotation ≠ EmptyString /\ str_forall is_alnum annotation = true).
Proof.
  split.
  - intros id name annotation rest d Hlen Hid Hn Hname Ha Hann Hrest.
    destruct id as [|a [|b [|c [|e [|]]]]]; try done.
    unfold StepItem.path, step_pattern_match. simpl StepItem.id.
    simpl StepItem.name. simpl StepItem.annotation.
    set (id := String a (String b (String c (String e "")))) in *.
    set (tail := name +:+ "_" +:+ annotation +:+ rest).
    assert (((id +:+ "_" +:+ name +:+ "_" +:+ annotation) +:+ rest)
            = String a (String b (String c (String e (String "_" tail)))))
      as ->.
    { unfold id, tail. rewrite !str_app_assoc. done. }
    change (String.substring 0 4 (String a (String b (String c (String e
              (String "_" tail)))))) with id.
    rewrite Hlen, Hid. simpl andb. cbv iota.
    change (String.length (String a (String b (String c (String e
              (String "_" tail))))) - 4)%nat
      with (String.length (String "_" tail)).
    change (String.substring 4 (String.length (String "_" tail))
              (String a (String b (String c (String e (String "_" tail))))))
      with (String.substring 0 (String.length (String "_" tail))
              (String "_" tail)).
    rewrite substring_full. unfold tail.
    rewrite (str_span_app is_step_name_char name) by done.
    rewrite (str_truthy_true _ Hn).
    change ("_" +:+ annotation +:+ rest) with (String "_" (annotation +:+ rest)).
    simpl.
    rewrite (str_span_app is_alnum annotation rest Hann Hrest).
    by rewrite (str_truthy_true _ Ha).
  - intros s id name annotation. unfold step_pattern_match.
    destruct s as [|a [|b [|c [|e s]]]]; [by simpl..|].
    rewrite substring_4, substring_4_rest.
    destruct (str_forall is_digit _) eqn:Hid; [|done]. simpl andb. cbv iota.
    destruct s as [|u s]; [done|].
    destruct (ascii_dec u "_") as [->|Hne].
    2: { destruct u as [[] [] [] [] [] [] [] []]; try done. }
    destruct (str_span is_step_name_char s) as [n r] eqn:En.
    destruct (str_truthy n) eqn:Hn; [|done].
    destruct r as [|u r]; [done|].
    destruct (ascii_dec u "_") as [->|Hne].
    2: { destruct u as [[] [] [] [] [] [] [] []]; try done. }
    destruct (str_span is_alnum r) as [an r'] eqn:Ea.
    destruct (str_truthy an) eqn:Han; [|done].
    intros [= <- <- <-].
    apply str_span_inv in En as (-> & Hname & _).
    apply str_span_inv in Ea as (-> & Hann & _).
    exists r'. unfold StepItem.path. simpl.
    split; [by rewrite !str_app_assoc|]. split; [done|]. split; [done|].
    split; [by destruct n|]. split; [done|]. split; [by destruct an|done].
Qed.

Lemma step_path_is_matched_back_witness :
  step_pattern_match
    (StepItem.path (StepItem.mk "0012" "motion-corr" "v2" None) +:+ ".bak")
  = Some ("0012", "motion-corr", "v2")
  /\ exists rest,
       "0012_motion_corr_v2"
       = StepItem.path (StepItem.mk "0012" "motion" "corr" None) +:+ rest
       /\ String.length "0012" = 4%nat /\ str_forall is_digit "0012" = true
       /\ "motion" ≠ EmptyString /\ str_forall is_step_name_char "motion" = true
       /\ "corr" ≠ EmptyString /\ str_forall is_alnum "corr" = true.
Proof.
  split.
  - apply (proj1 step_path_is_matched_back "0012" "motion-corr" "v2" ".bak" None);
      (reflexivity || discriminate).
  - apply (proj2 step_path_is_matched_back "0012_motion_corr_v2" "0012" "motion"
             "corr").
    reflexivity.
Defined.

(* ===================================================================== *)
(** * Sorting *)
(* ===================================================================== *)

Section SortedBy.
Context {A : Type} (c : A -> A -> comparison) (Hc : ordering c).

Lemma ordering_asym a b : is_lt (c a b) = true -> is_lt (c b a) = false.
Proof.
  rewrite (ordering_antisym c Hc a b). by destruct (c a b).
Qed.

Lemma ordering_le_trans a b d :
  is_lt (c b a) = false -> is_lt (c d b) = false -> is_lt (c d a) = false.
Proof.
  intros H1 H2. destruct (c d a) eqn:E; try done. exfalso.
  assert (c a d = Gt) as Had.
  { by rewrite (ordering_antisym c Hc d a), E. }
  destruct (c d b) eqn:E2; [|done|].
  - rewrite (ordering_eq c Hc d b a E2) in E. by rewrite E in H1.
  - assert (c b d = Lt) as Hbd.
    { by rewrite (ordering_antisym c Hc d b), E2. }
    destruct (c b a) eqn:E1; [|done|].
    + rewrite (ordering_eq c Hc b a d E1) in Hbd. congruence.
    + assert (c a b = Lt) as Hab.
      { by rewrite (ordering_antisym c Hc b a), E1. }
      pose proof (ordering_trans c Hc a b d Hab Hbd). congruence.
Qed.

Lemma insert_sorted_by x l :
  sorted_by (fun a b => is_lt (c a b)) l ->
  sorted_by (fun a b => is_lt (c a b)) (insert_sorted (fun a b => is_lt (c a b)) x l).
Proof.
  induction l as [|y l IH]; simpl; [done|]. intros [Hy Hl].
  destruct (is_lt (c y x)) eqn:E; simpl.
  - split; [|by apply IH].
    rewrite (insert_sorted_Permutation _ x l). constructor; [|done].
    by apply ordering_asym.
  - split; [|done]. constructor; [done|].
    eapply Forall_impl; [exact Hy|]. intros z Hz. simpl in Hz.
    by apply (ordering_le_trans x y z).
Qed.

Lemma sorted_sorted_by l :
  sorted_by (fun a b => is_lt (c a b)) (sorted (fun a b => is_lt (c a b)) l).
Proof.
  induction l as [|x l IH]; simpl; [done|]. by apply insert_sorted_by.
Qed.
End SortedBy.

Lemma sorted_by_filter {A} (lt : A -> A -> bool) (p : A -> bool) (l : list A) :
  sorted_by lt l -> sorted_by lt (List.filter p l).
Proof.
  induction l as [|x l IH]; simpl; [done|]. intros [Hx Hl].
  destruct (p x); simpl; [|by apply IH]. split; [|by apply IH].
  apply Forall_forall. intros y Hy.
  apply list_elem_of_In, List.filter_In in Hy as [Hy _].
  rewrite Forall_forall in Hx. apply Hx. by apply list_elem_of_In.
Qed.

Lemma sorted_by_keys {A K} (key : A -> K) (ltk : K -> K -> bool) (l : list A) :
  sorted_by (fun a b => ltk (key a) (key b)) l <-> sorted_by ltk (map key l).
Proof.
  induction l as [|x l IH]; simpl; [done|]. rewrite IH, Forall_map. done.
Qed.

Lemma ordering_then {A} (c1 c2 : A -> A -> comparison) :
  ordering c1 -> ordering c2 -> ordering (fun a b => cmp_then (c1 a b) (c2 a b)).
Proof.
  intros [A1 T1 E1] [A2 T2 E2]. split.
  - intros a b. rewrite (A1 a b), (A2 a b). by destruct (c1 a b).
  - intros a b d. unfold cmp_then.
    destruct (c1 a b) eqn:Eab; try done; destruct (c1 b d) eqn:Ebd; try done.
    + rewrite (E1 a b d Eab), Ebd. apply T2.
    + by rewrite (E1 a b d Eab), Ebd.
    + intros _ _. pose proof (A1 d b) as Hdb. rewrite (A1 b d), Ebd in Hdb.
      assert (c1 a d = c1 a b) as ->; [|by rewrite Eab].
      pose proof (A1 a d) as H1. pose proof (A1 a b) as H2.
      pose proof (A1 b d) as H3. rewrite Ebd in H3. simpl in H3.
      pose proof (E1 d b a H3) as H4. rewrite H1, H2 in H4.
      by destruct (c1 a d), (c1 a b).
    + intros _ _. by rewrite (T1 a b d Eab Ebd).
  - intros a b d. unfold cmp_then.
    destruct (c1 a b) eqn:Eab; try done. intros E.
    by rewrite (E1 a b d Eab), (E2 a b d E).
Qed.

Lemma ordering_key {A B} (f : B -> A) (c : A -> A -> comparison) :
  ordering c -> ordering (fun a b => c (f a) (f b)).
Proof. intros [A1 T1 E1]. split; eauto. Qed.

Lemma string_compare_trans (a b d : string) :
  String.compare a b = Lt -> String.compare b d = Lt -> String.compare a d = Lt.
Proof.
  intros Hab Hbd.
  assert (String.le a d) as Had.
  { transitivity b; unfold String.le, String.leb; by rewrite ?Hab, ?Hbd. }
  unfold String.le, String.leb in Had.
  destruct (String.compare a d) eqn:E; [|done|done].
  apply String.compare_eq_iff in E as ->.
  rewrite String.compare_antisym, Hab in Hbd. done.
Qed.

Lemma ordering_string : ordering String.compare.
Proof.
  split.
  - intros a b. apply String.compare_antisym.
  - apply string_compare_trans.
  - intros a b d E. by apply String.compare_eq_iff in E as ->.
Qed.

Lemma ordering_opt : ordering cmp_opt.
Proof.
  destruct ordering_string as [A1 T1 E1]. split.
  - intros [a|] [b|]; simpl; auto.
  - intros [a|] [b|] [d|]; simpl; try done. apply T1.
  - intros [a|] [b|] [d|]; simpl; try done. apply E1.
Qed.

Lemma ordering_file : ordering file_cmp.
Proof.
  unfold file_cmp.
  apply (ordering_then (fun a b => String.compare (FileItem.subject a)
                                     (FileItem.subject b))).
  { apply (ordering_key FileItem.subject), ordering_string. }
  apply (ordering_then (fun a b => cmp_opt (FileItem.session a)
                                     (FileItem.session b))).
  { apply (ordering_key FileItem.session), ordering_opt. }
  apply (ordering_then (fun a b => cmp_opt (FileItem.modal a) (FileItem.modal b))).
  { apply (ordering_key FileItem.modal), ordering_opt. }
  apply (ordering_then (fun a b => String.compare (FileItem.filename a)
                                     (FileItem.filename b))).
  { apply (ordering_key FileItem.filename), ordering_string. }
  apply (ordering_key FileItem.fileext), ordering_string.
Qed.

Lemma ordering_session : ordering session_cmp.
Proof.
  unfold session_cmp.
  apply (ordering_then (fun a b => String.compare (SessionItem.subject a)
                                     (SessionItem.subject b))).
  { apply (ordering_key SessionItem.subject), ordering_string. }
  apply (ordering_key SessionItem.session), ordering_opt.
Qed.

(* ===================================================================== *)
(** * What holds of the lists of every dataset *)
(* ===================================================================== *)

(** A property of the two lists that the constructor establishes and
    filtering keeps holds of every dataset. *)
Lemma built_invariant `{Env}
    (P : list FileItem.t -> list SessionItem.t -> Prop) validated w self :
  (forall k d sl fl,
     _constructor d (Dataset._files_by_depth d) (depth_ref k) (has_modal k)
     = Ok (sl, fl) -> P fl sl) ->
  (forall a fv sv fv' sv',
     P fv sv -> files_filtered a fv = Ok fv' ->
     sessions_filtered a sv = Ok sv' -> P fv' sv') ->
  built validated w self ->
  exists fv sv, facade_lists (heap w) self = Some (fv, sv) /\ P fv sv.
Proof.
  intros Hnew Hfilter.
  induction 1 as [k path validate dir_only w w' self Hv Hrun
                 |a w w' self self' _ IH Hrun
                 |k path validate dir_only w w' r self _ IH Hrun
                 |a other w w' r self _ IH Hrun].
  - destruct (dataset_init_new_spec _ _ _ _ _ _ _ Hrun)
      as (d & sl & fl & Hc & _ & Hfac & _).
    exists fl, sl. split; [done|]. by apply (Hnew k d).
  - destruct IH as (fv & sv & Hfac & HP).
    pose proof (dataset_filter_ok_inv a self w fv sv self' Hfac) as Hinv.
    rewrite Hrun in Hinv.
    destruct (Hinv eq_refl) as (fv' & sv' & Hf & Hs & Hfac' & _).
    exists fv', sv'. split; [done|]. by apply (Hfilter a fv sv).
  - destruct IH as (fv & sv & Hfac & HP). exists fv, sv. split; [|done].
    assert (sub_heap (heap w) (heap w')) as Hsub.
    { pose proof (frames_sub_heap _ _ w
                    (frames_dataset_init (length (heap w)) k path validate None
                       dir_only)) as Hs.
      by rewrite Hrun in Hs. }
    by apply (facade_lists_grow _ _ Hsub).
  - destruct IH as (fv & sv & Hfac & HP). exists fv, sv. split; [|done].
    assert (sub_heap (heap w) (heap w')) as Hsub.
    { pose proof (frames_sub_heap _ _ w
                    (frames_dataset_filter (length (heap w)) other a)) as Hs.
      by rewrite Hrun in Hs. }
    by apply (facade_lists_grow _ _ Hsub).
Qed.

(** X17. The lists of every dataset are sorted: the file list by subject,
    session, modality, file name and extension, the session list by
    subject and session; the constructor sorts them, and filtering keeps
    the order. *)
Theorem lists_are_sorted `{Env} (w : world) (self : loc) :
  built false w self ->
  exists fv sv,
    facade_lists (heap w) self = Some (fv, sv)
    /\ sorted_by file_lt fv /\ sorted_by session_lt sv.
Proof.
  apply (built_invariant
           (fun fv sv => sorted_by file_lt fv /\ sorted_by session_lt sv)).
  - intros k d sl fl Hc. unfold _constructor in Hc.
    destruct (by_depth_get _ _) as [level|]; [|done]. simpl in Hc.
    destruct (construct_paths _ _ _ _) as [st|]; [|done]. simpl in Hc.
    injection Hc as <- <-. split.
    + apply (sorted_sorted_by file_cmp ordering_file).
    + apply (sorted_sorted_by session_cmp ordering_session).
  - intros a fv sv fv' sv' [Hf Hs] Hfv Hsv. split.
    + rewrite (files_filtered_Ok _ _ _ Hfv). by apply sorted_by_filter.
    + apply (sorted_by_keys session_key
               (fun a b => is_lt (cmp_then (String.compare a.1 b.1)
                                           (cmp_opt a.2 b.2)))).
      rewrite (sessions_filtered_keys a sv sv' Hsv).
      apply (sorted_by_keys session_key
               (fun a b => is_lt (cmp_then (String.compare a.1 b.1)
                                           (cmp_opt a.2 b.2)))).
      by apply sorted_by_filter.
Qed.

Lemma lists_are_sorted_witness :
  exists fv sv,
    facade_lists
      (heap (@dataset_filter literal_env 0 (subject_only "sub-01")
               (raw_world true single_session_tree)).1) 18 = Some (fv, sv)
    /\ sorted_by file_lt fv /\ sorted_by session_lt sv.
Proof.
  apply (@lists_are_sorted literal_env). apply filtered_world_built.
Defined.

(* ===================================================================== *)
(** * Sessions group their files by modality *)
(* ===================================================================== *)

Lemma parse_meta_falsy md ref m sp subj sess modal :
  parse_meta md ref m sp = Ok (subj, sess, modal) ->
  opt_truthy modal = false -> modal = None.
Proof.
  intros Hp Ht. rewrite (parse_meta_truthy _ _ _ _ _ _ _ Hp) in Ht.
  unfold parse_meta in Hp. rewrite Ht in Hp.
  destruct (bool_decide (md = MaxDepthRef.single_session ref)).
  - destruct (str_to_list sp); [done|]. by injection Hp as _ _ <-.
  - destruct (bool_decide (md = MaxDepthRef.multi_session ref)); [|done].
    destruct (str_to_list sp) as [|a [|b [|]]]; try done.
    by injection Hp as _ _ <-.
Qed.

Lemma session_add_grouped modal finfo files files' :
  grouped_by_modality files ->
  FileItem.modal finfo = modal ->
  (opt_truthy modal = false -> modal = None) ->
  session_add modal finfo files = Ok files' ->
  grouped_by_modality files'.
Proof.
  intros Hg Hm Hnone. unfold session_add.
  destruct (opt_truthy modal) eqn:Ht, files as [l|d]; try done;
    intros [= <-]; simpl in *.
  - destruct Hg as [Hnd Hall]. split; [by apply dict_set_NoDup|].
    destruct modal as [m|]; [|done]. simpl.
    apply dict_set_Forall; [done|]. simpl. apply Forall_app. split.
    + destruct (dict_get m d) as [bucket|] eqn:Eg; simpl; [|done].
      apply (dict_get_Forall _ _ _ _ Hall Eg).
    + by constructor.
  - apply Forall_app. split; [done|]. constructor; [|done].
    by rewrite Hm, (Hnone eq_refl).
Qed.

Lemma construct_files_grouped abs_path abs_path_list subj sess modal sess_path
    filenames files fl files' fl' :
  grouped_by_modality files ->
  (opt_truthy modal = false -> modal = None) ->
  construct_files abs_path abs_path_list subj sess modal sess_path filenames
    (files, fl) = Ok (files', fl') ->
  grouped_by_modality files'.
Proof.
  intros Hg Hnone. revert files fl Hg.
  induction filenames as [|f filenames IH]; intros files fl Hg; simpl.
  - by intros [= <- <-].
  - destruct (new_file_item _ _ _ _ _ _ f) as [finfo|] eqn:E1; simpl; [|done].
    destruct (session_add modal finfo files) as [files1|] eqn:E2; simpl; [|done].
    apply new_file_item_owner in E1 as (_ & _ & Hm & _).
    apply IH. by apply (session_add_grouped modal finfo files).
Qed.

Lemma session_sort_grouped modal files files' :
  grouped_by_modality files ->
  session_sort modal files = Ok files' ->
  grouped_by_modality files'.
Proof.
  intros Hg. unfold session_sort.
  destruct (opt_truthy modal), files as [l|d]; try done; simpl in *.
  - destruct (dict_get (default "" modal) d) as [bucket|] eqn:Eg; [|done].
    intros [= <-]. destruct Hg as [Hnd Hall]. split; [by apply dict_set_NoDup|].
    apply dict_set_Forall; [done|]. simpl.
    rewrite sorted_Permutation. apply (dict_get_Forall _ _ _ _ Hall Eg).
  - intros [= <-]. simpl. by rewrite sorted_Permutation.
  - destruct d; [|done]. intros [= <-]. constructor.
Qed.

Lemma lookup_session_Forall (Q : SessionItem.t -> Prop) subj sess modal
    processed sl i processed' sl' :
  Q (SessionItem.mk subj sess (if opt_truthy modal then FDict [] else FList [])) ->
  Forall Q sl ->
  lookup_session subj sess modal processed sl = Ok (i, processed', sl') ->
  Forall Q sl'.
Proof.
  intros Hnew Hall. unfold lookup_session. destruct (str_in _ processed).
  - destruct (list_find _ sl) as [[j x]|]; [|done]. by intros [= <- <- <-].
  - intros [= <- <- <-]. apply Forall_app. split; [done|]. by constructor.
Qed.

Lemma construct_path_grouped self ref st item st' :
  Forall (fun s => grouped_by_modality (SessionItem.files s)) (c_session_list st) ->
  construct_path self ref st item = Ok st' ->
  Forall (fun s => grouped_by_modality (SessionItem.files s)) (c_session_list st').
Proof.
  intros Hall. destruct item as [sess_path filenames]. unfold construct_path.
  destruct (parse_meta _ _ _ _) as [[[subj sess] modal]|] eqn:Ep; simpl; [|done].
  destruct (lookup_session _ _ _ _ _) as [[[i processed] sl]|] eqn:E1; simpl;
    [|done].
  apply (lookup_session_Forall _ _ _ _ _ _ _ _ _) with (2 := Hall) in E1.
  2: { simpl. destruct (opt_truthy modal); simpl; [|constructor].
       split; constructor. }
  destruct (sl !! i) as [sinfo|] eqn:Hi; [|done].
  destruct (construct_files _ _ _ _ _ _ _ _) as [[files fl]|] eqn:E2; simpl;
    [|done].
  destruct (session_sort modal files) as [files'|] eqn:E3; simpl; [|done].
  intros [= <-]. simpl. apply Forall_insert; [done|]. simpl.
  apply (session_sort_grouped modal files); [|done].
  apply construct_files_grouped in E2; [done| |].
  - rewrite Forall_forall in E1. apply E1. by apply list_elem_of_lookup_2 in Hi.
  - by apply (parse_meta_falsy _ _ _ _ _ _ _ Ep).
Qed.

Lemma construct_paths_grouped self ref items st st' :
  Forall (fun s => grouped_by_modality (SessionItem.files s)) (c_session_list st) ->
  construct_paths self ref items st = Ok st' ->
  Forall (fun s => grouped_by_modality (SessionItem.files s)) (c_session_list st').
Proof.
  revert st. induction items as [|item items IH]; intros st Hall; simpl.
  - by intros [= <-].
  - destruct (construct_path self ref st item) as [st1|] eqn:E; simpl; [|done].
    apply IH. by apply (construct_path_grouped self ref st item).
Qed.

Lemma filter_R_grouped (p : FileItem.t -> result bool) (m : option string) l l' :
  Forall (fun f => FileItem.modal f = m) l ->
  filter_R p l = Ok l' -> Forall (fun f => FileItem.modal f = m) l'.
Proof.
  intros Hl Hf. rewrite (filter_R_Ok _ _ _ Hf). apply Forall_forall.
  intros f Hin. apply list_elem_of_In, List.filter_In in Hin as [Hin _].
  rewrite Forall_forall in Hl. apply Hl. by apply list_elem_of_In.
Qed.

Lemma collection_select_grouped p c c' :
  grouped_by_modality c -> collection_select p c = Ok c' ->
  grouped_by_modality c'.
Proof.
  destruct c as [l|d]; simpl.
  - intros Hl. destruct (filter_R p l) as [l'|] eqn:E; [|done].
    intros [= <-]. by apply (filter_R_grouped p None l).
  - intros [Hnd Hall].
    destruct (map_R _ d) as [d'|] eqn:E; [|done]. intros [= <-].
    apply map_R_Ok in E.
    assert (dict_keys d' = dict_keys d
            /\ Forall (fun kv => Forall (fun f => FileItem.modal f = Some kv.1)
                                   kv.2) d') as [Hk Hall'].
    { clear Hnd. induction E as [|[m fs] [m' fs'] d d' Hx _ IH]; [done|].
      apply Forall_cons in Hall as [Hfs Hall]. destruct (IH Hall) as [IH1 IH2].
      simpl in Hx. destruct (filter_R p fs) as [fs1|] eqn:Ef; [|done].
      injection Hx as <- <-. unfold dict_keys in *. simpl. rewrite IH1.
      split; [done|]. constructor; [|done]. simpl.
      by apply (filter_R_grouped p (Some m) fs). }
    split; [by rewrite Hk|done].
Qed.

Lemma collection_narrow_grouped b p c c' :
  grouped_by_modality c -> collection_narrow b p c = Ok c' ->
  grouped_by_modality c'.
Proof.
  destruct b; simpl; [apply collection_select_grouped|]. by intros ? [= <-].
Qed.

Lemma collection_prune_grouped c :
  grouped_by_modality c -> grouped_by_modality (collection_prune c).
Proof.
  destruct c as [l|d]; simpl; [done|]. intros [Hnd Hall]. split.
  - unfold dict_keys in *. induction d as [|[m fs] d IH]; simpl; [constructor|].
    simpl in Hnd. apply NoDup_cons in Hnd as [Hm Hnd].
    apply Forall_cons in Hall as [_ Hall].
    destruct (negb _); simpl; [|by apply IH].
    apply NoDup_cons. split; [|by apply IH].
    intros Hin. apply Hm. apply list_elem_of_fmap in Hin as (kv & -> & Hin).
    apply list_elem_of_In, List.filter_In in Hin as [Hin _].
    apply list_elem_of_fmap. exists kv. split; [done|]. by apply list_elem_of_In.
  - apply Forall_forall. intros kv Hin.
    apply list_elem_of_In, List.filter_In in Hin as [Hin _].
    rewrite Forall_forall in Hall. apply Hall. by apply list_elem_of_In.
Qed.

Lemma collection_filtered_grouped `{Env} (a : Filter.t) c c' :
  grouped_by_modality c -> collection_filtered a c = Ok c' ->
  grouped_by_modality c'.
Proof.
  intros Hg. unfold collection_filtered.
  destruct (collection_narrow _ _ c) as [c1|] eqn:E1; [|done]. simpl.
  destruct (collection_narrow _ _ c1) as [c2|] eqn:E2; [|done]. simpl.
  destruct (collection_narrow _ _ c2) as [c3|] eqn:E3; [|done]. simpl.
  destruct (collection_narrow _ _ c3) as [c4|] eqn:E4; [|done]. simpl.
  destruct (collection_narrow _ _ c4) as [c5|] eqn:E5; [|done]. simpl.
  intros [= <-]. apply collection_prune_grouped.
  apply collection_narrow_grouped in E1; [|done].
  apply collection_narrow_grouped in E2; [|done].
  apply collection_narrow_grouped in E3; [|done].
  apply collection_narrow_grouped in E4; [|done].
  by apply collection_narrow_grouped in E5.
Qed.

(** X18. The sessions of every dataset group their files by modality: a
    dict of files has one entry per modality and each entry holds records
    of that modality only, a list of files holds records without modality;
    the constructor builds the sessions so, and filtering keeps them
    so. *)
Theorem sessions_group_files_by_modality `{Env} (w : world) (self : loc) :
  built false w self ->
  exists fv sv,
    facade_lists (heap w) self = Some (fv, sv)
    /\ Forall (fun s => grouped_by_modality (SessionItem.files s)) sv.
Proof.
  apply (built_invariant
           (fun fv sv => Forall (fun s => grouped_by_modality (SessionItem.files s))
                           sv)).
  - intros k d sl fl Hc. unfold _constructor in Hc.
    destruct (by_depth_get _ _) as [level|]; [|done]. simpl in Hc.
    destruct (construct_paths _ _ _ _) as [st|] eqn:Ep; [|done]. simpl in Hc.
    injection Hc as <- <-. rewrite sorted_Permutation.
    eapply construct_paths_grouped; [|exact Ep]. constructor.
  - intros a fv sv fv' sv' Hall _ Hsv. unfold sessions_filtered in Hsv.
    cbv zeta in Hsv. rewrite sessions_narrowed in Hsv. apply map_R_Ok in Hsv.
    assert (Forall (fun s => grouped_by_modality (SessionItem.files s))
              (List.filter (session_keep a) sv)) as Hkept.
    { apply Forall_forall. intros s Hs.
      apply list_elem_of_In, List.filter_In in Hs as [Hs _].
      rewrite Forall_forall in Hall. apply Hall. by apply list_elem_of_In. }
    induction Hsv as [|s s' l l' Hs _ IH]; [constructor|].
    apply Forall_cons in Hkept as [Hg Hkept]. constructor; [|by apply IH].
    unfold session_filtered in Hs.
    destruct (collection_filtered a (SessionItem.files s)) as [c|] eqn:Ec; [|done].
    injection Hs as <-. simpl. by apply (collection_filtered_grouped a _ c Hg).
Qed.

Lemma sessions_group_files_by_modality_witness :
  exists fv sv,
    facade_lists
      (heap (@dataset_filter literal_env 0 (subject_only "sub-01")
               (raw_world true single_session_tree)).1) 18 = Some (fv, sv)
    /\ Forall (fun s => grouped_by_modality (SessionItem.files s)) sv.
Proof.
  apply (@sessions_group_files_by_modality literal_env).
  apply filtered_world_built.
Defined.

(* ===================================================================== *)
(** * Filters commute *)
(* ===================================================================== *)

Lemma collection_select_Ok p c c' :
  collection_select p c = Ok c' ->
  c' = match c with
       | FList l => FList (List.filter (holds p) l)
       | FDict d => FDict (map (fun kv => (fst kv, List.filter (holds p) (snd kv))) d)
       end.
Proof.
  destruct c as [l|d]; simpl.
  - destruct (filter_R p l) as [l'|] eqn:E; [|done]. intros [= <-].
    by rewrite (filter_R_Ok _ _ _ E).
  - destruct (map_R _ d) as [d'|] eqn:E; [|done]. intros [= <-]. f_equal.
    apply map_R_Ok in E. induction E as [|[m fs] [m' fs'] d d' Hx _ IH]; [done|].
    simpl in *. destruct (filter_R p fs) as [fs1|] eqn:Ef; [|done].
    injection Hx as <- <-. by rewrite (filter_R_Ok _ _ _ Ef), IH.
Qed.

Lemma collection_narrow_Ok b p c c' :
  collection_narrow b p c = Ok c' ->
  c' = match c with
       | FList l => FList (List.filter (guard b p) l)
       | FDict d =>
           FDict (map (fun kv => (fst kv, List.filter (guard b p) (snd kv))) d)
       end.
Proof.
  destruct b; simpl.
  - apply collection_select_Ok.
  - intros [= <-]. destruct c as [l|d]; f_equal.
    + symmetry. by apply filter_all, Forall_forall.
    + induction d as [|[m fs] d IH]; simpl; [done|]. rewrite <- IH. f_equal.
      f_equal. symmetry. by apply filter_all, Forall_forall.
Qed.

Lemma map_bucket_filter (p q : FileItem.t -> bool)
    (d : dict string (list FileItem.t)) :
  map (fun kv => (fst kv, List.filter p (snd kv)))
    (map (fun kv => (fst kv, List.filter q (snd kv))) d)
  = map (fun kv => (fst kv, List.filter (fun x => q x && p x) (snd kv))) d.
Proof.
  rewrite map_map. apply map_ext. intros [m fs]. simpl. by rewrite filter_filter.
Qed.

Lemma collection_filtered_Ok `{Env} (a : Filter.t) c c' :
  collection_filtered a c = Ok c' -> c' = collection_kept (nested_keep a) c.
Proof.
  unfold collection_filtered.
  destruct (collection_narrow _ _ c) as [c1|] eqn:E1; [|done]. simpl.
  destruct (collection_narrow _ _ c1) as [c2|] eqn:E2; [|done]. simpl.
  destruct (collection_narrow _ _ c2) as [c3|] eqn:E3; [|done]. simpl.
  destruct (collection_narrow _ _ c3) as [c4|] eqn:E4; [|done]. simpl.
  destruct (collection_narrow _ _ c4) as [c5|] eqn:E5; [|done]. simpl.
  intros [= <-]. unfold collection_kept. f_equal.
  apply collection_narrow_Ok in E1, E2, E3, E4, E5. subst.
  assert (forall f,
    guard (strs_truthy (Filter.modal a)) (by_modal (strs_list (Filter.modal a))) f
    && guard (strs_truthy (Filter.annotation a))
         (by_annotation (strs_list (Filter.annotation a))) f
    && guard (opt_truthy (Filter.regex a)) (by_regex (default "" (Filter.regex a))) f
    && guard (opt_truthy (Filter.regex_ignore a))
         (by_regex_ignore (default "" (Filter.regex_ignore a))) f
    && guard (opt_truthy (Filter.ext a)) (by_ext (default "" (Filter.ext a))) f
    = nested_keep a f) as Hk by done.
  destruct c as [l|d].
  - rewrite !filter_filter. f_equal. apply List.filter_ext. intros f.
    by rewrite <- Hk, !andb_assoc.
  - rewrite !map_bucket_filter. f_equal. apply map_ext. intros [m fs]. simpl.
    f_equal. apply List.filter_ext. intros f. by rewrite <- Hk, !andb_assoc.
Qed.

Lemma sessions_filtered_Ok `{Env} (a : Filter.t) sv sv' :
  sessions_filtered a sv = Ok sv' ->
  sv' = map (session_kept (nested_keep a)) (List.filter (session_keep a) sv).
Proof.
  unfold sessions_filtered. cbv zeta. rewrite sessions_narrowed.
  intros Hm. apply map_R_Ok in Hm.
  induction Hm as [|s s' l l' Hs _ IH]; [done|]. simpl. rewrite IH. f_equal.
  unfold session_filtered in Hs.
  destruct (collection_filtered a (SessionItem.files s)) as [c|] eqn:Ec; [|done].
  injection Hs as <-. by rewrite (collection_filtered_Ok a _ c Ec).
Qed.

Lemma collection_kept_twice (p q : FileItem.t -> bool) c :
  collection_kept p (collection_kept q c)
  = collection_kept (fun x => q x && p x) c.
Proof.
  unfold collection_kept. destruct c as [l|d]; simpl.
  - by rewrite filter_filter.
  - f_equal. induction d as [|[m fs] d IH]; simpl; [done|].
    destruct (List.filter q fs) as [|x fs'] eqn:Eq; simpl.
    + rewrite IH.
      assert (List.filter (fun x => q x && p x) fs = []) as ->; [|done].
      rewrite <- filter_filter, Eq. done.
    + rewrite <- (filter_filter p q fs), Eq, IH. done.
Qed.

Lemma collection_kept_ext (p q : FileItem.t -> bool) c :
  (forall x, p x = q x) -> collection_kept p c = collection_kept q c.
Proof.
  intros Hpq. unfold collection_kept. destruct c as [l|d]; simpl.
  - f_equal. by apply List.filter_ext.
  - do 2 f_equal. apply map_ext. intros [m fs]. simpl. f_equal.
    by apply List.filter_ext.
Qed.

Lemma sessions_kept_twice `{Env} (a b : Filter.t) sv :
  map (session_kept (nested_keep b))
    (List.filter (session_keep b)
       (map (session_kept (nested_keep a)) (List.filter (session_keep a) sv)))
  = map (session_kept (fun x => nested_keep a x && nested_keep b x))
      (List.filter (fun s => session_keep a s && session_keep b s) sv).
Proof.
  rewrite filter_map_comm, map_map, filter_filter. apply map_ext.
  intros s. unfold session_kept. simpl. by rewrite collection_kept_twice.
Qed.

(** X19. Filters commute: filtering by one set of criteria and the result
    by another gives the same file list and the same sessions as filtering
    in the other order, whenever the four calls return. *)
Theorem filters_commute `{Env} (a b : Filter.t) (self s_a s_ab s_b s_ba : loc)
    (w : world) fv sv :
  facade_lists (heap w) self = Some (fv, sv) ->
  (dataset_filter self a w).2 = Ok s_a ->
  (dataset_filter s_a b (dataset_filter self a w).1).2 = Ok s_ab ->
  (dataset_filter self b w).2 = Ok s_b ->
  (dataset_filter s_b a (dataset_filter self b w).1).2 = Ok s_ba ->
  facade_lists (heap (dataset_filter s_a b (dataset_filter self a w).1).1) s_ab
  = facade_lists (heap (dataset_filter s_b a (dataset_filter self b w).1).1) s_ba.
Proof.
  intros Hl Ha Hab Hb Hba.
  destruct (dataset_filter_ok_inv a self w fv sv s_a Hl Ha)
    as (fa & sa & Hfa & Hsa & Hla & _).
  destruct (dataset_filter_ok_inv b s_a _ fa sa s_ab Hla Hab)
    as (fab & sab & Hfab & Hsab & Hlab & _).
  destruct (dataset_filter_ok_inv b self w fv sv s_b Hl Hb)
    as (fb & sb & Hfb & Hsb & Hlb & _).
  destruct (dataset_filter_ok_inv a s_b _ fb sb s_ba Hlb Hba)
    as (fba & sba & Hfba & Hsba & Hlba & _).
  rewrite Hlab, Hlba. do 2 f_equal.
  - rewrite (files_filtered_Ok _ _ _ Hfab), (files_filtered_Ok _ _ _ Hfa).
    rewrite (files_filtered_Ok _ _ _ Hfba), (files_filtered_Ok _ _ _ Hfb).
    rewrite !filter_filter. apply List.filter_ext. intros f. apply andb_comm.
  - rewrite (sessions_filtered_Ok _ _ _ Hsab), (sessions_filtered_Ok _ _ _ Hsa).
    rewrite (sessions_filtered_Ok _ _ _ Hsba), (sessions_filtered_Ok _ _ _ Hsb).
    rewrite !sessions_kept_twice.
    rewrite (List.filter_ext (fun s => session_keep b s && session_keep a s)
               (fun s => session_keep a s && session_keep b s));
      [|intros s; apply andb_comm].
    apply map_ext. intros s. unfold session_kept. f_equal.
    apply collection_kept_ext. intros f. apply andb_comm.
Qed.

Lemma filters_commute_witness :
  facade_lists
    (heap (@dataset_filter literal_env 18 (ext_only "nii.gz")
             (@dataset_filter literal_env 0 (subject_only "sub-01")
                (raw_world true single_session_tree)).1).1) 27
  = facade_lists
      (heap (@dataset_filter literal_env 23 (subject_only "sub-01")
               (@dataset_filter literal_env 0 (ext_only "nii.gz")
                  (raw_world true single_session_tree)).1).1) 31.
Proof.
  apply (@filters_commute literal_env (subject_only "sub-01") (ext_only "nii.gz")
           0 18 27 23 31 (raw_world true single_session_tree)
           raw_lists.1 raw_lists.2);
    vm_compute; reflexivity.
Defined.

(* ===================================================================== *)
(** * When a validated construction returns *)
(* ===================================================================== *)

Lemma walk_rel_level t :
  forall rel j, (j < height t)%nat ->
    exists e, e ∈ walk_rel rel t
              /\ length e.1.1 = (length rel + j)%nat /\ e.1.2 <> [].
Proof.
  induction t as [ds fs IH|] using tree_ind';
    [|intros rel j Hj; simpl in Hj; lia].
  intros rel j Hj. destruct j as [|j].
  - exists (rel, map fst ds, fs). simpl. split; [rewrite elem_of_cons; by left|].
    split; [lia|]. destruct ds; [simpl in Hj; lia|done].
  - simpl in Hj. simpl walk_rel.
    assert (exists e,
              e ∈ flat_map (fun p => walk_rel (rel ++ [fst p]) (snd p)) ds
              /\ length e.1.1 = (length rel + S j)%nat /\ e.1.2 <> [])
      as (e & He & Hl & Hd).
    { induction ds as [|[name sub] ds IHds]; [simpl in Hj; lia|].
      apply Forall_cons in IH as [IHsub IH]. simpl in Hj, IHsub.
      destruct (decide (j < height sub)%nat) as [Hlt|Hge].
      - destruct (IHsub (rel ++ [name]) j Hlt) as (e & He & Hl & Hd).
        exists e. split; [|split; [|done]].
        + simpl. rewrite elem_of_app. by left.
        + rewrite Hl, length_app. simpl. lia.
      - destruct (IHds IH) as (e & He & Hl & Hd); [lia|].
        exists e. split; [|done]. simpl. rewrite elem_of_app. by right. }
    exists e. split; [|done]. rewrite elem_of_cons. by right.
Qed.

Lemma _validator_single_run dirs files md ref modal w top root level :
  md = MaxDepthRef.single_session ref -> md <> MaxDepthRef.multi_session ref ->
  dict_get 0 dirs = Some top -> dict_get "" top = Some root ->
  dict_get md files = Some level ->
  (modal = true -> dict_get (md - 1) dirs <> None) ->
  exists ws r, _validator dirs files md ref modal false w = (add_warnings w ws, Ok r).
Proof.
  intros Hmd Hne Htop Hroot Hlevel Hmodal. unfold _validator.
  rewrite bool_decide_eq_true_2.
  2: { subst md. unfold MaxDepthRef.list. rewrite !elem_of_cons. auto. }
  change (negb true) with false. cbv iota.
  assert (lift (by_depth_get 0 dirs) w = (w, Ok top)) as E1.
  { unfold lift, by_depth_get. by rewrite Htop. }
  rewrite (bind_ok _ _ _ _ _ E1). rewrite Hroot.
  rewrite (bind_ok _ _ w w root eq_refl).
  destruct (validate_names_run "sub" subj_pattern_match (sorted String.ltb root) w)
    as (ws1 & names & E2 & _).
  rewrite (bind_ok _ _ _ _ _ E2).
  rewrite bool_decide_eq_false_2 by done.
  rewrite (bind_ok _ _ (add_warnings w ws1) (add_warnings w ws1) None eq_refl).
  change (negb false) with true. cbv iota.
  assert (lift (by_depth_get md files) (add_warnings w ws1)
          = (add_warnings w ws1, Ok level)) as E3.
  { unfold lift, by_depth_get. by rewrite Hlevel. }
  erewrite bind_ok.
  2: { rewrite (bind_ok _ _ _ _ _ E3). apply file_check_run. }
  set (ws2 := if forallb _ _ then _ else _).
  destruct modal.
  - destruct (dict_get (md - 1) dirs) as [l|] eqn:El; [|by destruct Hmodal].
    erewrite bind_ok.
    2: { erewrite bind_ok; [done|]. unfold lift, by_depth_get. by rewrite El. }
    exists (ws1 ++ ws2). eexists. by rewrite add_warnings_app.
  - erewrite bind_ok; [|done].
    exists (ws1 ++ ws2). eexists. by rewrite add_warnings_app.
Qed.

Lemma str_app_inv_r (a b c : string) : a +:+ c = b +:+ c -> a = b.
Proof.
  revert b. induction a as [|x a IH]; intros [|y b] E.
  - done.
  - apply (f_equal String.length) in E. rewrite !str_length_app in E.
    simpl in E. lia.
  - apply (f_equal String.length) in E. rewrite !str_length_app in E.
    simpl in E. lia.
  - change (String x (a +:+ c) = String y (b +:+ c)) in E.
    injection E as -> E. by rewrite (IH b E).
Qed.

Lemma task_id_single_inj (s s' : string) :
  task_id s None = task_id s' None -> s = s'.
Proof. unfold task_id. apply str_app_inv_r. Qed.

Lemma str_in_elem (x : string) (l : list string) :
  str_in x l = true <-> x ∈ l.
Proof.
  unfold str_in. rewrite existsb_exists. split.
  - intros (y & Hy & E). apply String.eqb_eq in E as ->. by apply list_elem_of_In.
  - intros Hx. exists x. split; [by apply list_elem_of_In|apply String.eqb_refl].
Qed.

Lemma lookup_session_single k subj modal processed sl :
  single_keyed processed sl ->
  Forall (fun s => shaped k (SessionItem.files s)) sl ->
  opt_truthy modal = has_modal k ->
  exists i processed' sl' sinfo,
    lookup_session subj None modal processed sl = Ok (i, processed', sl')
    /\ sl' !! i = Some sinfo
    /\ single_keyed processed' sl'
    /\ Forall (fun s => shaped k (SessionItem.files s)) sl'.
Proof.
  intros [Hkeys Hnone] Hshape Hm. unfold lookup_session.
  destruct (str_in _ processed) eqn:E.
  - destruct (Hkeys _ E) as (s & Hs & Hid).
    pose proof (proj1 (Forall_forall _ _) Hnone s Hs) as Hsn. simpl in Hsn.
    rewrite Hsn in Hid. apply task_id_single_inj in Hid.
    destruct (list_find _ sl) as [[i x]|] eqn:Hfind.
    2: { apply list_find_None in Hfind. rewrite Forall_forall in Hfind.
         by destruct (Hfind s Hs). }
    apply list_find_Some in Hfind as (Hi & _).
    exists i, processed, sl, x. by split; [|split; [|split; [split|]]].
  - eexists _, _, _, _. split; [done|].
    split; [rewrite lookup_app_r by done; by rewrite Nat.sub_diag|]. split.
    + split.
      * intros id Hid. rewrite str_in_app in Hid.
        apply orb_prop in Hid as [Hid|Hid].
        -- destruct (Hkeys _ Hid) as (s & Hs & Hs'). exists s.
           split; [|done]. rewrite elem_of_app. by left.
        -- eexists. split; [rewrite elem_of_app; right; by apply list_elem_of_singleton|].
           simpl. apply str_in_elem, list_elem_of_singleton in Hid. by subst.
      * apply Forall_app. split; [done|]. by constructor.
    + apply Forall_app. split; [done|]. constructor; [|done]. simpl.
      rewrite Hm. by destruct (has_modal k) eqn:Ek.
Qed.

Lemma new_file_item_dotted abs_path abs_path_list subj sess modal sess_path f :
  str_contains "."%char f = true -> last abs_path_list <> None ->
  exists r, new_file_item abs_path abs_path_list subj sess modal sess_path f = Ok r.
Proof.
  intros Hf Hl. apply str_contains_split in Hf as (stem & ext & -> & Hs).
  unfold new_file_item. rewrite (str_split1_first _ _ _ Hs).
  destruct (last abs_path_list); [eauto|done].
Qed.

Lemma construct_files_total k abs_path abs_path_list subj sess modal sess_path
    filenames :
  Forall (fun f => str_contains "."%char f = true) filenames ->
  last abs_path_list <> None -> opt_truthy modal = has_modal k ->
  forall files fl,
    shaped k files ->
    exists files' fl',
      construct_files abs_path abs_path_list subj sess modal sess_path filenames
        (files, fl) = Ok (files', fl')
      /\ shaped k files'
      /\ (filenames <> [] \/ has_bucket modal files -> has_bucket modal files').
Proof.
  intros Hdots Hl Hm. induction Hdots as [|f filenames Hf _ IH]; intros files fl Hs.
  - exists files, fl. split; [done|]. split; [done|]. by intros [?|?].
  - simpl.
    destruct (new_file_item_dotted abs_path abs_path_list subj sess modal
                sess_path f Hf Hl) as [r ->].
    rewrite result_bind_ok. unfold session_add. rewrite Hm.
    destruct files as [l|d]; simpl in Hs; rewrite Hs.
    + rewrite result_bind_ok.
      destruct (IH (FList (l ++ [r])) (fl ++ [r])) as (files' & fl' & -> & Hs' & Hb);
        [done|].
      exists files', fl'. split; [done|]. split; [done|]. intros _. by apply Hb; right.
    + rewrite result_bind_ok.
      destruct (IH (FDict (dict_set (default "" modal)
                             (default [] (dict_get (default "" modal) d) ++ [r]) d))
                  (fl ++ [r])) as (files' & fl' & -> & Hs' & Hb); [done|].
      exists files', fl'. split; [done|]. split; [done|]. intros _. apply Hb.
      right. simpl. by rewrite dict_get_set_eq.
Qed.

Lemma session_sort_total k modal files :
  opt_truthy modal = has_modal k -> shaped k files -> has_bucket modal files ->
  exists files', session_sort modal files = Ok files' /\ shaped k files'.
Proof.
  intros Hm Hs Hb. unfold session_sort. rewrite Hm.
  destruct files as [l|d]; simpl in Hs, Hb; rewrite Hs.
  - eauto.
  - destruct (dict_get _ d) as [bucket|]; [|done]. eauto.
Qed.

Lemma parse_meta_single k m rel :
  Forall (fun s => name_ok s = true) rel ->
  Z.of_nat (length rel) = MaxDepthRef.single_session (depth_ref k) ->
  modal_truthy m = has_modal k ->
  exists subj modal,
    parse_meta (MaxDepthRef.single_session (depth_ref k)) (depth_ref k) m
      (str_join "/" rel) = Ok (subj, None, modal)
    /\ opt_truthy modal = has_modal k.
Proof.
  intros Hrel Hlen Hm. rewrite parse_meta_flag, Hm. unfold parse_meta.
  rewrite (str_to_list_join_list rel Hrel).
  rewrite bool_decide_eq_true_2 by done.
  destruct k; simpl in *.
  - destruct rel as [|a [|b [|c rel]]]; simpl in Hlen; try lia.
    exists a, (Some b). split; [done|]. simpl.
    apply Forall_cons in Hrel as [_ Hrel]. apply Forall_cons in Hrel as [Hb _].
    unfold name_ok in Hb. by apply andb_prop in Hb as [Hb _].
  - destruct rel as [|a [|b rel]]; simpl in Hlen; try lia.
    by exists a, None.
Qed.

Lemma single_keyed_insert processed sl i sinfo sinfo' :
  sl !! i = Some sinfo ->
  SessionItem.subject sinfo' = SessionItem.subject sinfo ->
  SessionItem.session sinfo' = SessionItem.session sinfo ->
  single_keyed processed sl -> single_keyed processed (<[i := sinfo']> sl).
Proof.
  intros Hi Hsubj Hsess [Hkeys Hnone]. split.
  - intros id Hid. destruct (Hkeys id Hid) as (s & Hs & Hs').
    apply list_elem_of_lookup in Hs as [j Hj].
    destruct (decide (j = i)) as [->|Hne].
    + exists sinfo'. split.
      * apply (list_elem_of_lookup_2 _ i). apply list_lookup_insert_eq.
        by apply lookup_lt_Some in Hi.
      * rewrite Hsubj, Hsess. congruence.
    + exists s. split; [|done]. apply (list_elem_of_lookup_2 _ j).
      by rewrite list_lookup_insert_ne.
  - apply Forall_insert; [done|]. rewrite Hsess.
    by apply (proj1 (Forall_forall _ _) Hnone), (list_elem_of_lookup_2 _ i).
Qed.

Lemma construct_path_total k self rel filenames st :
  Dataset.max_depth self = MaxDepthRef.single_session (depth_ref k) ->
  last (Dataset._abs_path_list self) <> None ->
  Forall (fun s => name_ok s = true) rel ->
  Z.of_nat (length rel) = Dataset.max_depth self ->
  Forall (fun f => str_contains "."%char f = true) filenames ->
  filenames <> [] ->
  modal_truthy (c_modal st) = has_modal k ->
  single_keyed (c_processed st) (c_session_list st) ->
  Forall (fun s => shaped k (SessionItem.files s)) (c_session_list st) ->
  exists st',
    construct_path self (depth_ref k) st (str_join "/" rel, filenames) = Ok st'
    /\ modal_truthy (c_modal st') = has_modal k
    /\ single_keyed (c_processed st') (c_session_list st')
    /\ Forall (fun s => shaped k (SessionItem.files s)) (c_session_list st').
Proof.
  intros Hmd Hlast Hrel Hlen Hdots Hne Hm Hkeys Hshape.
  unfold construct_path. rewrite Hmd in *.
  destruct (parse_meta_single k (c_modal st) rel Hrel Hlen Hm)
    as (subj & modal & -> & Hmodal).
  rewrite result_bind_ok.
  destruct (lookup_session_single k subj modal _ _ Hkeys Hshape Hmodal)
    as (i & processed & sl & sinfo & -> & Hi & Hkeys' & Hshape').
  rewrite result_bind_ok, Hi.
  pose proof (proj1 (Forall_forall _ _) Hshape' sinfo
                (list_elem_of_lookup_2 _ _ _ Hi)) as Hs. simpl in Hs.
  destruct (construct_files_total k (Dataset._abs_path self)
              (Dataset._abs_path_list self) subj None modal (str_join "/" rel)
              filenames Hdots Hlast Hmodal (SessionItem.files sinfo)
              (c_file_list st) Hs) as (files & fl & -> & Hs1 & Hb).
  rewrite result_bind_ok.
  destruct (session_sort_total k modal files Hmodal Hs1 (Hb (or_introl Hne)))
    as (files' & -> & Hs2).
  rewrite result_bind_ok. eexists. split; [done|]. simpl.
  split; [done|]. split.
  - by apply (single_keyed_insert _ _ _ sinfo).
  - by apply Forall_insert.
Qed.

Lemma construct_paths_total k self
    (Wf : list (list string * list string * list string)) :
  Dataset.max_depth self = MaxDepthRef.single_session (depth_ref k) ->
  last (Dataset._abs_path_list self) <> None ->
  Forall (fun e => Forall (fun s => name_ok s = true) e.1.1
                   /\ Z.of_nat (length e.1.1) = Dataset.max_depth self
                   /\ Forall (fun f => str_contains "."%char f = true) e.2
                   /\ e.2 <> []) Wf ->
  forall st,
    modal_truthy (c_modal st) = has_modal k ->
    single_keyed (c_processed st) (c_session_list st) ->
    Forall (fun s => shaped k (SessionItem.files s)) (c_session_list st) ->
    exists st',
      construct_paths self (depth_ref k)
        (map (fun e => (str_join "/" e.1.1, sorted String.ltb e.2)) Wf) st
      = Ok st'.
Proof.
  intros Hmd Hlast. induction 1 as [|[[rel ds] fs] Wf (Hrel & Hlen & Hdots & Hne) _ IH];
    intros st Hm Hkeys Hshape; [by exists st|].
  cbn [map construct_paths fst snd]. simpl in Hrel, Hlen, Hdots, Hne.
  destruct (construct_path_total k self rel (sorted String.ltb fs) st Hmd Hlast
              Hrel Hlen) as (st1 & E & Hm1 & Hkeys1 & Hshape1); try done.
  - by rewrite sorted_Permutation.
  - intros Hs. by apply sorted_nil_inv in Hs.
  - rewrite E, result_bind_ok. by apply IH.
Qed.

Lemma new_file_item_rootless abs_path abs_path_list subj sess modal sess_path f :
  last abs_path_list = None ->
  exists e, new_file_item abs_path abs_path_list subj sess modal sess_path f
            = Raise e.
Proof.
  intros Hl. unfold new_file_item. rewrite Hl.
  destruct (str_split1 "." f) as [|a [|b [|c l]]]; eauto.
Qed.

Lemma construct_files_bad abs_path abs_path_list subj sess modal sess_path
    filenames f st :
  In f filenames ->
  (exists e, new_file_item abs_path abs_path_list subj sess modal sess_path f
             = Raise e) ->
  exists e, construct_files abs_path abs_path_list subj sess modal sess_path
              filenames st = Raise e.
Proof.
  revert st. induction filenames as [|g filenames IH]; intros st Hin Hf; [done|].
  simpl. destruct Hin as [->|Hin].
  - destruct Hf as [e ->]. simpl. eauto.
  - destruct (new_file_item _ _ _ _ _ _ g) as [finfo|e]; simpl; [|eauto].
    destruct (session_add modal finfo st.1) as [files|e]; simpl; [|eauto].
    by apply IH.
Qed.

Lemma construct_path_bad self ref st sess_path filenames f :
  In f filenames ->
  (forall subj sess modal,
     exists e, new_file_item (Dataset._abs_path self) (Dataset._abs_path_list self)
                 subj sess modal sess_path f = Raise e) ->
  exists e, construct_path self ref st (sess_path, filenames) = Raise e.
Proof.
  intros Hin Hf. unfold construct_path.
  destruct (parse_meta _ _ _ _) as [[[subj sess] modal]|e]; simpl; [|eauto].
  destruct (lookup_session _ _ _ _ _) as [[[i processed] session_list]|e];
    simpl; [|eauto].
  destruct (session_list !! i) as [sinfo|]; [|eauto].
  destruct (construct_files_bad (Dataset._abs_path self)
              (Dataset._abs_path_list self) subj sess modal sess_path filenames f
              (SessionItem.files sinfo, c_file_list st) Hin (Hf _ _ _)) as [e ->].
  simpl. eauto.
Qed.

Lemma construct_paths_bad self ref items st sess_path filenames f :
  In (sess_path, filenames) items -> In f filenames ->
  (forall subj sess modal,
     exists e, new_file_item (Dataset._abs_path self) (Dataset._abs_path_list self)
                 subj sess modal sess_path f = Raise e) ->
  exists e, construct_paths self ref items st = Raise e.
Proof.
  revert st. induction items as [|item items IH]; intros st Hitem Hin Hf; [done|].
  simpl. destruct Hitem as [->|Hitem].
  - destruct (construct_path_bad self ref st sess_path filenames f Hin Hf)
      as [e ->]. simpl. eauto.
  - destruct (construct_path self ref st item) as [st'|e]; simpl; [|eauto].
    by apply IH.
Qed.

Section Buildable.
Context `{Env}.

(** What the scan of a proper tree has recorded: the height, the entry of
    the root in the index of directories, and the levels of both indexes. *)
Lemma scan_levels path (disk : string -> option tree) t :
  disk (os_path_abspath path) = Some t -> tree_ok t = true ->
  entered t = true ->
  exists files dirs,
    scan path false disk = (files, dirs, Z.of_nat (height t))
    /\ ((0 < height t)%nat -> by_depth_has dirs 0 "")
    /\ (forall j, (Z.of_nat (height t) <= j)%Z -> dict_get j dirs = None)
    /\ (forall j,
          dict_get j files
          = match List.filter
                    (fun e => negb (length e.2 =? 0)%nat
                              && bool_decide (Z.of_nat (length e.1.1) = j))
                    (walk_rel [] t) with
            | [] => None
            | Wf => Some (map (fun e => (str_join "/" e.1.1, sorted String.ltb e.2))
                            Wf)
            end)
    /\ (forall j, (j < height t)%nat -> dict_get (Z.of_nat j) dirs <> None).
Proof.
  intros Hfs Hok Hent. rewrite (scan_rel path false disk t Hfs Hok).
  destruct (node_scanned_all false t Hent [] (0, [], []))
    as (Hmax & (Hd & _) & Hhas).
  pose proof (fold_parse_rel_files (walk_rel [] t) (0, [], [])) as Hfiles.
  pose proof (fold_parse_rel_dirs false (walk_rel [] t) (0, [], [])) as Hdirs.
  pose proof (walk_rel_NoDup t Hok []) as Hnd.
  pose proof (walk_rel_names t Hok [] ltac:(constructor)) as Hnames.
  pose proof (fold_by_depth_set_get (file_entries (walk_rel [] t))
                (index_entries_NoDup _ _ Hnd Hnames)) as Hgetf.
  pose proof (fold_by_depth_set_get (dir_entries (walk_rel [] t))
                (index_entries_NoDup _ _ Hnd Hnames)) as Hgetd.
  destruct (fold_left (parse_rel false) _ _) as [[md files] dirs].
  simpl in Hmax, Hfiles, Hdirs, Hd, Hhas.
  rewrite <- Hfiles in Hgetf. rewrite <- Hdirs in Hgetd. clear Hfiles Hdirs.
  assert (md = Z.of_nat (height t)) as -> by lia.
  exists files, dirs. split; [done|]. split; [done|]. split; [|split].
  - intros j Hj. destruct (dict_get j dirs) as [v|] eqn:E; [|done].
    assert (j ∈ dict_keys dirs) as Hin by (apply dict_keys_get; by exists v).
    destruct (Hd _ Hin) as [Hin'|?]; [by apply elem_of_nil in Hin'|lia].
  - intros j. rewrite Hgetf. unfold file_entries.
    rewrite entries_at_index_entries. by destruct (List.filter _ _).
  - intros j Hj. rewrite Hgetd. unfold dir_entries.
    rewrite entries_at_index_entries.
    destruct (walk_rel_level t [] j Hj) as (e & He & Hl & Hne).
    match goal with
    | |- context [List.filter ?p ?l] => assert (In e (List.filter p l)) as Hin
    end.
    { apply List.filter_In. split; [by apply list_elem_of_In|].
      apply andb_true_intro. split.
      - by destruct e.1.2.
      - apply bool_decide_eq_true_2. simpl in Hl. lia. }
    by destruct (List.filter _ _) as [|x l].
Qed.

End Buildable.

Section BuildableRuns.
Context `{Env}.

Lemma single_not_multi k :
  MaxDepthRef.single_session (depth_ref k) <> MaxDepthRef.multi_session (depth_ref k).
Proof. by destruct k. Qed.

(** A validated construction returns on a buildable tree. *)
Lemma dataset_init_buildable_runs k path w t :
  fs w (os_path_abspath path) = Some t -> tree_ok t = true ->
  entered t = true ->
  buildable k t = true -> str_to_list (os_path_abspath path) <> [] ->
  exists w' self, dataset_init k path true None false w = (w', Ok self).
Proof.
  intros Hfs Hok Hent Hb Habs. unfold buildable in Hb.
  apply andb_prop in Hb as [Hb Hdots]. apply andb_prop in Hb as [Hh Hex].
  apply bool_decide_eq_true_1 in Hh.
  destruct (scan_levels path (fs w) t Hfs Hok Hent)
    as (files & dirs & Hscan & Hroot & Hnone & Hgetf & Hgetd).
  destruct (BaseParser_init_run k path false w)
    as (d0 & Hbase & Hcls & _ & Habs0 & Hlist0 & _ & _ & _ & Hscan0).
  rewrite Hscan in Hscan0. injection Hscan0 as Hf0 Hd0 Hmd0.
  unfold dataset_init. rewrite (bind_ok _ _ _ _ _ Hbase).
  set (w1 := World _ _ _ _).
  assert (heap w1 !! length (heap w) = Some (ODataset d0)) as Hself
    by apply lookup_new.
  (* the levels the validator and the constructor look up *)
  assert (0 < height t)%nat as Hpos by (destruct k; simpl in Hh; lia).
  destruct (Hroot Hpos) as (top & Htop & Hhas). unfold dict_has in Hhas.
  destruct (dict_get "" top) as [root|] eqn:Hroot'; [|done].
  apply existsb_exists in Hex as (e0 & He0 & Hne0).
  unfold deepest in He0. apply List.filter_In in He0 as [He0 Hdeep0].
  apply Nat.eqb_eq in Hdeep0.
  pose proof (Hgetf (Z.of_nat (height t))) as Hlevel.
  set (Wf := List.filter _ (walk_rel [] t)) in Hlevel.
  assert (In e0 Wf) as HinWf.
  { apply List.filter_In. split; [done|]. rewrite Hne0. simpl.
    apply bool_decide_eq_true_2. lia. }
  destruct Wf as [|x Wf'] eqn:EWf; [done|]. rewrite <- EWf in *. clear x Wf' EWf.
  (* validation *)
  assert (exists first second third ws,
            _validate (length (heap w)) w1
            = (with_heap (add_warnings w1 ws)
                 (<[length (heap w) :=
                      ODataset (with_validated d0 (Some first) second third)]>
                    (heap w1)), Ok tt))
    as (first & second & third & ws & Hval).
  { unfold _validate.
    rewrite (bind_ok _ _ _ _ _ (load_dataset_ok _ _ _ Hself)).
    destruct (_validator_single_run (Dataset._dirs_by_depth d0)
                (Dataset._files_by_depth d0) (Dataset.max_depth d0)
                (depth_ref (Dataset.cls d0)) (has_modal (Dataset.cls d0)) w1
                top root (map (fun e => (str_join "/" e.1.1, sorted String.ltb e.2)) Wf))
      as (ws & [[first second] third] & Hv).
    { by rewrite Hcls, Hmd0. }
    { rewrite Hcls, Hmd0, Hh. apply single_not_multi. }
    { by rewrite Hd0. }
    { done. }
    { rewrite Hf0, Hmd0. exact Hlevel. }
    { intros Hmodal. rewrite Hd0, Hmd0, Hcls in *. destruct k; [|done].
      simpl in Hh. replace (Z.of_nat (height t) - 1)%Z with (Z.of_nat 1) by lia.
      apply Hgetd. lia. }
    rewrite (bind_ok _ _ _ _ _ Hv). cbv beta iota. rewrite store_run.
    by exists first, second, third, ws. }
  simpl when. rewrite (bind_ok _ _ _ _ _ Hval).
  set (d1 := with_validated d0 (Some first) second third).
  set (w2 := with_heap _ _).
  assert (heap w2 !! length (heap w) = Some (ODataset d1)) as Hself2.
  { unfold w2. simpl. apply list_lookup_insert_eq. rewrite length_app. simpl. lia. }
  (* construction *)
  assert (exists sl fl,
            _constructor d1 (Dataset._files_by_depth d1)
              (depth_ref (Dataset.cls d1)) (has_modal (Dataset.cls d1))
            = Ok (sl, fl)) as (sl & fl & Hc).
  { unfold d1. simpl. rewrite Hcls, Hf0.
    rewrite (_constructor_ext d0 (with_validated d0 (Some first) second third))
      by done.
    unfold _constructor, by_depth_get. rewrite Hmd0, Hlevel, result_bind_ok.
    unfold dict_items.
    destruct (construct_paths_total k d0 Wf) with
      (st := CState (ModalFlag (has_modal k)) [] [] []) as [st Hst].
    - by rewrite Hmd0.
    - rewrite Hlist0.
      change (strip_empty_str_in_list (str_split "/" (os_path_abspath path)))
        with (str_to_list (os_path_abspath path)).
      destruct (str_to_list (os_path_abspath path)) as [|a l] using rev_ind;
        [done|]. by rewrite last_snoc.
    - apply Forall_forall. intros e He.
      apply list_elem_of_In, List.filter_In in He as [He Hp].
      apply andb_prop in Hp as [Hp1 Hp2]. apply bool_decide_eq_true_1 in Hp2.
      pose proof (walk_rel_names t Hok [] ltac:(constructor)) as Hnames.
      rewrite Forall_forall in Hnames.
      split; [by apply Hnames, list_elem_of_In|]. split; [by rewrite Hmd0|].
      split.
      + apply Forall_forall. intros f Hf.
        rewrite forallb_forall in Hdots. apply Hdots, in_flat_map.
        exists e. split; [|by apply list_elem_of_In].
        unfold deepest. apply List.filter_In. split; [done|].
        apply Nat.eqb_eq. lia.
      + intros Hnil. by rewrite Hnil in Hp1.
    - done.
    - split; [|constructor]. intros id Hid. done.
    - constructor.
    - rewrite Hst, result_bind_ok. eauto. }
  assert (exists w3, _construct (length (heap w)) w2 = (w3, Ok tt)) as [w3 Hcons].
  { unfold _construct.
    rewrite (bind_ok _ _ _ _ _ (load_dataset_ok _ _ _ Hself2)).
    erewrite bind_ok; [|unfold lift; by rewrite Hc]. cbv beta iota.
    destruct (place_lists_spec sl fl w2) as (ext & sl' & fl' & Hplace & _).
    rewrite (bind_ok _ _ _ _ _ Hplace). cbv beta iota.
    assert (heap (with_heap w2 (heap w2 ++ ext)) !! length (heap w)
            = Some (ODataset d1)) as Hself3.
    { simpl. by apply lookup_app_l_Some. }
    rewrite (bind_ok _ _ _ _ _ (load_dataset_ok _ _ _ Hself3)).
    rewrite store_run. eauto. }
  rewrite (bind_ok _ _ _ _ _ Hcons). eauto.
Qed.

End BuildableRuns.

Section BuildableIff.
Context `{Env}.

(** A validated construction returns on buildable trees only. *)
Lemma dataset_init_returns_buildable k path w w' self t :
  fs w (os_path_abspath path) = Some t -> tree_ok t = true ->
  entered t = true ->
  dataset_init k path true None false w = (w', Ok self) ->
  buildable k t = true /\ str_to_list (os_path_abspath path) <> [].
Proof.
  intros Hfs Hok Hent Hrun.
  destruct (dataset_init_run_inv _ _ _ _ _ _ _ Hrun)
    as (d0 & d1 & ws & sl & fl & sl' & fl' & _ & Hscan0 & _ & Habs0 & Hlist0 & _
        & _ & _ & (first & second & third & w1 & Hv & _) & Hc & _).
  destruct (scan_levels path (fs w) t Hfs Hok Hent)
    as (files & dirs & Hscan & Hroot & Hnone & Hgetf & _).
  rewrite Hscan in Hscan0. injection Hscan0 as Hf0 Hd0 Hmd0.
  rewrite Hf0, Hd0, Hmd0 in Hv.
  (* the depth is that of a single-session dataset *)
  assert (Z.of_nat (height t) = MaxDepthRef.single_session (depth_ref k)) as Hh.
  { destruct (_validator_ok_inv _ _ _ _ _ _ _ _ _ _ _ Hv) as (Hin & _).
    unfold MaxDepthRef.list in Hin. rewrite !elem_of_cons in Hin.
    destruct Hin as [Hin|[Hin|Hin]]; [done| |by apply elem_of_nil in Hin].
    pose proof (_validator_multi_raises dirs files (Z.of_nat (height t))
                  (depth_ref k) (has_modal k) false
                  (World (heap w ++ [ODataset d0]) (warnings w) (fs w)
                     (io_log w ++ [os_path_abspath path])) Hin) as Hr.
    rewrite Hv in Hr. simpl in Hr. discriminate Hr.
    - apply Hroot. destruct k; simpl in Hin; lia.
    - apply Hnone. lia. }
  (* the constructor has found files at that depth *)
  unfold _constructor, by_depth_get in Hc. rewrite Hf0, Hmd0, Hgetf in Hc.
  set (Wf := List.filter _ (walk_rel [] t)) in Hc.
  destruct Wf as [|x Wf'] eqn:EWf; [done|]. rewrite <- EWf in Hc.
  rewrite result_bind_ok in Hc. unfold dict_items in Hc.
  assert (forall e f, In e Wf -> In f e.2 ->
            (forall subj sess modal,
               exists err,
                 new_file_item (Dataset._abs_path d0) (Dataset._abs_path_list d0)
                   subj sess modal (str_join "/" e.1.1) f = Raise err) ->
            False) as Hbad.
  { intros e f He Hf Hraise.
    destruct (construct_paths_bad d0 (depth_ref k)
                (map (fun e => (str_join "/" e.1.1, sorted String.ltb e.2)) Wf)
                (CState (ModalFlag (has_modal k)) [] [] [])
                (str_join "/" e.1.1) (sorted String.ltb e.2) f) as [err Herr].
    - apply in_map_iff. by exists e.
    - apply (Permutation_in f (Permutation_sym (sorted_Permutation String.ltb e.2))).
      exact Hf.
    - exact Hraise.
    - by rewrite Herr in Hc. }
  assert (forall e, In e Wf <-> In e (deepest t) /\ e.2 <> []) as HWf.
  { intros e. unfold Wf, deepest. rewrite !List.filter_In.
    rewrite andb_true_iff, negb_true_iff, Nat.eqb_neq, bool_decide_eq_true,
      Nat.eqb_eq.
    split.
    - intros (He & Hne & Hl). split; [split; [done|lia]|].
      intros Hnil. by rewrite Hnil in Hne.
    - intros ((He & Hl) & Hne). split; [done|]. split; [|lia].
      destruct e.2; [done|]. simpl. lia. }
  assert (In x Wf) as Hx by (rewrite EWf; by left).
  split.
  - unfold buildable. rewrite bool_decide_eq_true_2 by done. simpl.
    apply andb_true_intro. split.
    + apply existsb_exists. exists x. apply HWf in Hx as [Hx Hne].
      split; [done|]. destruct x.2; [done|done].
    + apply forallb_forall. intros f Hf.
      apply in_flat_map in Hf as (e & He & Hf).
      destruct (str_contains "." f) eqn:Hdot; [done|]. exfalso.
      apply (Hbad e f); [|done|].
      * apply HWf. split; [done|]. intros Hnil. by rewrite Hnil in Hf.
      * intros subj sess modal. eexists. by apply new_file_item_dotless.
  - intros Hnil. apply HWf in Hx as Hx'. destruct Hx' as [_ Hne].
    destruct x.2 as [|f fs] eqn:Ex; [done|].
    apply (Hbad x f Hx); [rewrite Ex; by left|].
    intros subj sess modal. apply new_file_item_rootless.
    rewrite Hlist0, Hnil. done.
Qed.

(** X20. When a validated dataset is built: on a tree whose directory names
    are proper and distinct and whose directories the walk all enters
    (none is a link to a directory, none is unreadable),
    [RawDataset(path)] and [StepDataset(path)] return if and only if the
    tree has the directory levels of a single-session dataset of the
    class, some directory of the deepest level holds a file, every file
    name of that level has a dot, and the path is not the root of the file
    system; otherwise they raise. *)
Theorem validated_dataset_is_built_iff (k : Dataset.kind) (path : string)
    (w : world) (t : tree) :
  fs w (os_path_abspath path) = Some t -> tree_ok t = true ->
  entered t = true ->
  (exists w' self, dataset_init k path true None false w = (w', Ok self))
  <-> buildable k t = true /\ str_to_list (os_path_abspath path) <> [].
Proof.
  intros Hfs Hok Hent. split.
  - intros (w' & self & Hrun).
    exact (dataset_init_returns_buildable k path w w' self t Hfs Hok Hent Hrun).
  - intros [Hb Habs].
    exact (dataset_init_buildable_runs k path w t Hfs Hok Hent Hb Habs).
Qed.

End BuildableIff.

Lemma validated_dataset_is_built_iff_witness :
  (exists w' self,
     @dataset_init literal_env Dataset.Raw "/data" true None false
       (empty_world (disk_at "/data" single_session_tree)) = (w', Ok self))
  <-> buildable Dataset.Raw single_session_tree = true
      /\ str_to_list (@os_path_abspath literal_env "/data") <> [].
Proof.
  apply (@validated_dataset_is_built_iff literal_env Dataset.Raw "/data"
           (empty_world (disk_at "/data" single_session_tree))
           single_session_tree); reflexivity.
Defined.

(* ===================================================================== *)
(** * ProcDataset *)
(* ===================================================================== *)

Section Proc.
Context `{Env}.

Lemma holds_dataset_grow h h' d :
  sub_heap h h' -> holds_dataset h d -> holds_dataset h' d.
Proof.
  intros Hs (l & -> & Hok & Hv). exists l. split; [done|]. split.
  - by apply (facade_ok_grow h).
  - by apply (facade_validated_grow h).
Qed.

(** One call of [_scan_subpath] under [try]: it returns a dataset exactly
    when the sub-directory is buildable, and touches nothing that was in
    the store. *)
Lemma scan_subpath_run path n w sub :
  fs w (os_path_abspath (os_path_join path n)) = Some sub ->
  tree_ok sub = true -> entered sub = true ->
  exists w' r,
    try_pass (_scan_subpath path n) w = (w', Ok r)
    /\ fs w' = fs w /\ sub_heap (heap w) (heap w')
    /\ (if buildable Dataset.Step sub
           && negb (bool_decide
                      (str_to_list (os_path_abspath (os_path_join path n)) = []))
        then holds_dataset (heap w') r else r = None).
Proof.
  intros Hfs Hok Hent. unfold try_pass, _scan_subpath, StepDataset.
  pose proof (frames_dataset_init (length (heap w)) Dataset.Step
                (os_path_join path n) true None false) as Hfr.
  pose proof (frames_sub_heap _ _ w Hfr) as Hsub.
  destruct (Hfr w (le_n _)) as (_ & _ & Hfs' & _).
  destruct (dataset_init Dataset.Step (os_path_join path n) true None false w)
    as [w' [self|e]] eqn:E; simpl in Hsub, Hfs'.
  - exists w', (Some self). split; [done|]. split; [done|]. split; [done|].
    destruct (dataset_init_returns_buildable _ _ _ _ _ _ Hfs Hok Hent E)
      as [-> Hne].
    rewrite bool_decide_eq_false_2 by done. simpl.
    exists self. split; [done|].
    destruct (built_facade_ok true w' self) as [Hfok Hfv]; [|by auto].
    by apply (built_new true Dataset.Step (os_path_join path n) true false w).
  - exists w', None. split; [done|]. split; [done|]. split; [done|].
    destruct (buildable Dataset.Step sub) eqn:Hb; [|done].
    case_bool_decide as Hnil; [done|]. simpl.
    destruct (dataset_init_buildable_runs Dataset.Step (os_path_join path n) w sub
                Hfs Hok Hent Hb Hnil) as (w'' & self & E').
    congruence.
Qed.

End Proc.

Section ProcLoops.
Context `{Env}.

Lemma scannable_isdir (disk : string -> option tree) path n :
  disk (os_path_join path n) = None -> scannable disk path n = false.
Proof. intros E. unfold scannable. by rewrite E. Qed.

Lemma parse_steps_run path listing :
  forall w acc,
    (forall n, n ∈ listing -> fs w (os_path_join path n) <> None ->
       exists sub, fs w (os_path_abspath (os_path_join path n)) = Some sub
                   /\ tree_ok sub = true /\ entered sub = true) ->
    Forall (fun s => holds_dataset (heap w) (StepItem.dataset s)) acc ->
    exists w' steps,
      parse_steps path listing acc w = (w', Ok steps)
      /\ fs w' = fs w /\ sub_heap (heap w) (heap w')
      /\ map (fun s => (StepItem.id s, StepItem.name s, StepItem.annotation s)) steps
         = map (fun s => (StepItem.id s, StepItem.name s, StepItem.annotation s)) acc
           ++ omap step_pattern_match
                (List.filter (scannable (fs w) path) listing)
      /\ Forall (fun s => holds_dataset (heap w') (StepItem.dataset s)) steps.
Proof.
  induction listing as [|step listing IH]; intros w acc Hcoh Hacc.
  - exists w, acc. split; [done|]. split; [done|].
    split; [apply sub_heap_refl|]. split; [simpl; by rewrite app_nil_r|done].
  - cbn [parse_steps]. unfold os_path_isdir at 1, _subpath.
    rewrite (bind_ok _ _ w w
               match fs w (os_path_join path step) with
               | Some _ => true
               | None => false
               end eq_refl).
    assert (forall n, n ∈ listing -> n ∈ step :: listing) as Hin
      by (intros n Hn; rewrite elem_of_cons; by right).
    destruct (fs w (os_path_join path step)) as [here|] eqn:Ehere.
    2: { rewrite (bind_ok _ _ w w acc eq_refl).
         destruct (IH w acc) as (w' & steps & Hrun & Hfs & Hsub & Hmap & Hall);
           [by auto|done|].
         exists w', steps. split; [done|]. split; [done|]. split; [done|].
         split; [|done]. simpl. by rewrite (scannable_isdir _ _ _ Ehere). }
    destruct (Hcoh step) as (sub & Esub & Hok & Hent);
      [rewrite elem_of_cons; by left|by rewrite Ehere|].
    destruct (step_pattern_match step) as [[[id name] annotation]|] eqn:Epat.
    2: { rewrite (bind_ok _ _ w w acc eq_refl).
         destruct (IH w acc) as (w' & steps & Hrun & Hfs & Hsub & Hmap & Hall);
           [by auto|done|].
         exists w', steps. split; [done|]. split; [done|]. split; [done|].
         split; [|done]. rewrite Hmap. simpl.
         destruct (scannable (fs w) path step); [|done]. simpl.
         by rewrite Epat. }
    destruct (scan_subpath_run path step w sub Esub Hok Hent)
      as (w1 & r & Hrun1 & Hfs1 & Hsub1 & Hr).
    assert (scannable (fs w) path step
            = buildable Dataset.Step sub
              && negb (bool_decide
                         (str_to_list (os_path_abspath (os_path_join path step))
                          = []))) as Hscan.
    { unfold scannable. by rewrite Ehere, Esub. }
    rewrite <- Hscan in Hr.
    set (acc1 := match r with
                 | Some l => acc ++ [StepItem.mk id name annotation (Some l)]
                 | None => acc
                 end).
    erewrite (bind_ok _ _ w w1 acc1).
    2: { by rewrite (bind_ok _ _ _ _ _ Hrun1). }
    destruct (IH w1 acc1) as (w' & steps & Hrun & Hfs & Hsub & Hmap & Hall).
    { intros n Hn. rewrite Hfs1. by auto. }
    { unfold acc1. destruct (scannable (fs w) path step).
      - destruct Hr as (l & -> & Hl). apply Forall_app. split.
        + eapply Forall_impl; [exact Hacc|]. intros s Hs.
          by apply (holds_dataset_grow (heap w)).
        + constructor; [|done]. simpl. by exists l.
      - subst r. eapply Forall_impl; [exact Hacc|]. intros s Hs.
        by apply (holds_dataset_grow (heap w)). }
    exists w', steps. split; [done|]. split; [congruence|].
    split; [by apply (sub_heap_trans _ (heap w1))|]. split; [|done].
    rewrite Hmap, Hfs1. unfold acc1. simpl.
    destruct (scannable (fs w) path step).
    + destruct Hr as (l & -> & _). rewrite map_app. simpl. rewrite Epat.
      by rewrite <- app_assoc.
    + by subst r.
Qed.

Lemma parse_masks_run path listing :
  forall w acc,
    (forall n, n ∈ listing -> fs w (os_path_join path n) <> None ->
       exists sub, fs w (os_path_abspath (os_path_join path n)) = Some sub
                   /\ tree_ok sub = true /\ entered sub = true) ->
    Forall (fun m => holds_dataset (heap w) (MaskItem.dataset m)) acc ->
    exists w' masks,
      parse_masks path listing acc w = (w', Ok masks)
      /\ fs w' = fs w /\ sub_heap (heap w) (heap w')
      /\ map MaskItem.modal masks
         = map MaskItem.modal acc ++ List.filter (scannable (fs w) path) listing
      /\ Forall (fun m => holds_dataset (heap w') (MaskItem.dataset m)) masks.
Proof.
  induction listing as [|modal listing IH]; intros w acc Hcoh Hacc.
  - exists w, acc. split; [done|]. split; [done|].
    split; [apply sub_heap_refl|]. split; [simpl; by rewrite app_nil_r|done].
  - cbn [parse_masks]. unfold os_path_isdir at 1, _subpath.
    rewrite (bind_ok _ _ w w
               match fs w (os_path_join path modal) with
               | Some _ => true
               | None => false
               end eq_refl).
    assert (forall n, n ∈ listing -> n ∈ modal :: listing) as Hin
      by (intros n Hn; rewrite elem_of_cons; by right).
    destruct (fs w (os_path_join path modal)) as [here|] eqn:Ehere.
    2: { rewrite (bind_ok _ _ w w acc eq_refl).
         destruct (IH w acc) as (w' & masks & Hrun & Hfs & Hsub & Hmap & Hall);
           [by auto|done|].
         exists w', masks. split; [done|]. split; [done|]. split; [done|].
         split; [|done]. simpl. by rewrite (scannable_isdir _ _ _ Ehere). }
    destruct (Hcoh modal) as (sub & Esub & Hok & Hent);
      [rewrite elem_of_cons; by left|by rewrite Ehere|].
    destruct (scan_subpath_run path modal w sub Esub Hok Hent)
      as (w1 & r & Hrun1 & Hfs1 & Hsub1 & Hr).
    assert (scannable (fs w) path modal
            = buildable Dataset.Step sub
              && negb (bool_decide
                         (str_to_list (os_path_abspath (os_path_join path modal))
                          = []))) as Hscan.
    { unfold scannable. by rewrite Ehere, Esub. }
    rewrite <- Hscan in Hr.
    set (acc1 := match r with
                 | Some l => acc ++ [MaskItem.mk modal (Some l)]
                 | None => acc
                 end).
    erewrite (bind_ok _ _ w w1 acc1).
    2: { by rewrite (bind_ok _ _ _ _ _ Hrun1). }
    destruct (IH w1 acc1) as (w' & masks & Hrun & Hfs & Hsub & Hmap & Hall).
    { intros n Hn. rewrite Hfs1. by auto. }
    { unfold acc1. destruct (scannable (fs w) path modal).
      - destruct Hr as (l & -> & Hl). apply Forall_app. split.
        + eapply Forall_impl; [exact Hacc|]. intros s Hs.
          by apply (holds_dataset_grow (heap w)).
        + constructor; [|done]. simpl. by exists l.
      - subst r. eapply Forall_impl; [exact Hacc|]. intros s Hs.
        by apply (holds_dataset_grow (heap w)). }
    exists w', masks. split; [done|]. split; [congruence|].
    split; [by apply (sub_heap_trans _ (heap w1))|]. split; [|done].
    rewrite Hmap, Hfs1. unfold acc1. simpl.
    destruct (scannable (fs w) path modal).
    + destruct Hr as (l & -> & _). rewrite map_app. simpl.
      by rewrite <- app_assoc.
    + by subst r.
Qed.

End ProcLoops.

Section ProcThm.
Context `{Env}.

Lemma coherent_inv (disk : string -> option tree) path listing :
  coherent disk path listing = true ->
  forall n, n ∈ listing -> disk (os_path_join path n) <> None ->
    exists sub, disk (os_path_abspath (os_path_join path n)) = Some sub
                /\ tree_ok sub = true /\ entered sub = true.
Proof.
  unfold coherent. rewrite forallb_forall. intros Hall n Hn Hdir.
  specialize (Hall n ltac:(by apply list_elem_of_In)). simpl in Hall.
  destruct (disk (os_path_join path n)); [|done].
  destruct (disk (os_path_abspath (os_path_join path n))) as [sub|]; [|done].
  apply andb_prop in Hall as [Hok Hent]. by exists sub.
Qed.

(** X21. What [ProcDataset] lists: when the path is a directory whose
    sub-directories hold trees that the walk enters entirely (no link to a
    directory, no unreadable directory below them), the construction
    returns, whatever the construction of a dataset raises; its list
    holds, in the order of the listing, one item for every sub-directory
    from whose tree a validated [StepDataset] is built (and, for steps,
    whose name matches the step pattern, with the three parts of the
    name), each with its dataset; every other entry is left out
    silently. *)
Theorem proc_dataset_lists_what_is_built (path : string) (mask : bool)
    (w : world) (listing : list string) :
  os_listdir path w = Some listing ->
  coherent (fs w) path listing = true ->
  exists w' p,
    ProcDataset_init path mask w = Some (w', Ok p)
    /\ fs w' = fs w
    /\ ProcDataset.path p = path /\ ProcDataset.is_mask p = mask
    /\ if mask
       then exists masks,
              ProcDataset.mask_list p = Value masks
              /\ ProcDataset.step_list p = Unset
              /\ map MaskItem.modal masks
                 = List.filter (scannable (fs w) path) listing
              /\ Forall (fun m => holds_dataset (heap w') (MaskItem.dataset m))
                   masks
       else exists steps,
              ProcDataset.step_list p = Value steps
              /\ ProcDataset.mask_list p = Unset
              /\ map (fun s => (StepItem.id s, StepItem.name s,
                                StepItem.annotation s)) steps
                 = omap step_pattern_match
                     (List.filter (scannable (fs w) path) listing)
              /\ Forall (fun s => holds_dataset (heap w') (StepItem.dataset s))
                   steps.
Proof.
  intros Hlist Hcoh. unfold ProcDataset_init. rewrite Hlist.
  pose proof (coherent_inv _ _ _ Hcoh) as Hsub.
  destruct mask.
  - destruct (parse_masks_run path listing w [] Hsub ltac:(constructor))
      as (w' & masks & Hrun & Hfs & _ & Hmap & Hall).
    exists w', (ProcDataset.mk path true (Value masks) Unset).
    split; [by rewrite (bind_ok _ _ _ _ _ Hrun)|].
    split; [done|]. split; [done|]. split; [done|]. by exists masks.
  - destruct (parse_steps_run path listing w [] Hsub ltac:(constructor))
      as (w' & steps & Hrun & Hfs & _ & Hmap & Hall).
    exists w', (ProcDataset.mk path false Unset (Value steps)).
    split; [by rewrite (bind_ok _ _ _ _ _ Hrun)|].
    split; [done|]. split; [done|]. split; [done|]. by exists steps.
Qed.

End ProcThm.

Lemma proc_dataset_lists_what_is_built_witness :
  exists w' p,
    @ProcDataset_init literal_env "/proc" false (empty_world proc_disk)
    = Some (w', Ok p)
    /\ fs w' = proc_disk
    /\ ProcDataset.path p = "/proc" /\ ProcDataset.is_mask p = false
    /\ exists steps,
         ProcDataset.step_list p = Value steps
         /\ ProcDataset.mask_list p = Unset
         /\ map (fun s => (StepItem.id s, StepItem.name s, StepItem.annotation s))
              steps
            = [("0001", "realign", "func")]
         /\ Forall (fun s => holds_dataset (heap w') (StepItem.dataset s)) steps.
Proof.
  apply (@proc_dataset_lists_what_is_built literal_env "/proc" false
           (empty_world proc_disk)
           ["0001_realign_func"; "0002_smooth_func"; "notes"; "README"]);
    reflexivity.
Defined.

(* ===================================================================== *)
(** * Validated datasets have no sessions *)
(* ===================================================================== *)

Lemma parse_meta_single_session md ref m sp subj sess modal :
  md = MaxDepthRef.single_session ref ->
  parse_meta md ref m sp = Ok (subj, sess, modal) -> sess = None.
Proof.
  intros Hmd. unfold parse_meta. rewrite bool_decide_eq_true_2 by done.
  destruct (modal_truthy m).
  - destruct (str_to_list sp) as [|a [|b [|c l]]]; try done. by intros [= _ <- _].
  - destruct (str_to_list sp) as [|a l]; [done|]. by intros [= _ <- _].
Qed.

Lemma construct_path_sessionless self ref st item st' :
  Dataset.max_depth self = MaxDepthRef.single_session ref ->
  Forall (fun s => SessionItem.session s = None) (c_session_list st) ->
  construct_path self ref st item = Ok st' ->
  Forall (fun s => SessionItem.session s = None) (c_session_list st').
Proof.
  intros Hmd Hall. destruct item as [sess_path filenames]. unfold construct_path.
  destruct (parse_meta _ _ _ _) as [[[subj sess] modal]|] eqn:Ep; simpl; [|done].
  apply (parse_meta_single_session _ _ _ _ _ _ _ Hmd) in Ep as ->.
  destruct (lookup_session _ _ _ _ _) as [[[i processed] sl]|] eqn:E1; simpl;
    [|done].
  apply (lookup_session_Forall _ _ _ _ _ _ _ _ _) with (2 := Hall) in E1; [|done].
  destruct (sl !! i) as [sinfo|] eqn:Hi; [|done].
  destruct (construct_files _ _ _ _ _ _ _ _) as [[files fl]|]; simpl; [|done].
  destruct (session_sort modal files) as [files'|]; simpl; [|done].
  intros [= <-]. simpl. apply Forall_insert; [done|]. simpl.
  by apply (proj1 (Forall_forall _ _) E1), (list_elem_of_lookup_2 _ i).
Qed.

Lemma construct_paths_sessionless self ref items st st' :
  Dataset.max_depth self = MaxDepthRef.single_session ref ->
  Forall (fun s => SessionItem.session s = None) (c_session_list st) ->
  construct_paths self ref items st = Ok st' ->
  Forall (fun s => SessionItem.session s = None) (c_session_list st').
Proof.
  intros Hmd. revert st. induction items as [|item items IH]; intros st Hst; simpl.
  - by intros [= <-].
  - destruct (construct_path self ref st item) as [st1|] eqn:E; simpl; [|done].
    apply IH. by eapply construct_path_sessionless.
Qed.

(** The lists of a single-session dataset: no session and no record has a
    session name. *)
Lemma _constructor_sessionless self files ref modal sl fl :
  Dataset.max_depth self = MaxDepthRef.single_session ref ->
  _constructor self files ref modal = Ok (sl, fl) ->
  Forall (fun f => FileItem.session f = None) fl
  /\ Forall (fun s => SessionItem.session s = None) sl.
Proof.
  intros Hmd Hc.
  destruct (_constructor_spec _ _ _ _ _ _ Hc) as [(Hperm & Hown & _) _].
  assert (Forall (fun s => SessionItem.session s = None) sl) as Hsl.
  { unfold _constructor in Hc.
    destruct (by_depth_get _ files) as [level|]; simpl in Hc; [|done].
    destruct (construct_paths _ _ _ _) as [st|] eqn:E; simpl in Hc; [|done].
    injection Hc as <- <-. rewrite sorted_Permutation.
    by apply (construct_paths_sessionless _ _ _ _ _ Hmd) in E. }
  split; [|done]. rewrite Hperm. unfold nested_files.
  apply Forall_forall. intros f Hf.
  apply list_elem_of_In, in_flat_map in Hf as (s & Hs & Hf).
  apply list_elem_of_In in Hs, Hf.
  pose proof (proj1 (Forall_forall _ _) Hown s Hs) as Ho.
  destruct (proj1 (Forall_forall _ _) Ho f Hf) as [_ ->].
  by apply (proj1 (Forall_forall _ _) Hsl).
Qed.

Section Sessionless.
Context `{Env}.

(** A validated construction that returns has found the depth of a
    single-session dataset. *)
Lemma validated_run_single k path dir_only w w' self :
  (forall p t, fs w p = Some t -> tree_ok t = true /\ entered t = true) ->
  dataset_init k path true None dir_only w = (w', Ok self) ->
  exists d sl fl,
    Dataset.max_depth d = MaxDepthRef.single_session (depth_ref k)
    /\ _constructor d (Dataset._files_by_depth d) (depth_ref k) (has_modal k)
       = Ok (sl, fl)
    /\ facade_lists (heap w') self = Some (fl, sl).
Proof.
  intros Hdisk Hrun.
  destruct (dataset_init_run_inv _ _ _ _ _ _ _ Hrun)
    as (d0 & d1 & ws & sl & fl & sl' & fl' & _ & Hscan0 & _ & _ & _ & _
        & _ & _ & (first & second & third & w1 & Hv & _) & Hc & Hself & Hf & Hs & _).
  exists d0, sl, fl. split; [|split; [done|]].
  2: { by apply (facade_lists_intro _ _ _ fl' sl' _ _ Hself). }
  destruct (_validator_ok_inv _ _ _ _ _ _ _ _ _ _ _ Hv) as (Hin & _).
  unfold MaxDepthRef.list in Hin. rewrite !elem_of_cons in Hin.
  destruct Hin as [Hin|[Hin|Hin]]; [done| |by apply elem_of_nil in Hin].
  exfalso.
  destruct (fs w (os_path_abspath path)) as [t|] eqn:Hfs.
  - destruct (Hdisk _ _ Hfs) as [Hok Hent].
    rewrite (scan_rel path dir_only (fs w) t Hfs Hok) in Hscan0.
    destruct (node_scanned_all dir_only t Hent [] (0, [], []))
      as (Hmax & (Hd & _) & Hhas).
    destruct (fold_left _ _ _) as [[md files] dirs]. simpl in *.
    injection Hscan0 as Hfiles Hdirs Hmd.
    pose proof (_validator_multi_raises (Dataset._dirs_by_depth d0)
                  (Dataset._files_by_depth d0) (Dataset.max_depth d0)
                  (depth_ref k) (has_modal k) false
                  (World (heap w ++ [ODataset d0]) (warnings w) (fs w)
                     (io_log w ++ [os_path_abspath path])) Hin) as Hr.
    rewrite Hv in Hr. simpl in Hr. discriminate Hr.
    + rewrite Hdirs. apply Hhas. destruct k; simpl in Hin; lia.
    + rewrite Hdirs. destruct (dict_get _ dirs) as [v|] eqn:Eg; [|done].
      assert (Dataset.max_depth d0 ∈ dict_keys dirs) as Hk.
      { apply dict_keys_get. by exists v. }
      destruct (Hd _ Hk) as [Hk'|?]; [by apply elem_of_nil in Hk'|lia].
  - unfold scan, _init_process in Hscan0. rewrite Hfs in Hscan0.
    simpl in Hscan0. injection Hscan0 as _ _ Hmd.
    rewrite Hmd in Hin. destruct k; simpl in Hin; lia.
Qed.

Lemma built_validated_sessionless w self :
  built true w self ->
  (forall p t, fs w p = Some t -> tree_ok t = true /\ entered t = true) ->
  exists fv sv,
    facade_lists (heap w) self = Some (fv, sv)
    /\ Forall (fun f => FileItem.session f = None) fv
    /\ Forall (fun s => SessionItem.session s = None) sv.
Proof.
  induction 1 as [k path validate dir_only w w' self Hv Hrun
                 |a w w' self self' _ IH Hrun
                 |k path validate dir_only w w' r self _ IH Hrun
                 |a other w w' r self _ IH Hrun]; intros Hdisk.
  - rewrite (Hv eq_refl) in Hrun.
    assert (fs w' = fs w) as Hfs.
    { destruct (frames_dataset_init (length (heap w)) k path true None dir_only w
                  (le_n _)) as (_ & _ & Hfs & _). by rewrite Hrun in Hfs. }
    rewrite Hfs in Hdisk.
    destruct (validated_run_single _ _ _ _ _ _ Hdisk Hrun)
      as (d & sl & fl & Hmd & Hc & Hfac).
    exists fl, sl. split; [done|].
    by apply (_constructor_sessionless d _ _ _ _ _ Hmd Hc).
  - assert (fs w' = fs w) as Hfs.
    { destruct (frames_dataset_filter (length (heap w)) self a w (le_n _))
        as (_ & _ & Hfs & _). by rewrite Hrun in Hfs. }
    rewrite Hfs in Hdisk. destruct (IH Hdisk) as (fv & sv & Hfac & Hfv & Hsv).
    pose proof (dataset_filter_ok_inv a self w fv sv self' Hfac) as Hinv.
    rewrite Hrun in Hinv.
    destruct (Hinv eq_refl) as (fv' & sv' & Hf & Hs & Hfac' & _).
    exists fv', sv'. split; [done|]. split.
    + rewrite (files_filtered_Ok _ _ _ Hf). apply Forall_forall. intros f Hin.
      apply list_elem_of_In, List.filter_In in Hin as [Hin _].
      by apply (proj1 (Forall_forall _ _) Hfv), list_elem_of_In.
    + rewrite (sessions_filtered_Ok _ _ _ Hs). apply Forall_forall. intros s Hin.
      apply list_elem_of_fmap in Hin as (s0 & -> & Hin). simpl.
      apply list_elem_of_In, List.filter_In in Hin as [Hin _].
      by apply (proj1 (Forall_forall _ _) Hsv), list_elem_of_In.
  - assert (fs w' = fs w) as Hfs.
    { destruct (frames_dataset_init (length (heap w)) k path validate None
                  dir_only w (le_n _)) as (_ & _ & Hfs & _).
      by rewrite Hrun in Hfs. }
    rewrite Hfs in Hdisk. destruct (IH Hdisk) as (fv & sv & Hfac & HP).
    exists fv, sv. split; [|done].
    assert (sub_heap (heap w) (heap w')) as Hsub.
    { pose proof (frames_sub_heap _ _ w
                    (frames_dataset_init (length (heap w)) k path validate None
                       dir_only)) as Hs.
      by rewrite Hrun in Hs. }
    by apply (facade_lists_grow _ _ Hsub).
  - assert (fs w' = fs w) as Hfs.
    { destruct (frames_dataset_filter (length (heap w)) other a w (le_n _))
        as (_ & _ & Hfs & _). by rewrite Hrun in Hfs. }
    rewrite Hfs in Hdisk. destruct (IH Hdisk) as (fv & sv & Hfac & HP).
    exists fv, sv. split; [|done].
    assert (sub_heap (heap w) (heap w')) as Hsub.
    { pose proof (frames_sub_heap _ _ w
                    (frames_dataset_filter (length (heap w)) other a)) as Hs.
      by rewrite Hrun in Hs. }
    by apply (facade_lists_grow _ _ Hsub).
Qed.

(** X22. A validated dataset has no sessions to select: on a disk whose
    directory names are proper and distinct and whose directories the walk
    all enters (none is a link to a directory, none is unreadable), no
    record and no session of a dataset built with validation, or filtered
    from one, has a session name, so that [filter] with a [session]
    argument returns a dataset without files and without sessions. *)
Theorem session_filter_selects_nothing (w : world) (self : loc) :
  built true w self ->
  (forall p t, fs w p = Some t -> tree_ok t = true /\ entered t = true) ->
  exists fv sv,
    facade_lists (heap w) self = Some (fv, sv)
    /\ Forall (fun f => FileItem.session f = None) fv
    /\ Forall (fun s => SessionItem.session s = None) sv
    /\ forall (a : Filter.t) (self' : loc),
         strs_truthy (Filter.session a) = true ->
         (dataset_filter self a w).2 = Ok self' ->
         facade_lists (heap (dataset_filter self a w).1) self' = Some ([], []).
Proof.
  intros Hb Hdisk.
  destruct (built_validated_sessionless w self Hb Hdisk)
    as (fv & sv & Hfac & Hfv & Hsv).
  exists fv, sv. split; [done|]. split; [done|]. split; [done|].
  intros a self' Ha Hok.
  destruct (dataset_filter_ok_inv a self w fv sv self' Hfac Hok)
    as (fv' & sv' & Hf & Hs & Hfac' & _).
  rewrite Hfac'. do 2 f_equal.
  - rewrite (files_filtered_Ok _ _ _ Hf).
    apply filter_none, Forall_forall. intros f Hin.
    pose proof (proj1 (Forall_forall _ _) Hfv f Hin) as Hn. simpl in Hn.
    unfold flat_keep. rewrite Ha. unfold guard at 2, holds, by_session.
    rewrite Hn. simpl. by rewrite andb_false_r.
  - rewrite (sessions_filtered_Ok _ _ _ Hs).
    assert (List.filter (session_keep a) sv = []) as ->; [|done].
    apply filter_none, Forall_forall. intros s Hin.
    pose proof (proj1 (Forall_forall _ _) Hsv s Hin) as Hn. simpl in Hn.
    unfold session_keep. rewrite Ha, Hn. simpl. by rewrite andb_false_r.
Qed.

End Sessionless.

Lemma session_filter_selects_nothing_witness :
  exists fv sv,
    facade_lists (heap (raw_world true single_session_tree)) 0 = Some (fv, sv)
    /\ Forall (fun f => FileItem.session f = None) fv
    /\ Forall (fun s => SessionItem.session s = None) sv
    /\ forall (a : Filter.t) (self' : loc),
         strs_truthy (Filter.session a) = true ->
         (@dataset_filter literal_env 0 a (raw_world true single_session_tree)).2
         = Ok self' ->
         facade_lists
           (heap (@dataset_filter literal_env 0 a
                    (raw_world true single_session_tree)).1) self'
         = Some ([], []).
Proof.
  apply (@session_filter_selects_nothing literal_env
           (raw_world true single_session_tree) 0).
  - apply raw_world_built.
  - intros p t.
    assert (fs (raw_world true single_session_tree)
            = disk_at "/data" single_session_tree) as -> by reflexivity.
    unfold disk_at. destruct (String.eqb p "/data"); [|done].
    intros [= <-]. by split.
Defined.

(* ===================================================================== *)
(** * The class of a dataset and the modality of its records *)
(* ===================================================================== *)

Lemma session_add_shaped k modal finfo files files' :
  shaped k files -> session_add modal finfo files = Ok files' -> shaped k files'.
Proof.
  intros Hs. unfold session_add.
  by destruct (opt_truthy modal), files as [l|d]; try done; intros [= <-].
Qed.

Lemma construct_files_classed k abs_path abs_path_list subj sess modal sess_path
    filenames :
  opt_truthy modal = has_modal k -> (opt_truthy modal = false -> modal = None) ->
  forall files fl files' fl',
    shaped k files -> Forall (modal_of_class k) fl ->
    construct_files abs_path abs_path_list subj sess modal sess_path filenames
      (files, fl) = Ok (files', fl') ->
    shaped k files' /\ Forall (modal_of_class k) fl'.
Proof.
  intros Hm Hnone. induction filenames as [|f filenames IH];
    intros files fl files' fl' Hs Hfl; simpl.
  - by intros [= <- <-].
  - destruct (new_file_item _ _ _ _ _ _ f) as [finfo|] eqn:E1; simpl; [|done].
    destruct (session_add modal finfo files) as [files1|] eqn:E2; simpl; [|done].
    apply IH.
    + by apply (session_add_shaped k modal finfo files).
    + apply Forall_app. split; [done|]. constructor; [|done].
      apply new_file_item_inv in E1 as (stem & ext & _ & ->).
      unfold modal_of_class. simpl. rewrite <- Hm.
      destruct (opt_truthy modal) eqn:Et; [done|by apply Hnone].
Qed.

Lemma session_sort_shaped k modal files files' :
  opt_truthy modal = has_modal k -> shaped k files ->
  session_sort modal files = Ok files' -> shaped k files'.
Proof.
  intros Hm Hs. unfold session_sort. rewrite Hm.
  destruct files as [l|d]; simpl in Hs; rewrite Hs.
  - by intros [= <-].
  - destruct (dict_get _ d); [|done]. by intros [= <-].
Qed.

Lemma construct_path_classed k self st item st' :
  modal_truthy (c_modal st) = has_modal k ->
  Forall (fun s => shaped k (SessionItem.files s)) (c_session_list st) ->
  Forall (modal_of_class k) (c_file_list st) ->
  construct_path self (depth_ref k) st item = Ok st' ->
  modal_truthy (c_modal st') = has_modal k
  /\ Forall (fun s => shaped k (SessionItem.files s)) (c_session_list st')
  /\ Forall (modal_of_class k) (c_file_list st').
Proof.
  intros Hm Hsl Hfl. destruct item as [sess_path filenames]. unfold construct_path.
  destruct (parse_meta _ _ _ _) as [[[subj sess] modal]|] eqn:Ep; simpl; [|done].
  pose proof (parse_meta_truthy _ _ _ _ _ _ _ Ep) as Ht. rewrite Hm in Ht.
  pose proof (parse_meta_falsy _ _ _ _ _ _ _ Ep) as Hnone.
  destruct (lookup_session _ _ _ _ _) as [[[i processed] sl]|] eqn:E1; simpl;
    [|done].
  apply (lookup_session_Forall _ _ _ _ _ _ _ _ _) with (2 := Hsl) in E1.
  2: { simpl. rewrite Ht. by destruct (has_modal k) eqn:Ek. }
  destruct (sl !! i) as [sinfo|] eqn:Hi; [|done].
  destruct (construct_files _ _ _ _ _ _ _ _) as [[files fl]|] eqn:E2; simpl;
    [|done].
  apply (construct_files_classed k) in E2 as [Hs2 Hfl2]; [|done|done| |done].
  2: { by apply (proj1 (Forall_forall _ _) E1), (list_elem_of_lookup_2 _ i). }
  destruct (session_sort modal files) as [files'|] eqn:E3; simpl; [|done].
  apply (session_sort_shaped k) in E3; [|done|done].
  intros [= <-]. simpl. split; [done|]. split; [|done].
  by apply Forall_insert.
Qed.

Lemma construct_paths_classed k self items st st' :
  modal_truthy (c_modal st) = has_modal k ->
  Forall (fun s => shaped k (SessionItem.files s)) (c_session_list st) ->
  Forall (modal_of_class k) (c_file_list st) ->
  construct_paths self (depth_ref k) items st = Ok st' ->
  Forall (fun s => shaped k (SessionItem.files s)) (c_session_list st')
  /\ Forall (modal_of_class k) (c_file_list st').
Proof.
  revert st. induction items as [|item items IH]; intros st Hm Hsl Hfl; simpl.
  - by intros [= <-].
  - destruct (construct_path self (depth_ref k) st item) as [st1|] eqn:E; simpl;
      [|done].
    destruct (construct_path_classed k self st item st1 Hm Hsl Hfl E)
      as (Hm1 & Hsl1 & Hfl1).
    by apply IH.
Qed.

Lemma _constructor_classed k self files sl fl :
  _constructor self files (depth_ref k) (has_modal k) = Ok (sl, fl) ->
  Forall (modal_of_class k) fl
  /\ Forall (fun s => shaped k (SessionItem.files s)) sl.
Proof.
  unfold _constructor.
  destruct (by_depth_get _ files) as [level|]; simpl; [|done].
  destruct (construct_paths _ _ _ _) as [st|] eqn:E; simpl; [|done].
  intros [= <- <-]. rewrite !sorted_Permutation.
  apply (construct_paths_classed k) in E as [Hsl Hfl]; try done.
Qed.

Lemma collection_kept_shaped k q c :
  shaped k c -> shaped k (collection_kept q c).
Proof. by destruct c. Qed.

Section Classed.
Context `{Env}.

Lemma dataset_filter_cls (a : Filter.t) (self self' : loc) (w : world)
    (d : Dataset.t) :
  heap w !! self = Some (ODataset d) ->
  (dataset_filter self a w).2 = Ok self' ->
  exists d',
    heap (dataset_filter self a w).1 !! self' = Some (ODataset d')
    /\ Dataset.cls d' = Dataset.cls d.
Proof.
  intros Hself.
  remember (dataset_filter self a w) as R eqn:HR.
  unfold dataset_filter in HR.
  rewrite (bind_ok _ _ _ _ _ (load_dataset_ok _ _ _ Hself)) in HR.
  destruct (Dataset.file_list d) as [|fl];
    [rewrite getattr_unset_bind in HR; by subst R|].
  destruct (Dataset.session_list d) as [|sl];
    [rewrite getattr_bind, getattr_unset_bind in HR; by subst R|].
  rewrite !getattr_bind in HR.
  destruct (_filter fl sl a w) as [w1 [[fl' sl']|e]] eqn:E.
  2: { rewrite (bind_raise _ _ _ _ _ E) in HR. by subst R. }
  rewrite (bind_ok _ _ _ _ _ E) in HR. cbv beta iota in HR.
  destruct (Dataset.subjects d) as [|subjects];
    [rewrite getattr_unset_bind in HR; by subst R|].
  destruct (Dataset.sessions d) as [|sessions];
    [rewrite getattr_bind, getattr_unset_bind in HR; by subst R|].
  destruct (Dataset.modals d) as [|modals];
    [rewrite !getattr_bind, getattr_unset_bind in HR; by subst R|].
  rewrite !getattr_bind in HR.
  destruct (dataset_init_inherits_full (Dataset.cls d) (Dataset.path d)
              (Inherits.mk subjects sessions modals fl' sl') w1)
    as (d' & w' & Hrun & Hheap & Hcls & _).
  rewrite Hrun in HR. subst R. simpl. intros [= <-].
  exists d'. rewrite Hheap. split; [apply lookup_new|done].
Qed.

Lemma built_classed validated w self :
  built validated w self ->
  exists d fv sv,
    heap w !! self = Some (ODataset d)
    /\ facade_lists (heap w) self = Some (fv, sv)
    /\ Forall (modal_of_class (Dataset.cls d)) fv
    /\ Forall (fun s => shaped (Dataset.cls d) (SessionItem.files s)) sv.
Proof.
  induction 1 as [k path validate dir_only w w' self Hv Hrun
                 |a w w' self self' _ IH Hrun
                 |k path validate dir_only w w' r self _ IH Hrun
                 |a other w w' r self _ IH Hrun].
  - destruct (dataset_init_run_inv _ _ _ _ _ _ _ Hrun)
      as (d0 & d1 & ws & sl & fl & sl' & fl' & _ & _ & Hcls & _ & _ & _
          & _ & _ & Hd1 & Hc & Hself & Hf & Hs & _).
    exists (with_lists d1 sl' fl'), fl, sl. split; [done|]. split.
    { by apply (facade_lists_intro _ _ _ fl' sl' _ _ Hself). }
    assert (Dataset.cls (with_lists d1 sl' fl') = k) as ->.
    { simpl. destruct validate.
      - by destruct Hd1 as (? & ? & ? & ? & _ & _ & ->).
      - by destruct Hd1 as [_ ->]. }
    exact (_constructor_classed k d0 _ sl fl Hc).
  - destruct IH as (d & fv & sv & Hself & Hfac & Hfv & Hsv).
    pose proof (dataset_filter_ok_inv a self w fv sv self' Hfac) as Hinv.
    pose proof (dataset_filter_cls a self self' w d Hself) as Hcls.
    rewrite Hrun in Hinv, Hcls.
    destruct (Hinv eq_refl) as (fv' & sv' & Hf & Hs & Hfac' & _).
    destruct (Hcls eq_refl) as (d' & Hself' & Hcls').
    exists d', fv', sv'. rewrite Hcls'. split; [done|]. split; [done|]. split.
    + rewrite (files_filtered_Ok _ _ _ Hf). apply Forall_forall. intros f Hin.
      apply list_elem_of_In, List.filter_In in Hin as [Hin _].
      by apply (proj1 (Forall_forall _ _) Hfv), list_elem_of_In.
    + rewrite (sessions_filtered_Ok _ _ _ Hs). apply Forall_forall. intros s Hin.
      apply list_elem_of_fmap in Hin as (s0 & -> & Hin). simpl.
      apply list_elem_of_In, List.filter_In in Hin as [Hin _].
      apply collection_kept_shaped.
      by apply (proj1 (Forall_forall _ _) Hsv s0), list_elem_of_In.
  - destruct IH as (d & fv & sv & Hself & Hfac & HP). exists d, fv, sv.
    assert (sub_heap (heap w) (heap w')) as Hsub.
    { pose proof (frames_sub_heap _ _ w
                    (frames_dataset_init (length (heap w)) k path validate None
                       dir_only)) as Hs.
      by rewrite Hrun in Hs. }
    split; [by apply Hsub|]. split; [|done].
    by apply (facade_lists_grow _ _ Hsub).
  - destruct IH as (d & fv & sv & Hself & Hfac & HP). exists d, fv, sv.
    assert (sub_heap (heap w) (heap w')) as Hsub.
    { pose proof (frames_sub_heap _ _ w
                    (frames_dataset_filter (length (heap w)) other a)) as Hs.
      by rewrite Hrun in Hs. }
    split; [by apply Hsub|]. split; [|done].
    by apply (facade_lists_grow _ _ Hsub).
Qed.

End Classed.

Section ClassedThm.
Context `{Env}.

(** X23. The class of a dataset decides the modality of its records: in a
    dataset built by [RawDataset] or filtered from one every record has a
    modality and every session keeps its files in a dict, in one of
    [StepDataset] no record has a modality and every session keeps its
    files in a list; so [filter] with a [modal] argument leaves a
    [StepDataset] without files, its sessions emptied. *)
Theorem class_decides_the_modality (w : world) (self : loc) :
  built false w self ->
  exists d fv sv,
    heap w !! self = Some (ODataset d)
    /\ facade_lists (heap w) self = Some (fv, sv)
    /\ Forall (modal_of_class (Dataset.cls d)) fv
    /\ Forall (fun s => shaped (Dataset.cls d) (SessionItem.files s)) sv
    /\ (Dataset.cls d = Dataset.Step ->
        forall (a : Filter.t) (self' : loc),
          strs_truthy (Filter.modal a) = true ->
          (dataset_filter self a w).2 = Ok self' ->
          exists sv',
            facade_lists (heap (dataset_filter self a w).1) self' = Some ([], sv')
            /\ Forall (fun s => session_files s = []) sv').
Proof.
  intros Hb.
  destruct (built_classed false w self Hb) as (d & fv & sv & Hself & Hfac & Hfv & Hsv).
  exists d, fv, sv. split; [done|]. split; [done|]. split; [done|]. split; [done|].
  intros Hstep a self' Ha Hok. rewrite Hstep in Hfv. unfold modal_of_class in Hfv.
  simpl in Hfv.
  destruct (built_facade_ok _ _ _ Hb) as [(fv0 & sv0 & Hfac0 & (Hperm & _) & _) _].
  rewrite Hfac in Hfac0. injection Hfac0 as <- <-.
  assert (forall f, f ∈ fv -> nested_keep a f = false) as Hdrop.
  { intros f Hf. pose proof (proj1 (Forall_forall _ _) Hfv f Hf) as Hn.
    unfold nested_keep. rewrite Ha. unfold guard at 1, holds, by_modal.
    rewrite Hn. done. }
  destruct (dataset_filter_ok_inv a self w fv sv self' Hfac Hok)
    as (fv' & sv' & Hf & Hs & Hfac' & _).
  exists sv'. split.
  - rewrite Hfac'. do 2 f_equal. rewrite (files_filtered_Ok _ _ _ Hf).
    apply filter_none, Forall_forall. intros f Hin.
    unfold flat_keep. rewrite (Hdrop f Hin). by rewrite andb_false_r.
  - pose proof (sessions_filtered_each a sv sv' Hs) as Heach.
    assert (Forall (fun s => Forall (fun f => nested_keep a f = false)
                               (session_files s))
              (List.filter (session_keep a) sv)) as Hl.
    { apply Forall_forall. intros s Hin. apply Forall_forall. intros f Hf'.
      apply Hdrop. rewrite Hperm. unfold nested_files.
      apply list_elem_of_In, in_flat_map. exists s.
      split; [|by apply list_elem_of_In].
      apply list_elem_of_In in Hin. by apply List.filter_In in Hin as [Hin _]. }
    clear Hs Hfac'. revert Heach Hl.
    generalize (List.filter (session_keep a) sv) as l. intros l Heach.
    induction Heach as [|s s' l l' (_ & _ & E) _ IH]; intros Hl; [constructor|].
    apply Forall_cons in Hl as [H1 H2]. constructor; [|by apply IH].
    rewrite E. by apply filter_none.
Qed.

End ClassedThm.

Lemma class_decides_the_modality_witness :
  exists d fv sv,
    heap step_world !! 0%nat = Some (ODataset d)
    /\ facade_lists (heap step_world) 0 = Some (fv, sv)
    /\ Forall (modal_of_class (Dataset.cls d)) fv
    /\ Forall (fun s => shaped (Dataset.cls d) (SessionItem.files s)) sv
    /\ (Dataset.cls d = Dataset.Step ->
        forall (a : Filter.t) (self' : loc),
          strs_truthy (Filter.modal a) = true ->
          (@dataset_filter literal_env 0 a step_world).2 = Ok self' ->
          exists sv',
            facade_lists (heap (@dataset_filter literal_env 0 a step_world).1) self'
            = Some ([], sv')
            /\ Forall (fun s => session_files s = []) sv').
Proof.
  apply (@class_decides_the_modality literal_env step_world 0).
  apply (@built_new literal_env false Dataset.Step "/step" true false
           (empty_world (disk_at "/step" step_tree))); [done|].
  vm_compute. reflexivity.
Defined.
